(* ===== verification/_CoqProject ===== *)
-Q . S2P
Prelude.v
Serialize.v
Ufp64.v
ArithUint256.v
Admin.v
Params.v
FinalizationData.v
FinalizationOps.v
Accounting.v
FinalizationInvariant.v
FinalizationEpoch.v
FinalizationSafety.v
Scenario.v
FinalizationTypes.v
StateFormat.v
Script.v
ScriptProofs.v
Standard.v
CommitScripts.v
Transaction.v
Block.v
Coins.v
Compressor.v
Checks.v
Commits.v
VoteRecorder.v
Chain.v
Repository.v
Interpreter.v
Sighash.v
InterpreterProofs.v
ScriptVerification.v
Spending.v
SighashProofs.v
MerkleBlock.v
TxVerify.v
Behavior.v
Staking.v
Connect.v
ConnectProofs.v
BlockValidation.v
ConnectBlock.v
FinalizationTheorems.v
FinalizationProtocol.v
FinalizationLifecycle.v
SavedStates.v
BlockCommits.v
