(* ===== verification/Prelude.v ===== *)
(** * A verification of unit-e's consensus

    Unit-e is a proof-of-stake node in C++ with a finality gadget: finalizers
    lock a deposit, vote for checkpoints once per epoch, and are slashed when
    two of their votes conflict.  This library translates the state machine
    behind it, the validation of blocks and transactions and the parts of the
    node they rest on into executable definitions, and proves what makes them
    correct.

    ** The parts and how they interact

    A block carries commit transactions.  Their messages are encoded in
    scripts (script/, esperanza/admincommand.cpp) inside transactions
    (primitives/transaction.h and .cpp), which are checked on their own and against a
    finalization state (esperanza/checks.cpp) and whose inputs are looked up
    in the coin caches (coins.cpp, compressor.cpp).  Blocks are checked on their
    own and in their context (staking/block_validator.cpp,
    legacy_validation_interface.cpp), and so are their proposers: the stake a
    coinbase spends has to meet a target (staking/stake_validator.cpp) that
    the chain's parameters adjust (blockchain/blockchain_parameters.cpp,
    arith_uint256.cpp).  Connecting a block repeats these checks, checks its
    commits and the inputs of every transaction (consensus/tx_verify.cpp),
    spends them and adds the outputs (validation.cpp); the block commits to its transactions
    by Merkle roots (primitives/block.h, consensus/merkle.cpp), from which
    partial trees prove membership (merkleblock.cpp).  The scripts of an input
    and of the output it spends are run by the interpreter
    (script/interpreter.cpp), whose OP_CHECKCOMMIT lets a finalizer's own
    transactions and slashings spend a deposit.  The state of a block
    (esperanza/finalizationstate.cpp) is computed from the state of its parent
    by beginning an epoch where one starts and processing the commits; its
    rewards use fixed-point arithmetic (ufp64.cpp) and its epochs the
    parameters (finalization/params.h).  Votes seen on the way are recorded
    and compared (finalization/vote_recorder.cpp).  The states are kept per
    block index (chain.cpp, finalization/state_repository.cpp,
    state_processor.cpp) and stored in a database (finalization/state_db.cpp,
    serialize.h).

    ** Files

    - [Prelude]: machine integers as [Z] with their reductions, the [outcome]
      monad for code that can abort, map and list lemmas, tactics.
    - [Serialize]: serialize.h and uint256.h; streams are byte lists, reading
      returns an option; class [RoundTrip] with instances for the containers.
    - [Ufp64]: ufp64.cpp.  [ArithUint256]: arith_uint256 on its 32-bit words.
      [Admin]: adminstate, admincommand, the parts of
      pubkey.h they use; class [Crypto] for the hash and the curve check.
      [Params]: finalization/params.
    - [FinalizationData], [FinalizationOps]: the members and methods of
      [FinalizationState], one definition per method under its C++ name, with
      validation returning a [Result] and processing an [outcome].
    - [Accounting], [FinalizationInvariant], [FinalizationEpoch],
      [FinalizationSafety]: what the methods change in closed form, the
      invariant over the [step] relation and [reachable] states, and its
      preservation.  [Scenario]: executable histories used as examples.
    - [FinalizationTypes]: the ranges of the C++ types.  [StateFormat]: the
      serialized state.
    - [Script], [ScriptProofs], [Standard], [CommitScripts]: script.h,
      script.cpp, standard.cpp and the messages in scripts.
    - [Transaction]: primitives/transaction; class [Hashing].
    - [Interpreter]: script/interpreter.cpp, with [EvalScript] one definition
      per group of opcodes, [VerifyScript], witness programs and the counting
      of signature operations; classes [SignatureForms] and [OpHashes].
      [Sighash]: the hash a signature signs, its serializer, the checker of
      signatures and lock times, and the older [SignatureHashOld] of
      test/sighash_tests.cpp.
    - [InterpreterProofs], [ScriptVerification], [Spending],
      [SighashProofs]: what is shown of them.
    - [Coins], [Compressor]: coins.h, coins.cpp, compressor; class
      [SnapshotHashing] for the set hash of snapshot/.
    - [Checks]: esperanza/checks.cpp and script.cpp with the rejection state
      of consensus/validation.h; class [Signatures].
    - [Commits]: ProcessNewCommit, ProcessNewCommits, ProcessNewTip.
    - [VoteRecorder]: vote_recorder.cpp and its callers in validation.cpp.
    - [Chain]: block indexes as a heap of records, GetAncestor with skip
      pointers, CChain, validity flags and chain work.
    - [Repository]: state_repository.cpp, state_processor.cpp, state_db.cpp.
    - [Block]: headers and blocks with their formats, Merkle roots.
      [MerkleBlock]: partial Merkle trees and filtered blocks.
    - [TxVerify]: consensus/tx_verify.cpp.  [Connect]: the coins in
      ConnectBlock and DisconnectBlock, CheckInputs and the reward check of
      staking/block_reward_validator.cpp.  [ConnectProofs]: what is shown of
      them.
    - [Behavior]: the parameters of the networks, difficulty, timestamps,
      rewards and weights.  [Staking]: kernels, stake checks, remote stakes.
      [BlockValidation]: both validators of headers and blocks, the record of
      earlier checks, the order of transactions (consensus/ltor.cpp).
      [ConnectBlock]: the whole of CChainState::ConnectBlock, with the
      snapshot hash in the coinbase; class [SnapshotDigest].
    - [FinalizationTheorems], [FinalizationProtocol],
      [FinalizationLifecycle]: the theorems on the state machine.
      [SavedStates]: the states of a chain of blocks and what is read back of
      them.  [BlockCommits]: the check of a block's commits against what
      processing them does.

    ** What is shown

    - State machine: the incrementally kept deposit totals are the sums they
      stand for; what a vote does, when an epoch is justified and finalized;
      conflicting quorums leave a third of the deposits slashable; progress
      never reverts; validated commits and beginning epochs fail no assertion;
      when the recommended vote is valid; deposit, logout, slashing and
      withdrawal take effect as meant, and once; which conflicting votes the
      recorder finds.
    - Composition: a block that passes the node's check of its commits, all of
      them against the state before it, is processed as steps of the machine
      ([block_processing_refines]) when the commits are of different
      finalizers and neither an epoch start nor an administrator transaction
      gets between a vote and its check; the
      repository only ever holds states computed along the chain from the
      genesis block, through trimming, saving and recovery; a state computed
      from commits alone is confirmed by the block.
    - Refinement: the layered coin cache implements the set of unspent outputs
      with its hash; the skip list implements the walk over the parents.
    - Blocks: which blocks the checks accept; when the whole of ConnectBlock
      accepts a block, the money supply grows by its reward at most, and its
      coinbase commits to the coins before it; disconnecting it gives back the
      coins; the record of earlier checks changes no answer; sorted
      transactions pass the check of their order; a Merkle root with the mutation flag unset binds
      the transactions; partial trees are complete and sound.
    - Scripts: verification answers on every input without failing an
      assertion, an exception or an access out of range; who can spend a
      commit output and a remote-staking output; OP_CHECKMULTISIG assigns
      signatures to keys in order; the signature hash agrees with the older
      algorithm; accepted signature encodings are DER.
    - Staking: the difficulty follows the time a window of blocks took; which
      kernels a stake is eligible for; remote stakes are paid back.
    - Formats: every field of the state stays within its type through the
      blocks, so that each state is read back as it was written; round trips
      of transactions, coins, votes and
      administrator commands; canonical length and number encodings.
    - Arithmetic: the words of arith_uint256 compute on the numbers they stand
      for; the square root converges in its 60 rounds, rounding of the
      fixed-point operations, where [add_uint] overflows.
    - Exact statements of behaviour that is not as intended: withdrawals of
      any amount, votes in the name of another finalizer, two deposits in a
      block, assertions of the vote recorder, block signatures that nothing
      verifies.

    ** Conventions, bounds and fuel

    Machine integers are [Z] reduced explicitly ([uint32], [int64], ...);
    256-bit intermediate values of the fixed-point arithmetic are used by
    value.  A failed [assert], a
    thrown exception and undefined behaviour are [Raise]; theorems that a call
    succeeds say so with [Ok] or [returns].  Maps are iterated in key order as
    [std::map] does; where the code iterates an unordered map the result does
    not depend on the order in what is proved.  Loops that are not structural
    carry fuel taken from the data: the length of a script for parsing loops
    and for [EvalScript] (every instruction read shortens the rest, and the
    theorem that verification answers shows that the fuel is never used up),
    the height of a block for walks over parents (every round goes down), the
    number of hashes for the levels of a Merkle tree (every level halves it),
    31 levels of a partial tree (a 32-bit number is shifted to 1), 10 bytes
    for a variable-length integer, one round per bit of the shift in a
    division of 256-bit numbers, 60 rounds of the square root as in the code.  [valid_params] asks of the parameters what the built-in sets
    satisfy.

    ** Parameters

    Hash functions, the curve operations (signature checks, the test for a
    low S value) and the set hash of coins are parameters through the classes
    named above; [Decompress_valid] and
    [SnapshotHashingLaws] name what is used of them, and concrete instances
    show that they can hold; the range of [Hash256] is a hypothesis of the
    theorems on Merkle trees, on the order of transactions and on saved
    states, the last also with that of [Hash160].  The Bloom filter is an
    argument, and so is whether the version bits have activated the
    rule on sequence locks.  Uninitialised key bytes are the argument
    [garbage].  The mempool, coin views and block files are arguments.

    ** Not modelled

    Locks and threads (every modelled call runs under its lock), logging and
    textual forms, memory accounting, and the node around this layer:
    proposing, choosing the active chain, block files, the snapshot files,
    graphene, networking, RPC and wallets, which are separate components or
    I/O. *)
From stdpp Require Export base numbers option list gmap fin_maps sorting.

Global Open Scope Z_scope.

(** ** Machine integers

    A w-bit C++ integer is a [Z] together with the reduction that the C++
    conversion to that type performs. *)

Definition uint8 (z : Z) : Z := z mod 2 ^ 8.
Definition uint32 (z : Z) : Z := z mod 2 ^ 32.
Definition uint64 (z : Z) : Z := z mod 2 ^ 64.
Definition uint256 (z : Z) : Z := z mod 2 ^ 256.
Definition int64 (z : Z) : Z := (z + 2 ^ 63) mod 2 ^ 64 - 2 ^ 63.

(** The values the types can hold. *)
Definition is_uint32 (z : Z) : Prop := 0 ≤ z < 2 ^ 32.
Definition is_uint64 (z : Z) : Prop := 0 ≤ z < 2 ^ 64.
Definition is_int64 (z : Z) : Prop := - 2 ^ 63 ≤ z < 2 ^ 63.

Lemma uint32_range z : is_uint32 (uint32 z).
Proof. apply Z.mod_pos_bound. lia. Qed.

Lemma uint64_range z : is_uint64 (uint64 z).
Proof. apply Z.mod_pos_bound. lia. Qed.

Lemma int64_range z : is_int64 (int64 z).
Proof.
  unfold is_int64, int64.
  pose proof (Z.mod_pos_bound (z + 2 ^ 63) (2 ^ 64)). lia.
Qed.

Lemma uint32_small z : is_uint32 z → uint32 z = z.
Proof. apply Z.mod_small. Qed.

Lemma uint64_small z : is_uint64 z → uint64 z = z.
Proof. apply Z.mod_small. Qed.

Lemma int64_small z : is_int64 z → int64 z = z.
Proof.
  unfold is_int64, int64. intros ?. rewrite Z.mod_small; lia.
Qed.

(** Congruence modulo 2^64: the relation that every conversion between the
    signed and the unsigned 64-bit types preserves. *)
Definition eqm64 (a b : Z) : Prop := (a - b) mod 2 ^ 64 = 0.

Infix "≡₆₄" := eqm64 (at level 70, no associativity).

Lemma eqm64_alt a b : a ≡₆₄ b ↔ ∃ k, a = b + k * 2 ^ 64.
Proof.
  unfold eqm64. split.
  - intros H. apply Z.mod_divide in H as [k Hk]; [|lia]. exists k. lia.
  - intros [k ->]. replace (b + k * 2 ^ 64 - b) with (k * 2 ^ 64) by lia.
    apply Z.mod_mul. lia.
Qed.

#[export] Instance eqm64_equiv : Equivalence eqm64.
Proof.
  split.
  - intros x. apply eqm64_alt. exists 0. lia.
  - intros x y [k ->]%eqm64_alt. apply eqm64_alt. exists (- k). lia.
  - intros x y z [k ->]%eqm64_alt [l ->]%eqm64_alt. apply eqm64_alt.
    exists (k + l). lia.
Qed.

#[export] Instance eqm64_add : Proper (eqm64 ==> eqm64 ==> eqm64) Z.add.
Proof.
  intros ? x [k ->]%eqm64_alt ? y [l ->]%eqm64_alt. apply eqm64_alt.
  exists (k + l). lia.
Qed.

#[export] Instance eqm64_sub : Proper (eqm64 ==> eqm64 ==> eqm64) Z.sub.
Proof.
  intros ? x [k ->]%eqm64_alt ? y [l ->]%eqm64_alt. apply eqm64_alt.
  exists (k - l). lia.
Qed.

Lemma eqm64_int64 z : int64 z ≡₆₄ z.
Proof.
  apply eqm64_alt. exists (- ((z + 2 ^ 63) / 2 ^ 64)). unfold int64.
  pose proof (Z.div_mod (z + 2 ^ 63) (2 ^ 64)). lia.
Qed.

Lemma eqm64_uint64 z : uint64 z ≡₆₄ z.
Proof.
  apply eqm64_alt. exists (- (z / 2 ^ 64)). unfold uint64.
  pose proof (Z.div_mod z (2 ^ 64)). lia.
Qed.

Lemma eqm64_of_eq a b : a = b → a ≡₆₄ b.
Proof. by intros ->. Qed.

Lemma eqm64_eq_int64 a b : is_int64 a → is_int64 b → a ≡₆₄ b → a = b.
Proof.
  unfold is_int64. intros Ha Hb [k ->]%eqm64_alt. nia.
Qed.

Lemma eqm64_eq_uint64 a b : is_uint64 a → is_uint64 b → a ≡₆₄ b → a = b.
Proof.
  unfold is_uint64. intros Ha Hb [k ->]%eqm64_alt. nia.
Qed.

(** ** Outcomes

    A C++ call returns a value, or leaves through one of the exits the
    sources use: a failed [assert], [std::out_of_range] from [map::at], or
    the [uint_error] that [arith_uint256] throws on a division by zero.
    [OutOfBounds] stands for an index past the end of a vector, of which C++
    leaves the effect undefined, [LogicError] and [RuntimeError] for the
    standard exceptions of these names. *)

Inductive failure :=
  | AssertionFailure
  | OutOfRange
  | UintError
  | OutOfBounds
  | LogicError
  | RuntimeError.

Inductive outcome (A : Type) :=
  | Ok (a : A)
  | Raise (f : failure).
Arguments Ok {A} _.
Arguments Raise {A} _.

#[export] Instance outcome_ret : MRet outcome := λ A a, Ok a.
#[export] Instance outcome_bind : MBind outcome := λ A B k m,
  match m with Ok a => k a | Raise f => Raise f end.
#[export] Instance outcome_fmap : FMap outcome := λ A B g m,
  match m with Ok a => Ok (g a) | Raise f => Raise f end.

Definition cpp_assert (b : bool) : outcome unit :=
  if b then Ok () else Raise AssertionFailure.

(** [std::map::at]. *)
Definition map_at {K V} `{Countable K} (m : gmap K V) (k : K) : outcome V :=
  match m !! k with Some v => Ok v | None => Raise OutOfRange end.

(** [find] followed by [assert(it != end())]. *)
Definition map_find_assert {K V} `{Countable K} (m : gmap K V) (k : K) : outcome V :=
  match m !! k with Some v => Ok v | None => Raise AssertionFailure end.

(** [v[i]] of a [std::vector]. *)
Definition vec_at {A} (v : list A) (i : nat) : outcome A :=
  match v !! i with Some a => Ok a | None => Raise OutOfBounds end.

Definition is_ok {A} (m : outcome A) : bool :=
  match m with Ok _ => true | Raise _ => false end.

Lemma bind_Ok {A B} (k : A → outcome B) m b :
  (m ≫= k) = Ok b ↔ ∃ a, m = Ok a ∧ k a = Ok b.
Proof.
  destruct m as [a|f]; cbn; split; [eauto| |done|]; by intros (?&?&?); simplify_eq.
Qed.

Lemma cpp_assert_Ok b u : cpp_assert b = Ok u ↔ b = true.
Proof. destruct b, u; cbn; split; congruence. Qed.

Lemma map_at_Ok {K V} `{Countable K} (m : gmap K V) k v :
  map_at m k = Ok v ↔ m !! k = Some v.
Proof. unfold map_at. destruct (m !! k); split; congruence. Qed.

Lemma vec_at_Ok {A} (v : list A) i a : vec_at v i = Ok a ↔ v !! i = Some a.
Proof. unfold vec_at. destruct (v !! i); split; congruence. Qed.

Lemma map_find_assert_Ok {K V} `{Countable K} (m : gmap K V) k v :
  map_find_assert m k = Ok v ↔ m !! k = Some v.
Proof. unfold map_find_assert. destruct (m !! k); split; congruence. Qed.

(** A call that does not stop the node: no failed [assert], no
    [out_of_range], no undefined behaviour. *)
Definition no_abort {A} (m : outcome A) : Prop :=
  match m with Ok _ | Raise UintError => True | Raise _ => False end.

Lemma no_abort_Ok {A} (a : A) : no_abort (Ok a).
Proof. done. Qed.

Lemma no_abort_UintError {A} : no_abort (Raise UintError : outcome A).
Proof. done. Qed.

Lemma no_abort_bind {A B} (m : outcome A) (k : A → outcome B) :
  no_abort m → (∀ a, m = Ok a → no_abort (k a)) → no_abort (m ≫= k).
Proof. destruct m as [a|[]]; cbn; auto. Qed.

Lemma no_abort_fmap {A B} (m : outcome A) (f : A → B) : no_abort m → no_abort (f <$> m).
Proof. by destruct m as [a|[]]. Qed.

(** A call that returns. *)
Definition returns {A} (m : outcome A) : Prop := ∃ a, m = Ok a.

Lemma returns_Ok {A} (a : A) : returns (Ok a).
Proof. by exists a. Qed.

Lemma returns_bind {A B} (m : outcome A) (k : A → outcome B) :
  returns m → (∀ a, m = Ok a → returns (k a)) → returns (m ≫= k).
Proof. intros [a ->] Hk. by apply Hk. Qed.

Lemma returns_fmap {A B} (m : outcome A) (f : A → B) : returns m → returns (f <$> m).
Proof. intros [a ->]. by exists (f a). Qed.

Lemma returns_assert b : b = true → returns (cpp_assert b).
Proof. intros ->. by eexists. Qed.

Lemma returns_map_at {K V} `{Countable K} (m : gmap K V) k :
  is_Some (m !! k) → returns (map_at m k).
Proof. intros [v Hv]. exists v. by apply map_at_Ok. Qed.

Lemma returns_map_find {K V} `{Countable K} (m : gmap K V) k :
  is_Some (m !! k) → returns (map_find_assert m k).
Proof. intros [v Hv]. exists v. by apply map_find_assert_Ok. Qed.

Lemma returns_no_abort {A} (m : outcome A) : returns m → no_abort m.
Proof. intros [a ->]. done. Qed.

(** Unfolds an operation and keeps its [let]s. *)
Tactic Notation "open" reference(f) "in" hyp(H) := cbv beta delta [f] in H.
Tactic Notation "open" reference(f) := cbv beta delta [f].

(** [walk] goes through a monadic body of which [returns] or [no_abort] is to
    be shown, up to the calls and branches that need an argument. *)
Ltac walk_let P x e k :=
  let y := fresh x in pose (y := e); change (P (k y)); cbn beta.
Ltac walk :=
  repeat (cbn beta iota;
  lazymatch goal with
  | |- returns (Ok _) => apply returns_Ok
  | |- returns (mbind _ _) => apply returns_bind; [|intros ? ?]
  | |- returns (fmap _ _) => apply returns_fmap
  | |- returns (match ?e with (_, _) => _ end) => let E := fresh "E" in destruct e eqn:E
  | |- @returns ?A (let x := ?e in @?k x) => walk_let (@returns A) x e k
  | |- no_abort (Ok _) => apply no_abort_Ok
  | |- no_abort (mbind _ _) => apply no_abort_bind; [|intros ? ?]
  | |- no_abort (fmap _ _) => apply no_abort_fmap
  | |- no_abort (match ?e with (_, _) => _ end) => let E := fresh "E" in destruct e eqn:E
  | |- @no_abort ?A (let x := ?e in @?k x) => walk_let (@no_abort A) x e k
  end).

(** [ok_inv H] turns a hypothesis "this monadic body returned" into the
    values its steps returned; a [let] of the body becomes an equation. *)
Ltac ok_inv H :=
  repeat first
    [ progress cbn beta iota in H
    | lazymatch type of H with
      | @mbind _ _ _ _ ?k ?m = Ok ?b =>
          let a := fresh "r" in let Ha := fresh "Hr" in let H2 := fresh in
          pose proof (proj1 (bind_Ok k m b) H) as (a & Ha & H2);
          clear H; rename H2 into H; cbn beta in H; ok_inv Ha
      | (let x := ?e in @?k x) = Ok ?b =>
          let y := lazymatch k with (λ x, _) => fresh x end in
          let E := fresh "E" y in let H2 := fresh in
          assert (∃ z, z = e ∧ k z = Ok b) as (y & E & H2)
            by (eexists; split; [reflexivity|exact H]);
          clear H; rename H2 into H; cbn beta in H
      | (match ?e with (_, _) => _ end) = Ok _ =>
          let E := fresh "E" in destruct e eqn:E
      | mret _ = Ok _ => unfold mret, outcome_ret in H
      | Ok _ = Ok _ => injection H as H
      | Raise _ = Ok _ => discriminate H
      | cpp_assert _ = Ok _ => apply cpp_assert_Ok in H
      | map_at _ _ = Ok _ => apply map_at_Ok in H
      | map_find_assert _ _ = Ok _ => apply map_find_assert_Ok in H
      | vec_at _ _ = Ok _ => apply vec_at_Ok in H
      end ].

(** ** Finite maps *)

(** [std::map::emplace(k, v)]: keeps the value that is already there. *)
Definition emplace {K V} `{Countable K} (k : K) (v : V) (m : gmap K V) : gmap K V :=
  match m !! k with Some _ => m | None => <[k := v]> m end.

(** The value [emplace(k, v).first->second] refers to. *)
Definition emplaced {K V} `{Countable K} (k : K) (v : V) (m : gmap K V) : V :=
  default v (m !! k).

Lemma lookup_emplace {K V} `{Countable K} (k : K) (v : V) (m : gmap K V) :
  emplace k v m !! k = Some (emplaced k v m).
Proof.
  unfold emplace, emplaced. destruct (m !! k) eqn:E; [done|].
  by rewrite lookup_insert_eq.
Qed.

Lemma lookup_emplace_ne {K V} `{Countable K} (k j : K) (v : V) (m : gmap K V) :
  k ≠ j → emplace k v m !! j = m !! j.
Proof.
  intros. unfold emplace. destruct (m !! k); [done|]. by rewrite lookup_insert_ne.
Qed.

Lemma emplace_present {K V} `{Countable K} (k : K) (v w : V) (m : gmap K V) :
  m !! k = Some w → emplace k v m = m.
Proof. intros Hk. unfold emplace. by rewrite Hk. Qed.

Lemma emplace_fresh {K V} `{Countable K} (k : K) (v : V) (m : gmap K V) :
  m !! k = None → emplace k v m = <[k := v]> m.
Proof. unfold emplace. by intros ->. Qed.

Lemma emplaced_emplace {K V} `{Countable K} (k j : K) (v : V) (m : gmap K V) :
  emplaced j v (emplace k v m) = emplaced j v m.
Proof.
  unfold emplaced. destruct (decide (k = j)) as [->|].
  - by rewrite lookup_emplace.
  - by rewrite lookup_emplace_ne.
Qed.

(** The entries in the order a C++ iterator visits them: by increasing key. *)
Definition by_key {V} : relation (Z * V) := λ a b, a.1 ≤ b.1.

#[export] Instance by_key_dec {V} : RelDecision (@by_key V).
Proof. intros a b. unfold by_key. apply _. Defined.

#[export] Instance by_key_total {V} : Total (@by_key V).
Proof. intros a b. unfold by_key. lia. Qed.

#[export] Instance by_key_trans {V} : Transitive (@by_key V).
Proof. intros a b c. unfold by_key. lia. Qed.

Definition map_entries {V} (m : gmap Z V) : list (Z * V) :=
  merge_sort by_key (map_to_list m).

Lemma map_entries_Permutation {V} (m : gmap Z V) : map_entries m ≡ₚ map_to_list m.
Proof. apply merge_sort_Permutation. Qed.

Lemma elem_of_map_entries {V} (m : gmap Z V) k v :
  (k, v) ∈ map_entries m ↔ m !! k = Some v.
Proof. rewrite map_entries_Permutation. apply elem_of_map_to_list. Qed.

Lemma map_entries_sorted {V} (m : gmap Z V) : StronglySorted by_key (map_entries m).
Proof. apply StronglySorted_merge_sort; apply _. Qed.

(** The sum of [f] over the values of a map. *)
Definition map_sum {K V} `{Countable K} (f : V → Z) (m : gmap K V) : Z :=
  map_fold (λ _ v acc, f v + acc) 0 m.

Section map_sum.
Context {K V : Type} `{Countable K}.
Implicit Types (f g : V → Z) (m : gmap K V).

Lemma map_sum_empty f : map_sum f (∅ : gmap K V) = 0.
Proof. apply map_fold_empty. Qed.

Lemma map_sum_insert f m k v :
  m !! k = None → map_sum f (<[k := v]> m) = f v + map_sum f m.
Proof.
  intros Hk. unfold map_sum.
  rewrite map_fold_insert_L; [done| |done]. intros; lia.
Qed.

Lemma map_sum_delete f m k v :
  m !! k = Some v → map_sum f m = f v + map_sum f (delete k m).
Proof.
  intros Hk. rewrite <- (map_sum_insert f (delete k m) k v) by apply lookup_delete_eq.
  by rewrite insert_delete_id.
Qed.

Lemma map_sum_update f m k v v' :
  m !! k = Some v → map_sum f (<[k := v']> m) = map_sum f m - f v + f v'.
Proof.
  intros Hk. rewrite (map_sum_delete f m k v Hk), <- insert_delete_eq.
  rewrite map_sum_insert by apply lookup_delete_eq. lia.
Qed.

Lemma map_sum_ext f g m :
  (∀ k v, m !! k = Some v → f v = g v) → map_sum f m = map_sum g m.
Proof.
  induction m as [|k v m Hk IH] using map_ind; intros Hfg.
  - by rewrite !map_sum_empty.
  - rewrite !map_sum_insert by done. f_equal.
    + apply (Hfg k). apply lookup_insert_eq.
    + apply IH. intros j w Hj. apply (Hfg j).
      rewrite lookup_insert_ne; [done|]. congruence.
Qed.

Lemma map_sum_add f g m :
  map_sum (λ v, f v + g v) m = map_sum f m + map_sum g m.
Proof.
  induction m as [|k v m Hk IH] using map_ind.
  - by rewrite !map_sum_empty.
  - rewrite !map_sum_insert by done. lia.
Qed.

Lemma map_sum_nonneg f m :
  (∀ k v, m !! k = Some v → 0 ≤ f v) → 0 ≤ map_sum f m.
Proof.
  induction m as [|k v m Hk IH] using map_ind; intros Hf.
  - by rewrite map_sum_empty.
  - rewrite map_sum_insert by done.
    assert (0 ≤ f v) by (apply (Hf k), lookup_insert_eq).
    assert (0 ≤ map_sum f m); [|lia].
    apply IH. intros j w Hj. apply (Hf j).
    rewrite lookup_insert_ne; [done|]. congruence.
Qed.

Lemma map_sum_le f g m :
  (∀ k v, m !! k = Some v → f v ≤ g v) → map_sum f m ≤ map_sum g m.
Proof.
  intros Hfg. assert (0 ≤ map_sum (λ v, g v + - f v) m) as Hd.
  { apply map_sum_nonneg. intros k v Hv. pose proof (Hfg k v Hv). lia. }
  rewrite map_sum_add in Hd.
  assert (map_sum (λ v, - f v) m + map_sum f m = 0); [|lia].
  rewrite <- map_sum_add. clear. induction m as [|k v m Hk IH] using map_ind.
  - apply map_sum_empty.
  - rewrite map_sum_insert by done. lia.
Qed.
End map_sum.

Lemma insert_emplace {K V} `{Countable K} (k : K) (v w : V) (m : gmap K V) :
  <[k := v]> (emplace k w m) = <[k := v]> m.
Proof. unfold emplace. destruct (m !! k); [done|]. apply insert_insert_eq. Qed.

Lemma lookup_emplaced_insert {V} (k j : Z) (v d : V) (m : gmap Z V) :
  emplaced j d (<[k := v]> m) = if decide (j = k) then v else emplaced j d m.
Proof.
  unfold emplaced. destruct (decide (j = k)) as [->|].
  - by rewrite lookup_insert_eq.
  - by rewrite lookup_insert_ne.
Qed.

(** ** Automation *)

(** Congruences modulo 2^64: strip the conversions, then compare. *)
Ltac eqm64 :=
  repeat first [ rewrite eqm64_int64 | rewrite eqm64_uint64 ];
  try (apply eqm64_of_eq; lia).

(** Splits a conjunction of boolean tests. *)
Ltac split_andb :=
  repeat match goal with
  | H : _ && _ = true |- _ => apply andb_true_iff in H as [? ?]
  | H : bool_decide _ = true |- _ => apply bool_decide_eq_true in H
  end.

(** Replaces a list whose length is known ([H]) by its elements. *)
Ltac fixed_list l H := repeat (destruct l as [|? l]; cbn in H; try discriminate H).

(** Takes the branches that the arithmetic of the context decides. *)
Ltac decide_lia :=
  repeat first [ rewrite decide_True by lia | rewrite decide_False by lia ].

Create HintDb unite.
#[export] Hint Resolve uint32_range uint64_range int64_range : unite.
Create Rewrite HintDb eqm64.
#[export] Hint Rewrite eqm64_int64 eqm64_uint64 : eqm64.
