(* ===== verification/Serialize.v ===== *)
(** * Serialization: src/src/serialize.h

    What a [CDataStream] holds is a list of bytes, each a [Z] in [0, 256).
    Writing appends; reading returns the value and the rest of the stream, or
    [None] for the [std::ios_base::failure] the stream and the size checks
    throw.  [Serialize] and [Unserialize] of a type are the two halves of a
    [format]; the class [RoundTrip] is what the other components rely on:
    reading what was written gives the value back and leaves the rest of the
    stream untouched.  A [uint160] or [uint256] is the number its memory bytes
    spell in big-endian order, so that [<] on [Z] is the [memcmp] order that
    [std::map] and [std::set] use. *)
From S2P Require Import Prelude.

Abbreviation bytes := (list Z).

Definition is_byte (b : Z) : Prop := 0 ≤ b < 2 ^ 8.

(** ** Integers as bytes *)

Fixpoint le_bytes (n : nat) (z : Z) : bytes :=
  match n with
  | O => []
  | S n => z mod 2 ^ 8 :: le_bytes n (z / 2 ^ 8)
  end.

Fixpoint le_value (bs : bytes) : Z :=
  match bs with
  | [] => 0
  | b :: bs => b + 2 ^ 8 * le_value bs
  end.

Definition be_bytes (n : nat) (z : Z) : bytes := rev (le_bytes n z).
Definition be_value (bs : bytes) : Z := le_value (rev bs).

(** [CDataStream::read]: the next [n] bytes. *)
Definition read_bytes (n : nat) (bs : bytes) : option (bytes * bytes) :=
  if decide (n ≤ length bs)%nat then Some (take n bs, drop n bs) else None.

Definition ser_writedata8 (obj : Z) : bytes := le_bytes 1 obj.
Definition ser_writedata16 (obj : Z) : bytes := le_bytes 2 obj.
Definition ser_writedata16be (obj : Z) : bytes := be_bytes 2 obj.
Definition ser_writedata32 (obj : Z) : bytes := le_bytes 4 obj.
Definition ser_writedata64 (obj : Z) : bytes := le_bytes 8 obj.

Definition ser_readdata8 (s : bytes) : option (Z * bytes) :=
  '(b, s) ← read_bytes 1 s; Some (le_value b, s).
Definition ser_readdata16 (s : bytes) : option (Z * bytes) :=
  '(b, s) ← read_bytes 2 s; Some (le_value b, s).
Definition ser_readdata16be (s : bytes) : option (Z * bytes) :=
  '(b, s) ← read_bytes 2 s; Some (be_value b, s).
Definition ser_readdata32 (s : bytes) : option (Z * bytes) :=
  '(b, s) ← read_bytes 4 s; Some (le_value b, s).
Definition ser_readdata64 (s : bytes) : option (Z * bytes) :=
  '(b, s) ← read_bytes 8 s; Some (le_value b, s).

(** ** Compact sizes *)

Definition MAX_SIZE : Z := 0x02000000.

Definition GetSizeOfCompactSize (nSize : Z) : Z :=
  if decide (nSize < 253) then 1
  else if decide (nSize ≤ 0xffff) then 1 + 2
  else if decide (nSize ≤ 0xffffffff) then 1 + 4
  else 1 + 8.

Definition WriteCompactSize (nSize : Z) : bytes :=
  if decide (nSize < 253) then ser_writedata8 nSize
  else if decide (nSize ≤ 0xffff) then ser_writedata8 253 ++ ser_writedata16 nSize
  else if decide (nSize ≤ 0xffffffff) then ser_writedata8 254 ++ ser_writedata32 nSize
  else ser_writedata8 255 ++ ser_writedata64 nSize.

Definition ReadCompactSize (s : bytes) : option (Z * bytes) :=
  '(chSize, s) ← ser_readdata8 s;
  '(nSizeRet, s) ←
    (if decide (chSize < 253) then Some (chSize, s)
     else if decide (chSize = 253) then
       '(nSizeRet, s) ← ser_readdata16 s;
       if decide (nSizeRet < 253) then None else Some (nSizeRet, s)
     else if decide (chSize = 254) then
       '(nSizeRet, s) ← ser_readdata32 s;
       if decide (nSizeRet < 0x10000) then None else Some (nSizeRet, s)
     else
       '(nSizeRet, s) ← ser_readdata64 s;
       if decide (nSizeRet < 0x100000000) then None else Some (nSizeRet, s));
  if decide (MAX_SIZE < nSizeRet) then None else Some (nSizeRet, s).

(** ** Variable-length integers

    [WriteVarInt] fills [tmp] from the least significant digit on and writes
    it backwards, so the loop conses its digits.  [tmp] has room for
    [(sizeof(n)*8+6)/7] digits, ten for the widest integers: that is the
    fuel. *)

Fixpoint WriteVarInt_loop (fuel : nat) (len : nat) (n : Z) (tmp : bytes) : bytes :=
  match fuel with
  | O => tmp
  | S fuel =>
      let tmp := Z.lor (Z.land n 0x7F) (if decide (len = 0%nat) then 0 else 0x80) :: tmp in
      if decide (n ≤ 0x7F) then tmp
      else WriteVarInt_loop fuel (S len) (Z.shiftr n 7 - 1) tmp
  end.

Definition WriteVarInt (n : Z) : bytes := WriteVarInt_loop 10 0 n [].

Definition GetSizeOfVarInt_loop : nat → Z → Z → Z :=
  fix loop fuel n nRet :=
    match fuel with
    | O => nRet
    | S fuel =>
        let nRet := nRet + 1 in
        if decide (n ≤ 0x7F) then nRet else loop fuel (Z.shiftr n 7 - 1) nRet
    end.

Definition GetSizeOfVarInt (n : Z) : Z := GetSizeOfVarInt_loop 10 n 0.

(** [max] is [std::numeric_limits<I>::max()]. *)
Fixpoint ReadVarInt_loop (max n : Z) (s : bytes) : option (Z * bytes) :=
  match s with
  | [] => None
  | chData :: s =>
      if decide (Z.shiftr max 7 < n) then None
      else
        let n := Z.lor (Z.shiftl n 7) (Z.land chData 0x7F) in
        if decide (Z.land chData 0x80 ≠ 0) then
          if decide (n = max) then None else ReadVarInt_loop max (n + 1) s
        else Some (n, s)
  end.

Definition ReadVarInt (max : Z) (s : bytes) : option (Z * bytes) := ReadVarInt_loop max 0 s.

(** ** Formats *)

Record format (A : Type) := Format {
  enc : A → bytes;
  dec : bytes → option (A * bytes);
}.
Arguments Format {A} _ _.
Arguments enc {A} _ _.
Arguments dec {A} _ _.

(** Reading what was written gives it back, for the values the type holds. *)
Class RoundTrip {A} (f : format A) (ok : A → Prop) : Prop :=
  dec_enc x rest : ok x → dec f (enc f x ++ rest) = Some (x, rest).

Definition uint8_format : format Z := Format ser_writedata8 ser_readdata8.
Definition uint16_format : format Z := Format ser_writedata16 ser_readdata16.
Definition uint16be_format : format Z := Format ser_writedata16be ser_readdata16be.
Definition uint32_format : format Z := Format ser_writedata32 ser_readdata32.
Definition uint64_format : format Z := Format ser_writedata64 ser_readdata64.
Definition int64_format : format Z :=
  Format ser_writedata64 (λ s, '(n, s) ← ser_readdata64 s; Some (int64 n, s)).
Definition bool_format : format bool :=
  Format (λ a : bool, ser_writedata8 (if a then 1 else 0))
         (λ s, '(f, s) ← ser_readdata8 s; Some (bool_decide (f ≠ 0), s)).
Definition CompactSize_format : format Z := Format WriteCompactSize ReadCompactSize.

(** [base_blob::Serialize] and [Unserialize]: the bytes of memory. *)
Definition blob_Serialize (WIDTH : nat) (x : Z) : bytes := be_bytes WIDTH x.
Definition blob_Unserialize (WIDTH : nat) (s : bytes) : option (Z * bytes) :=
  '(b, s) ← read_bytes WIDTH s; Some (be_value b, s).
Definition blob_format (WIDTH : nat) : format Z :=
  Format (blob_Serialize WIDTH) (blob_Unserialize WIDTH).
Definition uint160_format : format Z := blob_format 20.
Definition uint256_format : format Z := blob_format 32.

(** [n] values one after the other. *)
Fixpoint read_list {A} (d : bytes → option (A * bytes)) (n : nat) (s : bytes) :
  option (list A * bytes) :=
  match n with
  | O => Some ([], s)
  | S n => '(x, s) ← d s; '(xs, s) ← read_list d n s; Some (x :: xs, s)
  end.

(** [std::array]. *)
Definition array_format {A} (f : format A) (N : nat) : format (list A) :=
  Format (λ v, concat (enc f <$> v)) (read_list (dec f) N).

(** [std::vector] of bytes: read in blocks, which bounds the memory used and
    not what is read. *)
Definition byte_vector_Serialize (v : bytes) : bytes :=
  WriteCompactSize (Z.of_nat (length v)) ++ v.
Definition byte_vector_Unserialize (s : bytes) : option (bytes * bytes) :=
  '(nSize, s) ← ReadCompactSize s; read_bytes (Z.to_nat nSize) s.
Definition byte_vector_format : format bytes :=
  Format byte_vector_Serialize byte_vector_Unserialize.

Section containers.
Context {A B : Type} (f : format A) (g : format B).

Definition vector_Serialize (v : list A) : bytes :=
  WriteCompactSize (Z.of_nat (length v)) ++ concat (enc f <$> v).
Definition vector_Unserialize (s : bytes) : option (list A * bytes) :=
  '(nSize, s) ← ReadCompactSize s; read_list (dec f) (Z.to_nat nSize) s.
Definition vector_format : format (list A) := Format vector_Serialize vector_Unserialize.

Definition pair_Serialize (item : A * B) : bytes := enc f item.1 ++ enc g item.2.
Definition pair_Unserialize (s : bytes) : option (A * B * bytes) :=
  '(x, s) ← dec f s; '(y, s) ← dec g s; Some ((x, y), s).
Definition pair_format : format (A * B) := Format pair_Serialize pair_Unserialize.

(** [boost::optional]. *)
Definition optional_Serialize (v : option A) : bytes :=
  match v with
  | Some x => enc bool_format true ++ enc f x
  | None => enc bool_format false
  end.
Definition optional_Unserialize (s : bytes) : option (option A * bytes) :=
  '(has_value, s) ← dec bool_format s;
  if (has_value : bool) then '(x, s) ← dec f s; Some (Some x, s) else Some (None, s).
Definition optional_format : format (option A) :=
  Format optional_Serialize optional_Unserialize.

(** A record is written as the sequence of its fields ([READWRITE]). *)
Definition record_format {R} (to : R → A) (from : A → R) : format R :=
  Format (λ r, enc f (to r)) (λ s, '(x, s) ← dec f s; Some (from x, s)).
End containers.

Infix "⊗" := pair_format (at level 60, right associativity).

(** [std::map::insert] at a hint: the entry that is there stays. *)
Definition map_insert {V} (m : gmap Z V) (item : Z * V) : gmap Z V :=
  emplace item.1 item.2 m.

Section maps.
Context {V : Type} (k : format Z) (v : format V).

Definition map_Serialize (m : gmap Z V) : bytes :=
  WriteCompactSize (Z.of_nat (size m)) ++ concat (enc (k ⊗ v) <$> map_entries m).
Definition map_Unserialize (s : bytes) : option (gmap Z V * bytes) :=
  '(nSize, s) ← ReadCompactSize s;
  '(items, s) ← read_list (dec (k ⊗ v)) (Z.to_nat nSize) s;
  Some (foldl map_insert ∅ items, s).
Definition map_format : format (gmap Z V) := Format map_Serialize map_Unserialize.

(** The elements in the order of the iterator. *)
Definition set_entries (m : gset Z) : list Z := merge_sort Z.le (elements m).

Definition set_Serialize (m : gset Z) : bytes :=
  WriteCompactSize (Z.of_nat (size m)) ++ concat (enc k <$> set_entries m).
Definition set_Unserialize (s : bytes) : option (gset Z * bytes) :=
  '(nSize, s) ← ReadCompactSize s;
  '(items, s) ← read_list (dec k) (Z.to_nat nSize) s;
  Some (foldl (λ m key, {[key]} ∪ m) ∅ items, s).
Definition set_format : format (gset Z) := Format set_Serialize set_Unserialize.
End maps.

(** ** Integers *)

Lemma le_bytes_length n z : length (le_bytes n z) = n.
Proof. revert z. induction n; intros; cbn; auto. Qed.

Lemma le_bytes_bytes n z : Forall is_byte (le_bytes n z).
Proof.
  revert z. induction n; intros z; cbn; constructor; auto.
  apply Z.mod_pos_bound. lia.
Qed.

Lemma le_value_bytes n z : le_value (le_bytes n z) = z mod 2 ^ (8 * Z.of_nat n).
Proof.
  revert z. induction n as [|n IH]; intros z; cbn [le_bytes le_value].
  - by rewrite Z.mod_1_r.
  - rewrite IH. replace (8 * Z.of_nat (S n)) with (8 + 8 * Z.of_nat n) by lia.
    rewrite Z.pow_add_r, Z.rem_mul_r by lia. done.
Qed.

Lemma le_value_range bs : Forall is_byte bs → 0 ≤ le_value bs < 2 ^ (8 * Z.of_nat (length bs)).
Proof.
  induction 1 as [|b bs Hb Hbs IH]; cbn [le_value length]; [lia|].
  replace (8 * Z.of_nat (S (length bs))) with (8 + 8 * Z.of_nat (length bs)) by lia.
  rewrite Z.pow_add_r by lia. unfold is_byte in Hb. nia.
Qed.

Lemma le_bytes_value bs : Forall is_byte bs → le_bytes (length bs) (le_value bs) = bs.
Proof.
  induction 1 as [|b bs Hb Hbs IH]; cbn [le_value length le_bytes]; [done|].
  unfold is_byte in Hb. f_equal.
  - rewrite Z.mul_comm, Z_mod_plus_full. by apply Z.mod_small.
  - rewrite Z.mul_comm, Z_div_plus_full, Z.div_small by lia. by rewrite Z.add_0_l.
Qed.

Lemma le_value_app a b : le_value (a ++ b) = le_value a + 2 ^ (8 * Z.of_nat (length a)) * le_value b.
Proof.
  induction a as [|x a IH]; cbn [app le_value length]; [lia|]. rewrite IH.
  replace (8 * Z.of_nat (S (length a))) with (8 + 8 * Z.of_nat (length a)) by lia.
  rewrite Z.pow_add_r by lia. lia.
Qed.

Lemma be_bytes_length n z : length (be_bytes n z) = n.
Proof. unfold be_bytes. by rewrite length_rev, le_bytes_length. Qed.

Lemma be_bytes_bytes n z : Forall is_byte (be_bytes n z).
Proof. apply Forall_rev, le_bytes_bytes. Qed.

Lemma be_value_bytes n z : be_value (be_bytes n z) = z mod 2 ^ (8 * Z.of_nat n).
Proof. unfold be_value, be_bytes. by rewrite rev_involutive, le_value_bytes. Qed.

Lemma be_value_range bs : Forall is_byte bs → 0 ≤ be_value bs < 2 ^ (8 * Z.of_nat (length bs)).
Proof.
  intros Hb. rewrite <- (length_rev bs). by apply le_value_range, Forall_rev.
Qed.

Lemma be_bytes_value bs : Forall is_byte bs → be_bytes (length bs) (be_value bs) = bs.
Proof.
  intros Hb. unfold be_bytes, be_value. rewrite <- (length_rev bs), le_bytes_value.
  - apply rev_involutive.
  - by apply Forall_rev.
Qed.

Lemma read_bytes_app n bs rest : length bs = n → read_bytes n (bs ++ rest) = Some (bs, rest).
Proof.
  intros <-. unfold read_bytes. rewrite length_app, decide_True by lia.
  by rewrite take_app_length, drop_app_length.
Qed.

Lemma read_bytes_Some n bs b rest :
  read_bytes n bs = Some (b, rest) → bs = b ++ rest ∧ length b = n.
Proof.
  unfold read_bytes. case_decide; intros; simplify_eq.
  rewrite take_drop, length_take. split; [done|lia].
Qed.

(** Reading a fixed-width integer, as an equation and as an inversion. *)
Lemma read_le n z rest :
  ('(b, s) ← read_bytes n (le_bytes n z ++ rest); Some (le_value b, s)) =
  Some (z mod 2 ^ (8 * Z.of_nat n), rest).
Proof.
  rewrite read_bytes_app by apply le_bytes_length. cbn. by rewrite le_value_bytes.
Qed.

Lemma read_be n z rest :
  ('(b, s) ← read_bytes n (be_bytes n z ++ rest); Some (be_value b, s)) =
  Some (z mod 2 ^ (8 * Z.of_nat n), rest).
Proof.
  rewrite read_bytes_app by apply be_bytes_length. cbn. by rewrite be_value_bytes.
Qed.

Lemma read_le_inv n bs z rest :
  Forall is_byte bs →
  ('(b, s) ← read_bytes n bs; Some (le_value b, s)) = Some (z, rest) →
  bs = le_bytes n z ++ rest ∧ 0 ≤ z < 2 ^ (8 * Z.of_nat n) ∧ Forall is_byte rest.
Proof.
  intros Hbs. destruct (read_bytes n bs) as [[b s]|] eqn:E; [|done].
  cbn. intros [= <- <-]. apply read_bytes_Some in E as [-> <-].
  apply Forall_app in Hbs as [Hb Hs].
  rewrite le_bytes_value by done. split_and!; [done|by apply le_value_range..|done].
Qed.

(** Goes on with a reader whose last read is known. *)
Ltac run_reader := repeat (progress (cbn [mbind option_bind]; decide_lia)).

Ltac fixed_width :=
  intros; unfold is_byte, is_uint32, is_uint64, ser_readdata8, ser_writedata8, ser_readdata16,
    ser_writedata16, ser_readdata16be, ser_writedata16be, ser_readdata32, ser_writedata32,
    ser_readdata64, ser_writedata64, blob_Serialize, blob_Unserialize in *;
  first [rewrite read_le | rewrite read_be]; rewrite ?Z.mod_small by lia; try done.

Lemma read8 x rest : is_byte x → ser_readdata8 (ser_writedata8 x ++ rest) = Some (x, rest).
Proof. fixed_width. Qed.
Lemma read16 x rest :
  0 ≤ x < 2 ^ 16 → ser_readdata16 (ser_writedata16 x ++ rest) = Some (x, rest).
Proof. fixed_width. Qed.
Lemma read16be x rest :
  0 ≤ x < 2 ^ 16 → ser_readdata16be (ser_writedata16be x ++ rest) = Some (x, rest).
Proof. fixed_width. Qed.
Lemma read32 x rest : is_uint32 x → ser_readdata32 (ser_writedata32 x ++ rest) = Some (x, rest).
Proof. fixed_width. Qed.
Lemma read64 x rest : ser_readdata64 (ser_writedata64 x ++ rest) = Some (uint64 x, rest).
Proof. fixed_width. Qed.

#[export] Instance uint8_roundtrip : RoundTrip uint8_format is_byte := read8.
#[export] Instance uint16_roundtrip : RoundTrip uint16_format (λ x, 0 ≤ x < 2 ^ 16) := read16.
#[export] Instance uint16be_roundtrip :
  RoundTrip uint16be_format (λ x, 0 ≤ x < 2 ^ 16) := read16be.
#[export] Instance uint32_roundtrip : RoundTrip uint32_format is_uint32 := read32.
#[export] Instance uint64_roundtrip : RoundTrip uint64_format is_uint64.
Proof. intros x rest Hx. cbn [enc dec uint64_format]. by rewrite read64, uint64_small. Qed.
#[export] Instance int64_roundtrip : RoundTrip int64_format is_int64.
Proof.
  intros x rest Hx. cbn [enc dec int64_format]. rewrite read64. cbn -[int64]. repeat f_equal.
  apply eqm64_eq_int64; [apply int64_range|done|]. eqm64.
Qed.
#[export] Instance blob_roundtrip n :
  RoundTrip (blob_format n) (λ x, 0 ≤ x < 2 ^ (8 * Z.of_nat n)).
Proof. intros x rest Hx. cbn [enc dec blob_format]. fixed_width. Qed.

#[export] Instance bool_roundtrip : RoundTrip bool_format (λ _, True).
Proof. intros [] rest _; done. Qed.

(** ** Compact sizes *)

#[export] Instance CompactSize_roundtrip :
  RoundTrip CompactSize_format (λ n, 0 ≤ n ≤ MAX_SIZE).
Proof.
  intros n rest [H0 H1]. cbn [enc dec CompactSize_format].
  unfold WriteCompactSize, ReadCompactSize, MAX_SIZE in *. repeat case_decide; try lia.
  all: rewrite <- ?app_assoc, read8 by (unfold is_byte; lia); run_reader.
  - done.
  - rewrite read16 by lia. by run_reader.
  - rewrite read32 by (unfold is_uint32; lia). by run_reader.
Qed.

(** The size encodings are canonical: only what [WriteCompactSize] writes is
    accepted. *)
Lemma ReadCompactSize_inv bs n rest :
  Forall is_byte bs → ReadCompactSize bs = Some (n, rest) →
  bs = WriteCompactSize n ++ rest ∧ 0 ≤ n ≤ MAX_SIZE ∧ Forall is_byte rest.
Proof.
  intros Hbs. unfold ReadCompactSize.
  destruct (ser_readdata8 bs) as [[ch s]|] eqn:E8; [|done].
  apply read_le_inv in E8 as (-> & Hch & Hs); [|done]. cbn [mbind option_bind].
  intros H. unfold WriteCompactSize.
  destruct (decide (ch < 253)); [|destruct (decide (ch = 253)); [|destruct (decide (ch = 254))]].
  2: destruct (ser_readdata16 s) as [[m s']|] eqn:E; [|done].
  3: destruct (ser_readdata32 s) as [[m s']|] eqn:E; [|done].
  4: destruct (ser_readdata64 s) as [[m s']|] eqn:E; [|done].
  all: cbn in H.
  2-4: destruct (decide (m < _)) as [|Hm] in H; cbn in H; [done|];
    apply read_le_inv in E as (-> & Hr & ?); [|done].
  all: destruct (decide (MAX_SIZE < _)) as [|Hmax] in H; [done|]; simplify_eq.
  all: decide_lia.
  all: rewrite <- ?app_assoc; unfold MAX_SIZE in *; split_and!; try done; try lia.
Qed.

Lemma WriteCompactSize_size n :
  0 ≤ n → Z.of_nat (length (WriteCompactSize n)) = GetSizeOfCompactSize n.
Proof. intros. unfold WriteCompactSize, GetSizeOfCompactSize. repeat case_decide; done. Qed.

(** ** Variable-length integers *)

(** Facts on single bytes are checked on all of them. *)
Lemma forall_bytes (f : Z → bool) :
  forallb f (seqZ 0 256) = true → ∀ d, is_byte d → f d = true.
Proof.
  intros Hf d Hd. apply (proj1 (forallb_forall f _) Hf), list_elem_of_In, elem_of_seqZ.
  unfold is_byte in Hd. lia.
Qed.

Lemma lor_shiftl_add n x k : 0 ≤ k → 0 ≤ x < 2 ^ k → Z.lor (Z.shiftl n k) x = n * 2 ^ k + x.
Proof.
  intros Hk Hx. assert (Z.land (Z.shiftl n k) x = 0) as Hl.
  { apply Z.bits_inj'. intros i Hi. rewrite Z.land_spec, Z.shiftl_spec, Z.bits_0 by lia.
    destruct (decide (i < k)); [by rewrite Z.testbit_neg_r by lia|].
    rewrite <- (Z.mod_small x (2 ^ k)), Z.mod_pow2_bits_high by lia. apply andb_false_r. }
  by rewrite <- Z.lxor_lor, <- Z.add_nocarry_lxor, Z.shiftl_mul_pow2 by done.
Qed.

Lemma land_127 n : Z.land n 0x7F = n mod 2 ^ 7.
Proof. apply (Z.land_ones n 7). lia. Qed.

(** What a byte with or without the continuation bit is made of. *)
Lemma varint_digit (x : Z) (last : bool) : 0 ≤ x < 2 ^ 7 →
  let d := Z.lor x (if last then 0 else 0x80) in
  Z.land d 0x7F = x ∧ (Z.land d 0x80 ≠ 0 ↔ last = false).
Proof.
  intros Hx d. assert (is_byte x) as Hb by (unfold is_byte; lia).
  pose proof (forall_bytes (λ x, bool_decide (2 ^ 7 ≤ x) ||
    bool_decide (Z.land (Z.lor x (if last then 0 else 0x80)) 0x7F = x) &&
    bool_decide (Z.land (Z.lor x (if last then 0 else 0x80)) 0x80 = if last then 0 else 0x80))
    ltac:(by destruct last; vm_compute) x Hb) as H.
  cbn beta in H. rewrite bool_decide_eq_false_2 in H by lia. cbn [orb] in H.
  apply andb_true_iff in H as [H1%bool_decide_eq_true H2%bool_decide_eq_true].
  subst d. rewrite H1, H2. by destruct last.
Qed.

Lemma varint_byte d : is_byte d →
  d = Z.lor (Z.land d 0x7F) (if decide (Z.land d 0x80 ≠ 0) then 0x80 else 0).
Proof.
  intros Hd. apply Z.eqb_eq. revert d Hd. apply forall_bytes. by vm_compute.
Qed.

(** One digit. *)
Lemma ReadVarInt_digit max m x (last : bool) tmp :
  0 ≤ x < 2 ^ 7 → m ≤ max / 2 ^ 7 →
  ReadVarInt_loop max m (Z.lor x (if last then 0 else 0x80) :: tmp) =
  if last then Some (m * 2 ^ 7 + x, tmp)
  else if decide (m * 2 ^ 7 + x = max) then None
  else ReadVarInt_loop max (m * 2 ^ 7 + x + 1) tmp.
Proof.
  intros Hx Hm. pose proof (varint_digit x last Hx) as [D1 D2]. cbn [ReadVarInt_loop].
  rewrite D1, lor_shiftl_add, Z.shiftr_div_pow2 by lia. rewrite decide_False by lia.
  destruct last; [rewrite decide_False by (rewrite D2; done)|rewrite decide_True by (by apply D2)];
    done.
Qed.

(** The digits before the last, read from zero, leave the number plus one. *)
Lemma ReadVarInt_continued max fuel len n tmp :
  0 ≤ n < max → n < 2 ^ (7 * Z.of_nat fuel) → (0 < fuel)%nat →
  ReadVarInt_loop max 0 (WriteVarInt_loop fuel (S len) n tmp) = ReadVarInt_loop max (n + 1) tmp.
Proof.
  revert len n tmp. induction fuel as [|fuel IH]; intros len n tmp Hn Hf Hpos; [lia|].
  cbn [WriteVarInt_loop]. rewrite (decide_False (P := S len = 0%nat)) by done. rewrite land_127.
  pose proof (Z.mod_pos_bound n (2 ^ 7)). pose proof (Z.div_mod n (2 ^ 7)).
  destruct (decide (n ≤ 0x7F)) as [Hs|Hs].
  - rewrite (ReadVarInt_digit max 0 _ false) by (try apply Z.div_pos; lia).
    rewrite Z.mod_small by lia. by decide_lia.
  - replace (7 * Z.of_nat (S fuel)) with (7 + 7 * Z.of_nat fuel) in Hf by lia.
    rewrite Z.pow_add_r in Hf by lia. rewrite Z.shiftr_div_pow2 by lia.
    assert (1 ≤ n / 2 ^ 7 < 2 ^ (7 * Z.of_nat fuel)) as Hq by nia.
    assert (0 < fuel)%nat by (destruct fuel; cbn in Hq; lia).
    rewrite IH by nia. rewrite Z.sub_add.
    rewrite (ReadVarInt_digit max _ _ false) by (try apply Z.div_le_mono; lia).
    replace (n / 2 ^ 7 * 2 ^ 7 + n mod 2 ^ 7) with n by lia. by decide_lia.
Qed.

Lemma WriteVarInt_loop_app fuel len n tmp rest :
  WriteVarInt_loop fuel len n tmp ++ rest = WriteVarInt_loop fuel len n (tmp ++ rest).
Proof.
  revert len n tmp. induction fuel as [|fuel IH]; intros; cbn; [done|].
  case_decide; [done|]. apply IH.
Qed.

(** Splitting off the last digit. *)
Lemma WriteVarInt_loop_S fuel len n tmp : 0 ≤ n →
  WriteVarInt_loop (S fuel) len n tmp =
  let d := Z.lor (n mod 2 ^ 7) (if decide (len = 0%nat) then 0 else 0x80) in
  if decide (n < 2 ^ 7) then d :: tmp
  else WriteVarInt_loop fuel (S len) (n / 2 ^ 7 - 1) (d :: tmp).
Proof.
  intros Hn. cbn [WriteVarInt_loop]. rewrite land_127, Z.shiftr_div_pow2 by lia.
  destruct (decide (n < 2 ^ 7)); by decide_lia.
Qed.

(** Reading a variable-length integer gives the number written. *)
Lemma ReadVarInt_WriteVarInt max n rest :
  0 ≤ n ≤ max → max < 2 ^ 64 → ReadVarInt max (WriteVarInt n ++ rest) = Some (n, rest).
Proof.
  intros Hn Hmax. unfold ReadVarInt, WriteVarInt.
  rewrite WriteVarInt_loop_app, app_nil_l, WriteVarInt_loop_S by lia. cbv zeta.
  rewrite (decide_True (P := 0%nat = 0%nat)) by done.
  pose proof (Z.mod_pos_bound n (2 ^ 7)). pose proof (Z.div_mod n (2 ^ 7)).
  destruct (decide (n < 2 ^ 7)) as [Hs|Hs].
  - rewrite (ReadVarInt_digit max 0 _ true) by (try apply Z.div_pos; lia).
    by rewrite Z.mod_small by lia.
  - rewrite ReadVarInt_continued by lia. rewrite Z.sub_add.
    rewrite (ReadVarInt_digit max _ _ true) by (try apply Z.div_le_mono; lia).
    by replace (n / 2 ^ 7 * 2 ^ 7 + n mod 2 ^ 7) with n by lia.
Qed.

(** [seen] are the bytes the writer emits before the digits of a number whose
    higher part is [m]. *)
Definition varint_prefix (m : Z) (seen : bytes) : Prop :=
  m = 0 ∧ seen = [] ∨
  1 ≤ m ∧ ∀ fuel len tmp, m - 1 < 2 ^ (7 * Z.of_nat fuel) → (0 < fuel)%nat →
    WriteVarInt_loop fuel (S len) (m - 1) tmp = seen ++ tmp.

Lemma varint_prefix_digit m seen x fuel len tmp :
  varint_prefix m seen → 0 ≤ m → 0 ≤ x < 2 ^ 7 →
  m * 2 ^ 7 + x < 2 ^ (7 * Z.of_nat fuel) → (0 < fuel)%nat →
  WriteVarInt_loop fuel len (m * 2 ^ 7 + x) tmp =
  seen ++ Z.lor x (if decide (len = 0%nat) then 0 else 0x80) :: tmp.
Proof.
  intros Hp Hm Hx Hf Hpos. destruct fuel as [|fuel]; [lia|].
  rewrite WriteVarInt_loop_S by lia. cbv zeta.
  rewrite Z.add_comm, Z_mod_plus_full, (Z.mod_small x), Z_div_plus_full, (Z.div_small x) by lia.
  destruct Hp as [[-> ->]|[Hm1 Hp]]; decide_lia; [done|].
  replace (7 * Z.of_nat (S fuel)) with (7 + 7 * Z.of_nat fuel) in Hf by lia.
  rewrite Z.pow_add_r in Hf by lia.
  apply Hp; [lia|]. destruct fuel; [cbn in Hf; lia|lia].
Qed.

(** Every number has one encoding: what is read is what would be written. *)
Lemma ReadVarInt_loop_inv max m bs n rest seen :
  max < 2 ^ 64 → max mod 2 ^ 7 = 2 ^ 7 - 1 → Forall is_byte bs → 0 ≤ m → varint_prefix m seen →
  ReadVarInt_loop max m bs = Some (n, rest) →
  WriteVarInt n ++ rest = seen ++ bs ∧ 0 ≤ n ≤ max.
Proof.
  intros Hmax Hmod Hbs. revert m seen.
  induction Hbs as [|d bs Hd Hbs IH]; intros m seen Hm Hseen; [done|].
  destruct (decide (max / 2 ^ 7 < m)) as [Hlt|Hge].
  { cbn [ReadVarInt_loop]. rewrite Z.shiftr_div_pow2 by lia. by rewrite decide_True by done. }
  pose proof (varint_byte d Hd) as Ed. rewrite land_127 in Ed.
  set (x := d mod 2 ^ 7) in Ed.
  assert (0 ≤ x < 2 ^ 7) as Hx by (apply Z.mod_pos_bound; lia).
  pose proof (Z.div_mod max (2 ^ 7)). pose proof (Z.mod_pos_bound max (2 ^ 7)).
  assert (m * 2 ^ 7 ≤ max) by nia.
  destruct (decide (Z.land d 0x80 ≠ 0)); rewrite Ed.
  - rewrite (ReadVarInt_digit max m x false) by lia. case_decide; [done|]. intros Hr.
    apply IH with (seen := seen ++ [Z.lor x 0x80]) in Hr as [Hw ?]; [|lia|].
    + by rewrite Hw, <- app_assoc.
    + right. split; [lia|]. intros fuel len tmp Hf Hpos. rewrite Z.add_simpl_r in *.
      rewrite (varint_prefix_digit m seen x) by done. by rewrite <- app_assoc.
  - rewrite (ReadVarInt_digit max m x true) by lia. intros [= <- <-].
    unfold WriteVarInt. rewrite WriteVarInt_loop_app, (varint_prefix_digit m seen x) by (done || lia).
    split; [done|nia].
Qed.

(** The encodings of [VARINT] are canonical: the bytes that are accepted are
    the ones [WriteVarInt] writes for the value read. *)
Lemma ReadVarInt_inv max bs n rest :
  max < 2 ^ 64 → max mod 2 ^ 7 = 2 ^ 7 - 1 → Forall is_byte bs →
  ReadVarInt max bs = Some (n, rest) → bs = WriteVarInt n ++ rest ∧ 0 ≤ n ≤ max.
Proof.
  intros ? ? ? Hr. eapply (ReadVarInt_loop_inv max 0 bs n rest []) in Hr as [? ?];
    [done..|by left].
Qed.

Lemma WriteVarInt_size_loop fuel len n tmp r :
  Z.of_nat (length (WriteVarInt_loop fuel len n tmp)) - Z.of_nat (length tmp) =
  GetSizeOfVarInt_loop fuel n r - r.
Proof.
  revert len n tmp r. induction fuel as [|fuel IH]; intros; cbn; [lia|].
  destruct (decide (n ≤ 0x7F)); cbn [length]; [lia|].
  match goal with |- context [WriteVarInt_loop _ _ ?m (?d :: _)] =>
    pose proof (IH (S len) m (d :: tmp) (r + 1)) as Hl end.
  cbn [length] in Hl. lia.
Qed.

Lemma WriteVarInt_size n : Z.of_nat (length (WriteVarInt n)) = GetSizeOfVarInt n.
Proof.
  pose proof (WriteVarInt_size_loop 10 0 n [] 0) as Hl. unfold WriteVarInt, GetSizeOfVarInt.
  rewrite Z.sub_0_r in Hl. by rewrite Z.sub_0_r in Hl.
Qed.

(** ** Containers *)

Lemma read_list_enc {A} (f : format A) ok `{!RoundTrip f ok} xs rest :
  Forall ok xs → read_list (dec f) (length xs) (concat (enc f <$> xs) ++ rest) = Some (xs, rest).
Proof.
  induction 1 as [|x xs Hx Hxs IH]; cbn; [done|].
  rewrite <- app_assoc, (dec_enc (ok := ok)) by done. cbn. by rewrite IH.
Qed.

(** Sizes that [ReadCompactSize] accepts. *)
Definition size_ok (n : nat) : Prop := Z.of_nat n ≤ MAX_SIZE.

Lemma ReadCompactSize_size n rest :
  size_ok n → ReadCompactSize (WriteCompactSize (Z.of_nat n) ++ rest) = Some (Z.of_nat n, rest).
Proof. intros Hn. apply CompactSize_roundtrip. unfold size_ok in Hn. lia. Qed.

#[export] Instance array_roundtrip {A} (f : format A) ok N `{!RoundTrip f ok} :
  RoundTrip (array_format f N) (λ v, length v = N ∧ Forall ok v).
Proof. intros v rest [<- Hv]. by apply (read_list_enc f ok). Qed.

#[export] Instance byte_vector_roundtrip :
  RoundTrip byte_vector_format (λ v, size_ok (length v)).
Proof.
  intros v rest Hv. cbn [enc dec byte_vector_format].
  unfold byte_vector_Serialize, byte_vector_Unserialize.
  rewrite <- app_assoc, ReadCompactSize_size by done. cbn [mbind option_bind].
  rewrite Nat2Z.id. by apply read_bytes_app.
Qed.

#[export] Instance vector_roundtrip {A} (f : format A) ok `{!RoundTrip f ok} :
  RoundTrip (vector_format f) (λ v, size_ok (length v) ∧ Forall ok v).
Proof.
  intros v rest [Hv Hok]. cbn [enc dec vector_format].
  unfold vector_Serialize, vector_Unserialize.
  rewrite <- app_assoc, ReadCompactSize_size by done. cbn [mbind option_bind].
  rewrite Nat2Z.id. by apply (read_list_enc f ok).
Qed.

#[export] Instance pair_roundtrip {A B} (f : format A) (g : format B) okf okg
  `{!RoundTrip f okf, !RoundTrip g okg} :
  RoundTrip (f ⊗ g) (λ x, okf x.1 ∧ okg x.2).
Proof.
  intros [x y] rest [Hx Hy]. cbn [enc dec pair_format].
  unfold pair_Serialize, pair_Unserialize. rewrite <- app_assoc, (dec_enc (ok := okf)) by done.
  cbn. by rewrite (dec_enc (ok := okg)).
Qed.

#[export] Instance optional_roundtrip {A} (f : format A) ok `{!RoundTrip f ok} :
  RoundTrip (optional_format f) (λ v, from_option ok True v).
Proof.
  intros [x|] rest Hx; cbn [enc dec optional_format];
    unfold optional_Serialize, optional_Unserialize; rewrite <- ?app_assoc, (dec_enc (ok := λ _, True)) by done;
    cbn; [by rewrite (dec_enc (ok := ok))|done].
Qed.

Lemma record_roundtrip {A R} (f : format A) (to : R → A) from ok `{!RoundTrip f ok} :
  (∀ r, from (to r) = r) → RoundTrip (record_format f to from) (λ r, ok (to r)).
Proof. intros Hr x rest Hx. cbn. rewrite (dec_enc (ok := ok)) by done. cbn. by rewrite Hr. Qed.

(** ** Maps and sets *)

Lemma foldl_map_insert {V} (l : list (Z * V)) (m : gmap Z V) :
  NoDup l.*1 → (∀ k, k ∈ l.*1 → m !! k = None) →
  foldl map_insert m l = list_to_map l ∪ m.
Proof.
  revert m. induction l as [|[k v] l IH]; intros m Hnd Hm; cbn; [by rewrite (left_id_L ∅ (∪))|].
  apply NoDup_cons in Hnd as [Hk Hnd].
  assert (m !! k = None) as Hk0 by (apply Hm; left).
  unfold map_insert at 2. cbn [fst snd]. rewrite emplace_fresh by done. rewrite IH; [|done|].
  - rewrite <- insert_union_r by (by apply not_elem_of_list_to_map).
    by rewrite insert_union_l.
  - intros j Hj. rewrite lookup_insert_ne by (by intros ->). apply Hm. by right.
Qed.

#[export] Instance map_roundtrip {V} (k : format Z) (v : format V) okk okv
  `{!RoundTrip k okk, !RoundTrip v okv} :
  RoundTrip (map_format k v) (λ m, size_ok (size m) ∧ map_Forall (λ x y, okk x ∧ okv y) m).
Proof.
  intros m rest [Hsize Hm]. cbn [enc dec map_format]. unfold map_Serialize, map_Unserialize.
  rewrite <- app_assoc, ReadCompactSize_size by done. cbn [mbind option_bind].
  pose proof (map_entries_Permutation m) as Hp.
  assert (length (map_entries m) = size m) as <-.
  { rewrite Hp. apply length_map_to_list. }
  rewrite Nat2Z.id, (read_list_enc (k ⊗ v) _).
  - cbn. repeat f_equal. rewrite foldl_map_insert.
    + rewrite (right_id_L ∅ (∪)). rewrite <- (list_to_map_to_list m) at 2.
      apply list_to_map_proper; [rewrite Hp; apply NoDup_fst_map_to_list|done].
    + rewrite Hp. apply NoDup_fst_map_to_list.
    + intros. apply lookup_empty.
  - apply Forall_forall. intros [i x] Hi. apply elem_of_map_entries in Hi. by apply Hm in Hi.
Qed.

Lemma set_entries_Permutation (m : gset Z) : set_entries m ≡ₚ elements m.
Proof. apply merge_sort_Permutation. Qed.

#[export] Instance set_roundtrip (k : format Z) okk `{!RoundTrip k okk} :
  RoundTrip (set_format k) (λ m, size_ok (size m) ∧ set_Forall okk m).
Proof.
  intros m rest [Hsize Hm]. cbn [enc dec set_format]. unfold set_Serialize, set_Unserialize.
  rewrite <- app_assoc, ReadCompactSize_size by done. cbn [mbind option_bind].
  pose proof (set_entries_Permutation m) as Hp.
  assert (length (set_entries m) = size m) as <- by by rewrite Hp.
  rewrite Nat2Z.id, (read_list_enc k _).
  - cbn. repeat f_equal. apply set_eq. intros x.
    assert (∀ (l : list Z) (s : gset Z),
      x ∈ foldl (λ m key, {[key]} ∪ m) s l ↔ x ∈ l ∨ x ∈ s) as ->.
    { induction l as [|y l IH]; intros s; cbn; [set_solver|]. rewrite IH. set_solver. }
    rewrite Hp, elem_of_elements. set_solver.
  - apply Forall_forall. intros x Hx. apply Hm. by rewrite Hp, elem_of_elements in Hx.
Qed.

(** ** Canonical encodings *)

(** Both codecs for lengths and counters are canonical: from bytes that
    go on with [rest], a reader accepts exactly the encoding the writer
    produces for the value, for every value of the allowed range and no
    other; and the size functions give the length of what is written. *)
Theorem size_codecs_canonical bs n rest :
  Forall is_byte bs →
  (ReadCompactSize bs = Some (n, rest) ↔ bs = WriteCompactSize n ++ rest ∧ 0 ≤ n ≤ MAX_SIZE) ∧
  (ReadVarInt (2 ^ 32 - 1) bs = Some (n, rest) ↔ bs = WriteVarInt n ++ rest ∧ is_uint32 n) ∧
  (ReadVarInt (2 ^ 64 - 1) bs = Some (n, rest) ↔ bs = WriteVarInt n ++ rest ∧ is_uint64 n) ∧
  (0 ≤ n → Z.of_nat (length (WriteCompactSize n)) = GetSizeOfCompactSize n) ∧
  Z.of_nat (length (WriteVarInt n)) = GetSizeOfVarInt n.
Proof.
  intros Hbs. split; [|split; [|split; [|split]]].
  - split; [by intros (? & ? & _)%ReadCompactSize_inv|].
    intros [-> Hn]. by apply (dec_enc (f := CompactSize_format)).
  - split; [intros [? ?]%ReadVarInt_inv; [|done..]|intros [-> Hn]]; unfold is_uint32 in *.
    + split; [done|lia].
    + by apply ReadVarInt_WriteVarInt; [lia|].
  - split; [intros [? ?]%ReadVarInt_inv; [|done..]|intros [-> Hn]]; unfold is_uint64 in *.
    + split; [done|lia].
    + by apply ReadVarInt_WriteVarInt; [lia|].
  - apply WriteCompactSize_size.
  - apply WriteVarInt_size.
Qed.

Lemma size_codecs_canonical_witness :
  ReadCompactSize [0xfd; 0x00; 0x01; 5] = Some (256, [5]) ∧
  ReadVarInt (2 ^ 32 - 1) [0x81; 0x00; 5] = Some (256, [5]).
Proof.
  split.
  - apply size_codecs_canonical; [|by vm_compute].
    by repeat (apply Forall_cons; split; [unfold is_byte; lia|]).
  - apply size_codecs_canonical; [|by vm_compute].
    by repeat (apply Forall_cons; split; [unfold is_byte; lia|]).
Defined.
