(* ===== verification/Ufp64.v ===== *)
(** * Fixed-point arithmetic: src/src/ufp64.cpp, src/src/ufp64.h

    A [ufp64_t] is a [uint64_t] that counts units of 10^-8.  Every operation
    goes through a 256-bit intermediate value ([arith_uint256]) and keeps the
    low 64 bits of the result.  The 256-bit operations are the value-level
    ones: products and sums are reduced modulo 2^256 and a division by zero
    leaves through [UintError].

    The theorems show what the rounding of each operation loses, that
    operations are exact while their result fits 64 bits, and that the
    Babylonian iteration of [sqrt_uint] reaches the integer square root
    within the 60 rounds the code gives it, for every amount of money the
    chain can hold. *)
From S2P Require Import Prelude.

(** ** [arith_uint256] as 256-bit values *)

Definition u256_add (a b : Z) : Z := uint256 (a + b).
Definition u256_mul (a b : Z) : Z := uint256 (a * b).
Definition u256_div (a b : Z) : outcome Z :=
  if decide (b = 0) then Raise UintError else Ok (a / b).
Definition GetLow64 (a : Z) : Z := uint64 a.

(** ** The operations of namespace ufp64 *)

Definition SCALE : Z := 100000000.
Definition SQRT_ITERATIONS : nat := 60.

(** [uint * SCALE] multiplies a [uint32_t] with an [int]: the product is a
    32-bit unsigned integer. *)
Definition add_uint (ufp uint : Z) : Z := uint64 (uint32 (uint * SCALE) + ufp).

Definition mul (x y : Z) : outcome Z :=
  GetLow64 <$> u256_div (u256_mul x y) SCALE.

Definition mul_by_uint (x y : Z) : Z := GetLow64 (u256_mul x y).

Definition mul_to_uint (x y : Z) : outcome Z :=
  GetLow64 <$> u256_div (u256_mul x y) SCALE.

Definition div_2uint (x y : Z) : outcome Z :=
  GetLow64 <$> u256_div (u256_mul x SCALE) y.

Definition div_by_uint (x y : Z) : outcome Z :=
  GetLow64 <$> u256_div x y.

Definition div_uint (x y : Z) : outcome Z :=
  GetLow64 <$> u256_div (u256_mul (u256_mul x SCALE) SCALE) y.

Definition div_to_uint (x y : Z) : outcome Z :=
  GetLow64 <$> u256_div (u256_mul x SCALE) y.

Definition div (x y : Z) : outcome Z :=
  GetLow64 <$> u256_div (u256_mul x SCALE) y.

Definition add (x y : Z) : Z := uint64 (x + y).
Definition sub (x y : Z) : Z := uint64 (x - y).
Definition min (x y : Z) : Z := Z.min x y.
Definition max (x y : Z) : Z := Z.max x y.

(** One round of the loop of [sqrt_uint]. *)
Definition sqrt_step (y sqrt : Z) : outcome Z :=
  q ← u256_div y sqrt;
  u256_div (u256_add sqrt q) 2.

Fixpoint sqrt_loop (n : nat) (y sqrt : Z) : outcome Z :=
  match n with
  | O => Ok sqrt
  | S n => sqrt ← sqrt_step y sqrt; sqrt_loop n y sqrt
  end.

Definition sqrt_uint (x : Z) : outcome Z :=
  let y := u256_mul (u256_mul x SCALE) SCALE in
  sqrt ← u256_div y 2;
  GetLow64 <$> sqrt_loop SQRT_ITERATIONS y sqrt.

Definition to_uint (x : Z) : Z := x / SCALE.
Definition to_ufp64 (x : Z) : Z := uint64 (x * SCALE).

(** ** Exactness and rounding *)

Lemma u256_div_Ok a b : b ≠ 0 → u256_div a b = Ok (a / b).
Proof. intros. unfold u256_div. by rewrite decide_False. Qed.

Lemma uint256_small z : 0 ≤ z < 2 ^ 256 → uint256 z = z.
Proof. apply Z.mod_small. Qed.

Lemma u256_mul_64 x y : is_uint64 x → is_uint64 y → u256_mul x y = x * y.
Proof. unfold is_uint64. intros. apply uint256_small. nia. Qed.

Lemma u256_mul_SCALE x : is_uint64 x → u256_mul x SCALE = x * SCALE.
Proof. unfold is_uint64, SCALE. intros. apply uint256_small. lia. Qed.

(** Every operation returns a 64-bit value, and the products never fail. *)
Lemma GetLow64_range (o : outcome Z) z : GetLow64 <$> o = Ok z → is_uint64 z.
Proof. destruct o; intros [= <-]. apply uint64_range. Qed.

Lemma mul_Ok x y : ∃ z, mul x y = Ok z ∧ is_uint64 z.
Proof. eexists; split; [by unfold mul; rewrite u256_div_Ok|apply uint64_range]. Qed.

Lemma mul_to_uint_Ok x y : ∃ z, mul_to_uint x y = Ok z ∧ is_uint64 z.
Proof. eexists; split; [by unfold mul_to_uint; rewrite u256_div_Ok|apply uint64_range]. Qed.

Lemma mul_to_uint_spec x y :
  is_uint64 x → is_uint64 y → mul_to_uint x y = Ok (uint64 (x * y / SCALE)).
Proof.
  intros. unfold mul_to_uint. rewrite u256_mul_64 by done.
  by rewrite u256_div_Ok.
Qed.

Lemma mul_to_uint_bounds x y :
  is_uint64 x → is_uint64 y → x ≤ SCALE → 
  mul_to_uint x y = Ok (x * y / SCALE) ∧ 0 ≤ x * y / SCALE ≤ y.
Proof.
  intros Hx Hy Hle. rewrite mul_to_uint_spec by done.
  assert (0 ≤ x * y / SCALE ≤ y).
  { unfold is_uint64, SCALE in *. split.
    - apply Z.div_pos; [nia|lia].
    - apply Z.div_le_upper_bound; nia. }
  split; [|done]. f_equal. apply uint64_small. unfold is_uint64 in *. lia.
Qed.

Lemma div_to_uint_spec x y :
  is_uint64 x → y ≠ 0 → div_to_uint x y = Ok (uint64 (x * SCALE / y)).
Proof.
  intros. unfold div_to_uint. rewrite u256_mul_SCALE by done.
  by rewrite u256_div_Ok.
Qed.

Lemma div_2uint_spec x y :
  is_uint64 x → y ≠ 0 → div_2uint x y = Ok (uint64 (x * SCALE / y)).
Proof.
  intros. unfold div_2uint. rewrite u256_mul_SCALE by done.
  by rewrite u256_div_Ok.
Qed.

Lemma u256_div_no_abort a b : no_abort (u256_div a b).
Proof. unfold u256_div. case_decide; [apply no_abort_UintError|apply no_abort_Ok]. Qed.

Lemma div_no_abort x y : no_abort (div x y).
Proof. apply no_abort_fmap, u256_div_no_abort. Qed.

Lemma div_to_uint_no_abort x y : no_abort (div_to_uint x y).
Proof. apply no_abort_fmap, u256_div_no_abort. Qed.

Lemma div_2uint_no_abort x y : no_abort (div_2uint x y).
Proof. apply no_abort_fmap, u256_div_no_abort. Qed.

Lemma sqrt_uint_no_abort x : no_abort (sqrt_uint x).
Proof.
  unfold sqrt_uint. apply no_abort_bind; [apply u256_div_no_abort|]. intros s _.
  apply no_abort_fmap. generalize (u256_mul (u256_mul x SCALE) SCALE). intros y.
  induction SQRT_ITERATIONS as [|n IH] in s |- *; [apply no_abort_Ok|].
  apply no_abort_bind; [|by intros; apply IH].
  apply no_abort_bind; intros; apply u256_div_no_abort.
Qed.

(** ** Convergence of the square root *)

(** The round as a function on unbounded integers. *)
Definition babylonian (y s : Z) : Z := (s + y / s) / 2.

Lemma sqrt_step_value y s :
  0 < s → 0 ≤ y → s + y < 2 ^ 256 → sqrt_step y s = Ok (babylonian y s).
Proof.
  intros Hs Hy Hlt. unfold sqrt_step.
  rewrite u256_div_Ok by lia. cbn. rewrite u256_div_Ok by lia.
  unfold u256_add, babylonian. rewrite uint256_small; [done|].
  assert (0 ≤ y / s ≤ y); [|lia]. split; [apply Z.div_pos; lia|].
  apply Z.div_le_upper_bound; [lia|]. clear Hlt. nia.
Qed.

(** A round never falls below the root ... *)
Lemma babylonian_lower y s : 0 < s → 0 ≤ y → Z.sqrt y ≤ babylonian y s.
Proof.
  intros Hs Hy. unfold babylonian.
  apply Z.div_le_lower_bound; [lia|].
  destruct (Z.sqrt_spec y Hy) as [Hr _]. set (r := Z.sqrt y) in *.
  assert (2 * r - s ≤ y / s); [|lia].
  apply Z.div_le_lower_bound; [lia|].
  pose proof (Z.square_nonneg (r - s)). nia.
Qed.

(** ... and squares the distance to it. *)
Lemma babylonian_upper y s R :
  0 < s → 0 ≤ y → y ≤ R * R → 2 * s * (babylonian y s - R) ≤ (s - R) * (s - R).
Proof.
  intros Hs Hy HR. unfold babylonian.
  assert (2 * ((s + y / s) / 2) ≤ s + y / s) by (apply Z.mul_div_le; lia).
  assert (s * (y / s) ≤ y) by (apply Z.mul_div_le; lia).
  nia.
Qed.

(** The distance relative to the root, in units of 1/K, is bounded by a
    sequence that depends on neither the root nor the argument. *)
Definition rel_step (K a : Z) : Z := a * a / (2 * (K + a)) + 1.

Lemma babylonian_rel K a y s R :
  0 < K → 0 ≤ a → 0 < s → 0 < R → 0 ≤ y → y ≤ R * R → R - 1 ≤ s →
  (s - R) * K ≤ a * R → (babylonian y s - R) * K ≤ rel_step K a * R.
Proof.
  intros HK Ha Hs HR Hy HyR HsR Hd.
  pose proof (babylonian_upper y s R Hs Hy HyR) as Hup.
  set (d' := babylonian y s - R) in *. set (G := rel_step K a).
  assert (HG : a * a ≤ G * (2 * (K + a))).
  { subst G. unfold rel_step.
    pose proof (Z.mul_succ_div_gt (a * a) (2 * (K + a))). lia. }
  assert (0 ≤ G) by (subst G; unfold rel_step;
    assert (0 ≤ a * a / (2 * (K + a))) by (apply Z.div_pos; nia); lia).
  destruct (decide (d' ≤ 0)) as [|Hpos].
  { transitivity 0; [by apply Z.mul_nonpos_nonneg; lia|].
    by apply Z.mul_nonneg_nonneg; lia. }
  assert (Hd0 : 0 ≤ s - R).
  { destruct (decide (s = R - 1)) as [->|]; [|lia]. nia. }
  set (d := s - R) in *. replace s with (d + R) in * by lia.
  clearbody d d' G.
  assert (HdK : d * K * (d * K) ≤ a * R * (a * R)) by nia.
  assert (Hda : d * (d * K * a) ≤ d * (a * R * a)).
  { apply Z.mul_le_mono_nonneg_l; [lia|]. by apply Z.mul_le_mono_nonneg_r. }
  assert (Hkey : d * d * K * (K + a) ≤ a * a * (R * (d + R))) by nia.
  assert (Hkey2 : d * d * K * (K + a) ≤ G * (2 * (K + a)) * (R * (d + R))).
  { etrans; [exact Hkey|]. apply Z.mul_le_mono_nonneg_r; nia. }
  assert (Hkey3 : d * d * K ≤ G * R * (2 * (d + R))).
  { apply (Z.mul_le_mono_pos_r _ _ (K + a)); lia. }
  apply (Z.mul_le_mono_pos_r _ _ (2 * (d + R))); [lia|].
  transitivity (d * d * K); [|lia]. nia.
Qed.

Fixpoint rel_iter (n : nat) (K a : Z) : Z :=
  match n with O => a | S n => rel_iter n K (rel_step K a) end.

Lemma rel_step_nonneg K a : 0 < K → 0 ≤ a → 0 ≤ rel_step K a.
Proof.
  intros. unfold rel_step.
  assert (0 ≤ a * a / (2 * (K + a))) by (apply Z.div_pos; nia). lia.
Qed.

Lemma babylonian_le y s : 0 < s ≤ y → babylonian y s ≤ y.
Proof.
  intros Hs. unfold babylonian. apply Z.div_le_upper_bound; [lia|].
  assert (y / s ≤ y); [|lia]. apply Z.div_le_upper_bound; [lia|]. nia.
Qed.

Lemma sqrt_loop_rel n K a y s :
  0 < K → 0 ≤ a → 0 < y < 2 ^ 255 → Z.sqrt y ≤ s ≤ y →
  (s - (Z.sqrt y + 1)) * K ≤ a * (Z.sqrt y + 1) →
  ∃ s', sqrt_loop n y s = Ok s' ∧ Z.sqrt y ≤ s' ≤ y ∧
        (s' - (Z.sqrt y + 1)) * K ≤ rel_iter n K a * (Z.sqrt y + 1).
Proof.
  intros HK Ha Hy. revert a s Ha. induction n as [|n IH]; intros a s Ha Hs Hd.
  { exists s. cbn. auto. }
  assert (0 < Z.sqrt y) by (apply Z.sqrt_pos; lia).
  cbn [sqrt_loop rel_iter]. rewrite sqrt_step_value by lia. cbn.
  apply IH; [by apply rel_step_nonneg| |].
  - split; [apply babylonian_lower; lia|apply babylonian_le; lia].
  - destruct (Z.sqrt_spec y) as [_ Hup]; [lia|].
    apply babylonian_rel; lia.
Qed.

(** Sixty rounds are enough: the bound on the relative distance, computed in
    units of 2^-90, is below one unit of the root for every [x ≤ 10^18]. *)
Definition SQRT_RANGE : Z := 10 ^ 18.
Definition sqrt_range_root : Z := Z.sqrt (SQRT_RANGE * SCALE * SCALE) + 1.

Lemma rel_iter_60 :
  rel_iter SQRT_ITERATIONS (2 ^ 90) (2 ^ 89 * sqrt_range_root) * sqrt_range_root < 2 ^ 90.
Proof. vm_compute. reflexivity. Qed.

Lemma sqrt_loop_60 x :
  1 ≤ x ≤ SQRT_RANGE →
  let y := x * SCALE * SCALE in
  ∃ s, sqrt_loop SQRT_ITERATIONS y (y / 2) = Ok s ∧ Z.sqrt y ≤ s ≤ Z.sqrt y + 1.
Proof.
  intros Hx y. assert (Hy : 10 ^ 16 ≤ y ≤ 10 ^ 34).
  { subst y. unfold SQRT_RANGE, SCALE in *. lia. }
  set (R := Z.sqrt y + 1).
  assert (HR : 0 < R ≤ sqrt_range_root).
  { subst R. unfold sqrt_range_root. pose proof (Z.sqrt_nonneg y).
    pose proof (Z.sqrt_le_mono y (SQRT_RANGE * SCALE * SCALE)).
    subst y. unfold SQRT_RANGE, SCALE in *. lia. }
  destruct (Z.sqrt_spec y) as [Hlo Hup]; [lia|].
  destruct (sqrt_loop_rel SQRT_ITERATIONS (2 ^ 90) (2 ^ 89 * sqrt_range_root) y (y / 2))
    as (s & Hs & Hbnd & Hd); [lia|nia|lia| | |].
  - assert (10 ^ 8 ≤ Z.sqrt y) by (apply Z.sqrt_le_square; lia).
    split; [apply Z.div_le_lower_bound; [lia|nia]|].
    apply Z.div_le_upper_bound; lia.
  - assert (2 * (y / 2) ≤ y) by (apply Z.mul_div_le; lia).
    fold R. assert (y ≤ R * sqrt_range_root) by (subst R; nia). nia.
  - exists s. split; [done|]. fold R in Hd. pose proof rel_iter_60 as H60.
    set (a := rel_iter _ _ _) in *. clearbody a.
    split; [lia|]. fold R.
    destruct (decide (s ≤ R)) as [|Hgt]; [done|exfalso].
    assert (1 * 2 ^ 90 ≤ (s - R) * 2 ^ 90) by (apply Z.mul_le_mono_nonneg_r; lia).
    assert (a * R ≤ a * sqrt_range_root); [|lia].
    apply Z.mul_le_mono_nonneg_l; nia.
Qed.

Lemma sqrt_uint_root x :
  1 ≤ x ≤ SQRT_RANGE →
  ∃ s, sqrt_uint x = Ok s ∧
       Z.sqrt (x * SCALE * SCALE) ≤ s ≤ Z.sqrt (x * SCALE * SCALE) + 1.
Proof.
  intros Hx. destruct (sqrt_loop_60 x Hx) as (s & Hs & Hb). cbn zeta in *.
  assert (Hlt : Z.sqrt (x * SCALE * SCALE) ≤ 10 ^ 17).
  { transitivity (Z.sqrt (10 ^ 34)); [|by vm_compute].
    apply Z.sqrt_le_mono. unfold SQRT_RANGE, SCALE in *. lia. }
  exists s. split; [|done]. unfold sqrt_uint.
  rewrite (u256_mul_SCALE x) by (unfold is_uint64, SQRT_RANGE in *; lia).
  unfold u256_mul. rewrite uint256_small by (unfold SQRT_RANGE, SCALE in *; lia).
  rewrite u256_div_Ok by lia. cbn [mbind outcome_bind]. rewrite Hs. cbn.
  f_equal. apply uint64_small. unfold is_uint64.
  pose proof (Z.sqrt_nonneg (x * SCALE * SCALE)). lia.
Qed.

(** [sqrt_uint(x)] terminates with the integer square root of
    [x * 10^16], or the integer above it, for every amount up to 10^18. *)
Theorem sqrt_uint_correct x :
  1 ≤ x ≤ SQRT_RANGE →
  ∃ s, sqrt_uint x = Ok s ∧
       Z.sqrt (x * SCALE * SCALE) ≤ s ≤ Z.sqrt (x * SCALE * SCALE) + 1.
Proof. apply sqrt_uint_root. Qed.

(** ** Conversions *)

(** An integer survives the conversion to fixed point and back as long as
    the fixed-point value fits 64 bits, and dividing by a literal and
    multiplying again loses at most the rounding. *)
Theorem ufp64_roundtrip x y :
  0 ≤ x → x * SCALE < 2 ^ 64 → 0 < y < 2 ^ 64 → x ≤ y →
  to_uint (to_ufp64 x) = x ∧
  ∃ q z, div_2uint x y = Ok q ∧ mul_to_uint q y = Ok z ∧ x - y / SCALE - 1 ≤ z ≤ x.
Proof.
  intros Hx Hxs Hy Hxy. unfold SCALE in Hxs. split.
  - unfold to_uint, to_ufp64. rewrite uint64_small by (unfold is_uint64, SCALE; lia).
    by apply Z.div_mul.
  - set (q := x * SCALE / y).
    assert (0 ≤ q ≤ SCALE) as Hq.
    { subst q. split; [apply Z.div_pos; unfold SCALE; lia|].
      apply Z.div_le_upper_bound; unfold SCALE in *; nia. }
    exists q, (q * y / SCALE).
    rewrite div_2uint_spec by (unfold is_uint64; lia).
    rewrite uint64_small by (unfold is_uint64, SCALE in *; lia). split; [done|].
    destruct (mul_to_uint_bounds q y) as [-> _]; [unfold is_uint64, SCALE in *; lia..|].
    split; [done|].
    pose proof (Z.mul_div_le (x * SCALE) y ltac:(lia)) as Hle. fold q in Hle.
    pose proof (Z.mul_succ_div_gt (x * SCALE) y ltac:(lia)) as Hgt. fold q in Hgt.
    pose proof (Z.mul_succ_div_gt y SCALE eq_refl) as Hs.
    split; [apply Z.div_le_lower_bound|apply Z.div_le_upper_bound]; unfold SCALE in *; lia.
Qed.

Lemma ufp64_roundtrip_witness :
  to_uint (to_ufp64 2) = 2 ∧
  ∃ q z, div_2uint 2 100000 = Ok q ∧ mul_to_uint q 100000 = Ok z ∧ 2 - 100000 / SCALE - 1 ≤ z ≤ 2.
Proof. apply (ufp64_roundtrip 2 100000); by vm_compute. Defined.

(** [add_uint] multiplies in 32 bits: it adds the integer exactly up to
    42 and is wrong, even modulo 2^64, for every larger one. *)
Theorem add_uint_wraps_at_43 ufp uint :
  is_uint64 ufp → is_uint32 uint →
  (add_uint ufp uint = uint64 (ufp + uint * SCALE) ↔ uint ≤ 42).
Proof.
  unfold is_uint64, is_uint32. intros Hu Hi. unfold add_uint. split.
  - intros Heq. assert (uint32 (uint * SCALE) ≡₆₄ uint * SCALE) as Hm.
    { assert (uint32 (uint * SCALE) + ufp ≡₆₄ ufp + uint * SCALE) as Hs.
      { rewrite <- (eqm64_uint64 (_ + ufp)), Heq. apply eqm64_uint64. }
      transitivity (uint32 (uint * SCALE) + ufp - ufp); [apply eqm64_of_eq; lia|].
      rewrite Hs. apply eqm64_of_eq. lia. }
    pose proof (uint32_range (uint * SCALE)) as Hr. unfold is_uint32 in Hr.
    apply eqm64_eq_uint64 in Hm; unfold is_uint64, SCALE in *; lia.
  - intros Hle. rewrite (uint32_small (uint * SCALE)) by (unfold is_uint32, SCALE; lia).
    f_equal. lia.
Qed.

Lemma add_uint_wraps_at_43_witness : add_uint 5 42 = uint64 (5 + 42 * SCALE) ↔ 42 ≤ 42.
Proof. apply (add_uint_wraps_at_43 5 42); by vm_compute. Defined.

Lemma sqrt_uint_correct_witness :
  ∃ s, sqrt_uint (2718275100 * SCALE) = Ok s ∧
       Z.sqrt (2718275100 * SCALE * SCALE * SCALE) ≤ s
         ≤ Z.sqrt (2718275100 * SCALE * SCALE * SCALE) + 1.
Proof. apply (sqrt_uint_correct (2718275100 * SCALE)). by vm_compute. Defined.
