(* ===== verification/ArithUint256.v ===== *)
(** * 256-bit unsigned integers: src/src/arith_uint256.h, arith_uint256.cpp

    Eight 32-bit words, the least significant first, with the schoolbook
    algorithms on them, and the compact form of difficulty targets.  The word
    algorithms are shown to compute the operations of integers modulo 2^256;
    the compact form keeps the three leading bytes. *)
From S2P Require Import Prelude Serialize.

Definition WIDTH : nat := 8.

(** The array [pn]. *)
Abbreviation base_uint := (list Z).

Definition base_uint_zero : base_uint := replicate WIDTH 0.

(** From a [uint64_t]. *)
Definition base_uint_new (b : Z) : base_uint :=
  uint32 b :: uint32 (Z.shiftr b 32) :: replicate (WIDTH - 2) 0.

(** ** Complement, increment, addition *)

Definition op_not (a : base_uint) : base_uint := (λ w, uint32 (Z.lnot w)) <$> a.

Fixpoint op_incr (a : base_uint) : base_uint :=
  match a with
  | [] => []
  | w :: a => let w := uint32 (w + 1) in w :: (if decide (w = 0) then op_incr a else a)
  end.

Definition op_neg (a : base_uint) : base_uint := op_incr (op_not a).

(** The loop of [operator+=]; [n] is a [uint64_t]. *)
Fixpoint add_words (carry : Z) (a b : base_uint) : base_uint :=
  match a, b with
  | v :: a, w :: b =>
      let n := uint64 (carry + v + w) in
      Z.land n 0xffffffff :: add_words (Z.shiftr n 32) a b
  | _, _ => []
  end.

Definition op_add (a b : base_uint) : base_uint := add_words 0 a b.

Definition op_sub (a b : base_uint) : base_uint := op_add a (op_neg b).

(** ** Multiplication *)

Fixpoint mul_words32 (b32 carry : Z) (a : base_uint) : base_uint :=
  match a with
  | [] => []
  | w :: a =>
      let n := uint64 (carry + b32 * w) in
      Z.land n 0xffffffff :: mul_words32 b32 (Z.shiftr n 32) a
  end.

Definition op_mul32 (a : base_uint) (b32 : Z) : base_uint := mul_words32 b32 0 a.

(** The inner loop of [operator*=] for the word [v] at [j]: [acc] is [a.pn]
    from [j] on. *)
Fixpoint mul_row (v carry : Z) (acc b : base_uint) : base_uint :=
  match acc, b with
  | x :: acc, w :: b =>
      let n := uint64 (carry + x + v * w) in
      Z.land n 0xffffffff :: mul_row v (Z.shiftr n 32) acc b
  | _, _ => []
  end.

(** The outer loop; a word of the result is final after its own round. *)
Fixpoint mul_rows (pn acc b : base_uint) : base_uint :=
  match pn with
  | [] => []
  | v :: pn =>
      match mul_row v 0 acc b with
      | [] => []
      | x :: acc => x :: mul_rows pn acc b
      end
  end.

Definition op_mul (a b : base_uint) : base_uint := mul_rows a base_uint_zero b.

(** ** Shifts *)

Definition or_word (i : nat) (v : Z) (pn : base_uint) : base_uint := alter (λ w, Z.lor w v) i pn.

Definition shl_step (a : base_uint) (k : nat) (shift : Z) (pn : base_uint) (i : nat) : base_uint :=
  let pn :=
    if bool_decide (i + k + 1 < WIDTH)%nat && bool_decide (shift ≠ 0)
    then or_word (i + k + 1) (Z.shiftr (a !!! i) (32 - shift)) pn else pn in
  if bool_decide (i + k < WIDTH)%nat then or_word (i + k) (uint32 (Z.shiftl (a !!! i) shift)) pn
  else pn.

Definition op_shl (a : base_uint) (shift : Z) : base_uint :=
  let k := Z.to_nat (shift / 32) in
  foldl (shl_step a k (shift mod 32)) base_uint_zero (seq 0 WIDTH).

Definition shr_step (a : base_uint) (k : nat) (shift : Z) (pn : base_uint) (i : nat) : base_uint :=
  let pn :=
    if bool_decide (k + 1 ≤ i)%nat && bool_decide (shift ≠ 0)
    then or_word (i - k - 1) (uint32 (Z.shiftl (a !!! i) (32 - shift))) pn else pn in
  if bool_decide (k ≤ i)%nat then or_word (i - k) (Z.shiftr (a !!! i) shift) pn else pn.

Definition op_shr (a : base_uint) (shift : Z) : base_uint :=
  let k := Z.to_nat (shift / 32) in
  foldl (shr_step a k (shift mod 32)) base_uint_zero (seq 0 WIDTH).

(** ** Comparison and length *)

(** The words from the most significant one down. *)
Fixpoint compare_words (a b : base_uint) : Z :=
  match a, b with
  | v :: a, w :: b => if decide (v < w) then -1 else if decide (w < v) then 1 else compare_words a b
  | _, _ => 0
  end.

Definition CompareTo (a b : base_uint) : Z := compare_words (reverse a) (reverse b).

Definition EqualTo (a : base_uint) (b : Z) : bool :=
  forallb (λ w, bool_decide (w = 0)) (drop 2 a) &&
  bool_decide (a !!! 1%nat = Z.shiftr b 32) && bool_decide (a !!! 0%nat = Z.land b 0xffffffff).

(** The loop over [nbits]. *)
Fixpoint top_bit (nbits : nat) (w : Z) : Z :=
  match nbits with
  | O => 1
  | S n => if decide (Z.land w (Z.shiftl 1 (Z.of_nat nbits)) ≠ 0) then Z.of_nat nbits + 1 else top_bit n w
  end.

Fixpoint bits_words (a : base_uint) : Z :=
  match a with
  | [] => 0
  | w :: a => if decide (w ≠ 0) then 32 * Z.of_nat (length a) + top_bit 31 w else bits_words a
  end.

Definition bits (a : base_uint) : Z := bits_words (reverse a).

Definition GetLow64 (a : base_uint) : Z := Z.lor (a !!! 0%nat) (Z.shiftl (a !!! 1%nat) 32).

(** ** Division *)

(** The [while] loop from [shift] down to 0. *)
Fixpoint div_loop (shift : nat) (num div quotient : base_uint) : base_uint :=
  let '(num, quotient) :=
    if decide (0 ≤ CompareTo num div)
    then (op_sub num div, or_word (shift / 32) (Z.shiftl 1 (Z.land (Z.of_nat shift) 31)) quotient)
    else (num, quotient) in
  match shift with
  | O => quotient
  | S shift => div_loop shift num (op_shr div 1) quotient
  end.

Definition op_div (a b : base_uint) : outcome base_uint :=
  let num_bits := bits a in
  let div_bits := bits b in
  if decide (div_bits = 0) then Raise UintError
  else if decide (num_bits < div_bits) then Ok base_uint_zero
  else
    let shift := num_bits - div_bits in
    Ok (div_loop (Z.to_nat shift) a (op_shl b shift) base_uint_zero).

(** ** The compact form *)

(** The value, [*pfNegative] and [*pfOverflow]. *)
Definition SetCompact (nCompact : Z) : base_uint * bool * bool :=
  let nSize := Z.shiftr nCompact 24 in
  let nWord := Z.land nCompact 0x007fffff in
  let '(value, nWord) :=
    if decide (nSize ≤ 3)
    then let nWord := Z.shiftr nWord (8 * (3 - nSize)) in (base_uint_new nWord, nWord)
    else (op_shl (base_uint_new nWord) (8 * (nSize - 3)), nWord) in
  (value,
   bool_decide (nWord ≠ 0) && bool_decide (Z.land nCompact 0x00800000 ≠ 0),
   bool_decide (nWord ≠ 0) &&
     (bool_decide (34 < nSize) || (bool_decide (0xff < nWord) && bool_decide (33 < nSize)) ||
      (bool_decide (0xffff < nWord) && bool_decide (32 < nSize)))).

Definition GetCompact (a : base_uint) (fNegative : bool) : outcome Z :=
  let nSize := (bits a + 7) / 8 in
  let nCompact :=
    if decide (nSize ≤ 3) then uint32 (uint64 (Z.shiftl (GetLow64 a) (8 * (3 - nSize))))
    else uint32 (GetLow64 (op_shr a (8 * (nSize - 3)))) in
  let '(nCompact, nSize) :=
    if decide (Z.land nCompact 0x00800000 ≠ 0) then (Z.shiftr nCompact 8, nSize + 1)
    else (nCompact, nSize) in
  _ ← cpp_assert (bool_decide (Z.land nCompact (Z.lnot 0x007fffff) = 0));
  _ ← cpp_assert (bool_decide (nSize < 256));
  let nCompact := Z.lor nCompact (uint32 (Z.shiftl nSize 24)) in
  Ok (Z.lor nCompact
        (if fNegative && bool_decide (Z.land nCompact 0x007fffff ≠ 0) then 0x00800000 else 0)).

(** ** From and to [uint256] *)

(** [ReadLE32] on the bytes from [4 * x] on. *)
Fixpoint read_words (n : nat) (bs : bytes) : base_uint :=
  match n with
  | O => []
  | S n => le_value (take 4 bs) :: read_words n (drop 4 bs)
  end.

Definition UintToArith256 (a : Z) : base_uint := read_words WIDTH (be_bytes 32 a).

Definition ArithToUint256 (a : base_uint) : Z := be_value (concat (le_bytes 4 <$> a)).

(** [CompareAsNumber] of [base_blob], on the bytes from the last one down. *)
Definition CompareAsNumber (a b : Z) : Z :=
  compare_words (reverse (be_bytes 32 a)) (reverse (be_bytes 32 b)).

(** ** The number the words stand for *)

Fixpoint words_value (a : base_uint) : Z :=
  match a with [] => 0 | w :: a => w + 2 ^ 32 * words_value a end.

Definition modulus (a : base_uint) : Z := 2 ^ (32 * Z.of_nat (length a)).

Record is_arith (a : base_uint) : Prop := {
  arith_length : length a = WIDTH;
  arith_words : Forall is_uint32 a;
}.

Lemma modulus_cons w a : modulus (w :: a) = 2 ^ 32 * modulus a.
Proof. unfold modulus. cbn [length]. rewrite <- Z.pow_add_r by lia. f_equal. lia. Qed.

Lemma modulus_pos a : 0 < modulus a.
Proof. apply Z.pow_pos_nonneg; lia. Qed.

Lemma words_value_range a : Forall is_uint32 a → 0 ≤ words_value a < modulus a.
Proof.
  unfold is_uint32. induction 1 as [|w a Hw _ IH]; [done|]. rewrite modulus_cons. cbn [words_value]. nia.
Qed.

Lemma words_value_mod a : Forall is_uint32 a → words_value a mod modulus a = words_value a.
Proof. intros Ha. apply Z.mod_small, words_value_range, Ha. Qed.

Lemma words_value_app a b : words_value (a ++ b) = words_value a + modulus a * words_value b.
Proof.
  induction a as [|w a IH]; cbn [words_value app].
  - change (modulus []) with 1. lia.
  - rewrite IH, modulus_cons. lia.
Qed.

Lemma words_value_zeros n : words_value (replicate n 0) = 0.
Proof. induction n as [|n IH]; cbn [replicate words_value]; [done|]. rewrite IH. lia. Qed.

Lemma modulus_arith a : is_arith a → modulus a = 2 ^ 256.
Proof. intros [Hl _]. unfold modulus. by rewrite Hl. Qed.

Lemma is_arith_zero : is_arith base_uint_zero.
Proof. split; [done|]. apply Forall_replicate. unfold is_uint32. lia. Qed.

Lemma words_value_arith a : is_arith a → 0 ≤ words_value a < 2 ^ 256.
Proof. intros Ha. rewrite <- (modulus_arith a) by done. apply words_value_range, Ha. Qed.

Lemma words_value_inj a b :
  length a = length b → Forall is_uint32 a → Forall is_uint32 b → words_value a = words_value b → a = b.
Proof.
  unfold is_uint32. revert b. induction a as [|v a IH]; intros [|w b] Hl Ha Hb; try discriminate; [done|].
  apply Forall_cons in Ha as [Hv Ha], Hb as [Hw Hb]. cbn [words_value]. intros E.
  assert (v = w ∧ words_value a = words_value b) as [-> ?] by lia. f_equal. apply IH; auto.
Qed.

(** Splitting a sum into a word and its carry. *)
Lemma low_word n : Z.land n 0xffffffff = n mod 2 ^ 32.
Proof. apply (Z.land_ones n 32). lia. Qed.

Lemma carry_word n : Z.shiftr n 32 = n / 2 ^ 32.
Proof. apply Z.shiftr_div_pow2. lia. Qed.

Lemma carry_mod n r M : 0 < M → n mod 2 ^ 32 + 2 ^ 32 * ((n / 2 ^ 32 + r) mod M) = (n + 2 ^ 32 * r) mod (2 ^ 32 * M).
Proof.
  intros HM. rewrite Z.rem_mul_r by lia.
  rewrite (Z.mul_comm _ r), Z.mod_add, Z.div_add by lia. done.
Qed.

(** *** Addition *)

Lemma add_words_spec a b c :
  length a = length b → Forall is_uint32 a → Forall is_uint32 b → 0 ≤ c < 2 ^ 32 →
  words_value (add_words c a b) = (c + words_value a + words_value b) mod modulus a ∧
  length (add_words c a b) = length a ∧ Forall is_uint32 (add_words c a b).
Proof.
  unfold is_uint32. revert b c.
  induction a as [|v a IH]; intros [|w b] c Hl Ha Hb Hc; try discriminate;
    [rewrite Z.mod_1_r; auto|].
  apply Forall_cons in Ha as [Hv Ha], Hb as [Hw Hb]. cbn [words_value add_words length].
  rewrite low_word, carry_word, uint64_small by (unfold is_uint64; lia).
  destruct (IH b ((c + v + w) / 2 ^ 32)) as (E & Hlen & Hall); [auto..|split; [apply Z.div_pos; lia|apply Z.div_lt_upper_bound; lia]|].
  rewrite E, Hlen, modulus_cons. split_and!; [|done|].
  - rewrite <- (Z.add_assoc (_ `div` _)), carry_mod by apply modulus_pos. f_equal. lia.
  - constructor; [|done]. apply Z.mod_pos_bound. lia.
Qed.

Lemma op_not_spec a : Forall is_uint32 a →
  words_value (op_not a) = modulus a - 1 - words_value a ∧
  length (op_not a) = length a ∧ Forall is_uint32 (op_not a).
Proof.
  unfold is_uint32, op_not. induction 1 as [|w a Hw Ha (E & Hl & Hall)]; [done|].
  rewrite modulus_cons, fmap_cons. cbn [words_value length]. rewrite E, Hl.
  assert (uint32 (Z.lnot w) = 2 ^ 32 - 1 - w) as Ew.
  { unfold uint32. rewrite <- (Z.mod_add _ 1) by lia. rewrite Z.mod_small; unfold Z.lnot; lia. }
  split_and!; [lia|done|]. constructor; [lia|done].
Qed.

Lemma op_incr_spec a : Forall is_uint32 a →
  words_value (op_incr a) = (words_value a + 1) mod modulus a ∧
  length (op_incr a) = length a ∧ Forall is_uint32 (op_incr a).
Proof.
  induction 1 as [|w a Hw Ha (E & Hl & Hall)]; [done|].
  rewrite modulus_cons. cbn [op_incr words_value]. pose proof (uint32_range (w + 1)) as Hw'.
  pose proof (words_value_range a Ha) as Hr. unfold is_uint32 in *. case_decide as H0; cbn [length words_value].
  - rewrite E, Hl. assert (w = 2 ^ 32 - 1) as ->.
    { unfold uint32 in H0. apply Z.mod_divide in H0 as [k Hk]; lia. }
    split_and!; [|done|by constructor]. rewrite H0.
    replace (2 ^ 32 - 1 + 2 ^ 32 * words_value a + 1) with (2 ^ 32 * (words_value a + 1)) by lia.
    rewrite Z.mul_mod_distr_l by (pose proof (modulus_pos a); lia). lia.
  - assert (w + 1 < 2 ^ 32) as Hlt.
    { destruct (decide (w + 1 = 2 ^ 32)) as [Ew|]; [|lia]. unfold uint32 in H0. by rewrite Ew in H0. }
    rewrite uint32_small in * by (unfold is_uint32; lia).
    split_and!; [|done|by constructor]. rewrite Z.mod_small; nia.
Qed.

Lemma op_neg_spec a : Forall is_uint32 a →
  words_value (op_neg a) = (- words_value a) mod modulus a ∧
  length (op_neg a) = length a ∧ Forall is_uint32 (op_neg a).
Proof.
  intros Ha. destruct (op_not_spec a Ha) as (E & Hl & Hall).
  destruct (op_incr_spec (op_not a) Hall) as (E' & Hl' & Hall').
  unfold op_neg. rewrite E', Hl', E. split_and!; [|done..].
  assert (modulus (op_not a) = modulus a) as -> by (unfold modulus; by rewrite Hl).
  rewrite <- (Z.mod_add (- words_value a) 1) by (pose proof (modulus_pos a); lia). f_equal. lia.
Qed.

Lemma op_add_spec a b : is_arith a → is_arith b →
  is_arith (op_add a b) ∧ words_value (op_add a b) = (words_value a + words_value b) mod 2 ^ 256.
Proof.
  intros Ha Hb. destruct (add_words_spec a b 0) as (E & Hl & Hall);
    [by rewrite (arith_length a), (arith_length b)|apply Ha|apply Hb|lia|].
  unfold op_add. rewrite E, (modulus_arith a Ha). split; [|f_equal; lia].
  split; [by rewrite Hl, (arith_length a)|done].
Qed.

Lemma op_neg_arith a : is_arith a →
  is_arith (op_neg a) ∧ words_value (op_neg a) = (- words_value a) mod 2 ^ 256.
Proof.
  intros Ha. destruct (op_neg_spec a) as (E & Hl & Hall); [apply Ha|].
  rewrite E, (modulus_arith a Ha). split; [|done]. split; [by rewrite Hl, (arith_length a)|done].
Qed.

Lemma op_sub_spec a b : is_arith a → is_arith b →
  is_arith (op_sub a b) ∧ words_value (op_sub a b) = (words_value a - words_value b) mod 2 ^ 256.
Proof.
  intros Ha Hb. destruct (op_neg_arith b Hb) as [Hn En]. destruct (op_add_spec a (op_neg b)) as [Hs Es]; [done..|].
  split; [done|]. unfold op_sub. rewrite Es, En, Zplus_mod_idemp_r. f_equal.
Qed.

(** *** Multiplication *)

Lemma mul_words32_spec a b32 c : Forall is_uint32 a → is_uint32 b32 → 0 ≤ c < 2 ^ 32 →
  words_value (mul_words32 b32 c a) = (c + b32 * words_value a) mod modulus a ∧
  length (mul_words32 b32 c a) = length a ∧ Forall is_uint32 (mul_words32 b32 c a).
Proof.
  unfold is_uint32. intros Ha Hb. revert c.
  induction Ha as [|w a Hw Ha IH]; intros c Hc; [by rewrite Z.mod_1_r|].
  cbn [words_value mul_words32 length].
  rewrite low_word, carry_word, uint64_small by (unfold is_uint64; nia).
  destruct (IH ((c + b32 * w) / 2 ^ 32)) as (E & Hl & Hall);
    [split; [apply Z.div_pos; nia|apply Z.div_lt_upper_bound; nia]|].
  rewrite E, Hl, modulus_cons. split_and!; [|done|].
  - rewrite carry_mod by apply modulus_pos. f_equal. lia.
  - constructor; [|done]. apply Z.mod_pos_bound. lia.
Qed.

Lemma mul_row_spec acc b v c : (length acc ≤ length b)%nat → Forall is_uint32 acc → Forall is_uint32 b →
  is_uint32 v → 0 ≤ c < 2 ^ 32 →
  words_value (mul_row v c acc b) = (c + words_value acc + v * words_value b) mod modulus acc ∧
  length (mul_row v c acc b) = length acc ∧ Forall is_uint32 (mul_row v c acc b).
Proof.
  unfold is_uint32. intros Hl Ha Hb Hv. revert b c Hl Hb.
  induction Ha as [|x acc Hx Ha IH]; intros [|w b] c Hl Hb Hc; cbn [length] in Hl; try lia;
    [by rewrite Z.mod_1_r..|].
  apply Forall_cons in Hb as [Hw Hb]. cbn [words_value mul_row length].
  rewrite low_word, carry_word, uint64_small by (unfold is_uint64; nia).
  destruct (IH b ((c + x + v * w) / 2 ^ 32)) as (E & Hlen & Hall);
    [lia|done|split; [apply Z.div_pos; nia|apply Z.div_lt_upper_bound; nia]|].
  rewrite E, Hlen, modulus_cons. split_and!; [|done|].
  - rewrite <- (Z.add_assoc (_ `div` _)), carry_mod by apply modulus_pos. f_equal. lia.
  - constructor; [|done]. apply Z.mod_pos_bound. lia.
Qed.

Lemma mul_rows_spec pn acc b : length pn = length acc → (length acc ≤ length b)%nat →
  Forall is_uint32 pn → Forall is_uint32 acc → Forall is_uint32 b →
  words_value (mul_rows pn acc b) = (words_value acc + words_value pn * words_value b) mod modulus acc ∧
  length (mul_rows pn acc b) = length acc ∧ Forall is_uint32 (mul_rows pn acc b).
Proof.
  intros Hl Hle Hp Ha Hb. revert acc Hl Hle Ha.
  induction Hp as [|v pn Hv Hp IH]; intros acc Hl Hle Ha; cbn [mul_rows words_value].
  { destruct acc; [|discriminate]. by rewrite Z.mod_1_r. }
  destruct (mul_row_spec acc b v 0) as (E & Hlr & Hall); [done..|lia|].
  destruct (mul_row v 0 acc b) as [|x acc'] eqn:Er; cbn [length words_value] in *; [lia|].
  apply Forall_cons in Hall as [Hx Hall'].
  destruct (IH acc') as (E' & Hl' & Hall''); [lia|lia|done|]. cbn [words_value length]. rewrite E', Hl'.
  assert (modulus acc = 2 ^ 32 * modulus acc') as HM.
  { rewrite <- (modulus_cons x). unfold modulus. cbn [length]. by rewrite Hlr. }
  split_and!; [|done|by constructor].
  transitivity ((x + 2 ^ 32 * (words_value acc' + words_value pn * words_value b)) mod modulus acc).
  - rewrite HM, <- carry_mod by apply modulus_pos. unfold is_uint32 in Hx.
    by rewrite (Z.mod_small x), (Z.div_small x) by lia.
  - replace (x + _) with ((x + 2 ^ 32 * words_value acc') + 2 ^ 32 * (words_value pn * words_value b)) by lia.
    rewrite E, Zplus_mod_idemp_l. f_equal. lia.
Qed.

Lemma op_mul_spec a b : is_arith a → is_arith b →
  is_arith (op_mul a b) ∧ words_value (op_mul a b) = (words_value a * words_value b) mod 2 ^ 256.
Proof.
  intros Ha Hb. destruct (mul_rows_spec a base_uint_zero b) as (E & Hl & Hall);
    [by rewrite (arith_length a)|by rewrite (arith_length b)|apply Ha|apply is_arith_zero|apply Hb|].
  unfold op_mul. rewrite E, (modulus_arith _ is_arith_zero). split; [by split|]. by f_equal.
Qed.

Lemma op_mul32_spec a b32 : is_arith a → is_uint32 b32 →
  is_arith (op_mul32 a b32) ∧ words_value (op_mul32 a b32) = (words_value a * b32) mod 2 ^ 256.
Proof.
  intros Ha Hb. destruct (mul_words32_spec a b32 0) as (E & Hl & Hall); [apply Ha|done|lia|].
  unfold op_mul32. rewrite E, (modulus_arith a Ha). split; [split; [by rewrite Hl, (arith_length a)|done]|].
  f_equal. lia.
Qed.

(** *** Comparison *)

Lemma compare_words_app a b v w : length a = length b →
  compare_words (a ++ [v]) (b ++ [w]) =
  if decide (compare_words a b = 0) then (if decide (v < w) then -1 else if decide (w < v) then 1 else 0)
  else compare_words a b.
Proof.
  revert b. induction a as [|x a IH]; intros [|y b] Hl; try discriminate; [done|].
  cbn [app compare_words]. rewrite IH by (cbn in Hl; lia). repeat case_decide; try done; lia.
Qed.

(** Comparing from the most significant digit compares the numbers. *)
Lemma compare_digits B (val : list Z → Z) a b :
  val [] = 0 → (∀ w a, val (w :: a) = w + B * val a) →
  length a = length b → Forall (λ w, 0 ≤ w < B) a → Forall (λ w, 0 ≤ w < B) b →
  compare_words (reverse a) (reverse b) = match val a ?= val b with Lt => -1 | Eq => 0 | Gt => 1 end.
Proof.
  intros H0 HS. revert b. induction a as [|v a IH]; intros [|w b] Hl Ha Hb; try discriminate; [by rewrite H0|].
  apply Forall_cons in Ha as [Hv Ha], Hb as [Hw Hb]. cbn in Hl.
  rewrite !reverse_cons, compare_words_app, IH by (rewrite ?length_reverse; auto). rewrite !HS.
  destruct (Z.compare_spec (val a) (val b)) as [E|E|E].
  - rewrite E. repeat case_decide; try lia; destruct (Z.compare_spec (v + B * val b) (w + B * val b)); lia.
  - case_decide; [lia|]. destruct (Z.compare_spec (v + B * val a) (w + B * val b)); nia.
  - case_decide; [lia|]. destruct (Z.compare_spec (v + B * val a) (w + B * val b)); nia.
Qed.

Lemma CompareTo_spec a b :
  length a = length b → Forall is_uint32 a → Forall is_uint32 b →
  CompareTo a b = match words_value a ?= words_value b with Lt => -1 | Eq => 0 | Gt => 1 end.
Proof. by apply (compare_digits (2 ^ 32) words_value). Qed.

Lemma CompareTo_le a b : is_arith a → is_arith b → 0 ≤ CompareTo a b ↔ words_value b ≤ words_value a.
Proof.
  intros Ha Hb. rewrite CompareTo_spec by (rewrite ?(arith_length a), ?(arith_length b); by auto using arith_words).
  destruct (Z.compare_spec (words_value a) (words_value b)); lia.
Qed.

Lemma EqualTo_spec a b : is_arith a → is_uint64 b → EqualTo a b = bool_decide (words_value a = b).
Proof.
  intros [Hl Ha] Hb. unfold EqualTo. rewrite low_word, carry_word.
  destruct a as [|x [|y a]]; try discriminate Hl.
  apply Forall_cons in Ha as [Hx Ha]. apply Forall_cons in Ha as [Hy Ha].
  pose proof (words_value_range a Ha) as Hr. unfold is_uint32, is_uint64 in *.
  cbn [words_value]. change (drop 2 (x :: y :: a)) with a. change ((x :: y :: a) !!! 0%nat) with x. change ((x :: y :: a) !!! 1%nat) with y.
  assert (forallb (λ w, bool_decide (w = 0)) a = bool_decide (words_value a = 0)) as ->.
  { clear -Ha. induction Ha as [|w a Hw Ha IH]; [done|]. cbn [forallb words_value]. rewrite IH.
    pose proof (words_value_range a Ha). unfold is_uint32 in Hw.
    repeat case_bool_decide; try done; cbn; lia. }
  pose proof (Z.div_mod b (2 ^ 32) ltac:(lia)). pose proof (Z.mod_pos_bound b (2 ^ 32) ltac:(lia)).
  repeat case_bool_decide; try done; cbn; exfalso; nia.
Qed.

(** *** Shifts *)

(** Shifting by less than a word, with the bits shifted in. *)
Fixpoint shl_words (s carry : Z) (a : base_uint) : base_uint :=
  match a with
  | [] => []
  | w :: a => Z.lor carry (uint32 (Z.shiftl w s)) :: shl_words s (Z.shiftr w (32 - s)) a
  end.

Lemma lor_disjoint x y s : 0 ≤ s → 0 ≤ y < 2 ^ s → Z.lor (x * 2 ^ s) y = x * 2 ^ s + y.
Proof.
  intros Hs Hy. rewrite <- Z.add_lor_land. enough (Z.land (x * 2 ^ s) y = 0) by lia.
  apply Z.bits_inj'. intros n Hn. rewrite Z.land_spec, Z.bits_0.
  destruct (decide (n < s)).
  - by rewrite Z.mul_pow2_bits_low.
  - destruct (decide (y = 0)) as [->|]; [by rewrite Z.bits_0, andb_false_r|].
    rewrite (Z.bits_above_log2 y), andb_false_r; [done|lia|].
    enough (Z.log2 y < s) by lia. apply Z.log2_lt_pow2; lia.
Qed.

Lemma shl_word w y s : 0 ≤ s < 32 → 0 ≤ y < 2 ^ s →
  Z.lor (uint32 (Z.shiftl w s)) y = (w * 2 ^ s) mod 2 ^ 32 + y.
Proof.
  intros Hs Hy. unfold uint32. rewrite Z.shiftl_mul_pow2 by lia.
  replace (2 ^ 32) with (2 ^ (32 - s) * 2 ^ s) by (rewrite <- Z.pow_add_r by lia; f_equal; lia).
  rewrite Z.mul_mod_distr_r by (apply Z.pow_nonzero; lia). apply lor_disjoint; lia.
Qed.

Lemma shl_words_spec s carry a : 0 ≤ s < 32 → 0 ≤ carry < 2 ^ s → Forall is_uint32 a →
  words_value (shl_words s carry a) = (words_value a * 2 ^ s + carry) mod modulus a ∧
  length (shl_words s carry a) = length a ∧ Forall is_uint32 (shl_words s carry a).
Proof.
  intros Hs Hc Ha. revert carry Hc. induction Ha as [|w a Hw Ha IH]; intros carry Hc; [by rewrite Z.mod_1_r|].
  cbn [shl_words words_value length]. rewrite Z.lor_comm, shl_word, Z.shiftr_div_pow2 by lia. unfold is_uint32 in Hw.
  assert (2 ^ 32 = 2 ^ s * 2 ^ (32 - s)) as E32 by (rewrite <- Z.pow_add_r by lia; f_equal; lia).
  assert (0 < 2 ^ s ∧ 0 < 2 ^ (32 - s)) as [Hps Hpr] by (split; apply Z.pow_pos_nonneg; lia).
  destruct (IH (w / 2 ^ (32 - s))) as (E & Hl & Hall);
    [split; [apply Z.div_pos; lia|apply Z.div_lt_upper_bound; lia]|].
  assert ((w * 2 ^ s) mod 2 ^ 32 = w * 2 ^ s - 2 ^ 32 * (w / 2 ^ (32 - s))) as Em.
  { rewrite Z.mod_eq by lia. rewrite E32 at 2. rewrite (Z.mul_comm w), Z.div_mul_cancel_l by lia. lia. }
  rewrite E, Hl, modulus_cons. pose proof (Z.mod_pos_bound (w * 2 ^ s) (2 ^ 32) ltac:(lia)).
  assert ((w * 2 ^ s) mod 2 ^ 32 + carry < 2 ^ 32) as Hlt.
  { rewrite E32, Z.mul_comm, Z.mul_mod_distr_l by lia.
    pose proof (Z.mod_pos_bound w (2 ^ (32 - s)) ltac:(lia)). nia. }
  split_and!; [|done|constructor; [unfold is_uint32; lia|done]].
  set (lo := (w * 2 ^ s) mod 2 ^ 32 + carry) in *.
  transitivity ((lo + 2 ^ 32 * (w / 2 ^ (32 - s) + words_value a * 2 ^ s)) mod (2 ^ 32 * modulus a)).
  - rewrite <- carry_mod by apply modulus_pos. rewrite (Z.mod_small lo), (Z.div_small lo) by lia.
    f_equal. do 2 f_equal. lia.
  - f_equal. unfold lo. rewrite Em. lia.
Qed.

Lemma shl_step_out a k s pn i : (WIDTH ≤ i + k)%nat → shl_step a k s pn i = pn.
Proof. intros Hk. unfold shl_step. by rewrite !bool_decide_eq_false_2 by lia. Qed.

(** The words of a left shift by [k] words and [s] bits. *)
Lemma shl_loop_spec a k s : length a = WIDTH →
  foldl (shl_step a k s) base_uint_zero (seq 0 WIDTH) =
  take WIDTH (replicate k 0 ++
    (if bool_decide (s ≠ 0) then shl_words s 0 a else (λ w, uint32 (Z.shiftl w s)) <$> a)).
Proof.
  intros Hl. destruct (decide (WIDTH ≤ k)%nat) as [Hk|Hk].
  - rewrite take_app_le by (rewrite length_replicate; lia). rewrite take_replicate, Nat.min_l by lia.
    cbn [seq foldl WIDTH]. by rewrite !shl_step_out by lia.
  - fixed_list a Hl. unfold shl_step. destruct (bool_decide (s ≠ 0)), k as [|[|[|[|[|[|[|[|k]]]]]]]];
      (reflexivity || (exfalso; unfold WIDTH in Hk; lia)).
Qed.

Lemma words_value_take_drop n a : (n ≤ length a)%nat → Forall is_uint32 a →
  words_value (take n a) = words_value a mod 2 ^ (32 * Z.of_nat n) ∧
  words_value (drop n a) = words_value a / 2 ^ (32 * Z.of_nat n).
Proof.
  intros Hn Ha. assert (modulus (take n a) = 2 ^ (32 * Z.of_nat n)) as HM.
  { unfold modulus. by rewrite length_take_le. }
  pose proof (words_value_app (take n a) (drop n a)) as E. rewrite take_drop in E.
  pose proof (words_value_range (take n a) ltac:(by apply Forall_take)) as Hr.
  pose proof (modulus_pos (take n a)). rewrite <- HM, E.
  rewrite (Z.mul_comm (modulus _)), Z.mod_add, Z.div_add, Z.mod_small, Z.div_small by lia. lia.
Qed.

Lemma shl_zero a : Forall is_uint32 a → (λ w, uint32 (Z.shiftl w 0)) <$> a = a.
Proof.
  induction 1 as [|w a Hw Ha IH]; [done|]. rewrite fmap_cons, IH. f_equal. by apply uint32_small.
Qed.

Lemma op_shl_spec a shift : is_arith a → 0 ≤ shift →
  is_arith (op_shl a shift) ∧ words_value (op_shl a shift) = (words_value a * 2 ^ shift) mod 2 ^ 256.
Proof.
  intros Ha Hs. unfold op_shl. rewrite shl_loop_spec by apply Ha.
  pose proof (Z.mod_pos_bound shift 32 ltac:(lia)) as Hb. pose proof (Z.div_mod shift 32 ltac:(lia)) as Hd.
  pose proof (Z.div_pos shift 32 Hs ltac:(lia)) as Hq.
  set (s := shift mod 32) in *. set (k := Z.to_nat (shift / 32)).
  assert (0 < 2 ^ s) as Hps by (apply Z.pow_pos_nonneg; lia).
  set (L := if bool_decide (s ≠ 0) then _ else _).
  assert (words_value L = (words_value a * 2 ^ s) mod 2 ^ 256 ∧ length L = WIDTH ∧ Forall is_uint32 L) as (EL & Hl & Hall).
  { unfold L. case_bool_decide as H0.
    - destruct (shl_words_spec s 0 a) as (E & Hl & Hall); [done|lia|apply Ha|].
      rewrite E, Hl, Z.add_0_r, (modulus_arith a Ha), (arith_length a Ha). done.
    - assert (s = 0) as -> by (destruct (decide (s = 0)); tauto). rewrite shl_zero, Z.mul_1_r, Z.mod_small by (apply Ha || by apply words_value_arith).
      split_and!; [done|apply Ha|apply Ha]. }
  clearbody L. split.
  { split; [rewrite length_take, length_app, length_replicate; lia|].
    apply Forall_take, Forall_app; split; [|done]. apply Forall_replicate. unfold is_uint32. lia. }
  assert (2 ^ shift = 2 ^ s * 2 ^ (32 * Z.of_nat k)) as Esh by (rewrite <- Z.pow_add_r by lia; f_equal; lia).
  destruct (decide (WIDTH ≤ k)%nat) as [Hk|Hk].
  - rewrite take_app_le by (rewrite length_replicate; lia). rewrite take_replicate, words_value_zeros, Esh.
    replace (32 * Z.of_nat k) with (256 + (32 * Z.of_nat k - 256)) by lia.
    rewrite Z.pow_add_r by (unfold WIDTH in Hk; lia).
    symmetry. apply Z.mod_divide; [lia|]. eexists (words_value a * 2 ^ s * 2 ^ (32 * Z.of_nat k - 256)). lia.
  - rewrite take_app_ge, length_replicate, words_value_app, words_value_zeros by (rewrite length_replicate; lia).
    destruct (words_value_take_drop (WIDTH - k) L) as [-> _]; [lia|done|]. rewrite EL, Esh.
    unfold modulus. rewrite length_replicate.
    assert (2 ^ 256 = 2 ^ (32 * Z.of_nat (WIDTH - k)) * 2 ^ (32 * Z.of_nat k)) as E256.
    { rewrite <- Z.pow_add_r by lia. f_equal. unfold WIDTH in *. lia. }
    assert (0 < 2 ^ (32 * Z.of_nat (WIDTH - k)) ∧ 0 < 2 ^ (32 * Z.of_nat k)) as [? ?] by (split; apply Z.pow_pos_nonneg; lia).
    rewrite E256, Z.mul_assoc, Z.mul_mod_distr_r by lia. rewrite Z.rem_mul_r by lia.
    rewrite (Z.mul_comm (2 ^ (32 * Z.of_nat (WIDTH - k)))), Z.mod_add, Z.mod_mod by lia. lia.
Qed.

Fixpoint shr_words (s : Z) (a : base_uint) : base_uint :=
  match a with
  | [] => []
  | w :: rest =>
      match rest with
      | [] => Z.shiftr w s
      | v :: _ => Z.lor (Z.shiftr w s) (uint32 (Z.shiftl v (32 - s)))
      end :: shr_words s rest
  end.

Lemma shr_step_out a k s pn i : (i < k)%nat → shr_step a k s pn i = pn.
Proof. intros Hk. unfold shr_step. by rewrite !bool_decide_eq_false_2 by lia. Qed.

Lemma shr_loop_spec a k s : length a = WIDTH →
  foldl (shr_step a k s) base_uint_zero (seq 0 WIDTH) =
  drop k (if bool_decide (s ≠ 0) then shr_words s a else (λ w, Z.shiftr w s) <$> a) ++
  replicate (k `min` WIDTH) 0.
Proof.
  intros Hl. destruct (decide (WIDTH ≤ k)%nat) as [Hk|Hk].
  - rewrite drop_ge, Nat.min_r by (done || case_bool_decide; fixed_list a Hl; done).
    cbn [seq foldl WIDTH]. by rewrite !shr_step_out by (unfold WIDTH in Hk; lia).
  - fixed_list a Hl. unfold shr_step. destruct (bool_decide (s ≠ 0)), k as [|[|[|[|[|[|[|[|k]]]]]]]];
      (reflexivity || (exfalso; unfold WIDTH in Hk; lia)).
Qed.

Lemma shr_words_spec s a : 0 < s < 32 → Forall is_uint32 a →
  words_value (shr_words s a) = words_value a / 2 ^ s ∧
  length (shr_words s a) = length a ∧ Forall is_uint32 (shr_words s a).
Proof.
  intros Hs Ha. induction Ha as [|w a Hw Ha (E & Hl & Hall)]; [done|].
  cbn [shr_words words_value length]. rewrite E, Hl. unfold is_uint32 in Hw.
  assert (2 ^ 32 = 2 ^ (32 - s) * 2 ^ s) as E32 by (rewrite <- Z.pow_add_r by lia; f_equal; lia).
  assert (0 < 2 ^ s ∧ 0 < 2 ^ (32 - s)) as [Hps Hpr] by (split; apply Z.pow_pos_nonneg; lia).
  rewrite Z.shiftr_div_pow2 by lia.
  assert (0 ≤ w / 2 ^ s < 2 ^ (32 - s)) as Hlo by (split; [apply Z.div_pos; lia|apply Z.div_lt_upper_bound; lia]).
  destruct a as [|v a]; [cbn [words_value]; rewrite !Z.div_0_l, !Z.mul_0_r, !Z.add_0_r by lia;
    split_and!; [done|done|constructor; [unfold is_uint32; nia|done]]|].
  apply Forall_cons in Ha as [Hv _]. unfold is_uint32 in Hv. cbn [words_value].
  set (r := words_value a).
  rewrite Z.lor_comm, shl_word by lia. pose proof (Z.mod_pos_bound (v * 2 ^ (32 - s)) (2 ^ 32) ltac:(lia)) as Hm.
  assert ((v * 2 ^ (32 - s)) mod 2 ^ 32 = (v mod 2 ^ s) * 2 ^ (32 - s)) as Em.
  { rewrite E32, (Z.mul_comm (2 ^ (32 - s))), Z.mul_mod_distr_r by lia. done. }
  pose proof (Z.mod_pos_bound v (2 ^ s) ltac:(lia)). rewrite Em in Hm.
  split_and!; [|done|constructor; [unfold is_uint32; nia|done]].
  assert ((v + 2 ^ 32 * r) / 2 ^ s = v / 2 ^ s + 2 ^ (32 - s) * r) as ->.
  { rewrite E32. replace (v + _) with (v + 2 ^ (32 - s) * r * 2 ^ s) by lia. by rewrite Z.div_add by lia. }
  assert ((w + 2 ^ 32 * (v + 2 ^ 32 * r)) / 2 ^ s = w / 2 ^ s + 2 ^ (32 - s) * (v + 2 ^ 32 * r)) as ->.
  { set (y := v + 2 ^ 32 * r). rewrite E32.
    replace (w + _) with (w + 2 ^ (32 - s) * y * 2 ^ s) by ring. by rewrite Z.div_add by lia. }
  rewrite Em. pose proof (Z.div_mod v (2 ^ s) ltac:(lia)). rewrite E32. nia.
Qed.

Lemma op_shr_spec a shift : is_arith a → 0 ≤ shift →
  is_arith (op_shr a shift) ∧ words_value (op_shr a shift) = words_value a / 2 ^ shift.
Proof.
  intros Ha Hs. unfold op_shr. rewrite shr_loop_spec by apply Ha.
  pose proof (Z.mod_pos_bound shift 32 ltac:(lia)) as Hb. pose proof (Z.div_mod shift 32 ltac:(lia)) as Hd.
  pose proof (Z.div_pos shift 32 Hs ltac:(lia)) as Hq.
  set (s := shift mod 32) in *. set (k := Z.to_nat (shift / 32)).
  assert (0 < 2 ^ s) as Hps by (apply Z.pow_pos_nonneg; lia).
  set (L := if bool_decide (s ≠ 0) then _ else _).
  assert (words_value L = words_value a / 2 ^ s ∧ length L = WIDTH ∧ Forall is_uint32 L) as (EL & Hl & Hall).
  { unfold L. case_bool_decide as H0.
    - destruct (shr_words_spec s a) as (E & Hl & Hall); [lia|apply Ha|]. rewrite E, Hl. split_and!; [done|apply Ha|done].
    - assert (s = 0) as -> by (destruct (decide (s = 0)); tauto). rewrite (list_fmap_ext _ id a), list_fmap_id by (intros; apply Z.shiftr_0_r).
      rewrite Z.div_1_r. split_and!; [done|apply Ha|apply Ha]. }
  clearbody L. split.
  { split; [rewrite length_app, length_drop, length_replicate; lia|].
    apply Forall_app; split; [by apply Forall_drop|]. apply Forall_replicate. unfold is_uint32. lia. }
  rewrite words_value_app, words_value_zeros.
  assert (2 ^ shift = 2 ^ s * 2 ^ (32 * Z.of_nat k)) as Esh by (rewrite <- Z.pow_add_r by lia; f_equal; lia).
  assert (0 < 2 ^ (32 * Z.of_nat k)) by (apply Z.pow_pos_nonneg; lia).
  rewrite Esh, <- Z.div_div, <- EL by lia. destruct (decide (k ≤ WIDTH)%nat) as [Hk|Hk].
  - destruct (words_value_take_drop k L) as [_ ->]; [lia|done|]. lia.
  - rewrite drop_ge by lia. cbn [words_value]. symmetry. rewrite Z.div_small; [lia|].
    pose proof (words_value_range L Hall) as Hr. split; [lia|]. eapply Z.lt_le_trans; [apply Hr|].
    unfold modulus. apply Z.pow_le_mono_r; [lia|]. rewrite Hl. lia.
Qed.

(** *** Length *)

Lemma land_pow2 w n : 0 ≤ n → Z.land w (Z.shiftl 1 n) = if Z.testbit w n then 2 ^ n else 0.
Proof.
  intros Hn. rewrite Z.shiftl_1_l. apply Z.bits_inj'. intros i Hi.
  rewrite Z.land_spec, Z.pow2_bits_eqb by done. destruct (Z.eqb_spec n i) as [<-|Hne].
  - destruct (Z.testbit w n); [by rewrite Z.pow2_bits_true by done|by rewrite Z.bits_0].
  - rewrite andb_false_r. destruct (Z.testbit w n); [by rewrite Z.pow2_bits_false by done|by rewrite Z.bits_0].
Qed.

Lemma top_bit_spec n w : 0 < w < 2 ^ (Z.of_nat n + 1) → top_bit n w = Z.log2 w + 1.
Proof.
  induction n as [|n IH]; intros Hw; cbn [top_bit].
  { replace w with 1 by (change (2 ^ (Z.of_nat 0 + 1)) with 2 in Hw; lia). done. }
  rewrite land_pow2 by lia. pose proof (Z.log2_spec w ltac:(lia)) as Hl. pose proof (Z.log2_nonneg w).
  assert (Z.log2 w < Z.of_nat (S n) + 1) as Hlt by (apply Z.log2_lt_pow2; lia).
  destruct (decide (Z.log2 w = Z.of_nat (S n))) as [E|E].
  - rewrite decide_True; [lia|]. rewrite <- E, Z.bit_log2 by lia. apply Z.pow_nonzero; lia.
  - rewrite Z.bits_above_log2 by lia. rewrite decide_False by tauto. apply IH.
    split; [lia|]. apply Z.log2_lt_pow2; lia.
Qed.

Lemma bits_spec a : Forall is_uint32 a →
  bits a = if decide (words_value a = 0) then 0 else Z.log2 (words_value a) + 1.
Proof.
  unfold bits. induction a as [|w a IH] using rev_ind; [done|].
  intros [Ha Hw]%Forall_app. apply Forall_cons in Hw as [Hw _]. unfold is_uint32 in Hw.
  rewrite reverse_app, words_value_app. cbn [reverse app bits_words words_value].
  change (reverse [w] ++ reverse a) with (w :: reverse a). cbn [bits_words]. rewrite length_reverse.
  pose proof (words_value_range a Ha) as Hr. pose proof (modulus_pos a).
  rewrite Z.mul_0_r, Z.add_0_r. destruct (decide (w = 0)) as [->|H0].
  - rewrite (decide_False (P := 0 ≠ 0)), IH, Z.mul_0_r, Z.add_0_r by tauto. done.
  - rewrite (decide_True (P := w ≠ 0)) by done. rewrite top_bit_spec by (split; [lia|apply Hw]). rewrite decide_False by (pose proof (Z.mul_pos_pos (modulus a) w); lia).
    unfold modulus in *. set (n := 32 * Z.of_nat (length a)) in *.
    rewrite (Z.log2_unique (words_value a + 2 ^ n * w) (n + Z.log2 w)); [lia|pose proof (Z.log2_nonneg w); lia|].
    pose proof (Z.log2_spec w ltac:(lia)). pose proof (Z.log2_nonneg w).
    rewrite <- Z.add_succ_r, !Z.pow_add_r by lia. nia.
Qed.

Lemma bits_bounds a : is_arith a →
  0 ≤ bits a ≤ 256 ∧ words_value a < 2 ^ bits a ∧ (words_value a ≠ 0 → 0 < bits a ∧ 2 ^ (bits a - 1) ≤ words_value a).
Proof.
  intros Ha. pose proof (words_value_arith a Ha) as Hr. rewrite bits_spec by apply Ha. case_decide as H0.
  - rewrite H0. split_and!; [lia|lia|lia|done].
  - pose proof (Z.log2_spec (words_value a) ltac:(lia)) as Hl. pose proof (Z.log2_nonneg (words_value a)).
    assert (Z.log2 (words_value a) < 256) by (apply Z.log2_lt_pow2; lia).
    replace (Z.log2 (words_value a) + 1 - 1) with (Z.log2 (words_value a)) by lia.
    rewrite <- Z.add_1_r in Hl. split_and!; try lia.
Qed.

(** *** Division *)

Lemma or_word_spec q s : is_arith q → (s < 256)%nat → words_value q mod 2 ^ (Z.of_nat s + 1) = 0 →
  let q' := or_word (s / 32) (Z.shiftl 1 (Z.land (Z.of_nat s) 31)) q in
  is_arith q' ∧ words_value q' = words_value q + 2 ^ Z.of_nat s.
Proof.
  intros Hq Hs Hm. cbn zeta. rewrite (Z.land_ones _ 5) by lia.
  set (r := Z.of_nat s mod 2 ^ 5). set (k := (s / 32)%nat).
  assert (0 ≤ r < 32) as Hr by (apply Z.mod_pos_bound; lia).
  assert (Z.of_nat s = 32 * Z.of_nat k + r) as Es.
  { unfold k, r. rewrite Nat2Z.inj_div. apply Z.div_mod. lia. }
  destruct (lookup_lt_is_Some_2 q k) as [w Hw]; [rewrite (arith_length q Hq); unfold WIDTH; lia|].
  pose proof (lookup_lt_Some _ _ _ Hw) as Hlt.
  assert (or_word k (Z.shiftl 1 r) q = take k q ++ Z.lor w (2 ^ r) :: drop (S k) q) as ->.
  { rewrite <- insert_take_drop by done. unfold or_word. rewrite Z.shiftl_1_l. apply list_eq. intros i.
    destruct (decide (i = k)) as [->|Hne].
    - by rewrite list_lookup_alter_eq, Hw, list_lookup_insert_eq by done.
    - by rewrite list_lookup_alter_ne, list_lookup_insert_ne by done. }
  assert (Forall is_uint32 (take k q) ∧ is_uint32 w ∧ Forall is_uint32 (drop (S k) q)) as (Ht & Hwr & Hd).
  { pose proof (arith_words q Hq) as Hall. split_and!; [by apply Forall_take|by eapply Forall_lookup_1|by apply Forall_drop]. }
  assert (words_value q = words_value (take k q) + 2 ^ (32 * Z.of_nat k) * (w + 2 ^ 32 * words_value (drop (S k) q))) as Eq.
  { rewrite <- (take_drop_middle q k w Hw) at 1. rewrite words_value_app. unfold modulus. by rewrite length_take_le by lia. }
  assert (modulus (take k q) = 2 ^ (32 * Z.of_nat k)) as HM by (unfold modulus; by rewrite length_take_le by lia).
  pose proof (words_value_range _ Ht) as Htr. rewrite HM in Htr.
  assert (0 < 2 ^ r ∧ 0 < 2 ^ (32 * Z.of_nat k) ∧ 0 < 2 ^ (31 - r)) as (? & ? & ?) by (split_and!; apply Z.pow_pos_nonneg; lia).
  assert (2 ^ (r + 1) = 2 ^ r * 2) as E1 by (by rewrite Z.pow_add_r by lia).
  assert (2 ^ (Z.of_nat s + 1) = 2 ^ (32 * Z.of_nat k) * (2 ^ r * 2)) as Ep.
  { rewrite Es, <- E1, <- Z.pow_add_r by lia. f_equal. lia. }
  assert (2 ^ 32 = 2 ^ r * 2 * 2 ^ (31 - r)) as E32.
  { rewrite <- E1, <- Z.pow_add_r by lia. f_equal. lia. }
  apply Z.mod_divide in Hm as [c Hc]; [|apply Z.pow_nonzero; lia].
  assert (∃ m, w = m * 2 ^ (r + 1)) as [m ->].
  { assert (words_value (take k q) = 0 ∧ w + 2 ^ 32 * words_value (drop (S k) q) = c * (2 ^ r * 2)) as [_ E].
    { rewrite Hc, Ep in Eq. set (B := 2 ^ (32 * Z.of_nat k)) in *. set (y := w + _) in *.
      assert (words_value (take k q) = B * (c * (2 ^ r * 2) - y)) by lia.
      assert (c * (2 ^ r * 2) - y = 0) by nia. lia. }
    exists (c - 2 ^ (31 - r) * words_value (drop (S k) q)). rewrite E1. rewrite E32 in E.
    transitivity (c * (2 ^ r * 2) - 2 ^ r * 2 * 2 ^ (31 - r) * words_value (drop (S k) q)); [lia|ring]. }
  unfold is_uint32 in Hwr. rewrite lor_disjoint by (rewrite ?E1; lia).
  assert (m * 2 ^ (r + 1) + 2 ^ r < 2 ^ 32) as Hlt2.
  { rewrite E1 in *. rewrite E32 in Hwr |- *. set (P := 2 ^ r) in *. set (R := 2 ^ (31 - r)) in *.
    assert (m < R) by nia. nia. }
  split.
  - split; [rewrite length_app; cbn [length]; rewrite length_take, length_drop, (arith_length q Hq) in *; unfold WIDTH in *; lia|].
    apply Forall_app; split; [done|]. constructor; [unfold is_uint32; nia|done].
  - rewrite words_value_app, HM, Eq. cbn [words_value].
    replace (2 ^ Z.of_nat s) with (2 ^ (32 * Z.of_nat k) * 2 ^ r) by (rewrite <- Z.pow_add_r by lia; f_equal; lia). lia.
Qed.

Lemma div_loop_spec shift D num div q : (shift < 256)%nat →
  is_arith num → is_arith div → is_arith q → 0 < D →
  words_value div = D * 2 ^ Z.of_nat shift → words_value num < D * 2 ^ (Z.of_nat shift + 1) →
  words_value q mod 2 ^ (Z.of_nat shift + 1) = 0 →
  is_arith (div_loop shift num div q) ∧
  words_value (div_loop shift num div q) = words_value q + words_value num / D.
Proof.
  revert num div q. induction shift as [|shift IH]; intros num div q Hs Hn Hd Hq HD Ed Hlt Hm; cbn [div_loop].
  all: pose proof (words_value_arith num Hn); pose proof (CompareTo_le num div Hn Hd) as Hcmp.
  - change (2 ^ (Z.of_nat 0 + 1)) with 2 in *. change (2 ^ Z.of_nat 0) with 1 in *. case_decide as Hc.
    + destruct (or_word_spec q 0 Hq ltac:(lia) Hm) as [Hq' ->]. split; [done|]. change (2 ^ Z.of_nat 0) with 1.
      rewrite <- (Z.div_unique (words_value num) D 1 (words_value num - D)); lia.
    + rewrite Z.div_small by lia. split; [done|lia].
  - set (B := 2 ^ Z.of_nat shift). assert (0 < B) by (apply Z.pow_pos_nonneg; lia).
    assert (2 ^ Z.of_nat (S shift) = 2 * B) as E1 by (rewrite Nat2Z.inj_succ, Z.pow_succ_r by lia; done).
    assert (2 ^ (Z.of_nat (S shift) + 1) = 4 * B) as E2 by (rewrite Z.pow_add_r, E1 by lia; lia).
    assert (2 ^ (Z.of_nat shift + 1) = 2 * B) as E3 by (rewrite Z.pow_add_r by lia; lia).
    destruct (op_shr_spec div 1 Hd ltac:(lia)) as [Hd' Ed'].
    assert (words_value (op_shr div 1) = D * B) as Ed''.
    { rewrite Ed', Ed, E1. replace (D * (2 * B)) with (D * B * 2 ^ 1) by lia. apply Z.div_mul. lia. }
    assert (∀ x, x mod (4 * B) = 0 → x mod (2 * B) = 0) as Hmod.
    { intros x [y Hy]%Z.mod_divide; [|lia]. apply Z.mod_divide; [lia|]. exists (2 * y). lia. }
    rewrite E1, E2 in *. case_decide as Hc.
    + destruct (op_sub_spec num div Hn Hd) as [Hn' En']. rewrite Z.mod_small in En' by lia.
      destruct (or_word_spec q (S shift) Hq Hs) as [Hq' Eq']; [by rewrite E2|].
      destruct (IH (op_sub num div) (op_shr div 1) _ ltac:(lia) Hn' Hd' Hq' HD) as [Hr Er];
        [done|rewrite En', E3; lia| |].
      { rewrite Eq', E1, E3, Z.add_mod, Z.mod_same, Z.add_0_r, Z.mod_mod by lia. by apply Hmod. }
      split; [done|]. rewrite Er, Eq', En', Ed, E1.
      replace (words_value num - D * (2 * B)) with (words_value num + - (2 * B) * D) by lia. rewrite Z.div_add by lia. lia.
    + apply (IH num (op_shr div 1) q ltac:(lia) Hn Hd' Hq HD); [done|rewrite E3; lia|rewrite E3; by apply Hmod].
Qed.

Lemma op_div_spec a b : is_arith a → is_arith b →
  if decide (words_value b = 0) then op_div a b = Raise UintError
  else ∃ q, op_div a b = Ok q ∧ is_arith q ∧ words_value q = words_value a / words_value b.
Proof.
  intros Ha Hb. destruct (bits_bounds a Ha) as (Hba & Ha1 & _), (bits_bounds b Hb) as (Hbb & Hb1 & Hb2).
  pose proof (words_value_arith a Ha) as Har. pose proof (words_value_arith b Hb) as Hbr. unfold op_div.
  case_decide as H0.
  { rewrite decide_True; [done|]. rewrite bits_spec, decide_True by (done || apply Hb). done. }
  destruct (Hb2 H0) as [Hpos Hb3]. rewrite decide_False by lia. case_decide as Hlt.
  - eexists. split_and!; [done|apply is_arith_zero|]. unfold base_uint_zero. rewrite words_value_zeros, Z.div_small; [done|].
    split; [lia|]. eapply Z.lt_le_trans; [apply Ha1|]. etransitivity; [|apply Hb3]. apply Z.pow_le_mono_r; lia.
  - set (s := bits a - bits b). assert (0 ≤ s < 256) as Hs by lia.
    destruct (op_shl_spec b s Hb ltac:(lia)) as [Hd Ed].
    assert (2 ^ bits a = 2 ^ bits b * 2 ^ s) as E by (rewrite <- Z.pow_add_r by lia; f_equal; lia).
    assert (2 ^ bits b = 2 * 2 ^ (bits b - 1)) as E' by (rewrite <- Z.pow_succ_r by lia; f_equal; lia).
    assert (0 < 2 ^ s) by (apply Z.pow_pos_nonneg; lia).
    assert (2 ^ bits a ≤ 2 ^ 256) by (apply Z.pow_le_mono_r; lia).
    rewrite Z.mod_small in Ed by nia.
    destruct (div_loop_spec (Z.to_nat s) (words_value b) a (op_shl b s) base_uint_zero) as [Hq Eq];
      [lia|done|done|apply is_arith_zero|lia|by rewrite Z2Nat.id by lia| |done|].
    { rewrite Z2Nat.id, Z.pow_add_r by lia. change (2 ^ 1) with 2. nia. }
    eexists. split_and!; [done|done|]. rewrite Eq. unfold base_uint_zero. rewrite words_value_zeros. lia.
Qed.

(** *** Small values and conversions *)

Lemma base_uint_new_spec b : is_uint64 b → is_arith (base_uint_new b) ∧ words_value (base_uint_new b) = b.
Proof.
  unfold is_uint64. intros Hb. unfold base_uint_new. rewrite carry_word. split.
  - split; [done|]. constructor; [apply uint32_range|]. constructor; [apply uint32_range|].
    apply Forall_replicate. unfold is_uint32. lia.
  - cbn [words_value]. rewrite words_value_zeros. unfold uint32.
    rewrite (Z.mod_small (b / 2 ^ 32)) by (split; [apply Z.div_pos|apply Z.div_lt_upper_bound]; lia).
    pose proof (Z.div_mod b (2 ^ 32)). lia.
Qed.

Lemma GetLow64_spec a : is_arith a → GetLow64 a = words_value a mod 2 ^ 64.
Proof.
  intros [Hl Ha]. destruct a as [|x [|y a]]; try discriminate Hl.
  apply Forall_cons in Ha as [Hx Ha]. apply Forall_cons in Ha as [Hy Ha]. unfold is_uint32 in *.
  unfold GetLow64. change ((x :: y :: a) !!! 0%nat) with x. change ((x :: y :: a) !!! 1%nat) with y.
  rewrite Z.lor_comm, Z.shiftl_mul_pow2, lor_disjoint by lia. cbn [words_value].
  replace (x + 2 ^ 32 * (y + 2 ^ 32 * words_value a)) with (y * 2 ^ 32 + x + words_value a * 2 ^ 64) by lia.
  rewrite Z.mod_add, Z.mod_small; lia.
Qed.

Lemma read_words_spec n bs : length bs = (4 * n)%nat → Forall is_byte bs →
  words_value (read_words n bs) = le_value bs ∧ length (read_words n bs) = n ∧ Forall is_uint32 (read_words n bs).
Proof.
  revert bs. induction n as [|n IH]; intros bs Hl Hb; cbn [read_words words_value length].
  { destruct bs; [done|discriminate]. }
  destruct (IH (drop 4 bs)) as (E & Hlen & Hall); [rewrite length_drop; lia|by apply Forall_drop|].
  rewrite E, Hlen. split_and!; [|done|].
  - rewrite <- (take_drop 4 bs) at 3. rewrite le_value_app, length_take_le by lia. done.
  - constructor; [|done]. pose proof (le_value_range (take 4 bs) ltac:(by apply Forall_take)) as Hr.
    rewrite length_take_le in Hr by lia. exact Hr.
Qed.

(** The number a blob stands for, its first byte the least significant. *)
Definition blob_value (h : Z) : Z := le_value (be_bytes 32 h).

Lemma UintToArith256_spec h : is_arith (UintToArith256 h) ∧ words_value (UintToArith256 h) = blob_value h.
Proof.
  destruct (read_words_spec WIDTH (be_bytes 32 h)) as (E & Hl & Hall);
    [by rewrite be_bytes_length|apply be_bytes_bytes|]. by repeat split.
Qed.

Lemma CompareAsNumber_spec h k :
  CompareAsNumber h k = match blob_value h ?= blob_value k with Lt => -1 | Eq => 0 | Gt => 1 end.
Proof.
  apply (compare_digits (2 ^ 8) le_value); [done|done|by rewrite !be_bytes_length|apply be_bytes_bytes..].
Qed.

Lemma blob_value_inj h k : 0 ≤ h < 2 ^ 256 → 0 ≤ k < 2 ^ 256 → blob_value h = blob_value k → h = k.
Proof.
  unfold blob_value. intros Hh Hk Heq.
  assert (be_bytes 32 h = be_bytes 32 k) as Hb.
  { rewrite <- (le_bytes_value (be_bytes 32 h)), <- (le_bytes_value (be_bytes 32 k)), Heq
      by apply be_bytes_bytes. by rewrite !be_bytes_length. }
  apply (f_equal be_value) in Hb. rewrite !be_value_bytes in Hb.
  by rewrite (Z.mod_small h), (Z.mod_small k) in Hb by done.
Qed.

Lemma ArithToUint256_spec a : is_arith a → blob_value (ArithToUint256 a) = words_value a.
Proof.
  intros [Hl Ha]. unfold blob_value, ArithToUint256.
  assert (Forall is_byte (concat (le_bytes 4 <$> a)) ∧ length (concat (le_bytes 4 <$> a)) = (4 * length a)%nat ∧
    le_value (concat (le_bytes 4 <$> a)) = words_value a) as (Hb & Hlen & E).
  { clear Hl. induction Ha as [|w a Hw Ha (Hb & Hl & E)]; [done|]. rewrite fmap_cons. cbn [concat words_value].
    rewrite length_app, le_value_app, le_value_bytes, le_bytes_length, Hl, E. split_and!.
    - apply Forall_app; split; [apply le_bytes_bytes|done].
    - cbn [length]. lia.
    - by rewrite Z.mod_small by apply Hw. }
  replace 32%nat with (length (concat (le_bytes 4 <$> a))) by (rewrite Hlen, Hl; done).
  by rewrite be_bytes_value.
Qed.

(** *** The compact form *)

Lemma land_top v n : 0 ≤ n → 0 ≤ v < 2 ^ (n + 1) → Z.land v (Z.shiftl 1 n) ≠ 0 ↔ 2 ^ n ≤ v.
Proof.
  intros Hn Hv. rewrite land_pow2 by done. pose proof (Z.pow_pos_nonneg 2 n ltac:(lia) Hn).
  destruct (decide (2 ^ n ≤ v)) as [Hle|Hlt].
  - replace n with (Z.log2 v) at 1 by (apply Z.log2_unique; [done|]; rewrite <- Z.add_1_r; lia).
    rewrite Z.bit_log2 by lia. lia.
  - destruct (decide (v = 0)) as [->|]; [rewrite Z.bits_0; lia|].
    rewrite Z.bits_above_log2; [lia|lia|]. apply Z.log2_lt_pow2; lia.
Qed.

(** The three leading bytes of a number of [n] bytes. *)
Definition mantissa (n v : Z) : Z := v * 2 ^ 24 / 2 ^ (8 * n).

Lemma mantissa_low n v : 0 ≤ n ≤ 3 → mantissa n v = v * 2 ^ (8 * (3 - n)).
Proof.
  intros Hn. unfold mantissa. replace (2 ^ 24) with (2 ^ (8 * (3 - n)) * 2 ^ (8 * n)) by (rewrite <- Z.pow_add_r by lia; f_equal; lia).
  rewrite Z.mul_assoc. apply Z.div_mul, Z.pow_nonzero; lia.
Qed.

Lemma mantissa_high n v : 3 ≤ n → mantissa n v = v / 2 ^ (8 * (n - 3)).
Proof.
  intros Hn. unfold mantissa. replace (2 ^ (8 * n)) with (2 ^ (8 * (n - 3)) * 2 ^ 24) by (rewrite <- Z.pow_add_r by lia; f_equal; lia).
  apply Z.div_mul_cancel_r; [apply Z.pow_nonzero; lia|lia].
Qed.

Lemma mantissa_next n v : 0 ≤ n → mantissa n v / 256 = mantissa (n + 1) v.
Proof.
  intros Hn. unfold mantissa. rewrite Z.div_div by (try apply Z.pow_nonzero; lia).
  f_equal. replace (8 * (n + 1)) with (8 * n + 8) by lia. by rewrite Z.pow_add_r by lia.
Qed.

(** The number of bytes of a positive number. *)
Definition has_bytes (n v : Z) : Prop := 0 < n ∧ 2 ^ (8 * (n - 1)) ≤ v < 2 ^ (8 * n).

Lemma mantissa_range n v : has_bytes n v → 2 ^ 16 ≤ mantissa n v < 2 ^ 24.
Proof.
  intros (Hn & Hl & Hu). unfold mantissa.
  assert (2 ^ (8 * n) = 2 ^ (8 * (n - 1)) * 2 ^ 8) as E by (rewrite <- Z.pow_add_r by lia; f_equal; lia).
  pose proof (Z.pow_pos_nonneg 2 (8 * (n - 1)) ltac:(lia) ltac:(lia)).
  split; [apply Z.div_le_lower_bound; lia|apply Z.div_lt_upper_bound; lia].
Qed.

Definition compact_form (n v : Z) : Z :=
  if decide (mantissa n v < 2 ^ 23) then mantissa n v + n * 2 ^ 24
  else mantissa (n + 1) v + (n + 1) * 2 ^ 24.

Lemma GetCompact_spec a n : is_arith a → has_bytes n (words_value a) →
  GetCompact a false = Ok (compact_form n (words_value a)).
Proof.
  intros Ha Hv. pose proof (mantissa_range n _ Hv) as Hm. destruct Hv as (Hn & Hl & Hu).
  destruct (bits_bounds a Ha) as (Hb & Hb1 & Hb2).
  pose proof (Z.pow_pos_nonneg 2 (8 * (n - 1)) ltac:(lia) ltac:(lia)). destruct Hb2 as [Hb2 Hb3]; [lia|].
  assert (bits a - 1 < 8 * n) by (apply (Z.pow_lt_mono_r_iff 2); lia).
  assert (8 * (n - 1) < bits a) by (apply (Z.pow_lt_mono_r_iff 2); lia).
  unfold GetCompact. replace ((bits a + 7) / 8) with n by (apply (Z.div_unique _ 8 n (bits a + 7 - 8 * n)); lia).
  set (m0 := if decide (n ≤ 3) then _ else _). assert (m0 = mantissa n (words_value a)) as ->.
  { unfold m0, uint32, uint64. clear m0. case_decide.
    - rewrite GetLow64_spec, mantissa_low in * by (done || lia). rewrite Z.shiftl_mul_pow2 by lia.
      rewrite (Z.mod_small (words_value a)) by (split; [lia|]; eapply Z.lt_le_trans; [apply Hu|apply Z.pow_le_mono_r; lia]).
      rewrite (Z.mod_small _ (2 ^ 64)), Z.mod_small by lia. done.
    - destruct (op_shr_spec a (8 * (n - 3)) Ha ltac:(lia)) as [Hs Es].
      rewrite GetLow64_spec, Es, mantissa_high in * by (done || lia). rewrite (Z.mod_small _ (2 ^ 64)), Z.mod_small by lia. done. }
  change 0x00800000 with (Z.shiftl 1 23). change 0x007fffff with (Z.ones 23).
  unfold compact_form. rewrite <- mantissa_next by lia. set (m := mantissa n (words_value a)) in *.
  assert (n ≤ 32) as Hn32.
  { apply Z.lt_succ_r, (Z.mul_lt_mono_pos_l 8), (Z.le_lt_trans _ 256); lia. }
  assert (∀ x k, 0 ≤ x < 2 ^ 23 → 0 ≤ k < 256 →
    Z.land x (Z.lnot (Z.ones 23)) = 0 ∧ Z.lor x (uint32 (Z.shiftl k 24)) = x + k * 2 ^ 24) as Hfin.
  { intros x k Hx Hk. split.
    - rewrite <- Z.ldiff_land. apply Z.ldiff_ones_r_low; [lia|].
      destruct (decide (x = 0)) as [->|]; [done|apply Z.log2_lt_pow2; lia].
    - rewrite Z.lor_comm, Z.shiftl_mul_pow2, uint32_small, lor_disjoint by (unfold is_uint32; lia). lia. }
  pose proof (land_top m 23 ltac:(lia) ltac:(lia)) as Htop. destruct (decide (m < 2 ^ 23)) as [Hlt|Hge].
  - rewrite decide_False by (intros ?%Htop; lia). destruct (Hfin m n) as [-> ->]; [lia..|].
    rewrite (bool_decide_eq_true_2 (0 = 0)), (bool_decide_eq_true_2 (n < 256)) by lia. cbn [cpp_assert mbind outcome_bind andb]. by rewrite Z.lor_0_r.
  - rewrite decide_True by (apply Htop; lia). rewrite Z.shiftr_div_pow2 by lia. change (2 ^ 8) with 256.
    assert (0 ≤ m / 256 < 2 ^ 16) by (split; [apply Z.div_pos; lia|apply Z.div_lt_upper_bound; lia]).
    destruct (Hfin (m / 256) (n + 1)) as [-> ->]; [lia..|].
    rewrite (bool_decide_eq_true_2 (0 = 0)), (bool_decide_eq_true_2 (n + 1 < 256)) by lia. cbn [cpp_assert mbind outcome_bind andb]. by rewrite Z.lor_0_r.
Qed.

Lemma SetCompact_spec m size : 0 ≤ m < 2 ^ 23 → 0 ≤ size ≤ 32 ∨ size = 33 ∧ m < 2 ^ 16 →
  ∃ t, SetCompact (m + size * 2 ^ 24) = (t, false, false) ∧ is_arith t ∧
    words_value t = if decide (size ≤ 3) then m / 2 ^ (8 * (3 - size)) else (m * 2 ^ (8 * (size - 3))) mod 2 ^ 256.
Proof.
  intros Hm Hs. unfold SetCompact.
  assert (Z.shiftr (m + size * 2 ^ 24) 24 = size) as ->.
  { rewrite Z.shiftr_div_pow2, Z.div_add, Z.div_small by lia. lia. }
  change 0x007fffff with (Z.ones 23). rewrite Z.land_ones by lia.
  assert ((m + size * 2 ^ 24) mod 2 ^ 23 = m) as ->.
  { replace (m + size * 2 ^ 24) with (m + size * 2 * 2 ^ 23) by lia. rewrite Z.mod_add, Z.mod_small; lia. }
  change 0x00800000 with (Z.shiftl 1 23).
  assert (Z.land (m + size * 2 ^ 24) (Z.shiftl 1 23) = 0) as ->.
  { rewrite land_pow2, Z.testbit_eqb by lia. replace (m + size * 2 ^ 24) with (m + size * 2 * 2 ^ 23) by lia.
    rewrite Z.div_add, Z.div_small, Z.add_0_l, Z.mod_mul by lia. done. }
  rewrite (bool_decide_eq_false_2 (0 ≠ 0)) by tauto. case_decide as H3; cbn zeta.
  - assert (0 ≤ Z.shiftr m (8 * (3 - size)) < 2 ^ 23) as Hw.
    { rewrite Z.shiftr_div_pow2 by lia. pose proof (Z.pow_pos_nonneg 2 (8 * (3 - size)) ltac:(lia) ltac:(lia)).
      split; [apply Z.div_pos; lia|]. apply Z.div_lt_upper_bound; nia. }
    destruct (base_uint_new_spec (Z.shiftr m (8 * (3 - size)))) as [Ht Et]; [unfold is_uint64; lia|].
    eexists. rewrite andb_false_r, (bool_decide_eq_false_2 (34 < size)), (bool_decide_eq_false_2 (33 < size)),
      (bool_decide_eq_false_2 (32 < size)), !andb_false_r by lia.
    split_and!; [done|done|]. by rewrite Et, Z.shiftr_div_pow2 by lia.
  - destruct (base_uint_new_spec m) as [Hb Eb]; [unfold is_uint64; lia|].
    destruct (op_shl_spec (base_uint_new m) (8 * (size - 3)) Hb ltac:(lia)) as [Ht Et].
    eexists. split_and!; [|done|by rewrite Et, Eb]. rewrite andb_false_r.
    rewrite (bool_decide_eq_false_2 (34 < size)), (bool_decide_eq_false_2 (33 < size)), !andb_false_r by lia.
    destruct (decide (32 < size)); [rewrite (bool_decide_eq_false_2 (0xffff < m)) by lia|
      rewrite (bool_decide_eq_false_2 (32 < size)) by lia]; cbn; by rewrite ?andb_false_r.
Qed.

Lemma SetCompact_arith c : is_uint32 c → is_arith (SetCompact c).1.1.
Proof.
  unfold is_uint32. intros Hc. unfold SetCompact. change 0x007fffff with (Z.ones 23). rewrite Z.land_ones by lia.
  pose proof (Z.mod_pos_bound c (2 ^ 23) ltac:(lia)). rewrite !Z.shiftr_div_pow2 by lia. case_decide as H3; cbn [fst].
  - assert (0 ≤ c / 2 ^ 24) by (apply Z.div_pos; lia). rewrite Z.shiftr_div_pow2 by lia.
    pose proof (Z.pow_pos_nonneg 2 (8 * (3 - c / 2 ^ 24)) ltac:(lia) ltac:(lia)).
    apply base_uint_new_spec. split; [apply Z.div_pos; lia|apply Z.div_lt_upper_bound; nia].
  - apply op_shl_spec; [|lia]. apply base_uint_new_spec. unfold is_uint64. lia.
Qed.

Lemma has_bytes_exists v : 0 < v < 2 ^ 256 → ∃ n, has_bytes n v ∧ n ≤ 32.
Proof.
  intros Hv. pose proof (Z.log2_spec v ltac:(lia)) as Hl. pose proof (Z.log2_nonneg v).
  assert (Z.log2 v < 256) by (apply Z.log2_lt_pow2; lia).
  pose proof (Z.div_mod (Z.log2 v) 8 ltac:(lia)). pose proof (Z.mod_pos_bound (Z.log2 v) 8 ltac:(lia)).
  exists (Z.log2 v / 8 + 1). unfold has_bytes. split; [|lia]. split; [pose proof (Z.div_pos (Z.log2 v) 8); lia|]. split.
  - etransitivity; [|apply Hl]. apply Z.pow_le_mono_r; lia.
  - eapply Z.lt_le_trans; [apply Hl|]. apply Z.pow_le_mono_r; lia.
Qed.

(** The compact form of [v] as mantissa and size, and the value they stand for. *)
Lemma compact_parts n v : has_bytes n v → n ≤ 32 →
  ∃ m size, compact_form n v = m + size * 2 ^ 24 ∧ m = mantissa size v ∧ 2 ^ 15 ≤ m < 2 ^ 23 ∧
    (size = n ∧ 2 ^ 16 ≤ m ∨ size = n + 1 ∧ m < 2 ^ 16).
Proof.
  intros Hv Hn. pose proof (mantissa_range n v Hv) as Hm. destruct Hv as [Hpos _]. unfold compact_form. case_decide.
  - exists (mantissa n v), n. split_and!; try done; lia.
  - exists (mantissa (n + 1) v), (n + 1). rewrite <- mantissa_next by lia.
    assert (2 ^ 15 ≤ mantissa n v / 256 < 2 ^ 16) by (split; [apply Z.div_le_lower_bound; lia|apply Z.div_lt_upper_bound; lia]).
    split_and!; try done; lia.
Qed.

Definition truncated (size v : Z) : Z :=
  if decide (size ≤ 3) then v else mantissa size v * 2 ^ (8 * (size - 3)).

Lemma truncated_bounds size v : 0 ≤ v → 2 ^ 15 ≤ mantissa size v →
  truncated size v ≤ v ∧ (v - truncated size v) * 2 ^ 15 ≤ v.
Proof.
  intros Hv Hm. unfold truncated. case_decide; [lia|]. rewrite mantissa_high in * by lia.
  set (B := 2 ^ (8 * (size - 3))) in *. assert (0 < B) by (apply Z.pow_pos_nonneg; lia).
  pose proof (Z.div_mod v B ltac:(lia)). pose proof (Z.mod_pos_bound v B ltac:(lia)). nia.
Qed.

(** The truncated number has the same compact form. *)
Lemma truncated_compact n v m size : has_bytes n v → n ≤ 32 → 2 ^ 15 ≤ m < 2 ^ 23 → m = mantissa size v →
  size = n ∧ 2 ^ 16 ≤ m ∨ size = n + 1 ∧ m < 2 ^ 16 →
  has_bytes n (truncated size v) ∧ compact_form n (truncated size v) = m + size * 2 ^ 24.
Proof.
  intros Hv Hn Hm -> Hs. unfold truncated. pose proof (truncated_bounds size v) as Hb. unfold truncated in Hb.
  destruct Hv as (Hpos & Hl & Hu). pose proof (Z.pow_pos_nonneg 2 (8 * (n - 1)) ltac:(lia) ltac:(lia)).
  destruct Hb as [Hb _]; [lia|lia|].
  assert (∀ x, mantissa n x = mantissa n v → compact_form n x = mantissa size v + size * 2 ^ 24) as Hform.
  { intros x Hx. unfold compact_form. rewrite <- !mantissa_next, Hx by lia. destruct Hs as [[-> ?]|[-> ?]].
    - by rewrite decide_True by lia.
    - rewrite decide_False; [by rewrite mantissa_next by lia|]. rewrite <- mantissa_next in Hm by lia.
      intros Hlt. assert (mantissa n v / 256 < 2 ^ 15) by (apply Z.div_lt_upper_bound; lia). lia. }
  case_decide as H3; [split; [by split|by apply Hform]|].
  set (B := 2 ^ (8 * (size - 3))) in *. assert (0 < B) by (apply Z.pow_pos_nonneg; lia).
  destruct Hs as [[-> Hm2]|[-> Hm2]].
  - assert (2 ^ (8 * (n - 1)) = 2 ^ 16 * B) as E by (unfold B; rewrite <- Z.pow_add_r by lia; f_equal; lia).
    split; [split_and!; [lia|nia|lia]|]. apply Hform. rewrite (mantissa_high n (_ * B)) by lia. apply Z.div_mul. lia.
  - assert (2 ^ (8 * (n - 1)) = 2 ^ 8 * B) as E by (unfold B; rewrite <- Z.pow_add_r by lia; f_equal; lia).
    split; [split_and!; [lia|nia|lia]|]. unfold compact_form.
    assert (mantissa n (mantissa (n + 1) v * B) = mantissa (n + 1) v * 256) as Em.
    { unfold B. unfold mantissa at 1. rewrite <- Z.mul_assoc, <- Z.pow_add_r by lia.
      replace (8 * (n + 1 - 3) + 24) with (8 + 8 * n) by lia. rewrite Z.pow_add_r, Z.mul_assoc by lia.
      rewrite Z.div_mul by (apply Z.pow_nonzero; lia). done. }
    set (x := mantissa (n + 1) v) in *. rewrite <- (mantissa_next n (x * B)) by lia.
    by rewrite Em, Z.div_mul, decide_False by lia.
Qed.

(** Difficulty targets in compact form.  For every 256-bit number
    [GetCompact] returns, and [SetCompact] of the result sets neither the
    sign nor the overflow flag and gives a number that is at most the
    original, by less than one part in 2^15, and equal to it up to three
    bytes without the sign bit; the compact form of that number is the same
    again. *)
Lemma compact_targets a : is_arith a →
  ∃ c t, GetCompact a false = Ok c ∧ is_uint32 c ∧ SetCompact c = (t, false, false) ∧ is_arith t ∧
    words_value t ≤ words_value a ∧ (words_value a - words_value t) * 2 ^ 15 ≤ words_value a ∧
    (words_value a < 2 ^ 23 → t = a) ∧ GetCompact t false = Ok c.
Proof.
  intros Ha. pose proof (words_value_arith a Ha) as Hv.
  destruct (decide (words_value a = 0)) as [H0|H0].
  { assert (a = base_uint_zero) as ->.
    { apply words_value_inj; [apply Ha|apply Ha|apply is_arith_zero|done]. }
    exists 0, base_uint_zero. split_and!; try done; apply is_arith_zero. }
  destruct (has_bytes_exists (words_value a)) as (n & Hn & Hn32); [lia|].
  destruct (compact_parts n _ Hn Hn32) as (m & size & Ec & Em & Hm & Hs).
  destruct (SetCompact_spec m size) as (t & Et & Ht & Evt); [lia|destruct Hn; lia|].
  destruct (truncated_bounds size (words_value a)) as [Hle Hloss]; [lia|rewrite <- Em; lia|].
  assert (words_value t = truncated size (words_value a)) as Etv.
  { rewrite Evt. unfold truncated. case_decide.
    - rewrite Em, mantissa_low by (destruct Hn; lia). apply Z.div_mul, Z.pow_nonzero; lia.
    - rewrite <- Em, Z.mod_small; [done|]. unfold truncated in Hle. rewrite decide_False, <- Em in Hle by lia.
      split; [|lia]. apply Z.mul_nonneg_nonneg; [lia|apply Z.pow_nonneg; lia]. }
  destruct (truncated_compact n (words_value a) m size) as [Hn' Ec']; [done..|].
  rewrite <- Etv in *. exists (m + size * 2 ^ 24), t.
  split_and!; [by rewrite (GetCompact_spec a n), Ec|unfold is_uint32; destruct Hn; lia|done|done|done|done| |].
  - intros Hsmall. apply words_value_inj; [by rewrite (arith_length t), (arith_length a)|apply Ht|apply Ha|].
    rewrite Etv. unfold truncated. rewrite decide_True; [done|]. destruct Hn as (Hpos & Hl & _).
    assert (8 * (n - 1) < 23) by (apply (Z.pow_lt_mono_r_iff 2); lia).
    destruct (decide (size = 4)) as [->|]; [|lia]. rewrite mantissa_high in Em by lia. change (8 * (4 - 3)) with 8 in Em.
    assert (words_value a / 2 ^ 8 < 2 ^ 15) by (apply Z.div_lt_upper_bound; lia). lia.
  - by rewrite (GetCompact_spec t n), Ec'.
Qed.

(** C26: the word algorithms compute integers.  On two numbers of eight words
    every operation returns eight words again, and they stand for the sum,
    difference, product, negation, and shifts modulo 2^256, for the quotient
    unless the divisor is 0, in which case the error is thrown; the
    comparisons are those of the numbers, and [bits] is their length. *)
Theorem words_compute_integers a b shift : is_arith a → is_arith b → 0 ≤ shift →
  let v := words_value a in let w := words_value b in
  let computes r z := is_arith r ∧ words_value r = z in
  computes (op_add a b) ((v + w) mod 2 ^ 256) ∧ computes (op_sub a b) ((v - w) mod 2 ^ 256) ∧
  computes (op_neg a) ((- v) mod 2 ^ 256) ∧ computes (op_mul a b) ((v * w) mod 2 ^ 256) ∧
  (is_uint32 shift → computes (op_mul32 a shift) ((v * shift) mod 2 ^ 256)) ∧
  computes (op_shl a shift) ((v * 2 ^ shift) mod 2 ^ 256) ∧ computes (op_shr a shift) (v / 2 ^ shift) ∧
  (w = 0 → op_div a b = Raise UintError) ∧
  (w ≠ 0 → ∃ q, op_div a b = Ok q ∧ computes q (v / w)) ∧
  CompareTo a b = match v ?= w with Lt => -1 | Eq => 0 | Gt => 1 end ∧
  (is_uint64 shift → EqualTo a shift = bool_decide (v = shift)) ∧
  bits a = (if decide (v = 0) then 0 else Z.log2 v + 1).
Proof.
  intros Ha Hb Hs. cbn zeta. pose proof (op_div_spec a b Ha Hb) as Hd.
  do 4 (split; [by auto using op_add_spec, op_sub_spec, op_neg_arith, op_mul_spec|]).
  do 3 (split; [by auto using op_mul32_spec, op_shl_spec, op_shr_spec|]).
  split; [intros H0; by rewrite decide_True in Hd|]. split; [intros H0; by rewrite decide_False in Hd|].
  split; [apply CompareTo_spec; [by rewrite (arith_length a), (arith_length b)|apply Ha|apply Hb]|].
  split; [by auto using EqualTo_spec|]. apply bits_spec, Ha.
Qed.

Lemma words_compute_integers_witness :
  words_value (op_mul (op_shl (base_uint_new 7) 250) (base_uint_new 100)) = (7 * 2 ^ 250 * 100) mod 2 ^ 256.
Proof.
  assert (is_arith (op_shl (base_uint_new 7) 250)) as Ha by (split; [done|repeat constructor; done]).
  assert (is_arith (base_uint_new 100)) as Hb by (split; [done|repeat constructor; done]).
  destruct (words_compute_integers (op_shl (base_uint_new 7) 250) (base_uint_new 100) 0 Ha Hb ltac:(lia))
    as (_ & _ & _ & [_ E] & _). exact E.
Defined.

