(* ===== verification/Admin.v ===== *)
(** * Permissioning: src/src/esperanza/adminstate.cpp, admincommand.cpp, adminparams.h

    The administrator keys, the whitelist of finalizers and the commands that
    change them.  Public keys are the byte strings [CPubKey] serializes to
    (src/src/pubkey.h); an invalid key is the empty string.  The curve check
    behind [CPubKey::IsFullyValid] and the hash behind [CPubKey::GetID] are
    parameters: nothing here depends on what they compute. *)
From S2P Require Import Prelude.

(** ** Public keys *)

Abbreviation CPubKey := (list Z).

Definition PUBLIC_KEY_SIZE : nat := 65.
Definition COMPRESSED_PUBLIC_KEY_SIZE : nat := 33.

(** [CPubKey::GetLen]: the length a key with the given first byte has. *)
Definition GetLen (chHeader : Z) : nat :=
  if decide (chHeader = 2 ∨ chHeader = 3) then COMPRESSED_PUBLIC_KEY_SIZE
  else if decide (chHeader = 4 ∨ chHeader = 6 ∨ chHeader = 7) then PUBLIC_KEY_SIZE
  else 0%nat.

(** [CPubKey::Set]: the bytes when their length is the one the first byte
    announces, the invalid key otherwise. *)
Definition CPubKey_Set (vch : list Z) : CPubKey :=
  match vch with
  | [] => []
  | chHeader :: _ =>
      if decide (GetLen chHeader ≠ 0%nat ∧ GetLen chHeader = length vch) then vch else []
  end.

(** [CPubKey::size]. *)
Definition CPubKey_size (k : CPubKey) : nat :=
  match k with [] => 0%nat | chHeader :: _ => GetLen chHeader end.

Definition CPubKey_IsValid (k : CPubKey) : bool := bool_decide (0 < CPubKey_size k)%nat.
Definition CPubKey_IsCompressed (k : CPubKey) : bool :=
  bool_decide (CPubKey_size k = COMPRESSED_PUBLIC_KEY_SIZE).

(** The functions of the cryptographic libraries the sources call. *)
Class Crypto := {
  (** [Hash160] of hash.h, as the value of a [uint160]. *)
  Hash160 : list Z → Z;
  (** [CPubKey::IsFullyValid], secp256k1's point check. *)
  IsFullyValid : CPubKey → bool;
}.

Definition GetID `{Crypto} (k : CPubKey) : Z := Hash160 k.

(** ** Parameters *)

Definition ADMIN_MULTISIG_SIGNATURES : nat := 2.
Definition ADMIN_MULTISIG_KEYS : nat := 3.

(** [std::array<CPubKey, ADMIN_MULTISIG_KEYS>]. *)
Definition AdminKeySet := list CPubKey.

Record AdminParams := {
  admin_keys : option AdminKeySet;
  white_list : list Z;
}.

(** ** Commands *)

Inductive AdminCommandType :=
  | ADD_TO_WHITELIST
  | REMOVE_FROM_WHITELIST
  | RESET_ADMINS
  | END_PERMISSIONING.

#[export] Instance AdminCommandType_eq_dec : EqDecision AdminCommandType.
Proof. solve_decision. Defined.

Record AdminCommand := {
  m_command_type : AdminCommandType;
  m_payload : list CPubKey;
}.

(** [AdminCommand::IsValid]. *)
Definition AdminCommand_IsValid (c : AdminCommand) : bool :=
  match m_command_type c with
  | END_PERMISSIONING => bool_decide (m_payload c = [])
  | ADD_TO_WHITELIST | REMOVE_FROM_WHITELIST =>
      negb (bool_decide (m_payload c = [])) &&
      forallb (λ k, CPubKey_IsValid k && CPubKey_IsCompressed k) (m_payload c)
  | RESET_ADMINS =>
      bool_decide (length (m_payload c) = ADMIN_MULTISIG_KEYS) &&
      forallb (λ k, CPubKey_IsValid k && CPubKey_IsCompressed k) (m_payload c)
  end.

(** ** State *)

Record AdminState := {
  m_admin_pub_keys : AdminKeySet;
  m_white_list : gset Z;
  m_permissioning_is_active : bool;
}.

#[export] Instance AdminState_eq_dec : EqDecision AdminState.
Proof. solve_decision. Defined.

Section operations.
Context `{!Crypto}.

(** The constructor; without administrator keys the three array elements
    are default-constructed, that is invalid, keys. *)
Definition AdminState_new (params : AdminParams) : outcome AdminState :=
  let wl : gset Z := list_to_set (white_list params) in
  match admin_keys params with
  | Some keys =>
      _ ← cpp_assert (forallb IsFullyValid keys);
      Ok {| m_admin_pub_keys := keys; m_white_list := wl;
            m_permissioning_is_active := true |}
  | None =>
      _ ← cpp_assert (bool_decide (wl = ∅));
      Ok {| m_admin_pub_keys := replicate ADMIN_MULTISIG_KEYS [];
            m_white_list := wl; m_permissioning_is_active := false |}
  end.

Definition IsAdminAuthorized (st : AdminState) (keys : AdminKeySet) : bool :=
  if m_permissioning_is_active st then bool_decide (keys = m_admin_pub_keys st)
  else false.

Definition IsValidatorAuthorized (st : AdminState) (validatorAddress : Z) : bool :=
  if m_permissioning_is_active st then bool_decide (validatorAddress ∈ m_white_list st)
  else true.

Definition ResetAdmin (newKeys : AdminKeySet) (st : AdminState) : AdminState :=
  {| m_admin_pub_keys := newKeys; m_white_list := m_white_list st;
     m_permissioning_is_active := m_permissioning_is_active st |}.

Definition AddValidator (validatorAddress : Z) (st : AdminState) : AdminState :=
  {| m_admin_pub_keys := m_admin_pub_keys st;
     m_white_list := {[validatorAddress]} ∪ m_white_list st;
     m_permissioning_is_active := m_permissioning_is_active st |}.

Definition RemoveValidator (validatorAddress : Z) (st : AdminState) : AdminState :=
  {| m_admin_pub_keys := m_admin_pub_keys st;
     m_white_list := m_white_list st ∖ {[validatorAddress]};
     m_permissioning_is_active := m_permissioning_is_active st |}.

Definition EndPermissioning (st : AdminState) : AdminState :=
  {| m_admin_pub_keys := m_admin_pub_keys st; m_white_list := m_white_list st;
     m_permissioning_is_active := false |}.

(** The body of the loop of [FinalizationState::ProcessAdminCommands]. *)
Definition ProcessAdminCommand (st : AdminState) (command : AdminCommand) : AdminState :=
  match m_command_type command with
  | ADD_TO_WHITELIST =>
      foldl (λ st pubkey, AddValidator (GetID pubkey) st) st (m_payload command)
  | REMOVE_FROM_WHITELIST =>
      foldl (λ st pubkey, RemoveValidator (GetID pubkey) st) st (m_payload command)
  | RESET_ADMINS => ResetAdmin (take ADMIN_MULTISIG_KEYS (m_payload command)) st
  | END_PERMISSIONING => EndPermissioning st
  end.

Definition ProcessAdminCommands (commands : list AdminCommand) (st : AdminState) : AdminState :=
  foldl ProcessAdminCommand st commands.
End operations.

(** ** Properties *)

Section properties.
Context `{!Crypto}.
Implicit Types st : AdminState.

Lemma add_all_spec st ks :
  foldl (λ st pubkey, AddValidator (GetID pubkey) st) st ks =
  {| m_admin_pub_keys := m_admin_pub_keys st;
     m_white_list := list_to_set (GetID <$> ks) ∪ m_white_list st;
     m_permissioning_is_active := m_permissioning_is_active st |}.
Proof.
  revert st. induction ks as [|k ks IH]; intros [? w ?]; cbn.
  - f_equal. set_solver.
  - rewrite IH. cbn. f_equal. set_solver.
Qed.

Lemma remove_all_spec st ks :
  foldl (λ st pubkey, RemoveValidator (GetID pubkey) st) st ks =
  {| m_admin_pub_keys := m_admin_pub_keys st;
     m_white_list := m_white_list st ∖ list_to_set (GetID <$> ks);
     m_permissioning_is_active := m_permissioning_is_active st |}.
Proof.
  revert st. induction ks as [|k ks IH]; intros [? w ?]; cbn.
  - f_equal. set_solver.
  - rewrite IH. cbn. f_equal. set_solver.
Qed.

Lemma ProcessAdminCommand_inactive st c :
  m_permissioning_is_active st = false →
  m_permissioning_is_active (ProcessAdminCommand st c) = false.
Proof.
  intros Hst. unfold ProcessAdminCommand. destruct (m_command_type c); cbn; try done.
  - by rewrite add_all_spec.
  - by rewrite remove_all_spec.
Qed.

Lemma ProcessAdminCommands_inactive st cs :
  m_permissioning_is_active st = false →
  m_permissioning_is_active (ProcessAdminCommands cs st) = false.
Proof.
  revert st. induction cs as [|c cs IH]; intros st Hst; [done|].
  cbn. apply IH. by apply ProcessAdminCommand_inactive.
Qed.

(** Ending the permissioning phase is final.  Whatever commands come
    before or after an END_PERMISSIONING command, every finalizer is
    authorized and no key set has administrator rights any more. *)
Theorem end_permissioning_final st before c after :
  m_command_type c = END_PERMISSIONING →
  let st' := ProcessAdminCommands (before ++ c :: after) st in
  (∀ addr, IsValidatorAuthorized st' addr = true) ∧
  (∀ keys, IsAdminAuthorized st' keys = false).
Proof.
  intros Hc. cbn zeta.
  assert (m_permissioning_is_active (ProcessAdminCommands (before ++ c :: after) st) = false)
    as Hoff.
  { unfold ProcessAdminCommands. rewrite foldl_app. cbn.
    apply ProcessAdminCommands_inactive. unfold ProcessAdminCommand. by rewrite Hc. }
  split; intros; unfold IsValidatorAuthorized, IsAdminAuthorized; by rewrite Hoff.
Qed.

(** What the whitelist means, read off the history of commands: the last
    command that mentions an address decides. *)
Definition whitelist_effect (addr : Z) (listed : bool) (c : AdminCommand) : bool :=
  let mentioned := bool_decide (addr ∈ GetID <$> m_payload c) in
  match m_command_type c with
  | ADD_TO_WHITELIST => mentioned || listed
  | REMOVE_FROM_WHITELIST => listed && negb mentioned
  | RESET_ADMINS | END_PERMISSIONING => listed
  end.

(** The whitelist the state keeps agrees with the history: after any
    sequence of commands an address is whitelisted exactly when the last
    command that mentions it added it (or it was listed to begin with). *)
Theorem whitelist_history st cs addr :
  bool_decide (addr ∈ m_white_list (ProcessAdminCommands cs st)) =
  foldl (whitelist_effect addr) (bool_decide (addr ∈ m_white_list st)) cs.
Proof.
  revert st. induction cs as [|c cs IH]; intros st; [done|].
  cbn. change (foldl ProcessAdminCommand (ProcessAdminCommand st c) cs)
    with (ProcessAdminCommands cs (ProcessAdminCommand st c)).
  rewrite IH. f_equal. unfold ProcessAdminCommand, whitelist_effect.
  destruct (m_command_type c); cbn; try done.
  - rewrite add_all_spec. cbn. rewrite <- bool_decide_or.
    apply bool_decide_ext. set_solver.
  - rewrite remove_all_spec. cbn. rewrite <- bool_decide_not, <- bool_decide_and.
    apply bool_decide_ext. set_solver.
Qed.
End properties.

#[local] Instance toy_crypto : Crypto := {|
  Hash160 := foldl (λ h b, uint32 (h * 31 + b)) 7;
  IsFullyValid := λ k, bool_decide (length k = 33%nat);
|}.

Lemma end_permissioning_final_witness :
  let st := {| m_admin_pub_keys := []; m_white_list := ∅;
               m_permissioning_is_active := true |} in
  let c := {| m_command_type := END_PERMISSIONING; m_payload := [] |} in
  (∀ addr, IsValidatorAuthorized (ProcessAdminCommands [c] st) addr = true) ∧
  (∀ keys, IsAdminAuthorized (ProcessAdminCommands [c] st) keys = false).
Proof.
  exact (end_permissioning_final
    {| m_admin_pub_keys := []; m_white_list := ∅; m_permissioning_is_active := true |}
    [] {| m_command_type := END_PERMISSIONING; m_payload := [] |} [] eq_refl).
Defined.
