(* ===== verification/Params.v ===== *)
(** * Finalization parameters: src/src/finalization/params.h, params.cpp

    The constants of the finalization protocol and the arithmetic that
    divides block heights into epochs.  Heights and epochs are [uint32_t]. *)
From S2P Require Import Prelude Ufp64 Admin.

(** [UNIT] of src/src/amount.h. *)
Definition UNIT : Z := 100000000.
Definition MAX_MONEY : Z := 2718275100 * UNIT.

Record Params := {
  epoch_length : Z;
  min_deposit_size : Z;
  dynasty_logout_delay : Z;
  withdrawal_epoch_delay : Z;
  slash_fraction_multiplier : Z;
  bounty_fraction_denominator : Z;
  base_interest_factor : Z;
  base_penalty_factor : Z;
  admin_params : AdminParams;
}.

(** The value of a [ufp64] initializer whose divisor is a literal. *)
Definition literal (o : outcome Z) : Z := match o with Ok z => z | Raise _ => 0 end.

Definition Params_RegTest (keys : option AdminKeySet) : Params := {|
  epoch_length := 5;
  min_deposit_size := 1500 * UNIT;
  dynasty_logout_delay := 2;
  withdrawal_epoch_delay := 5;
  slash_fraction_multiplier := 3;
  bounty_fraction_denominator := 25;
  base_interest_factor := to_ufp64 7;
  base_penalty_factor := literal (div_2uint 2 100000);
  admin_params := {| admin_keys := keys; white_list := [] |};
|}.

Definition Params_TestNet (keys : option AdminKeySet) : Params := {|
  epoch_length := 50;
  min_deposit_size := 10000 * UNIT;
  dynasty_logout_delay := 5;
  withdrawal_epoch_delay := 10;
  slash_fraction_multiplier := 3;
  bounty_fraction_denominator := 25;
  base_interest_factor := to_ufp64 7;
  base_penalty_factor := literal (div_2uint 2 10000000);
  admin_params := {| admin_keys := keys; white_list := [] |};
|}.

Section epochs.
Context (p : Params).

Definition GetEpoch (block_height : Z) : Z :=
  let epoch := block_height / epoch_length p in
  if bool_decide (block_height mod epoch_length p ≠ 0) then uint32 (epoch + 1) else epoch.

Definition GetEpochCheckpointHeight (epoch : Z) : Z :=
  uint32 (epoch * epoch_length p).

Definition GetEpochStartHeight (epoch : Z) : Z :=
  if decide (epoch = 0) then 0
  else uint32 (GetEpochCheckpointHeight (uint32 (epoch - 1)) + 1).

Definition IsEpochStart (block_height : Z) : bool :=
  bool_decide (block_height mod epoch_length p = 1).

Definition IsCheckpoint (block_height : Z) : bool :=
  bool_decide (block_height mod epoch_length p = 0).

(** ** Heights and epochs correspond

    For a positive epoch length, and epochs whose last block still has a
    32-bit height. *)
Hypothesis Hlen : 0 < epoch_length p.

Lemma GetEpoch_div h :
  is_uint32 h → GetEpoch h = (h + epoch_length p - 1) / epoch_length p.
Proof.
  unfold is_uint32. intros Hh. unfold GetEpoch.
  pose proof (Z.div_mod h (epoch_length p) ltac:(lia)) as Hdm.
  pose proof (Z.mod_pos_bound h (epoch_length p) Hlen).
  set (q := h / epoch_length p) in *. set (r := h mod epoch_length p) in *.
  case_bool_decide as Hr.
  - assert (0 ≤ q) by (apply Z.div_pos; lia).
    rewrite uint32_small by (unfold is_uint32; nia).
    apply (Z.div_unique _ _ _ (r - 1)); lia.
  - apply (Z.div_unique _ _ _ (epoch_length p - 1)); lia.
Qed.

Lemma GetEpochCheckpointHeight_small e :
  0 ≤ e → e * epoch_length p < 2 ^ 32 → GetEpochCheckpointHeight e = e * epoch_length p.
Proof. intros. apply uint32_small. unfold is_uint32. nia. Qed.

Lemma GetEpochStartHeight_small e :
  0 < e → e * epoch_length p < 2 ^ 32 →
  GetEpochStartHeight e = (e - 1) * epoch_length p + 1.
Proof.
  intros He Hb. unfold GetEpochStartHeight. rewrite decide_False by lia.
  rewrite (uint32_small (e - 1)) by (unfold is_uint32; nia).
  rewrite GetEpochCheckpointHeight_small by nia.
  apply uint32_small. unfold is_uint32. nia.
Qed.

(** The epoch of a height is the one epoch whose first and last block
    enclose it, so the epochs partition the heights. *)
Theorem epoch_bounds h e :
  is_uint32 h → 0 ≤ e → e * epoch_length p < 2 ^ 32 →
  GetEpoch h = e ↔ GetEpochStartHeight e ≤ h ≤ GetEpochCheckpointHeight e.
Proof.
  intros Hh He Hb. rewrite GetEpoch_div by done.
  rewrite GetEpochCheckpointHeight_small by done. unfold is_uint32 in Hh.
  destruct (decide (e = 0)) as [->|].
  { unfold GetEpochStartHeight. rewrite decide_True by done. split.
    - intros Hz%Z.div_small_iff; lia.
    - intros. apply Z.div_small. lia. }
  rewrite GetEpochStartHeight_small by lia. split.
  - intros <-. set (L := epoch_length p) in *. set (N := h + L - 1).
    pose proof (Z.mul_div_le N L Hlen). pose proof (Z.mul_succ_div_gt N L Hlen).
    subst N. nia.
  - intros. symmetry. apply (Z.div_unique _ _ _ (h + epoch_length p - 1 - e * epoch_length p)); nia.
Qed.

(** With more than one block per epoch the first block of an epoch is
    exactly where [IsEpochStart] holds, the last exactly where
    [IsCheckpoint] holds. *)
Theorem epoch_markers h :
  1 < epoch_length p → 0 < h → is_uint32 h →
  GetEpoch h * epoch_length p < 2 ^ 32 →
  (IsEpochStart h = true ↔ h = GetEpochStartHeight (GetEpoch h)) ∧
  (IsCheckpoint h = true ↔ h = GetEpochCheckpointHeight (GetEpoch h)).
Proof.
  intros HL Hh Hh32 Hb. rewrite GetEpoch_div in * by done.
  set (L := epoch_length p) in *. set (e := (h + L - 1) / L) in *.
  assert (He : 0 < e) by (apply Z.div_str_pos; lia).
  rewrite GetEpochStartHeight_small, GetEpochCheckpointHeight_small by (subst L; lia).
  fold L. unfold IsEpochStart, IsCheckpoint. rewrite !bool_decide_eq_true. fold L.
  assert (Hm : L * (e - 1) < h ≤ L * e).
  { pose proof (Z.mul_div_le (h + L - 1) L Hlen).
    pose proof (Z.mul_succ_div_gt (h + L - 1) L Hlen). subst e. nia. }
  pose proof (Z.div_mod h L ltac:(lia)) as Hdm. pose proof (Z.mod_pos_bound h L Hlen).
  set (q := h / L) in *. set (r := h mod L) in *. clearbody e q r L.
  assert (Hq : (q = e - 1 ∧ 0 < r) ∨ (q = e ∧ r = 0)).
  { assert (e - 1 ≤ q ≤ e) by nia. destruct (decide (q = e)) as [->|]; nia. }
  split; split; destruct Hq as [[-> ?]|[-> ?]]; intros; nia.
Qed.
End epochs.

Lemma epoch_bounds_witness :
  GetEpoch (Params_RegTest None) 12 = 3 ↔
  GetEpochStartHeight (Params_RegTest None) 3 ≤ 12 ≤ GetEpochCheckpointHeight (Params_RegTest None) 3.
Proof. apply (epoch_bounds (Params_RegTest None)); vm_compute; intuition congruence. Defined.

Lemma epoch_markers_witness :
  (IsEpochStart (Params_TestNet None) 101 = true ↔
     101 = GetEpochStartHeight (Params_TestNet None) (GetEpoch (Params_TestNet None) 101)) ∧
  (IsCheckpoint (Params_TestNet None) 101 = true ↔
     101 = GetEpochCheckpointHeight (Params_TestNet None) (GetEpoch (Params_TestNet None) 101)).
Proof. apply (epoch_markers (Params_TestNet None)); vm_compute; intuition congruence. Defined.
