(* ===== verification/FinalizationData.v ===== *)
(** * The data of the finalization state: src/src/esperanza/vote.h,
    validator.h, checkpoint.h, finalizationstate_data.h, finalizationstate.h

    The records the finalization state is made of, with one field per class
    member, and the constructors and small methods of these classes.  A
    [std::map] or [std::set] keyed by epochs, dynasties or addresses is a
    [gmap] or [gset] over [Z]; the addresses and hashes ([uint160],
    [uint256]) are the values of their bytes.  [set_f x s] is the record [s]
    after the assignment [s.f = x]. *)
From S2P Require Import Prelude Admin.

(** ** Votes *)

Record Vote := {
  m_validator_address : Z;
  m_target_hash : Z;
  m_source_epoch : Z;
  m_target_epoch : Z;
}.

#[export] Instance Vote_eq_dec : EqDecision Vote.
Proof. solve_decision. Defined.

(** ** Results *)

Inductive Result :=
  | SUCCESS
  | INIT_WRONG_EPOCH
  | INIT_INVALID_REWARD
  | DEPOSIT_INSUFFICIENT
  | DEPOSIT_DUPLICATE
  | VOTE_MALFORMED
  | VOTE_NOT_BY_VALIDATOR
  | VOTE_NOT_VOTABLE
  | VOTE_ALREADY_VOTED
  | VOTE_WRONG_TARGET_HASH
  | VOTE_WRONG_TARGET_EPOCH
  | VOTE_SRC_EPOCH_NOT_JUSTIFIED
  | LOGOUT_ALREADY_DONE
  | LOGOUT_NOT_A_VALIDATOR
  | LOGOUT_NOT_YET_A_VALIDATOR
  | WITHDRAW_TOO_EARLY
  | WITHDRAW_NOT_A_VALIDATOR
  | WITHDRAW_WRONG_AMOUNT
  | SLASH_SAME_VOTE
  | SLASH_NOT_SAME_VALIDATOR
  | SLASH_TOO_EARLY
  | SLASH_ALREADY_SLASHED
  | SLASH_NOT_VALID
  | SLASH_NOT_A_VALIDATOR
  | ADMIN_BLACKLISTED
  | ADMIN_NOT_AUTHORIZED.

#[export] Instance Result_eq_dec : EqDecision Result.
Proof. solve_decision. Defined.

(** ** Validators (finalizers) *)

(** [std::numeric_limits<uint32_t>::max()]. *)
Definition MAX_UINT32 : Z := 2 ^ 32 - 1.
Definition MAX_END_DYNASTY : Z := MAX_UINT32.

(** [m_finalizer_address] is the member [m_validator_address]. *)
Record Validator := {
  m_finalizer_address : Z;
  m_deposit : Z;
  m_start_dynasty : Z;
  m_end_dynasty : Z;
  m_is_slashed : bool;
  m_deposits_at_logout : Z;
  m_last_transaction_hash : Z;
}.

#[export] Instance Validator_eq_dec : EqDecision Validator.
Proof. solve_decision. Defined.

Definition Validator_new (deposit startDynasty validatorAddress : Z) : Validator := {|
  m_finalizer_address := validatorAddress;
  m_deposit := deposit;
  m_start_dynasty := startDynasty;
  m_end_dynasty := MAX_END_DYNASTY;
  m_is_slashed := false;
  m_deposits_at_logout := 0;
  m_last_transaction_hash := 0;
|}.

Definition set_m_finalizer_address (x : _) (s : Validator) : Validator := {|
  m_finalizer_address := x;
  m_deposit := m_deposit s;
  m_start_dynasty := m_start_dynasty s;
  m_end_dynasty := m_end_dynasty s;
  m_is_slashed := m_is_slashed s;
  m_deposits_at_logout := m_deposits_at_logout s;
  m_last_transaction_hash := m_last_transaction_hash s;
|}.
Definition set_m_deposit (x : _) (s : Validator) : Validator := {|
  m_finalizer_address := m_finalizer_address s;
  m_deposit := x;
  m_start_dynasty := m_start_dynasty s;
  m_end_dynasty := m_end_dynasty s;
  m_is_slashed := m_is_slashed s;
  m_deposits_at_logout := m_deposits_at_logout s;
  m_last_transaction_hash := m_last_transaction_hash s;
|}.
Definition set_m_start_dynasty (x : _) (s : Validator) : Validator := {|
  m_finalizer_address := m_finalizer_address s;
  m_deposit := m_deposit s;
  m_start_dynasty := x;
  m_end_dynasty := m_end_dynasty s;
  m_is_slashed := m_is_slashed s;
  m_deposits_at_logout := m_deposits_at_logout s;
  m_last_transaction_hash := m_last_transaction_hash s;
|}.
Definition set_m_end_dynasty (x : _) (s : Validator) : Validator := {|
  m_finalizer_address := m_finalizer_address s;
  m_deposit := m_deposit s;
  m_start_dynasty := m_start_dynasty s;
  m_end_dynasty := x;
  m_is_slashed := m_is_slashed s;
  m_deposits_at_logout := m_deposits_at_logout s;
  m_last_transaction_hash := m_last_transaction_hash s;
|}.
Definition set_m_is_slashed (x : _) (s : Validator) : Validator := {|
  m_finalizer_address := m_finalizer_address s;
  m_deposit := m_deposit s;
  m_start_dynasty := m_start_dynasty s;
  m_end_dynasty := m_end_dynasty s;
  m_is_slashed := x;
  m_deposits_at_logout := m_deposits_at_logout s;
  m_last_transaction_hash := m_last_transaction_hash s;
|}.
Definition set_m_deposits_at_logout (x : _) (s : Validator) : Validator := {|
  m_finalizer_address := m_finalizer_address s;
  m_deposit := m_deposit s;
  m_start_dynasty := m_start_dynasty s;
  m_end_dynasty := m_end_dynasty s;
  m_is_slashed := m_is_slashed s;
  m_deposits_at_logout := x;
  m_last_transaction_hash := m_last_transaction_hash s;
|}.
Definition set_m_last_transaction_hash (x : _) (s : Validator) : Validator := {|
  m_finalizer_address := m_finalizer_address s;
  m_deposit := m_deposit s;
  m_start_dynasty := m_start_dynasty s;
  m_end_dynasty := m_end_dynasty s;
  m_is_slashed := m_is_slashed s;
  m_deposits_at_logout := m_deposits_at_logout s;
  m_last_transaction_hash := x;
|}.

(** ** Checkpoints *)

Record Checkpoint := {
  m_is_justified : bool;
  m_is_finalized : bool;
  m_cur_dynasty_deposits : Z;
  m_prev_dynasty_deposits : Z;
  m_cur_dynasty_votes : gmap Z Z;
  m_prev_dynasty_votes : gmap Z Z;
  m_vote_set : gset Z;
}.

#[export] Instance Checkpoint_eq_dec : EqDecision Checkpoint.
Proof. solve_decision. Defined.

Definition Checkpoint_new : Checkpoint := {|
  m_is_justified := false;
  m_is_finalized := false;
  m_cur_dynasty_deposits := 0;
  m_prev_dynasty_deposits := 0;
  m_cur_dynasty_votes := ∅;
  m_prev_dynasty_votes := ∅;
  m_vote_set := ∅;
|}.

Definition set_m_is_justified (x : _) (s : Checkpoint) : Checkpoint := {|
  m_is_justified := x;
  m_is_finalized := m_is_finalized s;
  m_cur_dynasty_deposits := m_cur_dynasty_deposits s;
  m_prev_dynasty_deposits := m_prev_dynasty_deposits s;
  m_cur_dynasty_votes := m_cur_dynasty_votes s;
  m_prev_dynasty_votes := m_prev_dynasty_votes s;
  m_vote_set := m_vote_set s;
|}.
Definition set_m_is_finalized (x : _) (s : Checkpoint) : Checkpoint := {|
  m_is_justified := m_is_justified s;
  m_is_finalized := x;
  m_cur_dynasty_deposits := m_cur_dynasty_deposits s;
  m_prev_dynasty_deposits := m_prev_dynasty_deposits s;
  m_cur_dynasty_votes := m_cur_dynasty_votes s;
  m_prev_dynasty_votes := m_prev_dynasty_votes s;
  m_vote_set := m_vote_set s;
|}.
Definition set_m_cur_dynasty_deposits (x : _) (s : Checkpoint) : Checkpoint := {|
  m_is_justified := m_is_justified s;
  m_is_finalized := m_is_finalized s;
  m_cur_dynasty_deposits := x;
  m_prev_dynasty_deposits := m_prev_dynasty_deposits s;
  m_cur_dynasty_votes := m_cur_dynasty_votes s;
  m_prev_dynasty_votes := m_prev_dynasty_votes s;
  m_vote_set := m_vote_set s;
|}.
Definition set_m_prev_dynasty_deposits (x : _) (s : Checkpoint) : Checkpoint := {|
  m_is_justified := m_is_justified s;
  m_is_finalized := m_is_finalized s;
  m_cur_dynasty_deposits := m_cur_dynasty_deposits s;
  m_prev_dynasty_deposits := x;
  m_cur_dynasty_votes := m_cur_dynasty_votes s;
  m_prev_dynasty_votes := m_prev_dynasty_votes s;
  m_vote_set := m_vote_set s;
|}.
Definition set_m_cur_dynasty_votes (x : _) (s : Checkpoint) : Checkpoint := {|
  m_is_justified := m_is_justified s;
  m_is_finalized := m_is_finalized s;
  m_cur_dynasty_deposits := m_cur_dynasty_deposits s;
  m_prev_dynasty_deposits := m_prev_dynasty_deposits s;
  m_cur_dynasty_votes := x;
  m_prev_dynasty_votes := m_prev_dynasty_votes s;
  m_vote_set := m_vote_set s;
|}.
Definition set_m_prev_dynasty_votes (x : _) (s : Checkpoint) : Checkpoint := {|
  m_is_justified := m_is_justified s;
  m_is_finalized := m_is_finalized s;
  m_cur_dynasty_deposits := m_cur_dynasty_deposits s;
  m_prev_dynasty_deposits := m_prev_dynasty_deposits s;
  m_cur_dynasty_votes := m_cur_dynasty_votes s;
  m_prev_dynasty_votes := x;
  m_vote_set := m_vote_set s;
|}.
Definition set_m_vote_set (x : _) (s : Checkpoint) : Checkpoint := {|
  m_is_justified := m_is_justified s;
  m_is_finalized := m_is_finalized s;
  m_cur_dynasty_deposits := m_cur_dynasty_deposits s;
  m_prev_dynasty_deposits := m_prev_dynasty_deposits s;
  m_cur_dynasty_votes := m_cur_dynasty_votes s;
  m_prev_dynasty_votes := m_prev_dynasty_votes s;
  m_vote_set := x;
|}.

(** [GetCurDynastyVotes] and [GetPrevDynastyVotes] insert a zero for an epoch
    that has no entry yet, so they return the checkpoint as well. *)
Definition GetCurDynastyVotes (epoch : Z) (cp : Checkpoint) : Z * Checkpoint :=
  (emplaced epoch 0 (m_cur_dynasty_votes cp),
   set_m_cur_dynasty_votes (emplace epoch 0 (m_cur_dynasty_votes cp)) cp).

Definition GetPrevDynastyVotes (epoch : Z) (cp : Checkpoint) : Z * Checkpoint :=
  (emplaced epoch 0 (m_prev_dynasty_votes cp),
   set_m_prev_dynasty_votes (emplace epoch 0 (m_prev_dynasty_votes cp)) cp).

(** ** The state *)

Record FinalizationStateData := {
  m_checkpoints : gmap Z Checkpoint;
  m_dynasty_start_epoch : gmap Z Z;
  m_validators : gmap Z Validator;
  m_dynasty_deltas : gmap Z Z;
  m_deposit_scale_factor : gmap Z Z;
  m_total_slashed : gmap Z Z;
  m_current_epoch : Z;
  m_current_dynasty : Z;
  m_cur_dyn_deposits : Z;
  m_prev_dyn_deposits : Z;
  m_expected_source_epoch : Z;
  m_last_finalized_epoch : Z;
  m_last_justified_epoch : Z;
  m_recommended_target_hash : Z;
  m_recommended_target_epoch : Z;
  m_reward_factor : Z;
  m_admin_state : AdminState;
}.

#[export] Instance FinalizationStateData_eq_dec : EqDecision FinalizationStateData.
Proof. solve_decision. Defined.

Definition set_m_checkpoints (x : _) (s : FinalizationStateData) : FinalizationStateData := {|
  m_checkpoints := x;
  m_dynasty_start_epoch := m_dynasty_start_epoch s;
  m_validators := m_validators s;
  m_dynasty_deltas := m_dynasty_deltas s;
  m_deposit_scale_factor := m_deposit_scale_factor s;
  m_total_slashed := m_total_slashed s;
  m_current_epoch := m_current_epoch s;
  m_current_dynasty := m_current_dynasty s;
  m_cur_dyn_deposits := m_cur_dyn_deposits s;
  m_prev_dyn_deposits := m_prev_dyn_deposits s;
  m_expected_source_epoch := m_expected_source_epoch s;
  m_last_finalized_epoch := m_last_finalized_epoch s;
  m_last_justified_epoch := m_last_justified_epoch s;
  m_recommended_target_hash := m_recommended_target_hash s;
  m_recommended_target_epoch := m_recommended_target_epoch s;
  m_reward_factor := m_reward_factor s;
  m_admin_state := m_admin_state s;
|}.
Definition set_m_dynasty_start_epoch (x : _) (s : FinalizationStateData) : FinalizationStateData := {|
  m_checkpoints := m_checkpoints s;
  m_dynasty_start_epoch := x;
  m_validators := m_validators s;
  m_dynasty_deltas := m_dynasty_deltas s;
  m_deposit_scale_factor := m_deposit_scale_factor s;
  m_total_slashed := m_total_slashed s;
  m_current_epoch := m_current_epoch s;
  m_current_dynasty := m_current_dynasty s;
  m_cur_dyn_deposits := m_cur_dyn_deposits s;
  m_prev_dyn_deposits := m_prev_dyn_deposits s;
  m_expected_source_epoch := m_expected_source_epoch s;
  m_last_finalized_epoch := m_last_finalized_epoch s;
  m_last_justified_epoch := m_last_justified_epoch s;
  m_recommended_target_hash := m_recommended_target_hash s;
  m_recommended_target_epoch := m_recommended_target_epoch s;
  m_reward_factor := m_reward_factor s;
  m_admin_state := m_admin_state s;
|}.
Definition set_m_validators (x : _) (s : FinalizationStateData) : FinalizationStateData := {|
  m_checkpoints := m_checkpoints s;
  m_dynasty_start_epoch := m_dynasty_start_epoch s;
  m_validators := x;
  m_dynasty_deltas := m_dynasty_deltas s;
  m_deposit_scale_factor := m_deposit_scale_factor s;
  m_total_slashed := m_total_slashed s;
  m_current_epoch := m_current_epoch s;
  m_current_dynasty := m_current_dynasty s;
  m_cur_dyn_deposits := m_cur_dyn_deposits s;
  m_prev_dyn_deposits := m_prev_dyn_deposits s;
  m_expected_source_epoch := m_expected_source_epoch s;
  m_last_finalized_epoch := m_last_finalized_epoch s;
  m_last_justified_epoch := m_last_justified_epoch s;
  m_recommended_target_hash := m_recommended_target_hash s;
  m_recommended_target_epoch := m_recommended_target_epoch s;
  m_reward_factor := m_reward_factor s;
  m_admin_state := m_admin_state s;
|}.
Definition set_m_dynasty_deltas (x : _) (s : FinalizationStateData) : FinalizationStateData := {|
  m_checkpoints := m_checkpoints s;
  m_dynasty_start_epoch := m_dynasty_start_epoch s;
  m_validators := m_validators s;
  m_dynasty_deltas := x;
  m_deposit_scale_factor := m_deposit_scale_factor s;
  m_total_slashed := m_total_slashed s;
  m_current_epoch := m_current_epoch s;
  m_current_dynasty := m_current_dynasty s;
  m_cur_dyn_deposits := m_cur_dyn_deposits s;
  m_prev_dyn_deposits := m_prev_dyn_deposits s;
  m_expected_source_epoch := m_expected_source_epoch s;
  m_last_finalized_epoch := m_last_finalized_epoch s;
  m_last_justified_epoch := m_last_justified_epoch s;
  m_recommended_target_hash := m_recommended_target_hash s;
  m_recommended_target_epoch := m_recommended_target_epoch s;
  m_reward_factor := m_reward_factor s;
  m_admin_state := m_admin_state s;
|}.
Definition set_m_deposit_scale_factor (x : _) (s : FinalizationStateData) : FinalizationStateData := {|
  m_checkpoints := m_checkpoints s;
  m_dynasty_start_epoch := m_dynasty_start_epoch s;
  m_validators := m_validators s;
  m_dynasty_deltas := m_dynasty_deltas s;
  m_deposit_scale_factor := x;
  m_total_slashed := m_total_slashed s;
  m_current_epoch := m_current_epoch s;
  m_current_dynasty := m_current_dynasty s;
  m_cur_dyn_deposits := m_cur_dyn_deposits s;
  m_prev_dyn_deposits := m_prev_dyn_deposits s;
  m_expected_source_epoch := m_expected_source_epoch s;
  m_last_finalized_epoch := m_last_finalized_epoch s;
  m_last_justified_epoch := m_last_justified_epoch s;
  m_recommended_target_hash := m_recommended_target_hash s;
  m_recommended_target_epoch := m_recommended_target_epoch s;
  m_reward_factor := m_reward_factor s;
  m_admin_state := m_admin_state s;
|}.
Definition set_m_total_slashed (x : _) (s : FinalizationStateData) : FinalizationStateData := {|
  m_checkpoints := m_checkpoints s;
  m_dynasty_start_epoch := m_dynasty_start_epoch s;
  m_validators := m_validators s;
  m_dynasty_deltas := m_dynasty_deltas s;
  m_deposit_scale_factor := m_deposit_scale_factor s;
  m_total_slashed := x;
  m_current_epoch := m_current_epoch s;
  m_current_dynasty := m_current_dynasty s;
  m_cur_dyn_deposits := m_cur_dyn_deposits s;
  m_prev_dyn_deposits := m_prev_dyn_deposits s;
  m_expected_source_epoch := m_expected_source_epoch s;
  m_last_finalized_epoch := m_last_finalized_epoch s;
  m_last_justified_epoch := m_last_justified_epoch s;
  m_recommended_target_hash := m_recommended_target_hash s;
  m_recommended_target_epoch := m_recommended_target_epoch s;
  m_reward_factor := m_reward_factor s;
  m_admin_state := m_admin_state s;
|}.
Definition set_m_current_epoch (x : _) (s : FinalizationStateData) : FinalizationStateData := {|
  m_checkpoints := m_checkpoints s;
  m_dynasty_start_epoch := m_dynasty_start_epoch s;
  m_validators := m_validators s;
  m_dynasty_deltas := m_dynasty_deltas s;
  m_deposit_scale_factor := m_deposit_scale_factor s;
  m_total_slashed := m_total_slashed s;
  m_current_epoch := x;
  m_current_dynasty := m_current_dynasty s;
  m_cur_dyn_deposits := m_cur_dyn_deposits s;
  m_prev_dyn_deposits := m_prev_dyn_deposits s;
  m_expected_source_epoch := m_expected_source_epoch s;
  m_last_finalized_epoch := m_last_finalized_epoch s;
  m_last_justified_epoch := m_last_justified_epoch s;
  m_recommended_target_hash := m_recommended_target_hash s;
  m_recommended_target_epoch := m_recommended_target_epoch s;
  m_reward_factor := m_reward_factor s;
  m_admin_state := m_admin_state s;
|}.
Definition set_m_current_dynasty (x : _) (s : FinalizationStateData) : FinalizationStateData := {|
  m_checkpoints := m_checkpoints s;
  m_dynasty_start_epoch := m_dynasty_start_epoch s;
  m_validators := m_validators s;
  m_dynasty_deltas := m_dynasty_deltas s;
  m_deposit_scale_factor := m_deposit_scale_factor s;
  m_total_slashed := m_total_slashed s;
  m_current_epoch := m_current_epoch s;
  m_current_dynasty := x;
  m_cur_dyn_deposits := m_cur_dyn_deposits s;
  m_prev_dyn_deposits := m_prev_dyn_deposits s;
  m_expected_source_epoch := m_expected_source_epoch s;
  m_last_finalized_epoch := m_last_finalized_epoch s;
  m_last_justified_epoch := m_last_justified_epoch s;
  m_recommended_target_hash := m_recommended_target_hash s;
  m_recommended_target_epoch := m_recommended_target_epoch s;
  m_reward_factor := m_reward_factor s;
  m_admin_state := m_admin_state s;
|}.
Definition set_m_cur_dyn_deposits (x : _) (s : FinalizationStateData) : FinalizationStateData := {|
  m_checkpoints := m_checkpoints s;
  m_dynasty_start_epoch := m_dynasty_start_epoch s;
  m_validators := m_validators s;
  m_dynasty_deltas := m_dynasty_deltas s;
  m_deposit_scale_factor := m_deposit_scale_factor s;
  m_total_slashed := m_total_slashed s;
  m_current_epoch := m_current_epoch s;
  m_current_dynasty := m_current_dynasty s;
  m_cur_dyn_deposits := x;
  m_prev_dyn_deposits := m_prev_dyn_deposits s;
  m_expected_source_epoch := m_expected_source_epoch s;
  m_last_finalized_epoch := m_last_finalized_epoch s;
  m_last_justified_epoch := m_last_justified_epoch s;
  m_recommended_target_hash := m_recommended_target_hash s;
  m_recommended_target_epoch := m_recommended_target_epoch s;
  m_reward_factor := m_reward_factor s;
  m_admin_state := m_admin_state s;
|}.
Definition set_m_prev_dyn_deposits (x : _) (s : FinalizationStateData) : FinalizationStateData := {|
  m_checkpoints := m_checkpoints s;
  m_dynasty_start_epoch := m_dynasty_start_epoch s;
  m_validators := m_validators s;
  m_dynasty_deltas := m_dynasty_deltas s;
  m_deposit_scale_factor := m_deposit_scale_factor s;
  m_total_slashed := m_total_slashed s;
  m_current_epoch := m_current_epoch s;
  m_current_dynasty := m_current_dynasty s;
  m_cur_dyn_deposits := m_cur_dyn_deposits s;
  m_prev_dyn_deposits := x;
  m_expected_source_epoch := m_expected_source_epoch s;
  m_last_finalized_epoch := m_last_finalized_epoch s;
  m_last_justified_epoch := m_last_justified_epoch s;
  m_recommended_target_hash := m_recommended_target_hash s;
  m_recommended_target_epoch := m_recommended_target_epoch s;
  m_reward_factor := m_reward_factor s;
  m_admin_state := m_admin_state s;
|}.
Definition set_m_expected_source_epoch (x : _) (s : FinalizationStateData) : FinalizationStateData := {|
  m_checkpoints := m_checkpoints s;
  m_dynasty_start_epoch := m_dynasty_start_epoch s;
  m_validators := m_validators s;
  m_dynasty_deltas := m_dynasty_deltas s;
  m_deposit_scale_factor := m_deposit_scale_factor s;
  m_total_slashed := m_total_slashed s;
  m_current_epoch := m_current_epoch s;
  m_current_dynasty := m_current_dynasty s;
  m_cur_dyn_deposits := m_cur_dyn_deposits s;
  m_prev_dyn_deposits := m_prev_dyn_deposits s;
  m_expected_source_epoch := x;
  m_last_finalized_epoch := m_last_finalized_epoch s;
  m_last_justified_epoch := m_last_justified_epoch s;
  m_recommended_target_hash := m_recommended_target_hash s;
  m_recommended_target_epoch := m_recommended_target_epoch s;
  m_reward_factor := m_reward_factor s;
  m_admin_state := m_admin_state s;
|}.
Definition set_m_last_finalized_epoch (x : _) (s : FinalizationStateData) : FinalizationStateData := {|
  m_checkpoints := m_checkpoints s;
  m_dynasty_start_epoch := m_dynasty_start_epoch s;
  m_validators := m_validators s;
  m_dynasty_deltas := m_dynasty_deltas s;
  m_deposit_scale_factor := m_deposit_scale_factor s;
  m_total_slashed := m_total_slashed s;
  m_current_epoch := m_current_epoch s;
  m_current_dynasty := m_current_dynasty s;
  m_cur_dyn_deposits := m_cur_dyn_deposits s;
  m_prev_dyn_deposits := m_prev_dyn_deposits s;
  m_expected_source_epoch := m_expected_source_epoch s;
  m_last_finalized_epoch := x;
  m_last_justified_epoch := m_last_justified_epoch s;
  m_recommended_target_hash := m_recommended_target_hash s;
  m_recommended_target_epoch := m_recommended_target_epoch s;
  m_reward_factor := m_reward_factor s;
  m_admin_state := m_admin_state s;
|}.
Definition set_m_last_justified_epoch (x : _) (s : FinalizationStateData) : FinalizationStateData := {|
  m_checkpoints := m_checkpoints s;
  m_dynasty_start_epoch := m_dynasty_start_epoch s;
  m_validators := m_validators s;
  m_dynasty_deltas := m_dynasty_deltas s;
  m_deposit_scale_factor := m_deposit_scale_factor s;
  m_total_slashed := m_total_slashed s;
  m_current_epoch := m_current_epoch s;
  m_current_dynasty := m_current_dynasty s;
  m_cur_dyn_deposits := m_cur_dyn_deposits s;
  m_prev_dyn_deposits := m_prev_dyn_deposits s;
  m_expected_source_epoch := m_expected_source_epoch s;
  m_last_finalized_epoch := m_last_finalized_epoch s;
  m_last_justified_epoch := x;
  m_recommended_target_hash := m_recommended_target_hash s;
  m_recommended_target_epoch := m_recommended_target_epoch s;
  m_reward_factor := m_reward_factor s;
  m_admin_state := m_admin_state s;
|}.
Definition set_m_recommended_target_hash (x : _) (s : FinalizationStateData) : FinalizationStateData := {|
  m_checkpoints := m_checkpoints s;
  m_dynasty_start_epoch := m_dynasty_start_epoch s;
  m_validators := m_validators s;
  m_dynasty_deltas := m_dynasty_deltas s;
  m_deposit_scale_factor := m_deposit_scale_factor s;
  m_total_slashed := m_total_slashed s;
  m_current_epoch := m_current_epoch s;
  m_current_dynasty := m_current_dynasty s;
  m_cur_dyn_deposits := m_cur_dyn_deposits s;
  m_prev_dyn_deposits := m_prev_dyn_deposits s;
  m_expected_source_epoch := m_expected_source_epoch s;
  m_last_finalized_epoch := m_last_finalized_epoch s;
  m_last_justified_epoch := m_last_justified_epoch s;
  m_recommended_target_hash := x;
  m_recommended_target_epoch := m_recommended_target_epoch s;
  m_reward_factor := m_reward_factor s;
  m_admin_state := m_admin_state s;
|}.
Definition set_m_recommended_target_epoch (x : _) (s : FinalizationStateData) : FinalizationStateData := {|
  m_checkpoints := m_checkpoints s;
  m_dynasty_start_epoch := m_dynasty_start_epoch s;
  m_validators := m_validators s;
  m_dynasty_deltas := m_dynasty_deltas s;
  m_deposit_scale_factor := m_deposit_scale_factor s;
  m_total_slashed := m_total_slashed s;
  m_current_epoch := m_current_epoch s;
  m_current_dynasty := m_current_dynasty s;
  m_cur_dyn_deposits := m_cur_dyn_deposits s;
  m_prev_dyn_deposits := m_prev_dyn_deposits s;
  m_expected_source_epoch := m_expected_source_epoch s;
  m_last_finalized_epoch := m_last_finalized_epoch s;
  m_last_justified_epoch := m_last_justified_epoch s;
  m_recommended_target_hash := m_recommended_target_hash s;
  m_recommended_target_epoch := x;
  m_reward_factor := m_reward_factor s;
  m_admin_state := m_admin_state s;
|}.
Definition set_m_reward_factor (x : _) (s : FinalizationStateData) : FinalizationStateData := {|
  m_checkpoints := m_checkpoints s;
  m_dynasty_start_epoch := m_dynasty_start_epoch s;
  m_validators := m_validators s;
  m_dynasty_deltas := m_dynasty_deltas s;
  m_deposit_scale_factor := m_deposit_scale_factor s;
  m_total_slashed := m_total_slashed s;
  m_current_epoch := m_current_epoch s;
  m_current_dynasty := m_current_dynasty s;
  m_cur_dyn_deposits := m_cur_dyn_deposits s;
  m_prev_dyn_deposits := m_prev_dyn_deposits s;
  m_expected_source_epoch := m_expected_source_epoch s;
  m_last_finalized_epoch := m_last_finalized_epoch s;
  m_last_justified_epoch := m_last_justified_epoch s;
  m_recommended_target_hash := m_recommended_target_hash s;
  m_recommended_target_epoch := m_recommended_target_epoch s;
  m_reward_factor := x;
  m_admin_state := m_admin_state s;
|}.
Definition set_m_admin_state (x : _) (s : FinalizationStateData) : FinalizationStateData := {|
  m_checkpoints := m_checkpoints s;
  m_dynasty_start_epoch := m_dynasty_start_epoch s;
  m_validators := m_validators s;
  m_dynasty_deltas := m_dynasty_deltas s;
  m_deposit_scale_factor := m_deposit_scale_factor s;
  m_total_slashed := m_total_slashed s;
  m_current_epoch := m_current_epoch s;
  m_current_dynasty := m_current_dynasty s;
  m_cur_dyn_deposits := m_cur_dyn_deposits s;
  m_prev_dyn_deposits := m_prev_dyn_deposits s;
  m_expected_source_epoch := m_expected_source_epoch s;
  m_last_finalized_epoch := m_last_finalized_epoch s;
  m_last_justified_epoch := m_last_justified_epoch s;
  m_recommended_target_hash := m_recommended_target_hash s;
  m_recommended_target_epoch := m_recommended_target_epoch s;
  m_reward_factor := m_reward_factor s;
  m_admin_state := x;
|}.

(** The stages of a state ([FinalizationState::InitStatus]), compared by their
    integer values in the code. *)
Inductive InitStatus := NEW | FROM_COMMITS | COMPLETED.

#[export] Instance InitStatus_eq_dec : EqDecision InitStatus.
Proof. solve_decision. Defined.

Definition InitStatus_value (st : InitStatus) : Z :=
  match st with NEW => 0 | FROM_COMMITS => 1 | COMPLETED => 2 end.

Record FinalizationState := {
  state_data : FinalizationStateData;
  m_status : InitStatus;
}.

(** The copy constructor: the parent's data with a fresh status. *)
Definition FinalizationState_copy (parent : FinalizationState) (status : InitStatus) :
  FinalizationState := {| state_data := state_data parent; m_status := status |}.

(** [operator==] compares the data and leaves the status out. *)
Definition FinalizationState_eqb (a b : FinalizationState) : bool :=
  bool_decide (state_data a = state_data b).
