(* ===== verification/FinalizationOps.v ===== *)
(** * The finalization state machine: src/src/esperanza/finalizationstate.cpp

    One definition per method of [FinalizationState].  A [const] method is a
    function of the data; a method that changes members returns the new data.
    Methods that can leave through an [assert], [map::at] or a division by
    zero return an [outcome].  [p] is [m_settings].  Conversions between
    [CAmount] (int64), [uint64_t] and [uint32_t] are written where the code
    performs them; signed sums are taken modulo 2^64 like the unsigned ones.
    Locking and logging are left out. *)
From S2P Require Import Prelude Ufp64 Admin Params FinalizationData.

Abbreviation State := FinalizationStateData.

Definition BASE_DEPOSIT_SCALE_FACTOR : Z := to_ufp64 1.

(** The constructor from parameters. *)
Definition FinalizationState_new `{!Crypto} (p : Params) : outcome State :=
  admin ← AdminState_new (admin_params p);
  Ok {|
    m_checkpoints :=
      {[ 0 := set_m_is_finalized true (set_m_is_justified true Checkpoint_new) ]};
    m_dynasty_start_epoch := {[ 0 := 1 ]};
    m_validators := ∅;
    m_dynasty_deltas := {[ 0 := 0 ]};
    m_deposit_scale_factor := {[ 0 := BASE_DEPOSIT_SCALE_FACTOR ]};
    m_total_slashed := {[ 0 := 0 ]};
    m_current_epoch := 0;
    m_current_dynasty := 0;
    m_cur_dyn_deposits := 0;
    m_prev_dyn_deposits := 0;
    m_expected_source_epoch := 0;
    m_last_finalized_epoch := 0;
    m_last_justified_epoch := 0;
    m_recommended_target_hash := 0;
    m_recommended_target_epoch := 0;
    m_reward_factor := 0;
    m_admin_state := admin;
  |}.

Section operations.
Context (p : Params).
Implicit Types s : State.

(** ** Accessors *)

Definition GetDepositScaleFactor s (epoch : Z) : outcome Z :=
  map_find_assert (m_deposit_scale_factor s) epoch.

(** The map holds [CAmount]s, the accessor returns [uint64_t]. *)
Definition GetTotalSlashed s (epoch : Z) : outcome Z :=
  uint64 <$> map_find_assert (m_total_slashed s) epoch.

Definition GetDynastyDelta s (dynasty : Z) : Z * State :=
  (emplaced dynasty 0 (m_dynasty_deltas s),
   set_m_dynasty_deltas (emplace dynasty 0 (m_dynasty_deltas s)) s).

Definition GetCheckpoint s (epoch : Z) : outcome Checkpoint :=
  map_find_assert (m_checkpoints s) epoch.

(** [m_dynasty_deltas[dynasty] = delta]. *)
Definition set_dynasty_delta (dynasty delta : Z) s : State :=
  set_m_dynasty_deltas (<[dynasty := delta]> (m_dynasty_deltas s)) s.

(** Assigning through the reference [GetCheckpoint(epoch)]. *)
Definition set_checkpoint (epoch : Z) (cp : Checkpoint) s : State :=
  set_m_checkpoints (<[epoch := cp]> (m_checkpoints s)) s.

(** Assigning through the reference [m_validators.at(address)]. *)
Definition set_validator (address : Z) (v : Validator) s : State :=
  set_m_validators (<[address := v]> (m_validators s)) s.

Definition GetValidator s (validatorAddress : Z) : option Validator :=
  m_validators s !! validatorAddress.

Definition GetRecommendedVote s (validatorAddress : Z) : Vote := {|
  m_validator_address := validatorAddress;
  m_target_hash := m_recommended_target_hash s;
  m_source_epoch := m_expected_source_epoch s;
  m_target_epoch := m_recommended_target_epoch s;
|}.

Definition IsInDynasty (validator : Validator) (dynasty : Z) : bool :=
  bool_decide (m_start_dynasty validator ≤ dynasty) &&
  bool_decide (dynasty < m_end_dynasty validator).

Definition IsFinalizerVoting s (finalizer : Validator) : bool :=
  IsInDynasty finalizer (m_current_dynasty s) ||
  IsInDynasty finalizer (uint32 (m_current_dynasty s - 1)).

(** The overload that takes an address. *)
Definition IsFinalizerVotingAddress s (finalizer_address : Z) : bool :=
  match GetValidator s finalizer_address with
  | Some finalizer => IsFinalizerVoting s finalizer
  | None => false
  end.

Definition GetActiveFinalizers s : list Validator :=
  filter (λ v, IsFinalizerVoting s v = true) (map_entries (m_validators s)).*2.

Definition DepositExists s : bool :=
  bool_decide (0 < m_cur_dyn_deposits s) && bool_decide (0 < m_prev_dyn_deposits s).

Definition GetEpochsSinceFinalization s : Z :=
  uint32 (m_current_epoch s - m_last_finalized_epoch s).

Definition GetSqrtOfTotalDeposits s : outcome Z :=
  factor ← GetDepositScaleFactor s (uint32 (m_current_epoch s - 1));
  scaled ← mul_to_uint factor (uint64 (Z.max (m_prev_dyn_deposits s) (m_cur_dyn_deposits s)));
  sqrt_uint (uint64 (1 + scaled)).

Definition GetDepositSize s (validatorAddress : Z) : outcome Z :=
  match m_validators s !! validatorAddress,
        m_deposit_scale_factor s !! m_current_epoch s with
  | Some validator, Some depositScale =>
      if m_is_slashed validator then Ok 0
      else mul_to_uint depositScale (m_deposit validator)
  | _, _ => Ok 0
  end.

Definition GetTotalCurDynDeposits s : outcome Z :=
  factor ← GetDepositScaleFactor s (m_current_epoch s);
  mul_to_uint factor (uint64 (m_cur_dyn_deposits s)).

Definition GetTotalPrevDynDeposits s : outcome Z :=
  if decide (m_current_epoch s = 0) then Ok 0
  else
    factor ← GetDepositScaleFactor s (uint32 (m_current_epoch s - 1));
    mul_to_uint factor (uint64 (m_prev_dyn_deposits s)).

Definition GetEndDynasty s : Z :=
  uint32 (m_current_dynasty s + dynasty_logout_delay p).

Definition CalculateVoteReward s (validator : Validator) : outcome Z :=
  mul_to_uint (m_reward_factor s) (m_deposit validator).

(** [ValidateDepositAmount]. *)
Definition ValidateDepositAmount (amount : Z) : bool :=
  bool_decide (min_deposit_size p ≤ amount).

Definition IsFinalizedCheckpoint s (blockHeight : Z) : bool :=
  if IsCheckpoint p blockHeight
  then bool_decide (GetEpoch p blockHeight ≤ m_last_finalized_epoch s)
  else false.

Definition GetCurrentDynastyEpochStart s : outcome Z :=
  map_find_assert (m_dynasty_start_epoch s) (m_current_dynasty s).

Definition GetLastTxHash s (validatorAddress : Z) : outcome Z :=
  m_last_transaction_hash <$> map_at (m_validators s) validatorAddress.

(** ** The beginning of an epoch *)

Definition GetCollectiveRewardFactor s : outcome (Z * State) :=
  let isLive := bool_decide (GetEpochsSinceFinalization s ≤ 2) in
  if negb (DepositExists s) || negb isLive then Ok (0, s)
  else
    _ ← cpp_assert (bool_decide (m_last_finalized_epoch s = uint32 (m_current_epoch s - 2)));
    cp ← GetCheckpoint s (m_last_finalized_epoch s);
    let '(curVotes, cp) := GetCurDynastyVotes (m_expected_source_epoch s) cp in
    curVoteFraction ← div_2uint curVotes (uint64 (m_cur_dyn_deposits s));
    let '(prevVotes, cp) := GetPrevDynastyVotes (m_expected_source_epoch s) cp in
    prevVoteFraction ← div_2uint prevVotes (uint64 (m_prev_dyn_deposits s));
    let s := set_checkpoint (m_last_finalized_epoch s) cp s in
    product ← mul (min curVoteFraction prevVoteFraction) (m_reward_factor s);
    half ← div_by_uint product 2;
    Ok (half, s).

Definition InstaJustify s : outcome State :=
  let epoch := uint32 (m_current_epoch s - 1) in
  cp ← GetCheckpoint s epoch;
  let cp := set_m_is_justified true cp in
  let s := set_m_last_justified_epoch epoch (set_checkpoint epoch cp s) in
  if decide (1 < m_current_epoch s) then
    to_be_finalized ← GetCheckpoint s (uint32 (m_current_epoch s - 2));
    if m_is_justified to_be_finalized then
      Ok (set_m_last_finalized_epoch (m_last_justified_epoch s)
            (set_checkpoint epoch (set_m_is_finalized true cp) s))
    else Ok s
  else Ok s.

Definition IncrementDynasty s : outcome State :=
  if decide (m_current_epoch s < 3) then Ok s
  else
    cp ← GetCheckpoint s (uint32 (m_current_epoch s - 2));
    if negb (m_is_finalized cp) then Ok s
    else
      let s := set_m_current_dynasty (uint32 (m_current_dynasty s + 1)) s in
      let s := set_m_prev_dyn_deposits (m_cur_dyn_deposits s) s in
      let '(delta, s) := GetDynastyDelta s (m_current_dynasty s) in
      let s := set_m_cur_dyn_deposits (int64 (m_cur_dyn_deposits s + delta)) s in
      let s := set_m_dynasty_start_epoch
                 (<[m_current_dynasty s := m_current_epoch s]> (m_dynasty_start_epoch s)) s in
      Ok (set_m_checkpoints
            (filter (λ kv, ¬ kv.1 < m_last_finalized_epoch s) (m_checkpoints s)) s).

Definition InitializeEpoch s (blockHeight : Z) : outcome (Result * State) :=
  _ ← cpp_assert (IsEpochStart p blockHeight);
  let new_epoch := GetEpoch p blockHeight in
  if decide (new_epoch ≠ uint32 (m_current_epoch s + 1)) then Ok (INIT_WRONG_EPOCH, s)
  else
    cur_deposits ← GetTotalCurDynDeposits s;
    prev_deposits ← GetTotalPrevDynDeposits s;
    let cp := set_m_prev_dynasty_deposits prev_deposits
                (set_m_cur_dynasty_deposits cur_deposits Checkpoint_new) in
    let s := set_checkpoint new_epoch cp s in
    let s := set_m_current_epoch new_epoch s in
    '(collective, s) ← GetCollectiveRewardFactor s;
    let last_voter_rescale := add_uint collective 1 in
    last_non_voter_rescale ← div last_voter_rescale (add_uint (m_reward_factor s) 1);
    prev_factor ← GetDepositScaleFactor s (uint32 (new_epoch - 1));
    factor ← mul last_non_voter_rescale prev_factor;
    let s := set_m_deposit_scale_factor (<[new_epoch := factor]> (m_deposit_scale_factor s)) s in
    slashed ← GetTotalSlashed s (uint32 (new_epoch - 1));
    let s := set_m_total_slashed (<[new_epoch := int64 slashed]> (m_total_slashed s)) s in
    '(invalid_reward, s) ←
      (if DepositExists s then
         root ← GetSqrtOfTotalDeposits s;
         interestBase ← div (base_interest_factor p) root;
         let reward_factor :=
           add interestBase (mul_by_uint (base_penalty_factor p) (GetEpochsSinceFinalization s)) in
         let s := set_m_reward_factor reward_factor s in
         Ok (bool_decide (reward_factor ≤ 0), s)
       else Ok (false, set_m_reward_factor 0 s));
    if (invalid_reward : bool) then Ok (INIT_INVALID_REWARD, s)
    else
      s ← IncrementDynasty s;
      s ← (match GetActiveFinalizers s with [] => InstaJustify s | _ => Ok s end);
      Ok (SUCCESS, set_m_expected_source_epoch (m_last_justified_epoch s) s).

(** ** Rewards *)

Definition ProcessReward s (validatorAddress reward : Z) : outcome (Z * State) :=
  validator ← map_at (m_validators s) validatorAddress;
  let validator := set_m_deposit (uint64 (m_deposit validator + reward)) validator in
  let s := set_validator validatorAddress validator s in
  let startDynasty := m_start_dynasty validator in
  let endDynasty := m_end_dynasty validator in
  let s :=
    if bool_decide (startDynasty ≤ m_current_dynasty s) &&
       bool_decide (m_current_dynasty s < endDynasty)
    then set_m_cur_dyn_deposits (int64 (m_cur_dyn_deposits s + reward)) s else s in
  let prevDynasty := uint32 (m_current_dynasty s - 1) in
  let s :=
    if bool_decide (startDynasty ≤ prevDynasty) && bool_decide (prevDynasty < endDynasty)
    then set_m_prev_dyn_deposits (int64 (m_prev_dyn_deposits s + reward)) s else s in
  let s :=
    if decide (endDynasty < MAX_END_DYNASTY) then
      let '(delta, s) := GetDynastyDelta s endDynasty in
      set_dynasty_delta endDynasty (int64 (delta - reward)) s
    else s in
  factor ← GetDepositScaleFactor s (m_current_epoch s);
  amount ← mul_to_uint factor (m_deposit validator);
  Ok (int64 amount, s).

(** ** Votes *)

Definition IsVotable s (validator : Validator) (targetHash targetEpoch sourceEpoch : Z) : Result :=
  match m_checkpoints s !! targetEpoch with
  | None => VOTE_MALFORMED
  | Some targetCheckpoint =>
      if decide (m_finalizer_address validator ∈ m_vote_set targetCheckpoint)
      then VOTE_ALREADY_VOTED
      else if decide (targetHash ≠ m_recommended_target_hash s) then VOTE_WRONG_TARGET_HASH
      else if decide (targetEpoch ≠ uint32 (m_current_epoch s - 1)) then VOTE_WRONG_TARGET_EPOCH
      else
        match m_checkpoints s !! sourceEpoch with
        | None => VOTE_MALFORMED
        | Some sourceCheckpoint =>
            if negb (m_is_justified sourceCheckpoint) then VOTE_SRC_EPOCH_NOT_JUSTIFIED
            else if IsFinalizerVoting s validator then SUCCESS
            else VOTE_NOT_VOTABLE
        end
  end.

Definition ValidateVote s (vote : Vote) : Result :=
  if negb (IsValidatorAuthorized (m_admin_state s) (m_validator_address vote))
  then ADMIN_BLACKLISTED
  else
    match m_validators s !! m_validator_address vote with
    | None => VOTE_NOT_BY_VALIDATOR
    | Some validator =>
        IsVotable s validator (m_target_hash vote) (m_target_epoch vote) (m_source_epoch vote)
    end.

(** Two thirds of the deposits of a dynasty, as [ProcessVote] computes it:
    the product is a [CAmount], the division unsigned fixed-point. *)
Definition two_thirds (deposits : Z) : outcome Z :=
  div_to_uint (uint64 (deposits * 2)) (to_ufp64 3).

Definition ProcessVote s (vote : Vote) : outcome State :=
  let validatorAddress := m_validator_address vote in
  let sourceEpoch := m_source_epoch vote in
  let targetEpoch := m_target_epoch vote in
  cp ← GetCheckpoint s targetEpoch;
  let cp := set_m_vote_set ({[validatorAddress]} ∪ m_vote_set cp) cp in
  let s := set_checkpoint targetEpoch cp s in
  validator ← map_at (m_validators s) validatorAddress;
  let inCurDynasty := IsInDynasty validator (m_current_dynasty s) in
  let inPrevDynasty := IsInDynasty validator (uint32 (m_current_dynasty s - 1)) in
  let '(curDynastyVotes, cp) := GetCurDynastyVotes sourceEpoch cp in
  let '(prevDynastyVotes, cp) := GetPrevDynastyVotes sourceEpoch cp in
  let '(curDynastyVotes, cp) :=
    if inCurDynasty then
      let votes := uint64 (curDynastyVotes + m_deposit validator) in
      (votes, set_m_cur_dynasty_votes (<[sourceEpoch := votes]> (m_cur_dynasty_votes cp)) cp)
    else (curDynastyVotes, cp) in
  let '(prevDynastyVotes, cp) :=
    if inPrevDynasty then
      let votes := uint64 (prevDynastyVotes + m_deposit validator) in
      (votes, set_m_prev_dynasty_votes (<[sourceEpoch := votes]> (m_prev_dynasty_votes cp)) cp)
    else (prevDynastyVotes, cp) in
  let s := set_checkpoint targetEpoch cp s in
  s ← (if decide (m_expected_source_epoch s = sourceEpoch) then
         reward ← CalculateVoteReward s validator;
         snd <$> ProcessReward s validatorAddress reward
       else Ok s);
  curThreshold ← two_thirds (m_cur_dyn_deposits s);
  prevThreshold ← two_thirds (m_prev_dyn_deposits s);
  let enoughVotes :=
    bool_decide (curThreshold ≤ curDynastyVotes) &&
    bool_decide (prevThreshold ≤ prevDynastyVotes) in
  if enoughVotes && negb (m_is_justified cp) then
    let cp := set_m_is_justified true cp in
    let s := set_m_last_justified_epoch targetEpoch (set_checkpoint targetEpoch cp s) in
    if decide (targetEpoch = uint32 (sourceEpoch + 1)) then
      Ok (set_m_last_finalized_epoch targetEpoch
            (set_checkpoint targetEpoch (set_m_is_finalized true cp) s))
    else Ok s
  else Ok s.

(** ** Deposits *)

Definition ValidateDeposit s (validatorAddress depositValue : Z) : Result :=
  if negb (IsValidatorAuthorized (m_admin_state s) validatorAddress) then ADMIN_BLACKLISTED
  else match m_validators s !! validatorAddress with
  | Some _ => DEPOSIT_DUPLICATE
  | None =>
      if decide (depositValue < min_deposit_size p) then DEPOSIT_INSUFFICIENT else SUCCESS
  end.

Definition ProcessDeposit s (validatorAddress depositValue : Z) : outcome State :=
  let startDynasty := uint32 (m_current_dynasty s + 2) in
  factor ← GetDepositScaleFactor s (m_current_epoch s);
  scaledDeposit ← div_to_uint (uint64 depositValue) factor;
  let s := set_m_validators
             (emplace validatorAddress
                (Validator_new scaledDeposit startDynasty validatorAddress) (m_validators s)) s in
  let '(delta, s) := GetDynastyDelta s startDynasty in
  Ok (set_dynasty_delta startDynasty (int64 (delta + scaledDeposit)) s).

(** ** Logouts *)

Definition ValidateLogout s (validatorAddress : Z) : Result :=
  match m_validators s !! validatorAddress with
  | None => LOGOUT_NOT_A_VALIDATOR
  | Some validator =>
      if decide (m_current_dynasty s < m_start_dynasty validator) then LOGOUT_NOT_YET_A_VALIDATOR
      else if decide (m_end_dynasty validator ≤ GetEndDynasty s) then LOGOUT_ALREADY_DONE
      else SUCCESS
  end.

Definition ProcessLogout s (validatorAddress : Z) : outcome State :=
  validator ← map_at (m_validators s) validatorAddress;
  let endDyn := GetEndDynasty s in
  let validator := set_m_deposits_at_logout (uint64 (m_cur_dyn_deposits s))
                     (set_m_end_dynasty endDyn validator) in
  let s := set_validator validatorAddress validator s in
  let '(delta, s) := GetDynastyDelta s endDyn in
  Ok (set_dynasty_delta endDyn (int64 (delta - m_deposit validator)) s).

(** ** Withdrawals *)

Definition CalculateWithdrawEpoch s (finalizer : Validator) : outcome Z :=
  if decide (m_end_dynasty finalizer = MAX_END_DYNASTY) then Ok MAX_UINT32
  else if decide (m_current_dynasty s ≤ m_end_dynasty finalizer) then Ok MAX_UINT32
  else
    end_epoch ← map_find_assert (m_dynasty_start_epoch s) (uint32 (m_end_dynasty finalizer + 1));
    Ok (uint32 (end_epoch + withdrawal_epoch_delay p)).

(** The result and the value left in [withdrawAmountOut]. *)
Definition CalculateWithdrawAmount s (validatorAddress : Z) : outcome (Result * Z) :=
  match m_validators s !! validatorAddress with
  | None => Ok (WITHDRAW_NOT_A_VALIDATOR, 0)
  | Some validator =>
      withdrawalEpoch ← CalculateWithdrawEpoch s validator;
      if decide (m_current_epoch s < withdrawalEpoch) then Ok (WITHDRAW_TOO_EARLY, 0)
      else
        let endEpoch := uint32 (withdrawalEpoch - withdrawal_epoch_delay p) in
        if negb (m_is_slashed validator) then
          factor ← GetDepositScaleFactor s endEpoch;
          amount ← mul_to_uint factor (m_deposit validator);
          Ok (SUCCESS, int64 amount)
        else
          let baseEpoch :=
            if decide (2 * withdrawal_epoch_delay p > withdrawalEpoch) then 0
            else uint32 (withdrawalEpoch - 2 * withdrawal_epoch_delay p) in
          slashedNow ← GetTotalSlashed s withdrawalEpoch;
          slashedBase ← GetTotalSlashed s baseEpoch;
          let recentlySlashed := uint64 (slashedNow - slashedBase) in
          fractionToSlash ←
            div_2uint (uint64 (recentlySlashed * slash_fraction_multiplier p))
                      (m_deposits_at_logout validator);
          factor ← GetDepositScaleFactor s withdrawalEpoch;
          depositSize ← mul_to_uint factor (m_deposit validator);
          if decide (to_ufp64 1 ≤ fractionToSlash) then Ok (SUCCESS, 0)
          else
            amount ← mul_to_uint (sub (to_ufp64 1) fractionToSlash) depositSize;
            Ok (SUCCESS, int64 amount)
  end.

(** The result of [fail(WITHDRAW_WRONG_AMOUNT, ...)] is not returned. *)
Definition ValidateWithdraw s (validatorAddress requestedWithdraw : Z) : outcome Result :=
  '(res, withdrawableAmount) ← CalculateWithdrawAmount s validatorAddress;
  if decide (res ≠ SUCCESS) then Ok res
  else
    let _ := if decide (withdrawableAmount < requestedWithdraw)
             then WITHDRAW_WRONG_AMOUNT else SUCCESS in
    Ok SUCCESS.

Definition DeleteValidator s (validatorAddress : Z) : State :=
  set_m_validators (delete validatorAddress (m_validators s)) s.

Definition ProcessWithdraw s (validatorAddress : Z) : State :=
  DeleteValidator s validatorAddress.

(** ** Slashing *)

Definition IsSlashable s (vote1 vote2 : Vote) : Result :=
  match m_validators s !! m_validator_address vote1 with
  | None => SLASH_NOT_A_VALIDATOR
  | Some validator1 =>
      match m_validators s !! m_validator_address vote2 with
      | None => SLASH_NOT_A_VALIDATOR
      | Some validator2 =>
          if decide (m_finalizer_address validator1 ≠ m_finalizer_address validator2)
          then SLASH_NOT_SAME_VALIDATOR
          else if decide (m_current_dynasty s < m_start_dynasty validator1) then SLASH_TOO_EARLY
          else if m_is_slashed validator1 then SLASH_ALREADY_SLASHED
          else if decide (m_target_hash vote1 = m_target_hash vote2) then SLASH_SAME_VOTE
          else
            let isDoubleVote := bool_decide (m_target_epoch vote1 = m_target_epoch vote2) in
            let isSurroundVote :=
              (bool_decide (m_target_epoch vote2 < m_target_epoch vote1) &&
               bool_decide (m_source_epoch vote1 < m_source_epoch vote2)) ||
              (bool_decide (m_target_epoch vote1 < m_target_epoch vote2) &&
               bool_decide (m_source_epoch vote2 < m_source_epoch vote1)) in
            if isDoubleVote || isSurroundVote then SUCCESS else SLASH_NOT_VALID
      end
  end.

(** [vote2] only appears in the log message. *)
Definition ProcessSlash s (vote1 vote2 : Vote) : outcome State :=
  let validatorAddress := m_validator_address vote1 in
  depositSize ← GetDepositSize s validatorAddress;
  let validatorDeposit := int64 depositSize in
  slashed ← GetTotalSlashed s (m_current_epoch s);
  let s := set_m_total_slashed
             (<[m_current_epoch s := int64 (slashed + validatorDeposit)]> (m_total_slashed s)) s in
  validator ← map_at (m_validators s) validatorAddress;
  let validator := set_m_is_slashed true validator in
  let s := set_validator validatorAddress validator s in
  let endDynasty := m_end_dynasty validator in
  if decide (m_current_dynasty s < endDynasty) then
    let deposit := int64 (m_deposit validator) in
    let nextDynasty := uint32 (m_current_dynasty s + 1) in
    let '(delta, s) := GetDynastyDelta s nextDynasty in
    let s := set_dynasty_delta nextDynasty (int64 (delta - deposit)) s in
    let validator := set_m_end_dynasty nextDynasty validator in
    let s := set_validator validatorAddress validator s in
    if decide (endDynasty < MAX_END_DYNASTY) then
      let '(delta, s) := GetDynastyDelta s endDynasty in
      Ok (set_dynasty_delta endDynasty (int64 (delta + deposit)) s)
    else
      total ← GetTotalCurDynDeposits s;
      Ok (set_validator validatorAddress (set_m_deposits_at_logout total validator) s)
  else Ok s.

(** ** Administration *)

Definition IsPermissioningActive s : bool := m_permissioning_is_active (m_admin_state s).

Definition ValidateAdminKeys s (adminKeys : AdminKeySet) : Result :=
  if IsAdminAuthorized (m_admin_state s) adminKeys then SUCCESS else ADMIN_NOT_AUTHORIZED.

Definition State_ProcessAdminCommands `{!Crypto} s (commands : list AdminCommand) : State :=
  set_m_admin_state (ProcessAdminCommands commands (m_admin_state s)) s.

(** ** Bookkeeping *)

Definition RegisterLastTx s (validatorAddress txHash : Z) : outcome State :=
  validator ← map_at (m_validators s) validatorAddress;
  Ok (set_validator validatorAddress (set_m_last_transaction_hash txHash validator) s).
End operations.
