(* ===== verification/Accounting.v ===== *)
(** * What the operations change, and the deposit accounting

    The code never sums the deposits of a dynasty: it keeps two totals
    ([m_cur_dyn_deposits], [m_prev_dyn_deposits]) and a table of changes per
    future dynasty ([m_dynasty_deltas]), and every operation adjusts them.
    [accounting] states what they stand for, as sums over the finalizers,
    modulo 2^64 (the totals are signed, the deposits unsigned).

    For each operation of [FinalizationOps] this file has
    - the state it leaves, its assignments written side by side
      ([reward_state], [vote_state], [deposit_state], [logout_state],
      [slash_state], [next_dynasty_state]), and the lemma that the operation
      returns it;
    - the lemma that this state keeps the accounting. *)
From S2P Require Import Prelude Ufp64 Admin Params FinalizationData FinalizationOps.

(** ** Specification: totals as sums over the finalizers *)

(** The deposits of the finalizers that belong to dynasty [d]. *)
Definition in_dynasty_weight (d : Z) (v : Validator) : Z :=
  if IsInDynasty v d then m_deposit v else 0.

Definition dynasty_total (d : Z) (s : State) : Z :=
  map_sum (in_dynasty_weight d) (m_validators s).

(** What finalizer [v] contributes to the change from dynasty [d - 1] to [d]. *)
Definition delta_weight (d : Z) (v : Validator) : Z :=
  (if decide (m_start_dynasty v = d) then m_deposit v else 0) -
  (if decide (m_end_dynasty v = d) then m_deposit v else 0).

Definition delta_total (d : Z) (s : State) : Z :=
  map_sum (delta_weight d) (m_validators s).

(** The recorded change for dynasty [d]; an absent entry counts as zero. *)
Definition recorded_delta (d : Z) (s : State) : Z := emplaced d 0 (m_dynasty_deltas s).

Record accounting (s : State) : Prop := {
  acc_cur : m_cur_dyn_deposits s ≡₆₄ dynasty_total (m_current_dynasty s) s;
  acc_prev : m_prev_dyn_deposits s ≡₆₄ dynasty_total (uint32 (m_current_dynasty s - 1)) s;
  acc_delta : ∀ d, m_current_dynasty s < d < MAX_END_DYNASTY →
    recorded_delta d s ≡₆₄ delta_total d s;
}.

(** ** How the operations change the totals *)

Section accounting.
Implicit Types s : State.

Lemma accounting_frame s s' :
  accounting s → m_validators s' = m_validators s →
  m_current_dynasty s' = m_current_dynasty s →
  m_cur_dyn_deposits s' = m_cur_dyn_deposits s →
  m_prev_dyn_deposits s' = m_prev_dyn_deposits s →
  m_dynasty_deltas s' = m_dynasty_deltas s → accounting s'.
Proof.
  intros [Hc Hp Hd] Hv Hdy Hcu Hpr Hde.
  split; unfold dynasty_total, delta_total, recorded_delta in *; rewrite ?Hv, ?Hdy, ?Hcu, ?Hpr, ?Hde; auto.
Qed.

(** One finalizer changes from [v] to [v']. *)
Lemma accounting_update s s' a v v' :
  accounting s → m_validators s !! a = Some v →
  m_validators s' = <[a := v']> (m_validators s) →
  m_current_dynasty s' = m_current_dynasty s →
  (let d := m_current_dynasty s in
   m_cur_dyn_deposits s' ≡₆₄
     m_cur_dyn_deposits s - in_dynasty_weight d v + in_dynasty_weight d v') →
  (let d := uint32 (m_current_dynasty s - 1) in
   m_prev_dyn_deposits s' ≡₆₄
     m_prev_dyn_deposits s - in_dynasty_weight d v + in_dynasty_weight d v') →
  (∀ d, m_current_dynasty s < d < MAX_END_DYNASTY →
     recorded_delta d s' ≡₆₄ recorded_delta d s - delta_weight d v + delta_weight d v') →
  accounting s'.
Proof.
  intros [Hc Hp Hd] Hv Hv' Hdy Hcu Hpr Hde. cbn zeta in *.
  split; unfold dynasty_total, delta_total in *; rewrite ?Hdy, ?Hv'; intros;
    rewrite (map_sum_update _ _ _ _ _ Hv).
  - by rewrite Hcu, Hc.
  - by rewrite Hpr, Hp.
  - by rewrite Hde, Hd.
Qed.

Lemma accounting_insert s s' a v :
  accounting s → m_validators s !! a = None →
  m_validators s' = <[a := v]> (m_validators s) →
  m_current_dynasty s' = m_current_dynasty s →
  m_cur_dyn_deposits s' = m_cur_dyn_deposits s →
  m_prev_dyn_deposits s' = m_prev_dyn_deposits s →
  in_dynasty_weight (m_current_dynasty s) v = 0 →
  in_dynasty_weight (uint32 (m_current_dynasty s - 1)) v = 0 →
  (∀ d, m_current_dynasty s < d < MAX_END_DYNASTY →
     recorded_delta d s' ≡₆₄ recorded_delta d s + delta_weight d v) →
  accounting s'.
Proof.
  intros [Hc Hp Hd] Hv Hv' Hdy Hcu Hpr Hw Hwp Hde.
  split; unfold dynasty_total, delta_total in *; rewrite ?Hdy, ?Hv'; intros;
    rewrite map_sum_insert by done.
  - by rewrite Hcu, Hw, Hc.
  - by rewrite Hpr, Hwp, Hp.
  - rewrite Hde, Hd by done. apply eqm64_of_eq. lia.
Qed.

Lemma accounting_delete s s' a v :
  accounting s → m_validators s !! a = Some v →
  m_validators s' = delete a (m_validators s) →
  m_current_dynasty s' = m_current_dynasty s →
  m_cur_dyn_deposits s' = m_cur_dyn_deposits s →
  m_prev_dyn_deposits s' = m_prev_dyn_deposits s →
  m_dynasty_deltas s' = m_dynasty_deltas s →
  in_dynasty_weight (m_current_dynasty s) v = 0 →
  in_dynasty_weight (uint32 (m_current_dynasty s - 1)) v = 0 →
  (∀ d, m_current_dynasty s < d < MAX_END_DYNASTY → delta_weight d v = 0) →
  accounting s'.
Proof.
  intros [Hc Hp Hd] Hv Hv' Hdy Hcu Hpr Hde Hw Hwp Hwd.
  split; unfold dynasty_total, delta_total, recorded_delta in *; rewrite ?Hdy, ?Hv'; intros.
  - rewrite Hcu, Hc, (map_sum_delete _ _ _ _ Hv), Hw. done.
  - rewrite Hpr, Hp, (map_sum_delete _ _ _ _ Hv), Hwp. done.
  - rewrite Hde, Hd, (map_sum_delete _ _ _ _ Hv), Hwd by done. done.
Qed.

(** *** Rewards *)

(** The state [ProcessReward] leaves, with its effects written side by side. *)
Definition reward_state s (a : Z) (v : Validator) (reward : Z) : State :=
  set_m_dynasty_deltas
    (if decide (m_end_dynasty v < MAX_END_DYNASTY)
     then <[m_end_dynasty v := int64 (recorded_delta (m_end_dynasty v) s - reward)]>
            (m_dynasty_deltas s)
     else m_dynasty_deltas s)
  (set_m_prev_dyn_deposits
    (if IsInDynasty v (uint32 (m_current_dynasty s - 1))
     then int64 (m_prev_dyn_deposits s + reward) else m_prev_dyn_deposits s)
  (set_m_cur_dyn_deposits
    (if IsInDynasty v (m_current_dynasty s)
     then int64 (m_cur_dyn_deposits s + reward) else m_cur_dyn_deposits s)
  (set_validator a (set_m_deposit (uint64 (m_deposit v + reward)) v) s))).

Lemma ProcessReward_state s a reward r s' :
  ProcessReward s a reward = Ok (r, s') →
  ∃ v, m_validators s !! a = Some v ∧ s' = reward_state s a v reward.
Proof.
  intros H. open ProcessReward in H. ok_inv H. exists r0. split; [done|].
  subst validator s0 startDynasty endDynasty. clear Hr0 Hr1 H r1 r2 r. cbn in *.
  fold (IsInDynasty r0 (m_current_dynasty s)) in Es1. destruct s; cbn in *.
  unfold reward_state; cbn.
  destruct (IsInDynasty r0 _); subst s1; cbn in EprevDynasty; subst prevDynasty;
    fold (IsInDynasty r0 (uint32 (m_current_dynasty - 1))) in Es2;
    destruct (IsInDynasty r0 _); subst s2 s3 s'; case_decide;
    unfold set_dynasty_delta; cbn; by rewrite ?insert_emplace.
Qed.

(** The weights follow the deposit. *)
Lemma in_dynasty_weight_deposit d v x :
  in_dynasty_weight d (set_m_deposit x v) = if IsInDynasty v d then x else 0.
Proof. done. Qed.

Lemma accounting_reward s a v reward :
  accounting s → m_validators s !! a = Some v →
  m_start_dynasty v ≤ m_current_dynasty s → m_start_dynasty v < m_end_dynasty v →
  accounting (reward_state s a v reward).
Proof.
  intros Hacc Hv Hst Hlt. eapply accounting_update; [done..| | |]; cbn zeta.
  - rewrite in_dynasty_weight_deposit. unfold in_dynasty_weight, reward_state; cbn.
    destruct (IsInDynasty v _); eqm64.
  - rewrite in_dynasty_weight_deposit. unfold in_dynasty_weight, reward_state; cbn.
    destruct (IsInDynasty v _); eqm64.
  - intros d Hd. unfold delta_weight, recorded_delta, reward_state; cbn.
    rewrite !(decide_False (P := m_start_dynasty v = d)) by lia.
    destruct (decide (m_end_dynasty v = d)) as [<-|].
    + rewrite decide_True, lookup_emplaced_insert, decide_True by lia. unfold recorded_delta. eqm64.
    + case_decide; rewrite ?lookup_emplaced_insert, ?decide_False by done; eqm64.
Qed.
(** *** Votes *)

(** The votes for a source epoch after a finalizer with deposit [dep] voted. *)
Definition tally (voting : bool) (source dep : Z) (votes : gmap Z Z) : gmap Z Z :=
  if voting then <[source := uint64 (emplaced source 0 votes + dep)]> votes
  else emplace source 0 votes.

Definition tally_vote s (v : Validator) (vote : Vote) (cp : Checkpoint) : Checkpoint :=
  let tallied dynasty := tally (IsInDynasty v dynasty) (m_source_epoch vote) (m_deposit v) in
  set_m_prev_dynasty_votes
    (tallied (uint32 (m_current_dynasty s - 1)) (m_prev_dynasty_votes cp))
  (set_m_cur_dynasty_votes
    (tallied (m_current_dynasty s) (m_cur_dynasty_votes cp))
  (set_m_vote_set ({[m_validator_address vote]} ∪ m_vote_set cp) cp)).

(** The state after the target got [cp] as its tally, justified or not. *)
Definition vote_state s (vote : Vote) (cp : Checkpoint) (justify : bool) : State :=
  let target := m_target_epoch vote in
  if justify then
    if decide (target = uint32 (m_source_epoch vote + 1)) then
      set_m_last_finalized_epoch target (set_m_last_justified_epoch target
        (set_checkpoint target (set_m_is_finalized true (set_m_is_justified true cp)) s))
    else
      set_m_last_justified_epoch target (set_checkpoint target (set_m_is_justified true cp) s)
  else set_checkpoint target cp s.

(** [s1] is [s] after the reward of the vote, if it earns one. *)
Definition vote_rewarded s (vote : Vote) (v : Validator) s1 : Prop :=
  if decide (m_expected_source_epoch s = m_source_epoch vote)
  then ∃ reward, CalculateVoteReward s v = Ok reward ∧
         s1 = reward_state s (m_validator_address vote) v reward
  else s1 = s.

Lemma vote_state_checkpoint s vote cp cp' b :
  vote_state (set_checkpoint (m_target_epoch vote) cp s) vote cp' b = vote_state s vote cp' b.
Proof.
  unfold vote_state, set_checkpoint; cbn. by repeat case_match; rewrite insert_insert_eq.
Qed.

Lemma tally_vote_eq s v vote cp z c z0 c0 z1 c1 z2 c2 :
  let source := m_source_epoch vote in
  GetCurDynastyVotes source (set_m_vote_set ({[m_validator_address vote]} ∪ m_vote_set cp) cp)
    = (z, c) →
  GetPrevDynastyVotes source c = (z0, c0) →
  (if IsInDynasty v (m_current_dynasty s) then
     (uint64 (z + m_deposit v),
      set_m_cur_dynasty_votes
        (<[source := uint64 (z + m_deposit v)]> (m_cur_dynasty_votes c0)) c0)
   else (z, c0)) = (z1, c1) →
  (if IsInDynasty v (uint32 (m_current_dynasty s - 1)) then
     (uint64 (z0 + m_deposit v),
      set_m_prev_dynasty_votes
        (<[source := uint64 (z0 + m_deposit v)]> (m_prev_dynasty_votes c1)) c1)
   else (z0, c1)) = (z2, c2) →
  c2 = tally_vote s v vote cp ∧
  z1 = emplaced source 0 (m_cur_dynasty_votes c2) ∧
  z2 = emplaced source 0 (m_prev_dynasty_votes c2).
Proof.
  intros source [= <- <-] [= <- <-]. cbn. unfold tally_vote. fold source.
  destruct (IsInDynasty v (m_current_dynasty s)), (IsInDynasty v (uint32 _));
    intros [= <- <-] [= <- <-]; cbn;
    rewrite ?insert_emplace, ?lookup_emplaced_insert, ?emplaced_emplace, ?decide_True by done;
    done.
Qed.

(** What a vote changes: the tally of its target and the reward, and with two
    thirds of both dynasties' deposits behind it, the status of the target. *)
Lemma ProcessVote_state s vote s' :
  ProcessVote s vote = Ok s' →
  ∃ v cp s1 curThreshold prevThreshold,
    m_validators s !! m_validator_address vote = Some v ∧
    m_checkpoints s !! m_target_epoch vote = Some cp ∧
    vote_rewarded s vote v s1 ∧
    two_thirds (m_cur_dyn_deposits s1) = Ok curThreshold ∧
    two_thirds (m_prev_dyn_deposits s1) = Ok prevThreshold ∧
    let cp1 := tally_vote s v vote cp in
    let source := m_source_epoch vote in
    s' = vote_state s1 vote cp1
           (bool_decide (curThreshold ≤ emplaced source 0 (m_cur_dynasty_votes cp1)) &&
            bool_decide (prevThreshold ≤ emplaced source 0 (m_prev_dynasty_votes cp1)) &&
            negb (m_is_justified cp)).
Proof.
  intros H. open ProcessVote in H. ok_inv H. subst validatorAddress sourceEpoch targetEpoch cp s0.
  unfold GetCheckpoint in Hr. ok_inv Hr. cbn in Hr0, EinCurDynasty, EinPrevDynasty.
  subst inCurDynasty inPrevDynasty.
  destruct (tally_vote_eq _ _ _ _ _ _ _ _ _ _ _ _ E E0 E1 E2) as (-> & -> & ->).
  clear E E0 E1 E2 z c z0 c0 c1.
  assert (∃ s2, vote_rewarded s vote r0 s2 ∧
    r1 = set_checkpoint (m_target_epoch vote) (tally_vote s r0 vote r) s2) as (s2 & Hs2 & ->).
  { subst s1. unfold vote_rewarded. cbn in Hr1.
    destruct (decide (m_expected_source_epoch s = _)).
    - ok_inv Hr1. destruct (ProcessReward _ _ _) as [[? s2]|] eqn:E in Hr1; [|done].
      cbn in Hr1. injection Hr1 as <-. apply ProcessReward_state in E as (v & Hv & ->).
      cbn in Hv. simplify_eq. eexists; split; [by eauto|].
      unfold reward_state, set_checkpoint; cbn. by rewrite insert_insert_eq.
    - injection Hr1 as <-. exists s. split; [done|].
      unfold set_checkpoint; cbn. by rewrite insert_insert_eq. }
  exists r0, r, s2, r2, r3. do 5 (split; [done|]). cbn zeta.
  subst enoughVotes. change (m_is_justified (tally_vote s r0 vote r)) with (m_is_justified r) in H.
  unfold vote_state. destruct (_ && _ && _); cbn zeta in H; [case_decide|];
    injection H as <-; unfold set_checkpoint; cbn; by rewrite ?insert_insert_eq.
Qed.
Lemma accounting_vote_state s vote cp b : accounting s → accounting (vote_state s vote cp b).
Proof.
  intros Hacc. unfold vote_state, set_checkpoint.
  repeat case_match; by apply (accounting_frame s).
Qed.

Lemma accounting_vote s vote v s1 :
  accounting s → m_validators s !! m_validator_address vote = Some v →
  m_start_dynasty v ≤ m_current_dynasty s → m_start_dynasty v < m_end_dynasty v →
  vote_rewarded s vote v s1 → accounting s1.
Proof.
  unfold vote_rewarded. intros ???? Hr. case_decide; [|by subst].
  destruct Hr as (reward & _ & ->). by apply accounting_reward.
Qed.

(** *** Deposits *)

Definition deposit_state s (a scaled : Z) : State :=
  let start := m_current_dynasty s + 2 in
  set_dynasty_delta start (int64 (recorded_delta start s + scaled))
    (set_validator a (Validator_new scaled start a) s).

Lemma ProcessDeposit_state s a amount s' :
  is_uint32 (m_current_dynasty s + 2) → m_validators s !! a = None →
  ProcessDeposit s a amount = Ok s' →
  ∃ factor scaled, m_deposit_scale_factor s !! m_current_epoch s = Some factor ∧
    div_to_uint (uint64 amount) factor = Ok scaled ∧ s' = deposit_state s a scaled.
Proof.
  intros Hd Hv H. open ProcessDeposit in H. ok_inv H. unfold GetDepositScaleFactor in Hr. ok_inv Hr.
  exists r, r0. do 2 (split; [done|]). subst s0 startDynasty. injection E as <- <-.
  rewrite uint32_small in H by done. rewrite (emplace_fresh a) in H by done.
  subst s'. unfold deposit_state, set_dynasty_delta, recorded_delta, set_validator; cbn.
  by rewrite insert_emplace.
Qed.

Lemma IsInDynasty_spec v d : IsInDynasty v d = true ↔ m_start_dynasty v ≤ d < m_end_dynasty v.
Proof. unfold IsInDynasty. rewrite andb_true_iff, !bool_decide_eq_true. done. Qed.

Lemma in_dynasty_weight_out d v :
  ¬ (m_start_dynasty v ≤ d < m_end_dynasty v) → in_dynasty_weight d v = 0.
Proof.
  rewrite <- IsInDynasty_spec. unfold in_dynasty_weight. by destruct (IsInDynasty v d).
Qed.

(** The dynasty before dynasty 0 is the largest number: nobody belongs to it. *)
Lemma uint32_pred d : is_uint32 d → uint32 (d - 1) = if decide (d = 0) then MAX_END_DYNASTY else d - 1.
Proof.
  intros Hd. case_decide; [by subst|]. apply uint32_small. unfold is_uint32 in *. lia.
Qed.

Lemma accounting_deposit s a scaled :
  accounting s → is_uint32 (m_current_dynasty s + 3) → 0 ≤ m_current_dynasty s →
  m_validators s !! a = None → accounting (deposit_state s a scaled).
Proof.
  unfold is_uint32. intros Hacc Hd Hd0 Hv.
  eapply (accounting_insert s); [done..| | |].
  - apply in_dynasty_weight_out. cbn. lia.
  - apply in_dynasty_weight_out. cbn. rewrite uint32_pred by (unfold is_uint32; lia).
    case_decide; unfold MAX_END_DYNASTY, MAX_UINT32; lia.
  - intros d Hdd. unfold recorded_delta, delta_weight, deposit_state; cbn.
    rewrite lookup_emplaced_insert, (decide_False (P := MAX_END_DYNASTY = d)) by lia.
    destruct (decide (d = m_current_dynasty s + 2)) as [->|].
    + rewrite decide_True by lia. unfold recorded_delta. eqm64.
    + rewrite decide_False by lia. eqm64.
Qed.
(** *** Logouts *)

Definition logout_validator (p : Params) s (v : Validator) : Validator :=
  set_m_deposits_at_logout (uint64 (m_cur_dyn_deposits s))
    (set_m_end_dynasty (GetEndDynasty p s) v).

Definition logout_state (p : Params) s (a : Z) (v : Validator) : State :=
  let endDyn := GetEndDynasty p s in
  set_dynasty_delta endDyn (int64 (recorded_delta endDyn s - m_deposit v))
    (set_validator a (logout_validator p s v) s).

Lemma ProcessLogout_state p s a s' :
  ProcessLogout p s a = Ok s' →
  ∃ v, m_validators s !! a = Some v ∧ s' = logout_state p s a v.
Proof.
  intros H. open ProcessLogout in H. ok_inv H. exists r. split; [done|].
  subst s0 endDyn validator. injection E as <- <-. subst s'.
  unfold logout_state, set_dynasty_delta, set_validator, recorded_delta; cbn.
  by rewrite insert_emplace.
Qed.

Lemma accounting_logout p s a v :
  accounting s → m_validators s !! a = Some v →
  is_uint32 (m_current_dynasty s) →
  m_start_dynasty v ≤ m_current_dynasty s →
  m_end_dynasty v = MAX_END_DYNASTY →
  m_current_dynasty s < GetEndDynasty p s < MAX_END_DYNASTY →
  accounting (logout_state p s a v).
Proof.
  intros Hacc Hv H32 Hst Hend Hlt.
  eapply (accounting_update s); [done..| | |]; cbn zeta.
  - unfold in_dynasty_weight, IsInDynasty; cbn. rewrite Hend.
    repeat case_bool_decide; cbn; eqm64.
  - unfold in_dynasty_weight, IsInDynasty; cbn. rewrite Hend.
    pose proof (uint32_pred _ H32) as Hp. destruct (decide (m_current_dynasty s = 0));
    repeat case_bool_decide; cbn; eqm64.
  - intros d Hd. unfold delta_weight, recorded_delta, logout_state; cbn.
    rewrite !(decide_False (P := m_start_dynasty v = d)) by lia.
    rewrite (decide_False (P := m_end_dynasty v = d)) by lia.
    rewrite lookup_emplaced_insert. unfold recorded_delta.
    destruct (decide (d = GetEndDynasty p s)) as [->|].
    + rewrite decide_True by done. eqm64.
    + rewrite decide_False by done. eqm64.
Qed.

(** *** Withdrawals *)

Lemma accounting_withdraw s a v :
  accounting s → m_validators s !! a = Some v → is_uint32 (m_current_dynasty s) →
  0 ≤ m_start_dynasty v < m_end_dynasty v → m_end_dynasty v < m_current_dynasty s →
  accounting (ProcessWithdraw s a).
Proof.
  intros Hacc Hv H32 Hst Hend. apply (accounting_delete s _ a v); try done.
  - apply in_dynasty_weight_out. lia.
  - apply in_dynasty_weight_out. rewrite uint32_pred, decide_False by (done || lia). lia.
  - intros d Hd. unfold delta_weight. rewrite !decide_False by lia. lia.
Qed.
(** *** Slashing *)

Definition slashed_validator s (v : Validator) (logout : Z) : Validator :=
  let slashed := set_m_is_slashed true v in
  if decide (m_current_dynasty s < m_end_dynasty v) then
    let leaving := set_m_end_dynasty (m_current_dynasty s + 1) slashed in
    if decide (m_end_dynasty v < MAX_END_DYNASTY) then leaving
    else set_m_deposits_at_logout logout leaving
  else slashed.

Definition slashed_deltas s (v : Validator) : gmap Z Z :=
  let next := m_current_dynasty s + 1 in
  let deposit := int64 (m_deposit v) in
  if decide (m_current_dynasty s < m_end_dynasty v) then
    let deltas := <[next := int64 (recorded_delta next s - deposit)]> (m_dynasty_deltas s) in
    if decide (m_end_dynasty v < MAX_END_DYNASTY)
    then <[m_end_dynasty v := int64 (emplaced (m_end_dynasty v) 0 deltas + deposit)]> deltas
    else deltas
  else m_dynasty_deltas s.

Definition slash_state s (a : Z) (v : Validator) (total logout : Z) : State :=
  set_m_dynasty_deltas (slashed_deltas s v)
    (set_validator a (slashed_validator s v logout)
      (set_m_total_slashed (<[m_current_epoch s := total]> (m_total_slashed s)) s)).

Lemma ProcessSlash_state s vote1 vote2 s' :
  is_uint32 (m_current_dynasty s + 1) →
  ProcessSlash s vote1 vote2 = Ok s' →
  ∃ v size slashed logout, m_validators s !! m_validator_address vote1 = Some v ∧
    GetDepositSize s (m_validator_address vote1) = Ok size ∧
    GetTotalSlashed s (m_current_epoch s) = Ok slashed ∧
    s' = slash_state s (m_validator_address vote1) v (int64 (slashed + int64 size)) logout.
Proof.
  intros Hd H. open ProcessSlash in H. ok_inv H. subst s0 s1 validatorAddress validator.
  subst endDynasty. cbn in Hr1, H. exists r1, r, r0. subst validatorDeposit.
  rewrite (uint32_small _ Hd) in H.
  unfold slash_state, slashed_validator, slashed_deltas, recorded_delta, set_validator in *.
  destruct (decide (m_current_dynasty s < m_end_dynasty r1)).
  - destruct (decide (m_end_dynasty r1 < MAX_END_DYNASTY)).
    + injection H as <-. exists 0. do 3 (split; [done|]).
      unfold set_dynasty_delta; cbn. by rewrite !insert_emplace, insert_insert_eq.
    + ok_inv H. exists r2. do 3 (split; [done|]). subst s'.
      unfold set_dynasty_delta; cbn. by rewrite !insert_emplace, !insert_insert_eq.
  - injection H as <-. exists 0. do 3 (split; [done|]). by destruct s.
Qed.

Lemma accounting_slash s a v total logout :
  accounting s → m_validators s !! a = Some v →
  is_uint32 (m_current_dynasty s) →
  m_start_dynasty v ≤ m_current_dynasty s → m_start_dynasty v < m_end_dynasty v →
  m_end_dynasty v ≤ MAX_END_DYNASTY → m_current_dynasty s + 1 < MAX_END_DYNASTY →
  accounting (slash_state s a v total logout).
Proof.
  intros Hacc Hv H32 Hst Hlt Hmax Hd.
  eapply (accounting_update s); [done..| | |]; cbn zeta.
  - unfold in_dynasty_weight, IsInDynasty, slashed_validator; cbn.
    repeat case_decide; cbn; repeat case_bool_decide; cbn in *; eqm64.
  - pose proof (uint32_pred _ H32) as Hp.
    unfold in_dynasty_weight, IsInDynasty, slashed_validator; cbn.
    destruct (decide (m_current_dynasty s = 0));
    repeat case_decide; cbn; repeat case_bool_decide; cbn in *; eqm64.
  - intros d Hdd. unfold delta_weight, recorded_delta, slash_state, slashed_validator; cbn.
    unfold slashed_deltas, recorded_delta.
    destruct (decide (m_current_dynasty s < m_end_dynasty v)); [|cbn; eqm64].
    destruct (decide (m_end_dynasty v < MAX_END_DYNASTY)); cbn;
    rewrite ?lookup_emplaced_insert; repeat case_decide; subst; cbn; try lia; eqm64.
    rewrite H0. eqm64.
Qed.
(** *** The next dynasty *)

Definition next_dynasty_state s : State :=
  let next := m_current_dynasty s + 1 in
  set_m_checkpoints (filter (λ kv, ¬ kv.1 < m_last_finalized_epoch s) (m_checkpoints s))
  (set_m_dynasty_start_epoch (<[next := m_current_epoch s]> (m_dynasty_start_epoch s))
  (set_m_cur_dyn_deposits (int64 (m_cur_dyn_deposits s + recorded_delta next s))
  (set_m_dynasty_deltas (emplace next 0 (m_dynasty_deltas s))
  (set_m_prev_dyn_deposits (m_cur_dyn_deposits s)
  (set_m_current_dynasty next s))))).

(** Whether the epoch before the previous one is finalized. *)
Definition increments_dynasty s : Prop :=
  3 ≤ m_current_epoch s ∧
  ∃ cp, m_checkpoints s !! (m_current_epoch s - 2) = Some cp ∧ m_is_finalized cp = true.

Lemma IncrementDynasty_state s s' :
  is_uint32 (m_current_dynasty s + 1) → is_uint32 (m_current_epoch s) →
  IncrementDynasty s = Ok s' →
  (increments_dynasty s ∧ s' = next_dynasty_state s) ∨ (¬ increments_dynasty s ∧ s' = s).
Proof.
  unfold is_uint32. intros Hd He H. unfold increments_dynasty. open IncrementDynasty in H.
  case_decide; [injection H as ->; right; split; [lia|done]|].
  ok_inv H. unfold GetCheckpoint in Hr. ok_inv Hr.
  rewrite uint32_small in Hr by (unfold is_uint32; lia).
  destruct (m_is_finalized r) eqn:Hf; cbn [negb] in H; ok_inv H.
  - left. split; [split; [lia|by eauto]|]. injection E as <- <-.
    rewrite (uint32_small (m_current_dynasty s + 1)) in H by done. by subst s'.
  - right. subst. split; [|done]. intros (_ & cp & ? & ?). simplify_eq. congruence.
Qed.

Lemma in_dynasty_weight_succ d v :
  m_start_dynasty v < m_end_dynasty v →
  in_dynasty_weight (d + 1) v = in_dynasty_weight d v + delta_weight (d + 1) v.
Proof.
  intros Hlt. unfold in_dynasty_weight, delta_weight, IsInDynasty.
  repeat case_bool_decide; repeat case_decide; cbn; lia.
Qed.

Lemma accounting_next_dynasty s :
  accounting s → is_uint32 (m_current_dynasty s) → m_current_dynasty s + 1 < MAX_END_DYNASTY →
  (∀ a v, m_validators s !! a = Some v → m_start_dynasty v < m_end_dynasty v) →
  accounting (next_dynasty_state s).
Proof.
  intros [Hc Hp Hd] H32 Hlt Hv.
  assert (dynasty_total (m_current_dynasty s + 1) s =
    dynasty_total (m_current_dynasty s) s + delta_total (m_current_dynasty s + 1) s) as Hsum.
  { unfold dynasty_total, delta_total. rewrite <- map_sum_add. apply map_sum_ext.
    intros a v Ha. by apply in_dynasty_weight_succ, (Hv a). }
  split; cbn.
  - unfold dynasty_total in *; cbn. rewrite Hsum, <- Hc, <- Hd by lia. eqm64.
  - replace (m_current_dynasty s + 1 - 1) with (m_current_dynasty s) by lia.
    by rewrite uint32_small.
  - intros d Hdd. unfold recorded_delta; cbn. rewrite emplaced_emplace. apply Hd. lia.
Qed.
End accounting.
