(* ===== verification/FinalizationInvariant.v ===== *)
(** * Invariants of the finalization state machine

    The reachable states of the machine of [FinalizationOps], and what holds
    in all of them:
    - [wf]: the maps have the entries the code relies on (so the accessors'
      asserts hold), the counters are ordered, every finalizer has a sensible
      life span;
    - [accounting] of [Accounting];
    - [source_ok]: the source epoch votes are expected to name is justified.

    The parts of [wf] are predicates on the fields they speak of, so that an
    operation that leaves these fields alone keeps them by conversion. *)
From S2P Require Import Prelude Ufp64 Admin Params FinalizationData FinalizationOps Accounting.

(** ** Well-formedness *)

Record wf_counters (epoch dyn : Z) (starts : gmap Z Z) : Prop := {
  wfc_epoch : 0 ≤ epoch ≤ 2 ^ 31;
  wfc_dynasty : dyn = 0 ∨ 0 < dyn ∧ dyn + 2 ≤ epoch;
  wfc_starts : ∀ d, 0 ≤ d ≤ dyn → ∃ e, starts !! d = Some e ∧ 0 ≤ e ≤ Z.max 1 epoch;
}.

Record wf_checkpoints (epoch finalized justified : Z) (cps : gmap Z Checkpoint) : Prop := {
  wfk_order : 0 ≤ finalized ≤ justified;
  wfk_last : justified < epoch ∨ epoch = 0 ∧ justified = 0;
  wfk_some : ∀ e, finalized ≤ e ≤ epoch → is_Some (cps !! e);
  wfk_range : ∀ e, is_Some (cps !! e) → 0 ≤ e ≤ epoch;
  wfk_justified : ∃ cp, cps !! justified = Some cp ∧ m_is_justified cp = true;
  wfk_finalized : ∃ cp, cps !! finalized = Some cp ∧
    m_is_justified cp = true ∧ m_is_finalized cp = true;
}.

Record wf_tables (epoch : Z) (scale slashed : gmap Z Z) : Prop := {
  wft_scale : ∀ e, 0 ≤ e ≤ epoch → ∃ f, scale !! e = Some f ∧ is_uint64 f;
  wft_slashed : ∀ e, 0 ≤ e ≤ epoch → is_Some (slashed !! e);
}.

Record wf_validator (delay dyn addr : Z) (v : Validator) : Prop := {
  wfv_address : m_finalizer_address v = addr;
  wfv_deposit : is_uint64 (m_deposit v);
  wfv_start : 2 ≤ m_start_dynasty v ≤ dyn + 2;
  wfv_end : m_start_dynasty v < m_end_dynasty v;
  wfv_logout : m_end_dynasty v = MAX_END_DYNASTY ∨ m_end_dynasty v ≤ dyn + delay;
}.

Definition wf_validators (delay dyn : Z) (vs : gmap Z Validator) : Prop :=
  ∀ addr v, vs !! addr = Some v → wf_validator delay dyn addr v.

(** The expected source epoch names a justified checkpoint. *)
Definition source_justified (source justified : Z) (cps : gmap Z Checkpoint) : Prop :=
  source ≤ justified ∧ ∃ cp, cps !! source = Some cp ∧ m_is_justified cp = true.

(** What the theorems ask of the parameters. *)
Record valid_params (p : Params) : Prop := {
  vp_length : 0 < epoch_length p;
  vp_logout : 1 ≤ dynasty_logout_delay p ≤ 2 ^ 30;
  vp_withdraw : 0 ≤ withdrawal_epoch_delay p ≤ 2 ^ 30;
}.

Record wf (p : Params) (s : State) : Prop := {
  wf_cnt : wf_counters (m_current_epoch s) (m_current_dynasty s) (m_dynasty_start_epoch s);
  wf_cps : wf_checkpoints (m_current_epoch s) (m_last_finalized_epoch s)
             (m_last_justified_epoch s) (m_checkpoints s);
  wf_tab : wf_tables (m_current_epoch s) (m_deposit_scale_factor s) (m_total_slashed s);
  wf_val : wf_validators (dynasty_logout_delay p) (m_current_dynasty s) (m_validators s);
  wf_cur : is_int64 (m_cur_dyn_deposits s);
  wf_prev : is_int64 (m_prev_dyn_deposits s);
  wf_reward : is_uint64 (m_reward_factor s);
}.

Definition source_ok (s : State) : Prop :=
  source_justified (m_expected_source_epoch s) (m_last_justified_epoch s) (m_checkpoints s).

Record invariant (p : Params) (s : State) : Prop := {
  inv_wf : wf p s;
  inv_accounting : accounting s;
  inv_source : source_ok s;
}.

(** ** Transitions

    One transition per way the code changes a state: the beginning of an
    epoch, a commit that passed its own validation, the bookkeeping of the
    last transaction, and the new voting target at the end of an epoch. *)
Inductive step `{!Crypto} (p : Params) : State → State → Prop :=
  | step_epoch s h r s' :
      is_uint32 h → InitializeEpoch p s h = Ok (r, s') → step p s s'
  | step_deposit s addr amount s' :
      ValidateDeposit p s addr amount = SUCCESS →
      ProcessDeposit s addr amount = Ok s' → step p s s'
  | step_vote s vote s' :
      ValidateVote s vote = SUCCESS → ProcessVote s vote = Ok s' → step p s s'
  | step_logout s addr s' :
      ValidateLogout p s addr = SUCCESS → ProcessLogout p s addr = Ok s' → step p s s'
  | step_withdraw s addr amount :
      ValidateWithdraw p s addr amount = Ok SUCCESS → step p s (ProcessWithdraw s addr)
  | step_slash s vote1 vote2 s' :
      IsSlashable s vote1 vote2 = SUCCESS → ProcessSlash s vote1 vote2 = Ok s' → step p s s'
  | step_admin s commands : step p s (State_ProcessAdminCommands s commands)
  | step_last_tx s addr hash s' : RegisterLastTx s addr hash = Ok s' → step p s s'
  | step_target s hash epoch :
      step p s (set_m_recommended_target_epoch epoch (set_m_recommended_target_hash hash s)).

(** The states reached from the constructor's. *)
Inductive reachable `{!Crypto} (p : Params) : State → Prop :=
  | reach_init s : FinalizationState_new p = Ok s → reachable p s
  | reach_step s s' : reachable p s → step p s s' → reachable p s'.

(** ** How the parts of [wf] are kept *)

Lemma wf_validators_update delay dyn vs a v' :
  wf_validators delay dyn vs → wf_validator delay dyn a v' →
  wf_validators delay dyn (<[a := v']> vs).
Proof. intros Hvs Hv b w [[<- <-]|[? ?]]%lookup_insert_Some; auto. Qed.

Lemma wf_validators_delete delay dyn vs a :
  wf_validators delay dyn vs → wf_validators delay dyn (delete a vs).
Proof. intros Hvs b w [? ?]%lookup_delete_Some. auto. Qed.

Lemma wf_validators_next delay dyn vs :
  wf_validators delay dyn vs → wf_validators delay (dyn + 1) vs.
Proof. intros Hvs a v [????[|]]%Hvs; split; auto; lia. Qed.

(** A checkpoint changes and keeps its status. *)
Lemma wf_checkpoints_update epoch lf lj cps e cp cp' :
  wf_checkpoints epoch lf lj cps → cps !! e = Some cp →
  (m_is_justified cp = true → m_is_justified cp' = true) →
  (m_is_finalized cp = true → m_is_finalized cp' = true) →
  wf_checkpoints epoch lf lj (<[e := cp']> cps).
Proof.
  intros [Ho Hl Hs Hr (cj & Hj & Hjj) (cf & Hf & Hfj & Hff)] He Hjust Hfin. split; auto.
  - intros e' [c Hc]%Hs. destruct (decide (e = e')) as [->|].
    + rewrite lookup_insert_eq. eauto.
    + rewrite lookup_insert_ne; eauto.
  - intros e' [c [[<- <-]|[? ?]]%lookup_insert_Some]; eauto.
  - destruct (decide (e = lj)) as [->|].
    + rewrite lookup_insert_eq. simplify_eq. eauto.
    + rewrite lookup_insert_ne by done. eauto.
  - destruct (decide (e = lf)) as [->|].
    + rewrite lookup_insert_eq. simplify_eq. eauto 6.
    + rewrite lookup_insert_ne by done. eauto.
Qed.

(** The epoch before the current one becomes the last justified one ... *)
Lemma wf_checkpoints_justify epoch lf lj cps cp :
  wf_checkpoints epoch lf lj cps → 0 < epoch → cps !! (epoch - 1) = Some cp →
  m_is_justified cp = true → wf_checkpoints epoch lf (epoch - 1) cps.
Proof. intros [Ho Hl Hs Hr Hj Hf] He Hcp Hjust. split; eauto; lia. Qed.

(** ... and the last finalized one. *)
Lemma wf_checkpoints_finalize epoch lf cps cp :
  wf_checkpoints epoch lf (epoch - 1) cps → cps !! (epoch - 1) = Some cp →
  m_is_justified cp = true → m_is_finalized cp = true →
  wf_checkpoints epoch (epoch - 1) (epoch - 1) cps.
Proof.
  intros [Ho Hl Hs Hr Hj Hf] Hcp Hjust Hfin. split; eauto; [lia|].
  intros e ?. apply Hs. lia.
Qed.

Lemma source_justified_update src lj cps e cp cp' :
  source_justified src lj cps → cps !! e = Some cp →
  (m_is_justified cp = true → m_is_justified cp' = true) →
  source_justified src lj (<[e := cp']> cps).
Proof.
  intros (Hle & c & Hc & Hj) He Hjust. split; [done|]. destruct (decide (e = src)) as [->|].
  - rewrite lookup_insert_eq. simplify_eq. eauto.
  - rewrite lookup_insert_ne by done. eauto.
Qed.

(** ** What the validations establish *)

Section validations.
Context (p : Params).
Implicit Types s : State.

Lemma ValidateDeposit_SUCCESS s a amount :
  ValidateDeposit p s a amount = SUCCESS ↔
  IsValidatorAuthorized (m_admin_state s) a = true ∧
  m_validators s !! a = None ∧ min_deposit_size p ≤ amount.
Proof.
  unfold ValidateDeposit.
  destruct (IsValidatorAuthorized _ _); cbn; [|split; [done|by intros []]].
  destruct (m_validators s !! a); [split; [done|by intros (_ & [=] & _)]|].
  case_decide; split; [done|intros (_ & _ & ?); lia|intros _|done].
  split; [done|]. split; [done|lia].
Qed.

Lemma IsVotable_SUCCESS s v hash target source :
  IsVotable s v hash target source = SUCCESS ↔
  (∃ cp, m_checkpoints s !! target = Some cp ∧ m_finalizer_address v ∉ m_vote_set cp) ∧
  hash = m_recommended_target_hash s ∧ target = uint32 (m_current_epoch s - 1) ∧
  (∃ cp, m_checkpoints s !! source = Some cp ∧ m_is_justified cp = true) ∧
  IsFinalizerVoting s v = true.
Proof.
  unfold IsVotable. split.
  - repeat case_match; try done; intros _. rewrite negb_false_iff in *.
    split; [by eauto|]. do 2 (split; [by apply dec_stable|]). eauto.
  - intros ((ct & -> & Hn) & -> & -> & (cs & -> & ->) & ->).
    by rewrite !decide_False by auto.
Qed.

Lemma ValidateVote_SUCCESS s vote :
  ValidateVote s vote = SUCCESS ↔
  IsValidatorAuthorized (m_admin_state s) (m_validator_address vote) = true ∧
  ∃ v, m_validators s !! m_validator_address vote = Some v ∧
    IsVotable s v (m_target_hash vote) (m_target_epoch vote) (m_source_epoch vote) = SUCCESS.
Proof.
  unfold ValidateVote. destruct (IsValidatorAuthorized _ _); cbn; [|split; [done|by intros []]].
  destruct (m_validators s !! _) as [v|].
  - split; [by eauto|]. by intros (_ & ? & [= <-] & ?).
  - split; [done|]. by intros (_ & ? & [=] & _).
Qed.

Lemma ValidateLogout_SUCCESS s a :
  ValidateLogout p s a = SUCCESS ↔
  ∃ v, m_validators s !! a = Some v ∧ m_start_dynasty v ≤ m_current_dynasty s ∧
    GetEndDynasty p s < m_end_dynasty v.
Proof.
  unfold ValidateLogout. destruct (m_validators s !! a) as [v|]; [|split; [done|by intros (? & [=] & _)]].
  split.
  - repeat case_decide; try done. intros _. exists v. split; [done|]. lia.
  - intros (w & [= <-] & ? & ?). by rewrite !decide_False by lia.
Qed.

Lemma IsSlashable_SUCCESS s vote1 vote2 :
  IsSlashable s vote1 vote2 = SUCCESS ↔
  (∃ v1 v2, m_validators s !! m_validator_address vote1 = Some v1 ∧
     m_validators s !! m_validator_address vote2 = Some v2 ∧
     m_finalizer_address v1 = m_finalizer_address v2 ∧
     m_start_dynasty v1 ≤ m_current_dynasty s ∧ m_is_slashed v1 = false) ∧
  m_target_hash vote1 ≠ m_target_hash vote2 ∧
  (m_target_epoch vote1 = m_target_epoch vote2 ∨
   (m_target_epoch vote2 < m_target_epoch vote1 ∧ m_source_epoch vote1 < m_source_epoch vote2) ∨
   (m_target_epoch vote1 < m_target_epoch vote2 ∧ m_source_epoch vote2 < m_source_epoch vote1)).
Proof.
  unfold IsSlashable. split.
  - destruct (m_validators s !! m_validator_address vote1) as [v1|] eqn:E1; [|done].
    destruct (m_validators s !! m_validator_address vote2) as [v2|] eqn:E2; [|done].
    destruct (decide (m_finalizer_address v1 ≠ m_finalizer_address v2)); [done|].
    destruct (decide (m_current_dynasty s < m_start_dynasty v1)); [done|].
    destruct (m_is_slashed v1) eqn:Es; [done|].
    destruct (decide (m_target_hash vote1 = m_target_hash vote2)); [done|].
    destruct (_ || _) eqn:Eo; [|done]. intros _. split.
    + exists v1, v2. do 2 (split; [done|]). split; [by apply dec_stable|]. split; [lia|done].
    + split; [done|]. rewrite !orb_true_iff, !andb_true_iff, !bool_decide_eq_true in Eo. done.
  - intros ((v1 & v2 & -> & -> & Ha & Hst & ->) & Hh & Ho).
    rewrite (decide_False (P := _ ≠ _)) by (intros []; done).
    rewrite decide_False by lia. rewrite decide_False by done.
    destruct (_ || _) eqn:Eo; [done|]. exfalso.
    rewrite !orb_false_iff, !andb_false_iff, !bool_decide_eq_false in Eo. lia.
Qed.

(** A finalizer that may vote belongs to the current or the previous dynasty,
    hence it has started. *)
Lemma IsFinalizerVoting_started s v :
  is_uint32 (m_current_dynasty s) → m_end_dynasty v ≤ MAX_END_DYNASTY →
  IsFinalizerVoting s v = true → m_start_dynasty v ≤ m_current_dynasty s < m_end_dynasty v + 1.
Proof.
  intros Hd Hend. unfold IsFinalizerVoting. rewrite orb_true_iff, !IsInDynasty_spec.
  rewrite uint32_pred by done. case_decide; lia.
Qed.

(** A withdrawal passes only after the dynasty the finalizer left in is over
    and the withdrawal delay has passed. *)
Lemma CalculateWithdrawAmount_SUCCESS s a amount :
  CalculateWithdrawAmount p s a = Ok (SUCCESS, amount) →
  m_current_epoch s < MAX_UINT32 →
  ∃ v e, m_validators s !! a = Some v ∧ m_end_dynasty v ≠ MAX_END_DYNASTY ∧
    m_end_dynasty v < m_current_dynasty s ∧
    m_dynasty_start_epoch s !! uint32 (m_end_dynasty v + 1) = Some e ∧
    uint32 (e + withdrawal_epoch_delay p) ≤ m_current_epoch s.
Proof.
  intros H Hmax. open CalculateWithdrawAmount in H.
  destruct (m_validators s !! a) as [v|] eqn:Hv; [|discriminate H].
  ok_inv H. open CalculateWithdrawEpoch in Hr. clear Hv. exists v. revert H.
  destruct (decide (m_end_dynasty v = MAX_END_DYNASTY)).
  { injection Hr as <-. by rewrite decide_True by done. }
  destruct (decide (m_current_dynasty s ≤ m_end_dynasty v)).
  { injection Hr as <-. by rewrite decide_True by done. }
  ok_inv Hr. subst r. case_decide; [discriminate 1|]. intros _. exists r0.
  repeat split; [done|lia|done|lia].
Qed.
End validations.

(** ** The commits keep the invariant *)

Section commits.
Context (p : Params) (Hp : valid_params p).
Implicit Types s : State.

Lemma wf_dynasty_bound s : wf p s → 0 ≤ m_current_dynasty s ≤ 2 ^ 31.
Proof. intros [[? ? _] _ _ _ _ _ _]. lia. Qed.

Lemma wf_dynasty_uint32 s : wf p s → is_uint32 (m_current_dynasty s).
Proof. intros ?%wf_dynasty_bound. unfold is_uint32. lia. Qed.

(** What [wf] says of a finalizer of the state. *)
Lemma wf_lookup s a v :
  wf p s → m_validators s !! a = Some v →
  wf_validator (dynasty_logout_delay p) (m_current_dynasty s) a v.
Proof. intros Hwf. apply (wf_val p s Hwf). Qed.

Lemma wf_end_max s a v :
  wf p s → m_validators s !! a = Some v → m_end_dynasty v ≤ MAX_END_DYNASTY.
Proof.
  intros Hwf [_ _ _ _ Hl]%(wf_lookup _ _ _ Hwf). destruct Hp as [_ ? _].
  apply wf_dynasty_bound in Hwf. unfold MAX_END_DYNASTY, MAX_UINT32 in *. lia.
Qed.

Lemma GetEndDynasty_small s :
  wf p s → GetEndDynasty p s = m_current_dynasty s + dynasty_logout_delay p.
Proof.
  intros ?%wf_dynasty_bound. destruct Hp as [_ ? _]. apply uint32_small. unfold is_uint32. lia.
Qed.

Lemma invariant_deposit s a amount s' :
  invariant p s → ValidateDeposit p s a amount = SUCCESS →
  ProcessDeposit s a amount = Ok s' → invariant p s'.
Proof.
  intros [Hwf Hacc Hsrc] (_ & Hnew & _)%ValidateDeposit_SUCCESS H.
  pose proof (wf_dynasty_bound s Hwf).
  apply ProcessDeposit_state in H as (factor & scaled & _ & Hs & ->);
    [|unfold is_uint32; lia|done].
  split; [|apply accounting_deposit; try done; unfold is_uint32; lia|done].
  destruct Hwf as [? ? ? Hval ? ? ?]. split; try done. cbn.
  apply wf_validators_update; [done|]. split; cbn; auto; [|lia|].
  - by eapply GetLow64_range.
  - unfold MAX_END_DYNASTY, MAX_UINT32. lia.
Qed.

Lemma wf_reward_state s a v reward :
  wf p s → m_validators s !! a = Some v → wf p (reward_state s a v reward).
Proof.
  intros Hwf Hv. pose proof (wf_lookup s a v Hwf Hv) as [? ? ? ? ?].
  destruct Hwf. split; try done; cbn.
  - apply wf_validators_update; [done|]. split; auto. apply uint64_range.
  - case_match; auto with unite.
  - case_match; auto with unite.
Qed.

(** A checkpoint for the expected target epoch exists after epoch 0 only. *)
Lemma vote_target s t :
  wf p s → is_Some (m_checkpoints s !! t) → t = uint32 (m_current_epoch s - 1) →
  0 < m_current_epoch s ∧ t = m_current_epoch s - 1.
Proof.
  intros [[? _ _] Hcps ????] Hcp Ht. pose proof (wfk_range _ _ _ _ Hcps t Hcp).
  destruct (decide (m_current_epoch s = 0)) as [E|].
  - rewrite E in *. change (uint32 (0 - 1)) with (2 ^ 32 - 1) in Ht. lia.
  - rewrite uint32_small in Ht by (unfold is_uint32; lia). lia.
Qed.

Lemma wf_vote_state s vote cp cp' b :
  wf p s → m_checkpoints s !! m_target_epoch vote = Some cp →
  m_target_epoch vote = uint32 (m_current_epoch s - 1) →
  m_is_justified cp' = m_is_justified cp → m_is_finalized cp' = m_is_finalized cp →
  wf p (vote_state s vote cp' b).
Proof.
  intros Hwf Hcp Ht Hj Hf. destruct (vote_target s _ Hwf ltac:(by eauto) Ht) as [Hpos Ht'].
  destruct Hwf as [Hcnt Hcps ????]. set (t := m_target_epoch vote) in *.
  unfold vote_state. fold t. destruct b; [case_decide|]; split; try done; cbn.
  - rewrite Ht' in *. eapply wf_checkpoints_finalize; [|apply lookup_insert_eq|done..].
    eapply wf_checkpoints_justify; [|done|apply lookup_insert_eq|done].
    by eapply wf_checkpoints_update.
  - rewrite Ht' in *. eapply wf_checkpoints_justify; [|done|apply lookup_insert_eq|done].
    eapply wf_checkpoints_update; [done..|]. cbn. congruence.
  - eapply wf_checkpoints_update; [done..| |]; congruence.
Qed.

Lemma source_vote_state s vote cp cp' b :
  wf p s → source_ok s → m_checkpoints s !! m_target_epoch vote = Some cp →
  m_target_epoch vote = uint32 (m_current_epoch s - 1) →
  m_is_justified cp' = m_is_justified cp → source_ok (vote_state s vote cp' b).
Proof.
  intros Hwf (Hle & Hc) Hcp Ht Hj. destruct (vote_target s _ Hwf ltac:(by eauto) Ht) as [Hpos Ht'].
  pose proof (wfk_last _ _ _ _ (wf_cps p s Hwf)).
  assert (∀ c, m_is_justified c = true ∨ m_is_justified c = m_is_justified cp → ∀ lj,
    m_last_justified_epoch s ≤ lj →
    source_justified (m_expected_source_epoch s) lj (<[m_target_epoch vote := c]> (m_checkpoints s)))
    as Hgen.
  { intros c Hjc lj Hlj. eapply source_justified_update; [split; [lia|done]|done|].
    destruct Hjc as [->| ->]; auto. }
  unfold vote_state. destruct b; [case_decide|]; unfold source_ok; cbn; apply Hgen; auto; lia.
Qed.

Lemma invariant_vote s vote s' :
  invariant p s → ValidateVote s vote = SUCCESS → ProcessVote s vote = Ok s' → invariant p s'.
Proof.
  intros [Hwf Hacc Hsrc] (_ & v & Hv & Hvot)%ValidateVote_SUCCESS H.
  apply IsVotable_SUCCESS in Hvot as (_ & _ & Ht & _ & Hvoting).
  apply IsFinalizerVoting_started in Hvoting as [Hst _];
    [|by apply wf_dynasty_uint32|by eapply wf_end_max].
  apply ProcessVote_state in H as (v' & cp & s1 & ct & pt & Hv' & Hcp & Hrew & _ & _ & ->).
  simplify_eq. pose proof (wf_lookup _ _ _ Hwf Hv) as [_ _ _ Hlt _].
  pose proof (accounting_vote _ _ _ _ Hacc Hv Hst Hlt Hrew) as Hacc1.
  assert (wf p s1 ∧ m_checkpoints s1 = m_checkpoints s ∧ source_ok s1 ∧
    m_current_epoch s1 = m_current_epoch s) as (Hwf1 & Hcps1 & Hsrc1 & He1).
  { unfold vote_rewarded in Hrew. case_decide; [|by subst].
    destruct Hrew as (reward & _ & ->). split; [by apply wf_reward_state|done]. }
  split.
  - by eapply wf_vote_state; rewrite ?Hcps1, ?He1.
  - by apply accounting_vote_state.
  - by eapply source_vote_state; rewrite ?Hcps1, ?He1.
Qed.

Lemma invariant_logout s a s' :
  invariant p s → ValidateLogout p s a = SUCCESS →
  ProcessLogout p s a = Ok s' → invariant p s'.
Proof.
  intros [Hwf Hacc Hsrc] (v & Hv & Hst & Hend)%ValidateLogout_SUCCESS H.
  apply ProcessLogout_state in H as (v' & Hv' & ->). simplify_eq.
  pose proof (wf_lookup _ _ _ Hwf Hv) as [? ? ? ? Hl].
  pose proof (GetEndDynasty_small s Hwf) as Hge. pose proof (wf_dynasty_bound s Hwf).
  pose proof (vp_logout p Hp).
  split; [| |done].
  - destruct Hwf. split; try done; cbn. apply wf_validators_update; [done|].
    split; cbn; auto; rewrite Hge; lia.
  - apply accounting_logout; auto.
    + by apply wf_dynasty_uint32.
    + destruct Hl; [done|lia].
    + rewrite Hge. unfold MAX_END_DYNASTY, MAX_UINT32. lia.
Qed.

Lemma invariant_withdraw s a amount :
  invariant p s → ValidateWithdraw p s a amount = Ok SUCCESS →
  invariant p (ProcessWithdraw s a).
Proof.
  intros [Hwf Hacc Hsrc] H. open ValidateWithdraw in H. ok_inv H.
  case_decide; [by ok_inv H; subst|]. clear H. destruct r0; [|done..].
  apply CalculateWithdrawAmount_SUCCESS in Hr as (v & e & Hv & Hne & Hlt & _ & _);
    [|unfold MAX_UINT32; pose proof (wfc_epoch _ _ _ (wf_cnt p s Hwf)); lia].
  pose proof (wf_lookup _ _ _ Hwf Hv) as [_ _ ? ? _].
  split; [| |done].
  - destruct Hwf. split; try done. by apply wf_validators_delete.
  - apply (accounting_withdraw s a v); auto; [by apply wf_dynasty_uint32|lia].
Qed.

Lemma invariant_slash s vote1 vote2 s' :
  invariant p s → IsSlashable s vote1 vote2 = SUCCESS →
  ProcessSlash s vote1 vote2 = Ok s' → invariant p s'.
Proof.
  intros [Hwf Hacc Hsrc] ((v1 & v2 & Hv & _ & _ & Hst & _) & _)%IsSlashable_SUCCESS H.
  pose proof (wf_dynasty_bound s Hwf). pose proof (vp_logout p Hp).
  apply ProcessSlash_state in H as (v & size & slashed & logout & Hv' & _ & _ & ->); [|unfold is_uint32; lia].
  simplify_eq. pose proof (wf_lookup _ _ _ Hwf Hv) as [? ? ? ? Hl].
  split; [| |done].
  - destruct Hwf as [? ? [? Hsl]]. split; try done; cbn.
    + split; [done|]. intros e He. destruct (decide (e = m_current_epoch s)) as [->|].
      * rewrite lookup_insert_eq. eauto.
      * rewrite lookup_insert_ne by done. auto.
    + apply wf_validators_update; [done|]. unfold slashed_validator.
      repeat case_decide; split; cbn; auto; lia.
  - apply accounting_slash; auto.
    + by apply wf_dynasty_uint32.
    + by eapply wf_end_max.
    + unfold MAX_END_DYNASTY, MAX_UINT32. lia.
Qed.

Lemma invariant_last_tx s a hash s' :
  invariant p s → RegisterLastTx s a hash = Ok s' → invariant p s'.
Proof.
  intros [Hwf Hacc Hsrc] H. open RegisterLastTx in H. ok_inv H. subst s'.
  pose proof (wf_lookup _ _ _ Hwf Hr) as [? ? ? ? ?].
  split; [| |done].
  - destruct Hwf. split; try done. by apply wf_validators_update.
  - eapply (accounting_update s); [done..| | |]; cbn; intros;
      apply eqm64_of_eq; symmetry; apply Z.sub_add.
Qed.
End commits.
