(* ===== verification/FinalizationEpoch.v ===== *)
(** * The beginning of an epoch

    [InitializeEpoch] in two parts: the state with which the new epoch begins
    ([begin_epoch_state]: its checkpoint, scale factor, slashed total and
    reward factor), and the change of dynasty and of justification that
    follows.  Both keep the invariant. *)
From S2P Require Import Prelude Ufp64 Admin Params FinalizationData FinalizationOps Accounting.
From S2P Require Import FinalizationInvariant.

(** ** The state with which an epoch begins *)

Definition begin_epoch_state (s : State) (cps : gmap Z Checkpoint) (factor slashed reward : Z) : State :=
  let e := m_current_epoch s + 1 in
  set_m_reward_factor reward
  (set_m_total_slashed (<[e := slashed]> (m_total_slashed s))
  (set_m_deposit_scale_factor (<[e := factor]> (m_deposit_scale_factor s))
  (set_m_current_epoch e (set_m_checkpoints cps s)))).

(** The checkpoints after [cp] was added for epoch [e]: reading the votes of
    the last finalized epoch may have added zero entries to its checkpoint. *)
Definition begin_epoch_checkpoints (s : State) (e : Z) (cps : gmap Z Checkpoint) : Prop :=
  ∃ cp, m_is_justified cp = false ∧
    (cps = <[e := cp]> (m_checkpoints s) ∨
     ∃ c c', <[e := cp]> (m_checkpoints s) !! m_last_finalized_epoch s = Some c ∧
       m_is_justified c' = m_is_justified c ∧ m_is_finalized c' = m_is_finalized c ∧
       cps = <[m_last_finalized_epoch s := c']> (<[e := cp]> (m_checkpoints s))).

Lemma GetCollectiveRewardFactor_state s f s' :
  GetCollectiveRewardFactor s = Ok (f, s') →
  s' = s ∨ ∃ c c', m_checkpoints s !! m_last_finalized_epoch s = Some c ∧
    m_is_justified c' = m_is_justified c ∧ m_is_finalized c' = m_is_finalized c ∧
    s' = set_checkpoint (m_last_finalized_epoch s) c' s.
Proof.
  intros H. open GetCollectiveRewardFactor in H. cbn zeta in H.
  destruct (_ || _); [ok_inv H; by left|]. ok_inv H. right.
  unfold GetCheckpoint in Hr0. ok_inv Hr0. injection E as <- <-. injection E0 as <- <-.
  subst. eexists r0, _. split; [done|]. by split; [|split; [|reflexivity]].
Qed.

(** The part of [InitializeEpoch] up to the reward factor, and the rest. *)
Definition begin_epoch (p : Params) (s : State) (new_epoch : Z) : outcome (bool * State) :=
  cur_deposits ← GetTotalCurDynDeposits s;
  prev_deposits ← GetTotalPrevDynDeposits s;
  let cp := set_m_prev_dynasty_deposits prev_deposits
              (set_m_cur_dynasty_deposits cur_deposits Checkpoint_new) in
  let s := set_m_current_epoch new_epoch (set_checkpoint new_epoch cp s) in
  '(collective, s) ← GetCollectiveRewardFactor s;
  last_non_voter_rescale ← div (add_uint collective 1) (add_uint (m_reward_factor s) 1);
  prev_factor ← GetDepositScaleFactor s (uint32 (new_epoch - 1));
  factor ← mul last_non_voter_rescale prev_factor;
  let s := set_m_deposit_scale_factor (<[new_epoch := factor]> (m_deposit_scale_factor s)) s in
  slashed ← GetTotalSlashed s (uint32 (new_epoch - 1));
  let s := set_m_total_slashed (<[new_epoch := int64 slashed]> (m_total_slashed s)) s in
  if DepositExists s then
    root ← GetSqrtOfTotalDeposits s;
    interestBase ← div (base_interest_factor p) root;
    let reward_factor :=
      add interestBase (mul_by_uint (base_penalty_factor p) (GetEpochsSinceFinalization s)) in
    Ok (bool_decide (reward_factor ≤ 0), set_m_reward_factor reward_factor s)
  else Ok (false, set_m_reward_factor 0 s).

Definition end_epoch_initialization (s : State) : outcome State :=
  s ← IncrementDynasty s;
  s ← (match GetActiveFinalizers s with [] => InstaJustify s | _ => Ok s end);
  Ok (set_m_expected_source_epoch (m_last_justified_epoch s) s).

Lemma InitializeEpoch_split p s h :
  InitializeEpoch p s h =
  (_ ← cpp_assert (IsEpochStart p h);
   if decide (GetEpoch p h ≠ uint32 (m_current_epoch s + 1)) then Ok (INIT_WRONG_EPOCH, s)
   else
     '(invalid_reward, s) ← begin_epoch p s (GetEpoch p h);
     if (invalid_reward : bool) then Ok (INIT_INVALID_REWARD, s)
     else s ← end_epoch_initialization s; Ok (SUCCESS, s)).
Proof.
  unfold InitializeEpoch, begin_epoch, end_epoch_initialization.
  destruct (cpp_assert _); [|done]. cbn [mbind outcome_bind]. case_decide; [done|].
  destruct (GetTotalCurDynDeposits s); [|done]. cbn [mbind outcome_bind].
  destruct (GetTotalPrevDynDeposits s); [|done]. cbn [mbind outcome_bind].
  destruct (GetCollectiveRewardFactor _) as [[c t]|]; [|done]. cbn [mbind outcome_bind].
  destruct (div _ _); [|done]. cbn [mbind outcome_bind].
  destruct (GetDepositScaleFactor _ _); [|done]. cbn [mbind outcome_bind].
  destruct (mul _ _); [|done]. cbn [mbind outcome_bind].
  destruct (GetTotalSlashed _ _); [|done]. cbn [mbind outcome_bind].
  assert (∀ b (u : State),
    (if (b : bool) then Ok (INIT_INVALID_REWARD, u)
     else s1 ← IncrementDynasty u;
          s2 ← match GetActiveFinalizers s1 with [] => InstaJustify s1 | _ => Ok s1 end;
          Ok (SUCCESS, set_m_expected_source_epoch (m_last_justified_epoch s2) s2)) =
    (if b then Ok (INIT_INVALID_REWARD, u)
     else s2 ← (s1 ← IncrementDynasty u;
            s2 ← match GetActiveFinalizers s1 with [] => InstaJustify s1 | _ => Ok s1 end;
            Ok (set_m_expected_source_epoch (m_last_justified_epoch s2) s2)); Ok (SUCCESS, s2)))
    as Hend.
  { intros [] u; [done|]. destruct (IncrementDynasty u) as [s1|]; [|done]. cbn.
    by destruct (match GetActiveFinalizers s1 with [] => _ | _ => _ end). }
  destruct (DepositExists _); [|exact (Hend false _)].
  destruct (GetSqrtOfTotalDeposits _); [|done]. cbn [mbind outcome_bind].
  destruct (div _ _); [|done]. exact (Hend (bool_decide _) _).
Qed.

Lemma begin_epoch_spec p s b s1 :
  begin_epoch p s (m_current_epoch s + 1) = Ok (b, s1) →
  ∃ cps factor slashed reward,
    begin_epoch_checkpoints s (m_current_epoch s + 1) cps ∧
    is_uint64 factor ∧ is_uint64 reward ∧
    s1 = begin_epoch_state s cps factor slashed reward.
Proof.
  intros H. open begin_epoch in H. ok_inv H.
  assert (∃ cps, begin_epoch_checkpoints s (m_current_epoch s + 1) cps ∧
    f = set_m_current_epoch (m_current_epoch s + 1) (set_m_checkpoints cps s))
    as (cps & Hcps & ->).
  { assert (m_is_justified cp = false) as Hcpj by (by subst cp).
    apply GetCollectiveRewardFactor_state in Hr1. subst s0.
    destruct Hr1 as [->|(c & c' & Hc & Hj & Hf & ->)]; eexists; (split; [|reflexivity]);
      exists cp; (split; [done|]); [by left|right; by eauto 7]. }
  assert (∃ reward, is_uint64 reward ∧ s1 = set_m_reward_factor reward s3) as (reward & Hrw & ->).
  { destruct (DepositExists s3); ok_inv H; subst; eexists; (split; [|reflexivity]); [|done].
    apply uint64_range. }
  exists cps, r4, (int64 r5), reward. split; [done|].
  split; [by eapply GetLow64_range|]. split; [done|]. by subst s3 s2.
Qed.

(** What follows the new epoch's parameters. *)
Definition end_of_initialize (s1 s' : State) : Prop :=
  ∃ s2 s3, IncrementDynasty s1 = Ok s2 ∧
    match GetActiveFinalizers s2 with [] => InstaJustify s2 | _ => Ok s2 end = Ok s3 ∧
    s' = set_m_expected_source_epoch (m_last_justified_epoch s3) s3.

Lemma InitializeEpoch_state p s h r s' :
  is_uint32 (m_current_epoch s + 1) →
  InitializeEpoch p s h = Ok (r, s') →
  IsEpochStart p h = true ∧
  ((r = INIT_WRONG_EPOCH ∧ GetEpoch p h ≠ m_current_epoch s + 1 ∧ s' = s) ∨
   (GetEpoch p h = m_current_epoch s + 1 ∧
    ∃ cps factor slashed reward,
      begin_epoch_checkpoints s (m_current_epoch s + 1) cps ∧
      is_uint64 factor ∧ is_uint64 reward ∧
      let s1 := begin_epoch_state s cps factor slashed reward in
      (r = INIT_INVALID_REWARD ∧ s' = s1 ∨ r = SUCCESS ∧ end_of_initialize s1 s'))).
Proof.
  intros He H. rewrite InitializeEpoch_split in H. ok_inv H. split; [done|].
  rewrite uint32_small in H by done.
  destruct (decide (GetEpoch p h ≠ m_current_epoch s + 1)) as [|Hn].
  { ok_inv H. by left; subst. }
  right. apply dec_stable in Hn. rewrite Hn in H. split; [done|]. ok_inv H.
  apply begin_epoch_spec in Hr0 as (cps & factor & slashed & reward & Hcps & Hf & Hrw & ->).
  exists cps, factor, slashed, reward. do 3 (split; [done|]). cbn zeta.
  destruct b; ok_inv H; [by left|right]. split; [done|].
  unfold end_epoch_initialization in Hr0. ok_inv Hr0. subst. exists r3, r4. auto.
Qed.

(** [InstaJustify] justifies the previous epoch, and finalizes it if the one
    before is justified. *)
Lemma InstaJustify_state s s' :
  0 < m_current_epoch s < 2 ^ 32 → InstaJustify s = Ok s' →
  let e := m_current_epoch s - 1 in
  ∃ cp, m_checkpoints s !! e = Some cp ∧
    let cp1 := set_m_is_justified true cp in
    (s' = set_m_last_justified_epoch e (set_checkpoint e cp1 s) ∨
     (∃ cp0, m_checkpoints s !! (e - 1) = Some cp0 ∧ m_is_justified cp0 = true) ∧
     s' = set_m_last_finalized_epoch e (set_m_last_justified_epoch e
            (set_checkpoint e (set_m_is_finalized true cp1) s))).
Proof.
  intros He H e. open InstaJustify in H. rewrite uint32_small in H by (unfold is_uint32; lia).
  ok_inv H. subst epoch. fold e in Hr, Es0. unfold GetCheckpoint in Hr. ok_inv Hr.
  exists r. split; [done|]. cbn zeta. subst cp s0. cbn in H. destruct (decide (1 < m_current_epoch s)).
  - rewrite uint32_small in H by (unfold is_uint32; lia). ok_inv H.
    unfold GetCheckpoint in Hr0. ok_inv Hr0. cbn in Hr0.
    rewrite lookup_insert_ne in Hr0 by lia. destruct (m_is_justified r0) eqn:Hj; ok_inv H; subst s'.
    + right. replace (e - 1) with (m_current_epoch s - 2) by lia. split; [by eauto|].
      unfold set_checkpoint; cbn. by rewrite insert_insert_eq.
    + by left.
  - ok_inv H. subst. by left.
Qed.

(** ** The invariant *)

Lemma epoch_start_bound p h :
  0 < epoch_length p → is_uint32 h → IsEpochStart p h = true → GetEpoch p h ≤ 2 ^ 31.
Proof.
  intros Hl Hh Hs%bool_decide_eq_true. rewrite GetEpoch_div by done. unfold is_uint32 in Hh.
  assert (epoch_length p ≠ 1) by (intros E; rewrite E, Z.mod_1_r in Hs; lia).
  assert (h ≠ 0) by (intros ->; rewrite Z.mod_0_l in Hs; lia).
  replace (h + epoch_length p - 1) with (h - 1 + 1 * epoch_length p) by lia.
  rewrite Z.div_add by lia.
  assert ((h - 1) / epoch_length p ≤ 2 ^ 31 - 1); [|lia].
  apply Z.div_le_upper_bound; nia.
Qed.

Lemma wf_checkpoints_new epoch lf lj cps cp :
  wf_checkpoints epoch lf lj cps →
  wf_checkpoints (epoch + 1) lf lj (<[epoch + 1 := cp]> cps).
Proof.
  intros [Ho Hl Hs Hr Hj Hf]. split; auto; [lia| | | |].
  - intros e He. destruct (decide (e = epoch + 1)) as [->|].
    + rewrite lookup_insert_eq. eauto.
    + rewrite lookup_insert_ne by done. apply Hs. lia.
  - intros e [c [[<- <-]|[? ?]]%lookup_insert_Some].
    + pose proof (Hr lf ltac:(apply Hs; lia)). lia.
    + pose proof (Hr e ltac:(eauto)). lia.
  - rewrite lookup_insert_ne by lia. done.
  - rewrite lookup_insert_ne by lia. done.
Qed.

Lemma wf_checkpoints_filter epoch lf lj cps :
  wf_checkpoints epoch lf lj cps →
  wf_checkpoints epoch lf lj (filter (λ kv, ¬ kv.1 < lf) cps).
Proof.
  intros [Ho Hl Hs Hr (cj & Hj & ?) (cf & Hf & ?)]. split; auto.
  - intros e He. destruct (Hs e He) as [c Hc]. exists c.
    apply map_lookup_filter_Some. split; [done|]. cbn. lia.
  - intros e [c [Hc _]%map_lookup_filter_Some]. eauto.
  - exists cj. split; [|done]. apply map_lookup_filter_Some. split; [done|]. cbn. lia.
  - exists cf. split; [|done]. apply map_lookup_filter_Some. split; [done|]. cbn. lia.
Qed.

Lemma wf_tables_new epoch scale slashed factor amount :
  wf_tables epoch scale slashed → is_uint64 factor →
  wf_tables (epoch + 1) (<[epoch + 1 := factor]> scale) (<[epoch + 1 := amount]> slashed).
Proof.
  intros [Hsc Hsl] Hf. split; intros e He; (destruct (decide (e = epoch + 1)) as [->|];
    [rewrite lookup_insert_eq; eauto|rewrite lookup_insert_ne by done]).
  - apply Hsc. lia.
  - apply Hsl. lia.
Qed.

Section epoch_invariant.
Context (p : Params) (Hp : valid_params p).
Implicit Types s : State.

Lemma wf_begin_epoch s cps factor slashed reward :
  wf p s → m_current_epoch s + 1 ≤ 2 ^ 31 →
  begin_epoch_checkpoints s (m_current_epoch s + 1) cps →
  is_uint64 factor → is_uint64 reward →
  wf p (begin_epoch_state s cps factor slashed reward).
Proof.
  intros [[He Hd Hst] Hcps Htab Hval ? ? ?] Hmax (cp & Hcpj & Hc) Hf Hr.
  split; try done; cbn.
  - split; [lia|lia|]. intros d (e & ? & ?)%Hst. exists e. split; [done|lia].
  - apply (wf_checkpoints_new _ _ _ _ cp) in Hcps as Hnew.
    destruct Hc as [->|(c & c' & Hc & Hj & Hfin & ->)]; [done|].
    eapply wf_checkpoints_update; [done..| |]; congruence.
  - by apply wf_tables_new.
Qed.

Lemma source_begin_epoch s cps factor slashed reward :
  wf p s → source_ok s → begin_epoch_checkpoints s (m_current_epoch s + 1) cps →
  source_ok (begin_epoch_state s cps factor slashed reward).
Proof.
  intros Hwf (Hle & c0 & Hc0 & Hj0) (cp & Hcpj & Hc). unfold source_ok; cbn.
  assert (source_justified (m_expected_source_epoch s) (m_last_justified_epoch s)
    (<[m_current_epoch s + 1 := cp]> (m_checkpoints s))) as Hsrc.
  { split; [done|]. exists c0. split; [|done]. rewrite lookup_insert_ne; [done|].
    pose proof (wfk_range _ _ _ _ (wf_cps p s Hwf) _ ltac:(by eauto)). lia. }
  destruct Hc as [->|(c & c' & Hc & Hj & Hfin & ->)]; [done|].
  eapply source_justified_update; [done..|]. congruence.
Qed.

Lemma wf_next_dynasty s :
  wf p s → increments_dynasty s →
  m_current_dynasty s = 0 ∨ m_current_dynasty s + 3 ≤ m_current_epoch s →
  wf p (next_dynasty_state s).
Proof.
  intros [[He Hd Hst] Hcps Htab Hval ? ? ?] [Hinc _] Hlt.
  split; try done; cbn.
  - split; [done|lia|]. intros d Hdd.
    destruct (decide (d = m_current_dynasty s + 1)) as [->|].
    + rewrite lookup_insert_eq. exists (m_current_epoch s). split; [done|lia].
    + rewrite lookup_insert_ne by done. apply Hst. lia.
  - by apply wf_checkpoints_filter.
  - by apply wf_validators_next.
  - apply int64_range.
Qed.

Lemma wf_InstaJustify s s' :
  wf p s → 0 < m_current_epoch s → InstaJustify s = Ok s' → wf p s'.
Proof.
  intros Hwf Hpos H. pose proof (wfc_epoch _ _ _ (wf_cnt p s Hwf)).
  apply InstaJustify_state in H as (cp & Hcp & H); [|lia]. destruct Hwf as [? Hcps ? ? ? ? ?].
  destruct H as [->|[_ ->]]; split; try done; cbn.
  - eapply wf_checkpoints_justify; [|done|apply lookup_insert_eq|done].
    eapply wf_checkpoints_update; done.
  - eapply wf_checkpoints_finalize; [|apply lookup_insert_eq|done..].
    eapply wf_checkpoints_justify; [|done|apply lookup_insert_eq|done].
    eapply wf_checkpoints_update; done.
Qed.

Lemma accounting_InstaJustify s s' :
  accounting s → 0 < m_current_epoch s < 2 ^ 32 → InstaJustify s = Ok s' → accounting s'.
Proof.
  intros Hacc He (cp & Hcp & [->|[_ ->]])%InstaJustify_state; [..|done];
    by apply (accounting_frame s).
Qed.

Lemma wf_end_of_initialize s1 s' :
  wf p s1 → accounting s1 → 0 < m_current_epoch s1 →
  m_current_dynasty s1 = 0 ∨ m_current_dynasty s1 + 3 ≤ m_current_epoch s1 →
  end_of_initialize s1 s' → invariant p s'.
Proof.
  intros Hwf Hacc Hpos Hlt (s2 & s3 & H2 & H3 & ->).
  pose proof (wfc_epoch _ _ _ (wf_cnt p s1 Hwf)). pose proof (wf_dynasty_bound p s1 Hwf).
  assert (wf p s2 ∧ accounting s2 ∧ m_current_epoch s2 = m_current_epoch s1) as (Hwf2 & Hacc2 & He2).
  { apply IncrementDynasty_state in H2; [|unfold is_uint32; lia..].
    destruct H2 as [[Hinc ->]|[_ ->]]; [|done].
    split; [by apply wf_next_dynasty|]. split; [|done].
    apply accounting_next_dynasty; [done|unfold is_uint32; lia| |].
    - unfold MAX_END_DYNASTY, MAX_UINT32. lia.
    - intros a v Hv. apply (wf_val p s1 Hwf _ _ Hv). }
  assert (wf p s3 ∧ accounting s3) as [Hwf3 Hacc3].
  { destruct (GetActiveFinalizers s2); [|by injection H3 as <-].
    split; [by eapply wf_InstaJustify; rewrite ?He2|].
    eapply accounting_InstaJustify; [done| |done]. lia. }
  split; [by destruct Hwf3|by apply (accounting_frame s3)|].
  split; [done|]. apply (wfk_justified _ _ _ _ (wf_cps p s3 Hwf3)).
Qed.

Lemma invariant_epoch s h r s' :
  invariant p s → is_uint32 h → InitializeEpoch p s h = Ok (r, s') → invariant p s'.
Proof.
  intros Hinv Hh H. pose proof Hinv as [Hwf Hacc Hsrc].
  pose proof (wf_cnt p s Hwf) as [He Hd _].
  apply InitializeEpoch_state in H as (Hstart & H); [|unfold is_uint32; lia].
  pose proof (epoch_start_bound p h (vp_length p Hp) Hh Hstart) as Hmax.
  destruct H as [(_ & _ & ->)|(Heq & cps & factor & slashed & reward & Hcps & Hf & Hr & H)]; [done|].
  pose proof (wf_begin_epoch s cps factor slashed reward Hwf ltac:(lia) Hcps Hf Hr) as Hwf1.
  assert (accounting (begin_epoch_state s cps factor slashed reward)) as Hacc1
    by by apply (accounting_frame s).
  destruct H as [[_ ->]|[_ H]].
  - split; [done..|]. by eapply source_begin_epoch.
  - eapply wf_end_of_initialize; [done|done| | |done]; cbn; lia.
Qed.

Lemma invariant_init `{!Crypto} s : FinalizationState_new p = Ok s → invariant p s.
Proof.
  intros Hnew. open FinalizationState_new in Hnew. ok_inv Hnew. subst s.
  assert (∀ e, 0 ≤ e ≤ 0 → e = 0) as Hzero by lia.
  split; [split; cbn| |].
  - split; [lia|lia|]. intros d ->%Hzero. exists 1. split; [done|lia].
  - split; [lia|lia| | |by eexists..].
    + intros e ->%Hzero. by eexists.
    + intros e [c [<- _]%lookup_singleton_Some]. lia.
  - split; intros e ->%Hzero; [|by eexists]. by exists BASE_DEPOSIT_SCALE_FACTOR.
  - by intros ? ? ?.
  - done.
  - done.
  - done.
  - split; [done|done|]. intros d Hd. unfold recorded_delta, delta_total; cbn.
    rewrite map_sum_empty. unfold emplaced. rewrite lookup_singleton_ne; [done|]. cbn in Hd. lia.
  - split; [done|]. by eexists.
Qed.

Lemma invariant_step `{!Crypto} s s' : invariant p s → step p s s' → invariant p s'.
Proof.
  intros Hinv Hstep. destruct Hstep.
  - by eapply invariant_epoch.
  - by eapply invariant_deposit.
  - by eapply invariant_vote.
  - by eapply invariant_logout.
  - by eapply invariant_withdraw.
  - by eapply invariant_slash.
  - destruct Hinv as [[] ? ?]. split; [done|by apply (accounting_frame s)|done].
  - by eapply invariant_last_tx.
  - destruct Hinv as [[] ? ?]. split; [done|by apply (accounting_frame s)|done].
Qed.

(** Every reachable state has the invariant. *)
Lemma invariant_reachable `{!Crypto} s : reachable p s → invariant p s.
Proof. induction 1; [by apply invariant_init|by eapply invariant_step]. Qed.
End epoch_invariant.
