(* ===== verification/FinalizationSafety.v ===== *)
(** * The state machine does not stop the node

    [FinalizationState] relies on many asserted lookups: checkpoints, scale
    factors and slashed totals by epoch, finalizers by address, start epochs
    by dynasty.  This file shows that on every reachable state a commit that
    passed its validation is processed to the end, and that the beginning of
    an epoch fails no assertion. *)
From S2P Require Import Prelude Ufp64 Admin Params FinalizationData FinalizationOps Accounting.
From S2P Require Import FinalizationInvariant FinalizationEpoch.

(** ** Lookups that the invariant provides *)

Section lookups.
Context (p : Params) (Hp : valid_params p).
Implicit Types s : State.

Lemma wf_epoch_range s : wf p s → 0 ≤ m_current_epoch s ≤ 2 ^ 31.
Proof. intros Hwf. apply (wfc_epoch _ _ _ (wf_cnt p s Hwf)). Qed.

Lemma scale_factor_some s e :
  wf p s → 0 ≤ e ≤ m_current_epoch s → is_Some (m_deposit_scale_factor s !! e).
Proof. intros Hwf (f & Hf & ?)%(wft_scale _ _ _ (wf_tab p s Hwf)). by exists f. Qed.

Lemma GetDepositScaleFactor_returns s e :
  wf p s → 0 ≤ e ≤ m_current_epoch s → returns (GetDepositScaleFactor s e).
Proof. intros Hwf He. by apply returns_map_find, scale_factor_some. Qed.

Lemma GetTotalSlashed_returns s e :
  wf p s → 0 ≤ e ≤ m_current_epoch s → returns (GetTotalSlashed s e).
Proof.
  intros Hwf He. apply returns_fmap, returns_map_find.
  by apply (wft_slashed _ _ _ (wf_tab p s Hwf)).
Qed.

Lemma mul_to_uint_returns x y : returns (mul_to_uint x y).
Proof. destruct (mul_to_uint_Ok x y) as (z & Hz & _). by exists z. Qed.

Lemma mul_returns x y : returns (mul x y).
Proof. destruct (mul_Ok x y) as (z & Hz & _). by exists z. Qed.

Lemma two_thirds_returns d : returns (two_thirds d).
Proof. eexists. reflexivity. Qed.

Lemma GetTotalCurDynDeposits_returns s :
  is_Some (m_deposit_scale_factor s !! m_current_epoch s) → returns (GetTotalCurDynDeposits s).
Proof.
  intros Hs. unfold GetTotalCurDynDeposits. walk; [by apply returns_map_find|].
  apply mul_to_uint_returns.
Qed.

Lemma GetTotalPrevDynDeposits_returns s : wf p s → returns (GetTotalPrevDynDeposits s).
Proof.
  intros Hwf. pose proof (wf_epoch_range s Hwf). unfold GetTotalPrevDynDeposits.
  case_decide; walk; [|apply mul_to_uint_returns].
  rewrite uint32_small by (unfold is_uint32; lia).
  apply GetDepositScaleFactor_returns; [done|lia].
Qed.

Lemma GetDepositSize_returns s a : returns (GetDepositSize s a).
Proof. unfold GetDepositSize. repeat case_match; walk. apply mul_to_uint_returns. Qed.

(** ** Commits *)

Lemma ProcessReward_returns s a reward :
  is_Some (m_validators s !! a) → is_Some (m_deposit_scale_factor s !! m_current_epoch s) →
  returns (ProcessReward s a reward).
Proof.
  intros Hv Hs. open ProcessReward. walk.
  - by apply returns_map_at.
  - set (same (t : State) := m_deposit_scale_factor t = m_deposit_scale_factor s ∧
                             m_current_epoch t = m_current_epoch s).
    assert (same s1) as H1 by (subst s1; by case_match). clearbody s1.
    assert (same s2) as H2 by (subst s2; by case_match). clearbody s2.
    assert (same s3) as [H3 H3'] by (subst s3; by case_match).
    apply returns_map_find. by rewrite H3, H3'.
  - apply mul_to_uint_returns.
Qed.

Lemma ProcessVote_returns s vote :
  wf p s → is_Some (m_checkpoints s !! m_target_epoch vote) →
  is_Some (m_validators s !! m_validator_address vote) → returns (ProcessVote s vote).
Proof.
  intros Hwf Hcp Hv. pose proof (wf_epoch_range s Hwf). open ProcessVote. walk.
  - by apply returns_map_find.
  - by apply returns_map_at.
  - case_decide; walk; [apply mul_to_uint_returns|].
    apply ProcessReward_returns; [done|].
    apply (scale_factor_some s (m_current_epoch s)); [done|lia].
  - apply two_thirds_returns.
  - apply two_thirds_returns.
  - destruct (enoughVotes && _); walk. destruct (decide (targetEpoch = _)); walk.
Qed.

Lemma ProcessLogout_returns s a :
  is_Some (m_validators s !! a) → returns (ProcessLogout p s a).
Proof. intros Hv. open ProcessLogout. walk. by apply returns_map_at. Qed.

Lemma ProcessSlash_returns s vote1 vote2 :
  wf p s → is_Some (m_validators s !! m_validator_address vote1) →
  returns (ProcessSlash s vote1 vote2).
Proof.
  intros Hwf Hv. pose proof (wf_epoch_range s Hwf). open ProcessSlash. walk.
  - apply GetDepositSize_returns.
  - apply GetTotalSlashed_returns; [done|lia].
  - by apply returns_map_at.
  - case_decide; walk. case_decide; walk. apply GetTotalCurDynDeposits_returns.
    subst s3 s2. injection E as <- <-.
    apply (scale_factor_some s (m_current_epoch s)); [done|lia].
Qed.

(** A deposit is divided by the scale factor, which has to be positive. *)
Lemma ProcessDeposit_returns s a amount :
  wf p s →
  returns (ProcessDeposit s a amount) ↔ m_deposit_scale_factor s !! m_current_epoch s ≠ Some 0.
Proof.
  intros Hwf. pose proof (wf_epoch_range s Hwf).
  destruct (scale_factor_some s (m_current_epoch s) Hwf) as [f Hf]; [lia|]. rewrite Hf.
  split.
  - intros [s' Hs] [= ->]. open ProcessDeposit in Hs. ok_inv Hs.
    unfold GetDepositScaleFactor in Hr. ok_inv Hr. rewrite Hf in Hr. injection Hr as <-. done.
  - intros Hne. open ProcessDeposit. walk; [by apply returns_map_find|].
    unfold GetDepositScaleFactor in *. rewrite map_find_assert_Ok in *.
    exists (uint64 (uint64 amount * SCALE / a0)).
    apply div_to_uint_spec; [apply uint64_range|congruence].
Qed.

(** ** Withdrawals *)

(** The epoch from which a finalizer can withdraw: never while it has not
    left, else the start of the dynasty after its last one plus the delay. *)
Lemma CalculateWithdrawEpoch_spec s a v :
  wf p s → m_validators s !! a = Some v →
  (m_current_dynasty s ≤ m_end_dynasty v ∧ CalculateWithdrawEpoch p s v = Ok MAX_UINT32) ∨
  (m_end_dynasty v < m_current_dynasty s ∧
   ∃ e, m_dynasty_start_epoch s !! (m_end_dynasty v + 1) = Some e ∧ 0 ≤ e ≤ m_current_epoch s ∧
     CalculateWithdrawEpoch p s v = Ok (e + withdrawal_epoch_delay p)).
Proof.
  intros Hwf Hv. pose proof (wf_epoch_range s Hwf). pose proof (wf_dynasty_bound p s Hwf).
  pose proof (vp_withdraw p Hp). pose proof (wf_cnt p s Hwf) as [_ Hdy Hst].
  pose proof (wf_lookup p s a v Hwf Hv) as [_ _ ? ? _]. unfold CalculateWithdrawEpoch.
  destruct (decide (m_end_dynasty v = MAX_END_DYNASTY)) as [->|].
  { left. split; [unfold MAX_END_DYNASTY, MAX_UINT32; lia|done]. }
  case_decide; [by left|right]. split; [lia|].
  destruct (Hst (m_end_dynasty v + 1)) as (e & He & ?); [lia|]. exists e.
  split; [done|]. split; [lia|]. rewrite uint32_small by (unfold is_uint32; lia).
  rewrite (proj2 (map_find_assert_Ok _ _ _) He). cbn.
  rewrite uint32_small; [done|unfold is_uint32; lia].
Qed.

Lemma CalculateWithdrawAmount_no_abort s a : wf p s → no_abort (CalculateWithdrawAmount p s a).
Proof.
  intros Hwf. pose proof (wf_epoch_range s Hwf). pose proof (vp_withdraw p Hp).
  open CalculateWithdrawAmount. destruct (m_validators s !! a) as [v|] eqn:Hv; [|apply no_abort_Ok].
  destruct (CalculateWithdrawEpoch_spec s a v Hwf Hv) as [[_ ->]|(_ & e & _ & He & ->)];
    unfold mbind at 1, outcome_bind at 1.
  { rewrite decide_True; [apply no_abort_Ok|unfold MAX_UINT32; lia]. }
  case_decide; [apply no_abort_Ok|].
  walk. destruct (m_is_slashed v); cbv beta iota delta [negb]; walk.
  - apply returns_no_abort, GetTotalSlashed_returns; [done|lia].
  - apply returns_no_abort, GetTotalSlashed_returns; [done|].
    case_decide; [lia|]. rewrite uint32_small by (unfold is_uint32; lia). lia.
  - apply div_2uint_no_abort.
  - apply returns_no_abort, GetDepositScaleFactor_returns; [done|lia].
  - apply returns_no_abort, mul_to_uint_returns.
  - destruct (decide (_ ≤ a2)); walk. apply returns_no_abort, mul_to_uint_returns.
  - rewrite uint32_small by (unfold is_uint32; lia).
    apply returns_no_abort, GetDepositScaleFactor_returns; [done|lia].
  - apply returns_no_abort, mul_to_uint_returns.
Qed.

Lemma ValidateWithdraw_no_abort s a amount : wf p s → no_abort (ValidateWithdraw p s a amount).
Proof.
  intros Hwf. unfold ValidateWithdraw. walk; [by apply CalculateWithdrawAmount_no_abort|].
  case_decide; walk.
Qed.

(** Who can withdraw: a finalizer whose last dynasty is over and whose delay
    has passed; for a slashed one, the share to take is a quotient by the
    deposits at its logout, which have to be there. *)
Definition may_withdraw s (a : Z) : Prop :=
  ∃ v e, m_validators s !! a = Some v ∧ m_end_dynasty v < m_current_dynasty s ∧
    m_dynasty_start_epoch s !! (m_end_dynasty v + 1) = Some e ∧
    e + withdrawal_epoch_delay p ≤ m_current_epoch s ∧
    (m_is_slashed v = true → m_deposits_at_logout v ≠ 0).

Lemma CalculateWithdrawAmount_may s a granted :
  wf p s → CalculateWithdrawAmount p s a = Ok (SUCCESS, granted) → may_withdraw s a.
Proof.
  intros Hwf H. pose proof (wf_epoch_range s Hwf).
  open CalculateWithdrawAmount in H. destruct (m_validators s !! a) as [v|] eqn:Hv; [|discriminate H].
  ok_inv H. exists v.
  destruct (CalculateWithdrawEpoch_spec s a v Hwf Hv) as [[_ Hw]|(Hlt & e & He & _ & Hw)];
    rewrite Hw in Hr; injection Hr as <-.
  { rewrite decide_True in H; [discriminate H|unfold MAX_UINT32; lia]. }
  exists e. destruct (decide (m_current_epoch s < _)); [discriminate H|].
  do 3 (split; [done|]). split; [lia|]. intros Hsl Hzero. rewrite Hsl, Hzero in H.
  cbv beta iota delta [negb] in H. ok_inv H. discriminate.
Qed.

Lemma CalculateWithdrawAmount_granted s a :
  wf p s → may_withdraw s a → ∃ granted, CalculateWithdrawAmount p s a = Ok (SUCCESS, granted).
Proof.
  intros Hwf (v & e & Hv & Hlt & He & Hle & Hsl).
  pose proof (wf_epoch_range s Hwf). pose proof (vp_withdraw p Hp).
  destruct (CalculateWithdrawEpoch_spec s a v Hwf Hv) as [[? _]|(_ & e' & He' & ? & Hw)]; [lia|].
  rewrite He in He'. injection He' as <-.
  assert (returns (CalculateWithdrawAmount p s a)) as [[res granted] Hres].
  { open CalculateWithdrawAmount. rewrite Hv, Hw. unfold mbind at 1, outcome_bind at 1.
    rewrite decide_False by lia. walk. destruct (m_is_slashed v); cbv beta iota delta [negb]; walk.
    - apply GetTotalSlashed_returns; [done|lia].
    - apply GetTotalSlashed_returns; [done|].
      case_decide; [lia|]. rewrite uint32_small by (unfold is_uint32; lia). lia.
    - eexists. apply div_2uint_spec; [apply uint64_range|auto].
    - apply GetDepositScaleFactor_returns; [done|lia].
    - apply mul_to_uint_returns.
    - destruct (decide (_ ≤ a2)); walk. apply mul_to_uint_returns.
    - rewrite uint32_small by (unfold is_uint32; lia). apply GetDepositScaleFactor_returns; [done|lia].
    - apply mul_to_uint_returns. }
  exists granted. rewrite Hres. do 2 f_equal.
  open CalculateWithdrawAmount in Hres. rewrite Hv, Hw in Hres.
  unfold mbind at 1, outcome_bind at 1 in Hres. rewrite decide_False in Hres by lia.
  ok_inv Hres. destruct (m_is_slashed v); cbv beta iota delta [negb] in Hres; ok_inv Hres; [|done].
  destruct (decide (to_ufp64 1 ≤ _)); ok_inv Hres; done.
Qed.

(** The requested amount plays no part. *)
Lemma ValidateWithdraw_SUCCESS s a requested :
  wf p s → ValidateWithdraw p s a requested = Ok SUCCESS ↔ may_withdraw s a.
Proof.
  intros Hwf. unfold ValidateWithdraw. split.
  - intros H. ok_inv H. case_decide; [by ok_inv H; subst|]. subst r0.
    by eapply CalculateWithdrawAmount_may.
  - intros [granted ->]%CalculateWithdrawAmount_granted; [|done]. done.
Qed.

(** ** The beginning of an epoch *)

(** Nobody belongs to dynasty 0, so there are no deposits before dynasty 1. *)
Lemma no_deposit_in_dynasty_0 s :
  wf p s → accounting s → m_current_dynasty s = 0 → DepositExists s = false.
Proof.
  intros Hwf [Hc _ _] Hd. unfold DepositExists. apply andb_false_iff. left.
  apply bool_decide_eq_false. rewrite Hd in Hc.
  assert (dynasty_total 0 s = 0) as H0.
  { unfold dynasty_total. rewrite (map_sum_ext _ (λ _, 0)).
    - induction (m_validators s) as [|k v m Hk IH] using map_ind;
        [apply map_sum_empty|rewrite map_sum_insert by done; lia].
    - intros a v Hv. apply in_dynasty_weight_out.
      pose proof (wf_lookup p s a v Hwf Hv) as [_ _ ? _ _]. lia. }
  rewrite H0 in Hc. apply eqm64_eq_int64 in Hc; [lia|apply Hwf|done].
Qed.

(** The assertion of [GetCollectiveRewardFactor]: when the chain is live, the
    last finalized epoch is the one before the previous epoch.  The divisors
    are positive because deposits exist. *)
Lemma GetCollectiveRewardFactor_returns s :
  is_int64 (m_cur_dyn_deposits s) → is_int64 (m_prev_dyn_deposits s) →
  is_Some (m_checkpoints s !! m_last_finalized_epoch s) →
  (DepositExists s = true → 0 ≤ m_last_finalized_epoch s ≤ m_current_epoch s - 2 ∧
     m_current_epoch s ≤ 2 ^ 31) →
  returns (GetCollectiveRewardFactor s).
Proof.
  intros Hcur Hprev Hcp He. open GetCollectiveRewardFactor.
  destruct (DepositExists s) eqn:Hdep; [|apply returns_Ok]. cbv beta iota delta [negb orb].
  specialize (He eq_refl). apply andb_true_iff in Hdep as [Hc%bool_decide_eq_true Hpr%bool_decide_eq_true].
  unfold GetEpochsSinceFinalization. rewrite !uint32_small by (unfold is_uint32; lia).
  case_bool_decide; cbv beta iota delta [negb]; [|apply returns_Ok].
  assert (∀ x z, 0 < z → is_int64 z → returns (div_2uint x (uint64 z))) as Hdiv.
  { intros x z Hz Hi. unfold div_2uint. rewrite u256_div_Ok; [by eexists|].
    rewrite uint64_small; [lia|]. unfold is_int64, is_uint64 in *. lia. }
  walk.
  - apply returns_assert, bool_decide_eq_true. lia.
  - by apply returns_map_find.
  - by apply Hdiv.
  - by apply Hdiv.
  - apply mul_returns.
  - by eexists.
Qed.

Lemma IncrementDynasty_returns s :
  m_current_epoch s ≤ 2 ^ 31 →
  (3 ≤ m_current_epoch s → is_Some (m_checkpoints s !! (m_current_epoch s - 2))) →
  returns (IncrementDynasty s).
Proof.
  intros He Hcp. open IncrementDynasty. case_decide; walk.
  - apply returns_map_find. rewrite uint32_small by (unfold is_uint32; lia). apply Hcp. lia.
  - destruct (m_is_finalized _); cbv beta iota delta [negb]; walk.
Qed.

Lemma InstaJustify_returns s :
  wf p s → 0 < m_current_epoch s →
  m_current_epoch s = 1 ∨ m_last_finalized_epoch s ≤ m_current_epoch s - 2 →
  returns (InstaJustify s).
Proof.
  intros Hwf He Hlf. pose proof (wf_epoch_range s Hwf). pose proof (wf_cps p s Hwf) as Hcps.
  pose proof (wfk_order _ _ _ _ Hcps). pose proof (wfk_last _ _ _ _ Hcps).
  open InstaJustify. rewrite uint32_small by (unfold is_uint32; lia). walk.
  - apply returns_map_find, (wfk_some _ _ _ _ Hcps). lia.
  - case_decide as Hlt; walk.
    + cbn in Hlt. cbn. rewrite uint32_small by (unfold is_uint32; lia). apply returns_map_find. cbn.
      rewrite lookup_insert_ne by lia. apply (wfk_some _ _ _ _ Hcps). lia.
    + destruct (m_is_justified _); walk.
Qed.

(** The checkpoints of the epoch before the previous one and of the last
    finalized epoch are there when an epoch begins. *)
Lemma begin_epoch_finalized s :
  wf p s → 0 < m_current_epoch s + 1 →
  m_current_epoch s = 0 ∨ m_last_justified_epoch s ≤ m_current_epoch s + 1 - 2.
Proof. intros Hwf He. pose proof (wfk_last _ _ _ _ (wf_cps p s Hwf)). lia. Qed.

Lemma GetCollectiveRewardFactor_new_epoch s cp :
  wf p s → accounting s → m_current_epoch s + 1 ≤ 2 ^ 31 →
  returns (GetCollectiveRewardFactor (set_m_current_epoch (m_current_epoch s + 1)
    (set_checkpoint (m_current_epoch s + 1) cp s))).
Proof.
  intros Hwf Hacc Hmax. pose proof (wf_epoch_range s Hwf). pose proof (wf_cps p s Hwf) as Hcps.
  pose proof (wfk_order _ _ _ _ Hcps). pose proof (wfk_last _ _ _ _ Hcps).
  apply GetCollectiveRewardFactor_returns; cbn; [apply Hwf..| |].
  - rewrite lookup_insert_ne by lia.
    destruct (wfk_finalized _ _ _ _ Hcps) as (c & Hc & _). by exists c.
  - change (DepositExists (set_m_current_epoch _ _)) with (DepositExists s). intros Hd.
    destruct (decide (m_current_epoch s = 0)) as [E|]; [|lia].
    rewrite no_deposit_in_dynasty_0 in Hd; [done..|].
    pose proof (wfc_dynasty _ _ _ (wf_cnt p s Hwf)). lia.
Qed.

Lemma GetCollectiveRewardFactor_frame s f t :
  GetCollectiveRewardFactor s = Ok (f, t) →
  m_deposit_scale_factor t = m_deposit_scale_factor s ∧ m_total_slashed t = m_total_slashed s ∧
  m_cur_dyn_deposits t = m_cur_dyn_deposits s ∧ m_prev_dyn_deposits t = m_prev_dyn_deposits s ∧
  m_reward_factor t = m_reward_factor s ∧ m_current_epoch t = m_current_epoch s ∧
  m_last_finalized_epoch t = m_last_finalized_epoch s.
Proof. by intros [->|(? & ? & _ & _ & _ & ->)]%GetCollectiveRewardFactor_state. Qed.

(** The divisions are the only calls of the prefix that may not return. *)
Lemma begin_epoch_no_abort s :
  wf p s → accounting s → m_current_epoch s + 1 ≤ 2 ^ 31 →
  no_abort (begin_epoch p s (m_current_epoch s + 1)).
Proof.
  intros Hwf Hacc Hmax. pose proof (wf_epoch_range s Hwf). open begin_epoch.
  rewrite (uint32_small (m_current_epoch s + 1 - 1)) by (unfold is_uint32; lia).
  replace (m_current_epoch s + 1 - 1) with (m_current_epoch s) by lia.
  walk.
  - apply returns_no_abort, GetTotalCurDynDeposits_returns, scale_factor_some; [done|lia].
  - by apply returns_no_abort, GetTotalPrevDynDeposits_returns.
  - by apply returns_no_abort, GetCollectiveRewardFactor_new_epoch.
  - apply div_no_abort.
  - subst a1. apply GetCollectiveRewardFactor_frame in H2 as (Hs & _).
    apply returns_no_abort, returns_map_find. rewrite Hs. apply (scale_factor_some s); [done|lia].
  - apply returns_no_abort, mul_returns.
  - subst a1. apply GetCollectiveRewardFactor_frame in H2 as (_ & Hs & _).
    apply returns_no_abort, returns_fmap, returns_map_find. cbn. rewrite Hs.
    apply (wft_slashed _ _ _ (wf_tab p s Hwf)). lia.
  - subst a1. apply GetCollectiveRewardFactor_frame in H2 as (Hs & _ & _ & _ & _ & He & _).
    destruct (DepositExists s2); walk; [|apply div_no_abort].
    unfold GetSqrtOfTotalDeposits. walk; [|apply returns_no_abort, mul_to_uint_returns|
      apply sqrt_uint_no_abort].
    apply returns_no_abort, returns_map_find. subst s2 s1. cbn. rewrite Hs, He. cbn.
    rewrite uint32_small by (unfold is_uint32; lia). rewrite lookup_insert_ne by lia.
    apply (scale_factor_some s); [done|lia].
Qed.

Lemma end_epoch_initialization_returns s :
  wf p s → 0 < m_current_epoch s →
  m_current_dynasty s = 0 ∨ m_current_dynasty s + 3 ≤ m_current_epoch s →
  m_current_epoch s = 1 ∨ m_last_justified_epoch s ≤ m_current_epoch s - 2 →
  returns (end_epoch_initialization s).
Proof.
  intros Hwf Hpos Hdyn Hlj. pose proof (wf_epoch_range s Hwf).
  pose proof (wfk_order _ _ _ _ (wf_cps p s Hwf)). pose proof (wf_dynasty_bound p s Hwf).
  unfold end_epoch_initialization. walk.
  - apply IncrementDynasty_returns; [lia|]. intros He. apply (wfk_some _ _ _ _ (wf_cps p s Hwf)). lia.
  - destruct (GetActiveFinalizers a); walk. apply IncrementDynasty_state in H2;
      [|unfold is_uint32; lia..]. destruct H2 as [[Hinc ->]|[_ ->]];
      apply InstaJustify_returns; cbn; try done; try lia. by apply wf_next_dynasty.
Qed.

Lemma begin_epoch_wf s b s1 :
  wf p s → m_current_epoch s + 1 ≤ 2 ^ 31 →
  begin_epoch p s (m_current_epoch s + 1) = Ok (b, s1) →
  returns (end_epoch_initialization s1).
Proof.
  intros Hwf Hmax H. pose proof (wf_epoch_range s Hwf). pose proof (wf_cps p s Hwf) as Hcps.
  pose proof (wfk_last _ _ _ _ Hcps). pose proof (wfc_dynasty _ _ _ (wf_cnt p s Hwf)).
  apply begin_epoch_spec in H as (cps & factor & slashed & reward & ? & ? & ? & ->).
  apply end_epoch_initialization_returns; [by apply wf_begin_epoch|cbn; lia..].
Qed.

(** The beginning of an epoch fails no assertion. *)
Lemma InitializeEpoch_no_abort s h :
  wf p s → accounting s → is_uint32 h → IsEpochStart p h = true →
  no_abort (InitializeEpoch p s h).
Proof.
  intros Hwf Hacc Hh Hstart. rewrite InitializeEpoch_split. pose proof (wf_epoch_range s Hwf).
  pose proof (epoch_start_bound p h (vp_length p Hp) Hh Hstart).
  rewrite uint32_small by (unfold is_uint32; lia). rewrite Hstart. cbn.
  destruct (decide (GetEpoch p h ≠ m_current_epoch s + 1)) as [|Hn]; [apply no_abort_Ok|].
  apply dec_stable in Hn. rewrite Hn in *. walk.
  - by apply begin_epoch_no_abort.
  - destruct (b : bool); walk. subst. apply returns_no_abort. by eapply begin_epoch_wf.
Qed.
End lookups.

(** ** Epochs begin successfully

    With the interest of the built-in parameters, a reward factor below 2^63
    and deposits within the supply of money, no division by zero is left. *)
Section success.
Context (p : Params) (Hp : valid_params p).
Context (Hinterest : base_interest_factor p = to_ufp64 7).
Context (Hpenalty : 0 ≤ base_penalty_factor p ≤ 2 ^ 20).
Implicit Types s : State.

(** The deposits of the state, at the scale of its epoch, are some money. *)
Definition deposits_bounded s : Prop :=
  ∀ f, m_deposit_scale_factor s !! m_current_epoch s = Some f →
    f * Z.max (m_prev_dyn_deposits s) (m_cur_dyn_deposits s) / SCALE ≤ MAX_MONEY.

Lemma sqrt_of_money x :
  0 ≤ x ≤ MAX_MONEY → ∃ r, sqrt_uint (uint64 (1 + x)) = Ok r ∧ 10 ^ 8 ≤ r ≤ 6 * 10 ^ 16.
Proof.
  intros Hx. unfold MAX_MONEY, UNIT in Hx. rewrite uint64_small by (unfold is_uint64; lia).
  destruct (sqrt_uint_root (1 + x)) as (r & Hr & Hb); [unfold SQRT_RANGE; lia|].
  exists r. split; [done|].
  assert (10 ^ 8 ≤ Z.sqrt ((1 + x) * SCALE * SCALE)).
  { apply Z.sqrt_le_square; unfold SCALE; lia. }
  assert (Z.sqrt ((1 + x) * SCALE * SCALE) < 6 * 10 ^ 16); [|lia].
  apply Z.sqrt_lt_square; unfold SCALE; lia.
Qed.

Lemma GetSqrtOfTotalDeposits_money s f :
  is_uint64 f → is_int64 (m_cur_dyn_deposits s) → is_int64 (m_prev_dyn_deposits s) →
  DepositExists s = true →
  m_deposit_scale_factor s !! uint32 (m_current_epoch s - 1) = Some f →
  f * Z.max (m_prev_dyn_deposits s) (m_cur_dyn_deposits s) / SCALE ≤ MAX_MONEY →
  ∃ r, GetSqrtOfTotalDeposits s = Ok r ∧ 10 ^ 8 ≤ r ≤ 6 * 10 ^ 16.
Proof.
  intros Hf Hc Hpr Hd Hs Hm. unfold GetSqrtOfTotalDeposits, GetDepositScaleFactor.
  rewrite (proj2 (map_find_assert_Ok _ _ _) Hs). cbn [mbind outcome_bind].
  apply andb_true_iff in Hd as [Hc0%bool_decide_eq_true Hp0%bool_decide_eq_true].
  set (m := Z.max _ _) in *. assert (is_uint64 m) as Hm64.
  { unfold is_int64, is_uint64 in *. lia. }
  rewrite (uint64_small m) by done. rewrite mul_to_uint_spec by done. cbn [mbind outcome_bind].
  assert (0 ≤ f * m / SCALE) by (apply Z.div_pos; unfold is_uint64, SCALE in *; nia).
  rewrite (uint64_small (f * m / SCALE)) by (unfold is_uint64, MAX_MONEY, UNIT in *; lia).
  by apply sqrt_of_money.
Qed.

Lemma reward_factor_positive root epochs :
  10 ^ 8 ≤ root ≤ 6 * 10 ^ 16 → 0 ≤ epochs < 2 ^ 32 →
  ∃ i, div (base_interest_factor p) root = Ok i ∧
    0 < add i (mul_by_uint (base_penalty_factor p) epochs).
Proof.
  intros Hr He. rewrite Hinterest. unfold div.
  change (u256_mul (to_ufp64 7) SCALE) with (7 * 10 ^ 16).
  rewrite u256_div_Ok by lia. eexists. split; [reflexivity|].
  assert (1 ≤ 7 * 10 ^ 16 / root ≤ 7 * 10 ^ 8).
  { split; [apply Z.div_le_lower_bound; lia|]. apply Z.div_le_upper_bound; nia. }
  unfold add, mul_by_uint, GetLow64. rewrite (uint64_small (7 * 10 ^ 16 / root))
    by (unfold is_uint64; lia).
  rewrite u256_mul_64 by (unfold is_uint64; lia).
  assert (0 ≤ base_penalty_factor p * epochs ≤ 2 ^ 20 * 2 ^ 32) by nia.
  rewrite (uint64_small (_ * _)) by (unfold is_uint64; lia).
  rewrite uint64_small by (unfold is_uint64; lia). lia.
Qed.

(** The reward factor the new epoch computes from the deposits. *)
Lemma new_reward_factor s s2 :
  wf p s → DepositExists s2 = true → deposits_bounded s →
  m_cur_dyn_deposits s2 = m_cur_dyn_deposits s → m_prev_dyn_deposits s2 = m_prev_dyn_deposits s →
  m_current_epoch s2 = m_current_epoch s + 1 →
  m_deposit_scale_factor s2 !! m_current_epoch s = m_deposit_scale_factor s !! m_current_epoch s →
  ∃ r i, GetSqrtOfTotalDeposits s2 = Ok r ∧ div (base_interest_factor p) r = Ok i ∧
    0 < add i (mul_by_uint (base_penalty_factor p) (GetEpochsSinceFinalization s2)).
Proof.
  intros Hwf Hd Hm Hc Hpr He Hs. pose proof (wf_epoch_range p s Hwf).
  destruct (wft_scale _ _ _ (wf_tab p s Hwf) (m_current_epoch s)) as (f & Hf & Hf64); [lia|].
  destruct (GetSqrtOfTotalDeposits_money s2 f) as (r & Hr & Hb); try done.
  - rewrite Hc. apply Hwf.
  - rewrite Hpr. apply Hwf.
  - rewrite He, uint32_small by (unfold is_uint32; lia).
    replace (m_current_epoch s + 1 - 1) with (m_current_epoch s) by lia. by rewrite Hs.
  - rewrite Hc, Hpr. by apply Hm.
  - exists r. destruct (reward_factor_positive r (GetEpochsSinceFinalization s2) Hb) as (i & Hi & Hpos).
    + apply uint32_range.
    + by exists i.
Qed.

Lemma begin_epoch_returns s :
  wf p s → accounting s → m_current_epoch s + 1 ≤ 2 ^ 31 →
  m_reward_factor s < 2 ^ 63 → deposits_bounded s →
  returns (begin_epoch p s (m_current_epoch s + 1)).
Proof.
  intros Hwf Hacc Hmax Hrf Hmoney. pose proof (wf_epoch_range p s Hwf). open begin_epoch.
  rewrite (uint32_small (m_current_epoch s + 1 - 1)) by (unfold is_uint32; lia).
  replace (m_current_epoch s + 1 - 1) with (m_current_epoch s) by lia.
  apply returns_bind; [apply GetTotalCurDynDeposits_returns, (scale_factor_some p); [done|lia]|].
  intros cd _. apply returns_bind; [by apply (GetTotalPrevDynDeposits_returns p)|].
  intros pd _. walk; [by apply (GetCollectiveRewardFactor_new_epoch p)|..];
    subst a; apply GetCollectiveRewardFactor_frame in H0 as (Hts & Htl & Htc & Htp & Htr & Hte & _).
  - unfold div. rewrite u256_div_Ok; [by eexists|]. rewrite Htr.
    pose proof (wf_reward p s Hwf) as Hrw. unfold add_uint, is_uint64 in *.
    change (uint32 (1 * SCALE)) with SCALE. cbn. rewrite uint64_small; unfold SCALE, is_uint64; lia.
  - apply returns_map_find. rewrite Hts. apply (scale_factor_some p s); [done|lia].
  - apply mul_returns.
  - apply returns_fmap, returns_map_find. cbn. rewrite Htl.
    apply (wft_slashed _ _ _ (wf_tab p s Hwf)). lia.
  - destruct (DepositExists s2) eqn:Hd; [|apply returns_Ok].
    destruct (new_reward_factor s s2) as (r & i & -> & Hi & _); try done.
    + subst s2 s1. cbn. rewrite Hts. cbn. by rewrite lookup_insert_ne by lia.
    + cbn [mbind outcome_bind]. rewrite Hi. by eexists.
Qed.

Lemma begin_epoch_success s :
  wf p s → accounting s → m_current_epoch s + 1 ≤ 2 ^ 31 →
  m_reward_factor s < 2 ^ 63 → deposits_bounded s →
  ∃ s1, begin_epoch p s (m_current_epoch s + 1) = Ok (false, s1).
Proof.
  intros Hwf Hacc Hmax Hrf Hmoney.
  destruct (begin_epoch_returns s Hwf Hacc Hmax Hrf Hmoney) as [[b s1] E].
  exists s1. rewrite E. destruct b; [exfalso|done]. open begin_epoch in E. ok_inv E.
  apply GetCollectiveRewardFactor_frame in Hr1 as (Hts & Htl & Htc & Htp & _ & Hte & _).
  subst s0. destruct (DepositExists s3) eqn:Hd; ok_inv E; [|done].
  destruct (new_reward_factor s s3) as (r' & i & Hr' & Hi & Hpos); subst s3 s2; try done.
  - cbn. rewrite Hts. cbn. by rewrite lookup_insert_ne by lia.
  - subst reward_factor. apply bool_decide_eq_true in E. assert (r6 = r') as -> by congruence.
    assert (r7 = i) as -> by congruence. lia.
Qed.

(** An epoch that is due begins, and without an error. *)
Lemma InitializeEpoch_success s h :
  wf p s → accounting s → is_uint32 h → IsEpochStart p h = true →
  GetEpoch p h = m_current_epoch s + 1 → m_reward_factor s < 2 ^ 63 → deposits_bounded s →
  ∃ s', InitializeEpoch p s h = Ok (SUCCESS, s').
Proof.
  intros Hwf Hacc Hh Hstart Hn Hrf Hmoney. pose proof (wf_epoch_range p s Hwf).
  pose proof (epoch_start_bound p h (vp_length p Hp) Hh Hstart).
  destruct (begin_epoch_success s) as [s1 H1]; [done|done|lia|done|done|].
  destruct (begin_epoch_wf p s false s1) as [s' H']; [done|lia|done|]. exists s'.
  rewrite InitializeEpoch_split, Hstart, Hn. cbn [cpp_assert mbind outcome_bind].
  rewrite uint32_small, decide_False by (unfold is_uint32; lia || auto).
  rewrite H1. cbn [mbind outcome_bind]. by rewrite H'.
Qed.
End success.
