(* ===== verification/Scenario.v ===== *)
(** * Executable histories of the finalization state

    A list of actions run from the constructor's state, each one guarded by
    its validation.  [run_reachable] makes every state such a list ends in a
    reachable one, so the theorems on reachable states can be evaluated on
    concrete histories; four of them close the file. *)
From S2P Require Import Prelude Ufp64 Admin Params FinalizationData FinalizationOps Accounting.
From S2P Require Import FinalizationInvariant.

Inductive action :=
  | ABegin (height : Z)
  | ADeposit (addr amount : Z)
  | AVote (vote : Vote)
  | ALogout (addr : Z)
  | AWithdraw (addr amount : Z)
  | ASlash (vote1 vote2 : Vote)
  | ATarget (hash epoch : Z).

(** [guard r k] goes on with [k] when the validation [r] succeeded. *)
Definition guard (r : Result) (k : outcome State) : outcome State :=
  if decide (r = SUCCESS) then k else Raise AssertionFailure.

Definition act (p : Params) (s : State) (a : action) : outcome State :=
  match a with
  | ABegin h =>
      _ ← cpp_assert (bool_decide (is_uint32 h));
      '(_, s') ← InitializeEpoch p s h; Ok s'
  | ADeposit addr amount => guard (ValidateDeposit p s addr amount) (ProcessDeposit s addr amount)
  | AVote vote => guard (ValidateVote s vote) (ProcessVote s vote)
  | ALogout addr => guard (ValidateLogout p s addr) (ProcessLogout p s addr)
  | AWithdraw addr amount =>
      r ← ValidateWithdraw p s addr amount; guard r (Ok (ProcessWithdraw s addr))
  | ASlash vote1 vote2 => guard (IsSlashable s vote1 vote2) (ProcessSlash s vote1 vote2)
  | ATarget hash epoch =>
      Ok (set_m_recommended_target_epoch epoch (set_m_recommended_target_hash hash s))
  end.

Fixpoint acts (p : Params) (s : State) (l : list action) : outcome State :=
  match l with
  | [] => Ok s
  | a :: l => s' ← act p s a; acts p s' l
  end.

Definition run `{!Crypto} (p : Params) (l : list action) : outcome State :=
  s ← FinalizationState_new p; acts p s l.

Section run.
Context `{!Crypto} (p : Params).

Lemma guard_Ok r k s : guard r k = Ok s → r = SUCCESS ∧ k = Ok s.
Proof. unfold guard. by case_decide. Qed.

Lemma act_step s a s' : act p s a = Ok s' → step p s s'.
Proof.
  destruct a; cbn; intros Ha.
  - ok_inv Ha. subst. apply bool_decide_eq_true in Hr. by eapply step_epoch.
  - apply guard_Ok in Ha as [? ?]. by eapply step_deposit.
  - apply guard_Ok in Ha as [? ?]. by eapply step_vote.
  - apply guard_Ok in Ha as [? ?]. by eapply step_logout.
  - ok_inv Ha. apply guard_Ok in Ha as [-> [= <-]]. by eapply step_withdraw.
  - apply guard_Ok in Ha as [? ?]. by eapply step_slash.
  - injection Ha as <-. apply step_target.
Qed.

Lemma acts_reachable l s s' : reachable p s → acts p s l = Ok s' → reachable p s'.
Proof.
  induction l as [|a l IH] in s |- *; cbn; intros Hs Hrun; [by injection Hrun as <-|].
  ok_inv Hrun. eapply IH; [|done]. eapply reach_step; [done|]. by eapply act_step.
Qed.

Lemma run_reachable l s : run p l = Ok s → reachable p s.
Proof. intros Hrun. unfold run in Hrun. ok_inv Hrun. eapply acts_reachable; [|done]. by apply reach_init. Qed.
End run.

(** The state of a history that is known to run through. *)
Definition state_of (o : outcome State) (H : is_ok o = true) : State :=
  match o return is_ok o = true → State with
  | Ok s => λ _, s
  | Raise _ => λ H, match Bool.diff_false_true H with end
  end H.

Lemma state_of_Ok o H : o = Ok (state_of o H).
Proof. destruct o; [done|]. by exfalso. Qed.

(** What evaluation shows of a lookup or a result. *)
Lemma lookup_check {V} (m : gmap Z V) k (P : V → bool) :
  match m !! k with Some v => P v | None => false end = true →
  ∃ v, m !! k = Some v ∧ P v = true.
Proof. destruct (m !! k) as [v|]; [by exists v|done]. Qed.

Lemma outcome_check {A} (o : outcome A) (P : A → bool) :
  match o with Ok a => P a | Raise _ => false end = true → ∃ a, o = Ok a ∧ P a = true.
Proof. destruct o as [a|]; [by exists a|done]. Qed.

(** ** Four histories on regtest *)

#[export] Instance demo_crypto : Crypto := {|
  Hash160 := foldl (λ h b, uint32 (h * 31 + b)) 7;
  IsFullyValid := λ k, bool_decide (length k = 33%nat);
|}.

Definition demo_params : Params := Params_RegTest None.

Definition demo_vote (addr source target : Z) : Vote := {|
  m_validator_address := addr;
  m_target_hash := 100 + target;
  m_source_epoch := source;
  m_target_epoch := target;
|}.

(** A vote for another block of the same epoch. *)
Definition demo_conflicting_vote (addr source target : Z) : Vote := {|
  m_validator_address := addr;
  m_target_hash := 200 + target;
  m_source_epoch := source;
  m_target_epoch := target;
|}.

Definition demo_votes (addrs : list Z) (source target : Z) : list action :=
  (λ a, AVote (demo_vote a source target)) <$> addrs.

(** Three finalizers deposit in epoch 1 and belong to the dynasty that begins
    with epoch 4. *)
Definition demo_joined : list action :=
  [ABegin 1; ADeposit 7 (2000 * UNIT); ADeposit 8 (2000 * UNIT); ADeposit 9 (2000 * UNIT);
   ABegin 6; ABegin 11; ABegin 16].

(** Two of them justify and finalize epochs 3 and 4. *)
Definition demo_finalized : list action :=
  demo_joined ++ [ATarget 103 3] ++ demo_votes [7; 8] 2 3 ++
  [ABegin 21; ATarget 104 4] ++ demo_votes [7; 8] 3 4.

(** One logs out, another is slashed for a double vote. *)
Definition demo_left : list action :=
  demo_finalized ++ demo_votes [9] 3 4 ++
  [ABegin 26; ATarget 105 5] ++ demo_votes [7; 8; 9] 4 5 ++ [ALogout 9] ++
  [ABegin 31; ATarget 106 6] ++ demo_votes [7; 8; 9] 5 6 ++
  [ABegin 36; ATarget 107 7] ++ demo_votes [7; 8; 9] 6 7 ++
  [ASlash (demo_vote 7 6 7) (demo_conflicting_vote 7 6 7); ABegin 41].

(** The one that logged out waits for the withdrawal delay. *)
Definition demo_withdrawable : list action :=
  demo_left ++ [ABegin 46; ABegin 51; ABegin 56; ABegin 61; ABegin 66].

Lemma demo_joined_ok : is_ok (run demo_params demo_joined) = true.
Proof. vm_compute. reflexivity. Qed.
Lemma demo_finalized_ok : is_ok (run demo_params demo_finalized) = true.
Proof. vm_compute. reflexivity. Qed.
Lemma demo_left_ok : is_ok (run demo_params demo_left) = true.
Proof. vm_compute. reflexivity. Qed.

Lemma demo_withdrawable_ok : is_ok (run demo_params demo_withdrawable) = true.
Proof. vm_compute. reflexivity. Qed.

Definition demo_joined_state : State := state_of _ demo_joined_ok.
Definition demo_finalized_state : State := state_of _ demo_finalized_ok.
Definition demo_left_state : State := state_of _ demo_left_ok.
Definition demo_withdrawable_state : State := state_of _ demo_withdrawable_ok.

Lemma demo_joined_run : run demo_params demo_joined = Ok demo_joined_state.
Proof. apply state_of_Ok. Qed.

Lemma demo_joined_reachable : reachable demo_params demo_joined_state.
Proof. eapply run_reachable, state_of_Ok. Qed.
Lemma demo_finalized_reachable : reachable demo_params demo_finalized_state.
Proof. eapply run_reachable, state_of_Ok. Qed.
Lemma demo_left_reachable : reachable demo_params demo_left_state.
Proof. eapply run_reachable, state_of_Ok. Qed.
Lemma demo_withdrawable_reachable : reachable demo_params demo_withdrawable_state.
Proof. eapply run_reachable, state_of_Ok. Qed.

Lemma demo_params_valid : valid_params demo_params.
Proof. by split. Qed.

(** Only evaluation looks into the demonstration states. *)
#[global] Opaque demo_joined_state demo_finalized_state demo_left_state demo_withdrawable_state.
