(* ===== verification/FinalizationTypes.v ===== *)
(** * The types of the finalization state: src/src/esperanza/*.h

    The model keeps machine integers as [Z]; this file says which values the
    C++ types of the fields can hold ([typed]) and shows that every method of
    [FinalizationState] that changes a member keeps every field within its
    type, whatever the order of the calls and whether or not they were
    validated before.  That states are read back as they were written rests
    on it. *)
From S2P Require Import Prelude Ufp64 Admin Params FinalizationData FinalizationOps.
From S2P Require Import FinalizationInvariant FinalizationEpoch Scenario.

Definition is_uint160 (z : Z) : Prop := 0 ≤ z < 2 ^ 160.
Definition is_uint256 (z : Z) : Prop := 0 ≤ z < 2 ^ 256.

(** A map whose keys and values have the given types. *)
Definition typed_map {V} (K : Z → Prop) (P : V → Prop) (m : gmap Z V) : Prop :=
  map_Forall (λ k v, K k ∧ P v) m.

Record typed_vote (v : Vote) : Prop := {
  tvo_address : is_uint160 (m_validator_address v);
  tvo_hash : is_uint256 (m_target_hash v);
  tvo_source : is_uint32 (m_source_epoch v);
  tvo_target : is_uint32 (m_target_epoch v);
}.

Record typed_validator (v : Validator) : Prop := {
  tv_address : is_uint160 (m_finalizer_address v);
  tv_deposit : is_uint64 (m_deposit v);
  tv_start : is_uint32 (m_start_dynasty v);
  tv_end : is_uint32 (m_end_dynasty v);
  tv_logout : is_uint64 (m_deposits_at_logout v);
  tv_hash : is_uint256 (m_last_transaction_hash v);
}.

Record typed_checkpoint (cp : Checkpoint) : Prop := {
  tc_cur : is_uint64 (m_cur_dynasty_deposits cp);
  tc_prev : is_uint64 (m_prev_dynasty_deposits cp);
  tc_cur_votes : typed_map is_uint32 is_uint64 (m_cur_dynasty_votes cp);
  tc_prev_votes : typed_map is_uint32 is_uint64 (m_prev_dynasty_votes cp);
  tc_set : set_Forall is_uint160 (m_vote_set cp);
}.

(** The bytes of a public key, whose number is the one its first byte
    announces. *)
Definition typed_pubkey (k : CPubKey) : Prop :=
  Forall (λ b, 0 ≤ b < 2 ^ 8) k ∧ CPubKey_size k = length k.

Record typed_admin (a : AdminState) : Prop := {
  ta_keys : length (m_admin_pub_keys a) = ADMIN_MULTISIG_KEYS;
  ta_pubkeys : Forall typed_pubkey (m_admin_pub_keys a);
  ta_list : set_Forall is_uint160 (m_white_list a);
}.

Record typed (s : State) : Prop := {
  t_checkpoints : typed_map is_uint32 typed_checkpoint (m_checkpoints s);
  t_start_epoch : typed_map is_uint32 is_uint32 (m_dynasty_start_epoch s);
  t_validators : typed_map is_uint160 typed_validator (m_validators s);
  t_deltas : typed_map is_uint32 is_int64 (m_dynasty_deltas s);
  t_scale : typed_map is_uint32 is_uint64 (m_deposit_scale_factor s);
  t_slashed : typed_map is_uint32 is_int64 (m_total_slashed s);
  t_epoch : is_uint32 (m_current_epoch s);
  t_dynasty : is_uint32 (m_current_dynasty s);
  t_cur : is_int64 (m_cur_dyn_deposits s);
  t_prev : is_int64 (m_prev_dyn_deposits s);
  t_source : is_uint32 (m_expected_source_epoch s);
  t_finalized : is_uint32 (m_last_finalized_epoch s);
  t_justified : is_uint32 (m_last_justified_epoch s);
  t_target_hash : is_uint256 (m_recommended_target_hash s);
  t_target_epoch : is_uint32 (m_recommended_target_epoch s);
  t_reward : is_uint64 (m_reward_factor s);
  t_admin : typed_admin (m_admin_state s);
}.

(** ** Maps *)

Section typed_map.
Context {V : Type} (K : Z → Prop) (P : V → Prop).
Implicit Types m : gmap Z V.

Lemma typed_map_insert k v m :
  K k → P v → typed_map K P m → typed_map K P (<[k := v]> m).
Proof. intros ? ? ?. by apply map_Forall_insert_2. Qed.

Lemma typed_map_emplace k v m :
  K k → P v → typed_map K P m → typed_map K P (emplace k v m).
Proof. intros. unfold emplace. case_match; [done|]. by apply typed_map_insert. Qed.

Lemma typed_map_emplaced k v m : P v → typed_map K P m → P (emplaced k v m).
Proof.
  intros Hv Hm. unfold emplaced. destruct (m !! k) as [w|] eqn:E; [|done].
  by apply Hm in E as [_ ?].
Qed.

Lemma typed_map_delete k m : typed_map K P m → typed_map K P (delete k m).
Proof. apply map_Forall_delete. Qed.

Lemma typed_map_filter (Q : Z * V → Prop) `{∀ x, Decision (Q x)} m :
  typed_map K P m → typed_map K P (filter Q m).
Proof. intros Hm k v [Hk _]%map_lookup_filter_Some. by apply Hm in Hk. Qed.

Lemma typed_map_singleton k v : K k → P v → typed_map K P {[k := v]}.
Proof. intros ? ?. by apply map_Forall_singleton. Qed.

Lemma typed_map_key k v m : typed_map K P m → m !! k = Some v → K k.
Proof. intros Hm Hk. by apply Hm in Hk as [? _]. Qed.

Lemma typed_map_value k v m : typed_map K P m → m !! k = Some v → P v.
Proof. intros Hm Hk. by apply Hm in Hk as [_ ?]. Qed.
End typed_map.

(** ** Assignments *)


Section assignments.
Implicit Types s : State.

Lemma typed_set_checkpoints x s :
  typed_map is_uint32 typed_checkpoint x → typed s → typed (set_m_checkpoints x s).
Proof. intros ? []; split; assumption. Qed.
Lemma typed_set_start_epoch x s :
  typed_map is_uint32 is_uint32 x → typed s → typed (set_m_dynasty_start_epoch x s).
Proof. intros ? []; split; assumption. Qed.
Lemma typed_set_validators x s :
  typed_map is_uint160 typed_validator x → typed s → typed (set_m_validators x s).
Proof. intros ? []; split; assumption. Qed.
Lemma typed_set_deltas x s :
  typed_map is_uint32 is_int64 x → typed s → typed (set_m_dynasty_deltas x s).
Proof. intros ? []; split; assumption. Qed.
Lemma typed_set_scale x s :
  typed_map is_uint32 is_uint64 x → typed s → typed (set_m_deposit_scale_factor x s).
Proof. intros ? []; split; assumption. Qed.
Lemma typed_set_slashed x s :
  typed_map is_uint32 is_int64 x → typed s → typed (set_m_total_slashed x s).
Proof. intros ? []; split; assumption. Qed.
Lemma typed_set_epoch x s : is_uint32 x → typed s → typed (set_m_current_epoch x s).
Proof. intros ? []; split; assumption. Qed.
Lemma typed_set_dynasty x s : is_uint32 x → typed s → typed (set_m_current_dynasty x s).
Proof. intros ? []; split; assumption. Qed.
Lemma typed_set_cur x s : is_int64 x → typed s → typed (set_m_cur_dyn_deposits x s).
Proof. intros ? []; split; assumption. Qed.
Lemma typed_set_prev x s : is_int64 x → typed s → typed (set_m_prev_dyn_deposits x s).
Proof. intros ? []; split; assumption. Qed.
Lemma typed_set_source x s : is_uint32 x → typed s → typed (set_m_expected_source_epoch x s).
Proof. intros ? []; split; assumption. Qed.
Lemma typed_set_finalized x s : is_uint32 x → typed s → typed (set_m_last_finalized_epoch x s).
Proof. intros ? []; split; assumption. Qed.
Lemma typed_set_justified x s : is_uint32 x → typed s → typed (set_m_last_justified_epoch x s).
Proof. intros ? []; split; assumption. Qed.
Lemma typed_set_target x e s : is_uint256 x → is_uint32 e → typed s →
  typed (set_m_recommended_target_epoch e (set_m_recommended_target_hash x s)).
Proof. intros ? ? []; split; assumption. Qed.
Lemma typed_set_reward x s : is_uint64 x → typed s → typed (set_m_reward_factor x s).
Proof. intros ? []; split; assumption. Qed.
Lemma typed_set_admin x s : typed_admin x → typed s → typed (set_m_admin_state x s).
Proof. intros ? []; split; assumption. Qed.

Lemma typed_checkpoint_justified b cp :
  typed_checkpoint cp → typed_checkpoint (set_m_is_justified b cp).
Proof. intros []; split; assumption. Qed.
Lemma typed_checkpoint_finalized b cp :
  typed_checkpoint cp → typed_checkpoint (set_m_is_finalized b cp).
Proof. intros []; split; assumption. Qed.
Lemma typed_checkpoint_cur_votes x cp :
  typed_map is_uint32 is_uint64 x → typed_checkpoint cp →
  typed_checkpoint (set_m_cur_dynasty_votes x cp).
Proof. intros ? []; split; assumption. Qed.
Lemma typed_checkpoint_prev_votes x cp :
  typed_map is_uint32 is_uint64 x → typed_checkpoint cp →
  typed_checkpoint (set_m_prev_dynasty_votes x cp).
Proof. intros ? []; split; assumption. Qed.
Lemma typed_checkpoint_voter a cp :
  is_uint160 a → typed_checkpoint cp →
  typed_checkpoint (set_m_vote_set ({[a]} ∪ m_vote_set cp) cp).
Proof. intros ? []; split; try assumption. cbn. by apply set_Forall_union; [apply set_Forall_singleton|]. Qed.

Lemma typed_validator_deposit x v :
  is_uint64 x → typed_validator v → typed_validator (set_m_deposit x v).
Proof. intros ? []; split; assumption. Qed.
Lemma typed_validator_end x v :
  is_uint32 x → typed_validator v → typed_validator (set_m_end_dynasty x v).
Proof. intros ? []; split; assumption. Qed.
Lemma typed_validator_slashed b v :
  typed_validator v → typed_validator (set_m_is_slashed b v).
Proof. intros []; split; assumption. Qed.
Lemma typed_validator_logout x v :
  is_uint64 x → typed_validator v → typed_validator (set_m_deposits_at_logout x v).
Proof. intros ? []; split; assumption. Qed.
Lemma typed_validator_hash x v :
  is_uint256 x → typed_validator v → typed_validator (set_m_last_transaction_hash x v).
Proof. intros ? []; split; assumption. Qed.
Lemma typed_validator_new deposit start a :
  is_uint64 deposit → is_uint32 start → is_uint160 a →
  typed_validator (Validator_new deposit start a).
Proof. by split. Qed.

Lemma typed_checkpoint_new cur prev : is_uint64 cur → is_uint64 prev →
  typed_checkpoint (set_m_prev_dynasty_deposits prev
    (set_m_cur_dynasty_deposits cur Checkpoint_new)).
Proof. by split. Qed.
End assignments.

Lemma emplaced_uint64 k (m : gmap Z Z) :
  typed_map is_uint32 is_uint64 m → is_uint64 (emplaced k 0 m).
Proof. by apply typed_map_emplaced. Qed.
Lemma emplaced_int64 k (m : gmap Z Z) :
  typed_map is_uint32 is_int64 m → is_int64 (emplaced k 0 m).
Proof. by apply typed_map_emplaced. Qed.

Lemma zero_typed : is_uint32 0 ∧ is_uint64 0 ∧ is_int64 0.
Proof. unfold is_uint32, is_uint64, is_int64. lia. Qed.

Create HintDb typed.
#[export] Hint Extern 1 (is_uint64 0) => apply zero_typed : typed.
#[export] Hint Extern 1 (is_int64 0) => apply zero_typed : typed.
#[export] Hint Resolve emplaced_uint64 emplaced_int64 : typed.
#[export] Hint Resolve uint32_range uint64_range int64_range : typed.
#[export] Hint Resolve typed_map_insert typed_map_emplace typed_map_delete typed_map_filter : typed.
#[export] Hint Resolve t_checkpoints t_start_epoch t_validators t_deltas t_scale t_slashed t_epoch
  t_dynasty t_cur t_prev t_source t_finalized t_justified t_target_hash t_target_epoch t_reward
  t_admin : typed.
#[export] Hint Resolve typed_set_checkpoints typed_set_start_epoch typed_set_validators
  typed_set_deltas typed_set_scale typed_set_slashed typed_set_epoch typed_set_dynasty
  typed_set_cur typed_set_prev typed_set_source typed_set_finalized typed_set_justified
  typed_set_target typed_set_reward typed_set_admin : typed.
#[export] Hint Resolve typed_checkpoint_justified typed_checkpoint_finalized
  typed_checkpoint_cur_votes typed_checkpoint_prev_votes typed_checkpoint_voter
  typed_checkpoint_new typed_validator_deposit typed_validator_end typed_validator_slashed
  typed_validator_logout typed_validator_hash typed_validator_new : typed.
#[export] Hint Resolve tc_cur tc_prev tc_cur_votes tc_prev_votes tc_set tv_address tv_deposit
  tv_start tv_end tv_logout tv_hash : typed.

(** ** Results of the arithmetic *)

Lemma ufp64_range (o : outcome Z) z : GetLow64 <$> o = Ok z → is_uint64 z.
Proof. apply GetLow64_range. Qed.
#[export] Hint Extern 2 (is_uint64 ?z) =>
  match goal with
  | H : mul _ _ = Ok z |- _ => exact (ufp64_range _ _ H)
  | H : mul_to_uint _ _ = Ok z |- _ => exact (ufp64_range _ _ H)
  | H : div_to_uint _ _ = Ok z |- _ => exact (ufp64_range _ _ H)
  end : typed.

Section operations.
Context (p : Params).
Implicit Types s : State.

Lemma typed_lookup_checkpoint s k cp :
  typed s → GetCheckpoint s k = Ok cp → is_uint32 k ∧ typed_checkpoint cp.
Proof.
  intros Ht H. unfold GetCheckpoint in H. ok_inv H.
  by apply (t_checkpoints s Ht) in H.
Qed.

Lemma typed_lookup_validator s k v :
  typed s → m_validators s !! k = Some v → is_uint160 k ∧ typed_validator v.
Proof. intros Ht H. by apply (t_validators s Ht) in H. Qed.

Lemma typed_delta s d delta s' :
  typed s → is_uint32 d → GetDynastyDelta s d = (delta, s') → is_int64 delta ∧ typed s'.
Proof. intros Ht Hd [= <- <-]. split; eauto with typed. Qed.

Lemma typed_set_delta s d delta :
  typed s → is_uint32 d → is_int64 delta → typed (set_dynasty_delta d delta s).
Proof. unfold set_dynasty_delta. eauto with typed. Qed.

Lemma typed_set_checkpoint s k cp :
  typed s → is_uint32 k → typed_checkpoint cp → typed (set_checkpoint k cp s).
Proof. unfold set_checkpoint. eauto with typed. Qed.

Lemma typed_set_validator s a v :
  typed s → is_uint160 a → typed_validator v → typed (set_validator a v s).
Proof. unfold set_validator. eauto with typed. Qed.
Lemma typed_if (b : bool) s1 s2 : typed s1 → typed s2 → typed (if b then s1 else s2).
Proof. by destruct b. Qed.
Local Hint Resolve typed_if typed_set_delta typed_set_checkpoint typed_set_validator : typed.

(** ** Operations *)

Lemma typed_ProcessDeposit s a amount s' :
  typed s → is_uint160 a → ProcessDeposit s a amount = Ok s' → typed s'.
Proof.
  intros Ht Ha H. open ProcessDeposit in H. ok_inv H. subst.
  apply typed_delta in E as [? ?]; eauto 8 with typed.
Qed.

Lemma typed_ProcessLogout s a s' : typed s → ProcessLogout p s a = Ok s' → typed s'.
Proof.
  intros Ht H. open ProcessLogout in H. ok_inv H. subst.
  apply (typed_lookup_validator s) in Hr as [Ha Hv]; [|done].
  apply typed_delta in E as [? ?]; unfold GetEndDynasty; eauto 8 with typed.
Qed.

Lemma typed_ProcessWithdraw s a : typed s → typed (ProcessWithdraw s a).
Proof. unfold ProcessWithdraw, DeleteValidator. eauto with typed. Qed.

Lemma typed_RegisterLastTx s a hash s' :
  typed s → is_uint256 hash → RegisterLastTx s a hash = Ok s' → typed s'.
Proof.
  intros Ht Hh H. open RegisterLastTx in H. ok_inv H. subst.
  apply (typed_lookup_validator s) in Hr as [Ha Hv]; eauto with typed.
Qed.

Lemma typed_ProcessReward s a reward r s' :
  typed s → ProcessReward s a reward = Ok (r, s') → typed s'.
Proof.
  intros Ht H. open ProcessReward in H. ok_inv H. rewrite <- H0; clear H H0.
  apply (typed_lookup_validator s) in Hr as [Ha Hv]; [|done].
  assert (typed_validator validator) as Hv' by (subst validator; eauto with typed).
  assert (typed s0) as H0 by (subst s0; eauto with typed).
  assert (typed s1) as H1 by (subst s1; eauto with typed).
  assert (typed s2) as H2 by (subst s2; eauto with typed).
  subst s3. case_decide; [|done]. destruct (GetDynastyDelta s2 endDynasty) as [delta s4] eqn:E.
  subst endDynasty. apply typed_delta in E as [? ?]; eauto with typed.
Qed.

Lemma typed_ProcessVote s vote s' :
  typed s → is_uint32 (m_source_epoch vote) → ProcessVote s vote = Ok s' → typed s'.
Proof.
  intros Ht Hsrc H. open ProcessVote in H. ok_inv H.
  apply typed_lookup_checkpoint in Hr as [Htgt Hcp]; [|done].
  assert (is_uint160 validatorAddress ∧ typed_validator r0) as [Ha Hv]
    by (subst s0; by apply (typed_lookup_validator s) in Hr0).
  assert (typed_checkpoint cp) as Hcp0 by (subst cp; eauto with typed).
  rewrite <- EsourceEpoch in Hsrc.
  assert (typed_checkpoint c) as Hc by (injection E as _ <-; eauto with typed).
  assert (typed_checkpoint c0) as Hc0 by (injection E0 as _ <-; eauto with typed).
  assert (typed_checkpoint c1) as Hc1.
  { destruct inCurDynasty; injection E1 as _ <-; eauto with typed. }
  assert (typed_checkpoint c2) as Hc2.
  { destruct inPrevDynasty; injection E2 as _ <-; eauto with typed. }
  assert (typed s1) as H1 by (subst s1 s0; eauto with typed).
  assert (typed r1) as H2.
  { destruct (decide (m_expected_source_epoch s1 = sourceEpoch)); [|by injection Hr1 as <-]. ok_inv Hr1.
    destruct (ProcessReward _ _ _) as [[x s2]|] eqn:Er; cbn in Hr1; [|done].
    injection Hr1 as <-. by apply typed_ProcessReward in Er. }
  destruct (enoughVotes && _); [|by injection H as <-].
  cbn zeta in H. case_decide; ok_inv H; subst s'; eauto 10 with typed.
Qed.

Lemma typed_ProcessSlash s vote1 vote2 s' :
  typed s → ProcessSlash s vote1 vote2 = Ok s' → typed s'.
Proof.
  intros Ht H. open ProcessSlash in H. ok_inv H.
  assert (typed s0) as H0 by (subst s0; eauto with typed).
  apply (typed_lookup_validator s0) in Hr1 as [Ha Hv]; [|done].
  assert (typed s1) as H1 by (subst s1 validator; eauto with typed).
  assert (is_uint32 endDynasty) as Hend by (subst endDynasty validator; eauto with typed).
  case_decide; [|by injection H as <-]. ok_inv H.
  apply typed_delta in E as [Hd Hs]; [|done|subst nextDynasty; eauto with typed].
  assert (typed_validator validator0) as Hv0
    by (subst validator0 validator nextDynasty; eauto 6 with typed).
  assert (typed s3) as Hs3 by (subst s3 s2 nextDynasty; eauto 8 with typed).
  case_decide.
  - destruct (GetDynastyDelta s3 endDynasty) as [delta s4] eqn:E.
    apply typed_delta in E as [? ?]; [|done..]. ok_inv H. subst. eauto with typed.
  - ok_inv H. subst s'. unfold GetTotalCurDynDeposits in Hr1. ok_inv Hr1. eauto with typed.
Qed.

Lemma typed_GetCollectiveRewardFactor s f s' :
  typed s → GetCollectiveRewardFactor s = Ok (f, s') → typed s'.
Proof.
  intros Ht H. open GetCollectiveRewardFactor in H. cbn zeta in H.
  destruct (negb _ || negb _); [by injection H as _ <-|].
  ok_inv H. apply typed_lookup_checkpoint in Hr0 as [? ?]; [|done].
  assert (typed_checkpoint c) by (injection E as _ <-; eauto with typed).
  assert (typed_checkpoint c0) by (injection E0 as _ <-; eauto with typed).
  subst. eauto with typed.
Qed.

Lemma typed_InstaJustify s s' : typed s → InstaJustify s = Ok s' → typed s'.
Proof.
  intros Ht H. open InstaJustify in H. ok_inv H.
  apply typed_lookup_checkpoint in Hr as [? ?]; [|done].
  assert (typed s0) as Hs0 by (subst s0 cp epoch; eauto with typed).
  case_decide; [|by injection H as <-]. ok_inv H. destruct (m_is_justified _); ok_inv H; subst;
    eauto 8 with typed.
Qed.

Lemma typed_IncrementDynasty s s' : typed s → IncrementDynasty s = Ok s' → typed s'.
Proof.
  intros Ht H. open IncrementDynasty in H. case_decide; [by injection H as <-|]. ok_inv H.
  destruct (negb _); [by injection H as <-|]. ok_inv H.
  assert (typed s0) by (subst s0; eauto with typed).
  assert (typed s1) by (subst s1; eauto with typed).
  apply typed_delta in E as [? ?]; [|done|eauto with typed].
  assert (typed s2) by (subst s2; eauto with typed).
  assert (typed s3) by (subst s3; eauto 8 with typed). subst s'. eauto with typed.
Qed.

Lemma typed_begin_epoch s new_epoch b s' :
  typed s → is_uint32 new_epoch → begin_epoch p s new_epoch = Ok (b, s') → typed s'.
Proof.
  intros Ht He H. open begin_epoch in H. ok_inv H.
  assert (is_uint64 r) by (unfold GetTotalCurDynDeposits in Hr; ok_inv Hr; eauto with typed).
  assert (is_uint64 r0).
  { unfold GetTotalPrevDynDeposits in Hr0. case_decide; [injection Hr0 as <-; apply zero_typed|].
    ok_inv Hr0. eauto with typed. }
  assert (typed s0) by (subst s0 cp; eauto with typed).
  apply typed_GetCollectiveRewardFactor in Hr1; [|done].
  assert (typed s1) by (subst s1; eauto with typed).
  assert (typed s2) by (subst s2; eauto with typed).
  destruct (DepositExists s2); ok_inv H; subst s'; [subst reward_factor; unfold add|]; eauto with typed.
Qed.

Lemma typed_end_epoch s s' : typed s → end_epoch_initialization s = Ok s' → typed s'.
Proof.
  intros Ht H. open end_epoch_initialization in H. ok_inv H.
  apply typed_IncrementDynasty in Hr; [|done].
  assert (typed r0) by (destruct (GetActiveFinalizers r);
    [by apply typed_InstaJustify in Hr0|by injection Hr0 as <-]).
  subst s'. eauto with typed.
Qed.

Lemma typed_InitializeEpoch s h r s' :
  typed s → InitializeEpoch p s h = Ok (r, s') → typed s'.
Proof.
  intros Ht H. rewrite InitializeEpoch_split in H. ok_inv H.
  destruct (decide (GetEpoch p h ≠ uint32 (m_current_epoch s + 1))) as [|He];
    [by injection H as _ <-|].
  assert (is_uint32 (GetEpoch p h)) as Hh.
  { replace (GetEpoch p h) with (uint32 (m_current_epoch s + 1)) by lia. apply uint32_range. }
  ok_inv H. apply typed_begin_epoch in Hr0; [|done..].
  destruct b; ok_inv H; subst; [done|]. by apply typed_end_epoch in Hr1.
Qed.

(** ** Administration *)

Section admin.
Context `{!Crypto} (Hash160_range : ∀ k, is_uint160 (Hash160 k)).

(** What [DecodeAdminCommand] lets through. *)
Definition typed_command (c : AdminCommand) : Prop :=
  AdminCommand_IsValid c = true ∧ Forall typed_pubkey (m_payload c).

Lemma typed_ProcessAdminCommand a c :
  typed_command c → typed_admin a → typed_admin (ProcessAdminCommand a c).
Proof.
  intros [Hvalid Hkeys] [Hlen Hpk Hwl]. unfold ProcessAdminCommand, AdminCommand_IsValid in *.
  destruct (m_command_type c).
  - rewrite add_all_spec. split; cbn; [done..|]. apply set_Forall_union; [|done].
    apply set_Forall_list_to_set, Forall_fmap, Forall_true. intros k. apply Hash160_range.
  - rewrite remove_all_spec. split; cbn; [done..|]. intros x [Hx _]%elem_of_difference. by apply Hwl.
  - apply andb_true_iff in Hvalid as [Hl%bool_decide_eq_true _].
    split; cbn; [|by apply Forall_take|done]. rewrite length_take, Hl. done.
  - by split.
Qed.

Lemma typed_ProcessAdminCommands s cs :
  Forall typed_command cs → typed s → typed (State_ProcessAdminCommands s cs).
Proof.
  intros Hcs Ht. unfold State_ProcessAdminCommands. apply typed_set_admin; [|done].
  assert (typed_admin (m_admin_state s)) as Ha by eauto with typed.
  unfold ProcessAdminCommands. revert Ha. generalize (m_admin_state s).
  induction Hcs as [|c cs Hc Hcs IH]; intros a Ha; cbn; [done|].
  by apply IH, typed_ProcessAdminCommand.
Qed.

Record typed_admin_params (a : AdminParams) : Prop := {
  tap_keys : from_option (λ ks, length ks = ADMIN_MULTISIG_KEYS ∧ Forall typed_pubkey ks) True
               (admin_keys a);
  tap_list : Forall is_uint160 (white_list a);
}.

Lemma typed_new s :
  typed_admin_params (admin_params p) → FinalizationState_new p = Ok s → typed s.
Proof.
  intros [Hk Hl] Hn. open FinalizationState_new in Hn. ok_inv Hn. subst s.
  assert (typed_admin r) as Ha.
  { unfold AdminState_new in Hr. destruct (admin_keys _) as [ks|]; cbn in Hk;
      ok_inv Hr; subst r; split; cbn; try done; try (by apply set_Forall_list_to_set);
      try apply Hk. repeat constructor. }
  pose proof zero_typed as (? & ? & ?).
  split; cbn; try done; try (by apply typed_map_singleton); try (by apply map_Forall_empty).
Qed.

End admin.
End operations.

(** The states of executable histories. *)
Definition typed_action (a : action) : Prop :=
  match a with
  | ADeposit addr _ => is_uint160 addr
  | AVote vote => is_uint32 (m_source_epoch vote)
  | ATarget hash epoch => is_uint256 hash ∧ is_uint32 epoch
  | _ => True
  end.

Lemma typed_act p s a s' : typed_action a → typed s → act p s a = Ok s' → typed s'.
Proof.
  intros Ha Ht H. destruct a; cbn [act] in H; try apply guard_Ok in H as [? H].
  - ok_inv H. subst. by apply typed_InitializeEpoch in Hr0.
  - by eapply typed_ProcessDeposit.
  - by eapply typed_ProcessVote.
  - by eapply typed_ProcessLogout.
  - ok_inv H. apply guard_Ok in H as [_ [= <-]]. by apply typed_ProcessWithdraw.
  - by eapply typed_ProcessSlash.
  - destruct Ha. injection H as <-. by apply typed_set_target.
Qed.

Lemma typed_run `{!Crypto} p l s :
  typed_admin_params (admin_params p) → Forall typed_action l → run p l = Ok s → typed s.
Proof.
  intros Hp Hl Hrun. unfold run in Hrun. ok_inv Hrun. apply typed_new in Hr; [|done].
  clear Hp. revert r Hr Hrun. induction Hl as [|a l Ha Hl IH]; intros s0 Ht Hrun; cbn in Hrun.
  - by injection Hrun as <-.
  - ok_inv Hrun. eapply IH; [|done]. by eapply typed_act.
Qed.

Lemma demo_joined_typed : typed demo_joined_state.
Proof.
  eapply (typed_run demo_params demo_joined); [by split; cbn| |apply demo_joined_run].
  repeat (apply Forall_cons; split; [cbn; unfold is_uint160; lia|]). by apply Forall_nil.
Qed.

Lemma demo_Hash160_range k : is_uint160 (Hash160 k).
Proof.
  cbn. assert (∀ l h, is_uint160 h → is_uint160 (foldl (λ h b, uint32 (h * 31 + b)) h l)) as Hf.
  { induction l as [|b l IH]; intros h Hh; cbn; [done|]. apply IH.
    pose proof (uint32_range (h * 31 + b)). unfold is_uint160, is_uint32 in *. lia. }
  by apply Hf.
Qed.
