(* ===== verification/StateFormat.v ===== *)
(** * The serialized form of the finalization state: vote.h, validator.h,
    checkpoint.h, adminstate.h, admincommand.h, finalizationstate_data.h and
    src/src/pubkey.h

    One [format] per [SerializationOp]: the fields in the order of the
    [READWRITE]s.  [garbage] is the uninitialized part of the memory of a
    default-constructed [CPubKey], of which only the first byte is set:
    [CPubKey::Unserialize] reads as many bytes as the stream announces and
    [size] takes the length from the first of them, so the key that a too
    short string is read as ends in whatever was there. *)
From S2P Require Import Prelude Serialize Admin Params FinalizationData FinalizationOps.
From S2P Require Import FinalizationTypes FinalizationInvariant Scenario.

(** ** Public keys *)

Definition CPubKey_Serialize (k : CPubKey) : bytes :=
  WriteCompactSize (Z.of_nat (CPubKey_size k)) ++ take (CPubKey_size k) k.

Definition CPubKey_Unserialize (garbage : bytes) (s : bytes) : option (CPubKey * bytes) :=
  '(len, s) ← ReadCompactSize s;
  '(b, s) ← read_bytes (Z.to_nat len) s;
  if decide (len ≤ Z.of_nat PUBLIC_KEY_SIZE) then
    let vch := b ++ drop (length b) (0xFF :: garbage) in
    Some (take (CPubKey_size vch) vch, s)
  else Some ([], s).

Definition CPubKey_format (garbage : bytes) : format CPubKey :=
  Format CPubKey_Serialize (CPubKey_Unserialize garbage).

(** ** Votes, validators, checkpoints *)

Definition Vote_format : format Vote :=
  record_format (uint160_format ⊗ uint256_format ⊗ uint32_format ⊗ uint32_format)
    (λ v, (m_validator_address v, (m_target_hash v, (m_source_epoch v, m_target_epoch v))))
    (λ '(a, (h, (se, te))),
      {| m_validator_address := a; m_target_hash := h; m_source_epoch := se;
         m_target_epoch := te |}).

Definition Validator_format : format Validator :=
  record_format (uint160_format ⊗ uint64_format ⊗ uint32_format ⊗ uint32_format ⊗
                 bool_format ⊗ uint64_format ⊗ uint256_format)
    (λ v, (m_finalizer_address v, (m_deposit v, (m_start_dynasty v, (m_end_dynasty v,
          (m_is_slashed v, (m_deposits_at_logout v, m_last_transaction_hash v)))))))
    (λ '(a, (d, (sd, (ed, (sl, (dl, h)))))),
      {| m_finalizer_address := a; m_deposit := d; m_start_dynasty := sd; m_end_dynasty := ed;
         m_is_slashed := sl; m_deposits_at_logout := dl; m_last_transaction_hash := h |}).

Definition Checkpoint_format : format Checkpoint :=
  record_format (bool_format ⊗ bool_format ⊗ uint64_format ⊗ uint64_format ⊗
                 map_format uint32_format uint64_format ⊗
                 map_format uint32_format uint64_format ⊗ set_format uint160_format)
    (λ c, (m_is_justified c, (m_is_finalized c, (m_cur_dynasty_deposits c,
          (m_prev_dynasty_deposits c, (m_cur_dynasty_votes c, (m_prev_dynasty_votes c,
           m_vote_set c)))))))
    (λ '(j, (f, (cd, (pd, (cv, (pv, vs)))))),
      {| m_is_justified := j; m_is_finalized := f; m_cur_dynasty_deposits := cd;
         m_prev_dynasty_deposits := pd; m_cur_dynasty_votes := cv; m_prev_dynasty_votes := pv;
         m_vote_set := vs |}).

(** ** Administration *)

Definition AdminState_format (garbage : bytes) : format AdminState :=
  record_format (array_format (CPubKey_format garbage) ADMIN_MULTISIG_KEYS ⊗
                 set_format uint160_format ⊗ bool_format)
    (λ a, (m_admin_pub_keys a, (m_white_list a, m_permissioning_is_active a)))
    (λ '(k, (w, b)),
      {| m_admin_pub_keys := k; m_white_list := w; m_permissioning_is_active := b |}).

(** The values of the enumeration. *)
Definition AdminCommandType_value (t : AdminCommandType) : Z :=
  match t with
  | ADD_TO_WHITELIST => 0
  | REMOVE_FROM_WHITELIST => 1
  | RESET_ADMINS => 2
  | END_PERMISSIONING => 3
  end.

(** [AdminCommandType::_from_integral_nothrow]. *)
Definition AdminCommandType_from (n : Z) : option AdminCommandType :=
  if decide (n = 0) then Some ADD_TO_WHITELIST
  else if decide (n = 1) then Some REMOVE_FROM_WHITELIST
  else if decide (n = 2) then Some RESET_ADMINS
  else if decide (n = 3) then Some END_PERMISSIONING
  else None.

(** A byte that is no command type leaves the type of the default constructor. *)
Definition AdminCommand_Unserialize (garbage : bytes) (s : bytes) : option (AdminCommand * bytes) :=
  '(command_type, s) ← ser_readdata8 s;
  let m_type := default REMOVE_FROM_WHITELIST (AdminCommandType_from command_type) in
  '(payload, s) ← vector_Unserialize (CPubKey_format garbage) s;
  Some ({| m_command_type := m_type; m_payload := payload |}, s).

Definition AdminCommand_Serialize (garbage : bytes) (c : AdminCommand) : bytes :=
  ser_writedata8 (AdminCommandType_value (m_command_type c)) ++
  vector_Serialize (CPubKey_format garbage) (m_payload c).

Definition AdminCommand_format (garbage : bytes) : format AdminCommand :=
  Format (AdminCommand_Serialize garbage) (AdminCommand_Unserialize garbage).

(** ** The state *)

Definition FinalizationStateData_format (garbage : bytes) : format FinalizationStateData :=
  record_format
    (map_format uint32_format Checkpoint_format ⊗ map_format uint32_format uint32_format ⊗
     map_format uint160_format Validator_format ⊗ map_format uint32_format int64_format ⊗
     map_format uint32_format uint64_format ⊗ map_format uint32_format int64_format ⊗
     uint32_format ⊗ uint32_format ⊗ int64_format ⊗ int64_format ⊗
     uint32_format ⊗ uint32_format ⊗ uint32_format ⊗ uint256_format ⊗ uint32_format ⊗
     uint64_format ⊗ AdminState_format garbage)
    (λ s, (m_checkpoints s, (m_dynasty_start_epoch s, (m_validators s, (m_dynasty_deltas s,
          (m_deposit_scale_factor s, (m_total_slashed s, (m_current_epoch s, (m_current_dynasty s,
          (m_cur_dyn_deposits s, (m_prev_dyn_deposits s, (m_expected_source_epoch s,
          (m_last_finalized_epoch s, (m_last_justified_epoch s, (m_recommended_target_hash s,
          (m_recommended_target_epoch s, (m_reward_factor s, m_admin_state s)))))))))))))))))
    (λ '(cps, (dse, (vs, (dd, (sf, (ts, (ce, (cd, (cur, (prev, (src, (lf, (lj, (th, (te, (rf,
         adm)))))))))))))))),
      {| m_checkpoints := cps; m_dynasty_start_epoch := dse; m_validators := vs;
         m_dynasty_deltas := dd; m_deposit_scale_factor := sf; m_total_slashed := ts;
         m_current_epoch := ce; m_current_dynasty := cd; m_cur_dyn_deposits := cur;
         m_prev_dyn_deposits := prev; m_expected_source_epoch := src;
         m_last_finalized_epoch := lf; m_last_justified_epoch := lj;
         m_recommended_target_hash := th; m_recommended_target_epoch := te;
         m_reward_factor := rf; m_admin_state := adm |}).

(** ** Round trips *)

(** The containers are not longer than [ReadCompactSize] accepts. *)
Record sized_checkpoint (cp : Checkpoint) : Prop := {
  sz_cur_votes : size_ok (size (m_cur_dynasty_votes cp));
  sz_prev_votes : size_ok (size (m_prev_dynasty_votes cp));
  sz_vote_set : size_ok (size (m_vote_set cp));
}.

#[export] Instance size_ok_dec n : Decision (size_ok n).
Proof. unfold size_ok. apply _. Defined.

#[export] Instance sized_checkpoint_dec cp : Decision (sized_checkpoint cp).
Proof.
  refine (cast_if_and3 (decide (size_ok (size (m_cur_dynasty_votes cp))))
    (decide (size_ok (size (m_prev_dynasty_votes cp))))
    (decide (size_ok (size (m_vote_set cp))))); (by split || by intros []).
Defined.

Record sized (s : State) : Prop := {
  sz_checkpoints : size_ok (size (m_checkpoints s));
  sz_checkpoint : map_Forall (λ _ cp, sized_checkpoint cp) (m_checkpoints s);
  sz_start_epoch : size_ok (size (m_dynasty_start_epoch s));
  sz_validators : size_ok (size (m_validators s));
  sz_deltas : size_ok (size (m_dynasty_deltas s));
  sz_scale : size_ok (size (m_deposit_scale_factor s));
  sz_slashed : size_ok (size (m_total_slashed s));
  sz_white_list : size_ok (size (m_white_list (m_admin_state s)));
}.

Section roundtrips.
Context (garbage : bytes).

(** A record whose fields have the properties their formats ask for. *)
Ltac by_fields := eapply (record_roundtrip _ _ _ _); [by intros []|cbn [fst snd]; try done].

#[export] Instance CPubKey_roundtrip : RoundTrip (CPubKey_format garbage) typed_pubkey.
Proof.
  intros k rest [Hb Hlen]. cbn [enc dec CPubKey_format].
  unfold CPubKey_Serialize, CPubKey_Unserialize.
  assert (length k ≤ PUBLIC_KEY_SIZE)%nat as Hmax.
  { rewrite <- Hlen. destruct k as [|h k]; cbn; [lia|]. unfold GetLen, PUBLIC_KEY_SIZE, COMPRESSED_PUBLIC_KEY_SIZE. repeat case_decide; lia. }
  rewrite Hlen, take_ge, <- app_assoc, ReadCompactSize_size by
    (unfold size_ok, MAX_SIZE, PUBLIC_KEY_SIZE in *; lia).
  cbn [mbind option_bind]. rewrite Nat2Z.id, read_bytes_app by done. cbn [mbind option_bind].
  rewrite decide_True by lia. cbv zeta.
  assert (CPubKey_size (k ++ drop (length k) (0xFF :: garbage)) = length k) as ->.
  { destruct k as [|h k]; [done|]. by rewrite <- Hlen. }
  by rewrite take_app_length.
Qed.

#[export] Instance Vote_roundtrip : RoundTrip Vote_format typed_vote.
Proof. intros v rest []. by_fields. Qed.

#[export] Instance Validator_roundtrip : RoundTrip Validator_format typed_validator.
Proof. intros v rest []. by_fields. Qed.

#[export] Instance Checkpoint_roundtrip :
  RoundTrip Checkpoint_format (λ cp, typed_checkpoint cp ∧ sized_checkpoint cp).
Proof. intros cp rest [[] []]. by_fields. Qed.

#[export] Instance AdminState_roundtrip :
  RoundTrip (AdminState_format garbage)
    (λ a, typed_admin a ∧ size_ok (size (m_white_list a))).
Proof. intros a rest [[] ?]. by_fields. Qed.

#[export] Instance AdminCommand_roundtrip :
  RoundTrip (AdminCommand_format garbage)
    (λ c, size_ok (length (m_payload c)) ∧ Forall typed_pubkey (m_payload c)).
Proof.
  intros [t ks] rest Hks. cbn [enc dec AdminCommand_format].
  unfold AdminCommand_Serialize, AdminCommand_Unserialize. cbn [m_command_type m_payload].
  rewrite <- app_assoc, read8 by (by destruct t). cbn [mbind option_bind].
  rewrite (dec_enc (f := vector_format (CPubKey_format garbage)) ks rest Hks :
    vector_Unserialize _ (vector_Serialize _ ks ++ rest) = _).
  by destruct t.
Qed.

#[export] Instance FinalizationStateData_roundtrip :
  RoundTrip (FinalizationStateData_format garbage) (λ s, typed s ∧ sized s).
Proof.
  intros s rest [Ht Hs].
  assert (map_Forall (λ e cp, is_uint32 e ∧ typed_checkpoint cp ∧ sized_checkpoint cp)
    (m_checkpoints s)) as Hcps.
  { intros e cp Hcp. destruct (t_checkpoints s Ht e cp Hcp).
    by pose proof (sz_checkpoint s Hs e cp Hcp). }
  destruct Ht, Hs. by_fields.
Qed.
End roundtrips.

(** Round trip of the serialized state.  Reading the bytes that
    [FinalizationStateData] writes gives back the very state and leaves the
    rest of the stream, for every state whose fields are within their types
    and whose containers are within the size [ReadCompactSize] accepts,
    whatever the memory of the keys held before. *)
Theorem state_roundtrip garbage s rest :
  typed s → sized s →
  dec (FinalizationStateData_format garbage)
    (enc (FinalizationStateData_format garbage) s ++ rest) = Some (s, rest).
Proof. intros. by apply FinalizationStateData_roundtrip. Qed.

Lemma state_roundtrip_witness :
  dec (FinalizationStateData_format [])
    (enc (FinalizationStateData_format []) demo_joined_state ++ [1; 2; 3]) =
  Some (demo_joined_state, [1; 2; 3]).
Proof.
  apply state_roundtrip; [exact demo_joined_typed|].
  split; apply (bool_decide_unpack _); vm_compute; exact I.
Defined.
