(* ===== verification/Script.v ===== *)
(** * Scripts: src/src/script/script.h, src/src/script/script.cpp

    A [CScript] is its bytes.  An iterator into a script is the suffix that
    starts at it; [GetScriptOp] moves the iterator also when it fails, so it
    returns the new suffix in both cases.  A loop over the operations of a
    script takes the number of its bytes as fuel: every successful
    [GetScriptOp] consumes at least one. *)
From S2P Require Import Prelude Serialize Admin.

Abbreviation CScript := bytes.

(** ** Constants *)

Definition MAX_SCRIPT_ELEMENT_SIZE : Z := 520.
Definition MAX_PUBKEYS_PER_MULTISIG : Z := 20.
Definition MAX_SCRIPT_SIZE : Z := 10000.

Definition OP_0 : Z := 0x00.
Definition OP_PUSHDATA1 : Z := 0x4c.
Definition OP_PUSHDATA2 : Z := 0x4d.
Definition OP_PUSHDATA4 : Z := 0x4e.
Definition OP_1 : Z := 0x51.
Definition OP_TRUE : Z := OP_1.
Definition OP_2 : Z := 0x52.
Definition OP_16 : Z := 0x60.
Definition OP_IF : Z := 0x63.
Definition OP_ELSE : Z := 0x67.
Definition OP_ENDIF : Z := 0x68.
Definition OP_RETURN : Z := 0x6a.
Definition OP_DUP : Z := 0x76.
Definition OP_EQUAL : Z := 0x87.
Definition OP_EQUALVERIFY : Z := 0x88.
Definition OP_HASH160 : Z := 0xa9.
Definition OP_CHECKSIG : Z := 0xac.
Definition OP_CHECKSIGVERIFY : Z := 0xad.
Definition OP_CHECKMULTISIG : Z := 0xae.
Definition OP_CHECKMULTISIGVERIFY : Z := 0xaf.
Definition OP_CHECKCOMMIT : Z := 0xb3.
Definition OP_NOP10 : Z := 0xb9.
Definition OP_INVALIDOPCODE : Z := 0xff.
Definition MAX_OPCODE : Z := OP_NOP10.

(** The byte at an index, and [back()]. *)
Definition at_ (s : CScript) (i : nat) : Z := default 0 (s !! i).
Definition back (s : bytes) : Z := default 0 (last s).

(** ** Script numbers *)

(** [while(absvalue)]: eight rounds for a 64-bit value. *)
Fixpoint abs_bytes (fuel : nat) (absvalue : Z) : bytes :=
  match fuel with
  | O => []
  | S fuel =>
      if decide (absvalue = 0) then []
      else Z.land absvalue 0xff :: abs_bytes fuel (Z.shiftr absvalue 8)
  end.

Definition CScriptNum_serialize (value : Z) : bytes :=
  if decide (value = 0) then []
  else
    let neg := bool_decide (value < 0) in
    let absvalue := if neg then uint64 (- uint64 value) else value in
    let result := abs_bytes 8 absvalue in
    if decide (Z.land (back result) 0x80 ≠ 0) then result ++ [if neg then 0x80 else 0]
    else if neg then
      take (length result - 1) result ++ [Z.lor (back result) 0x80]
    else result.

(** The loop of [set_vch] from byte [i] on. *)
Fixpoint set_vch_loop (i : Z) (vch : bytes) : Z :=
  match vch with
  | [] => 0
  | b :: vch => Z.lor (Z.shiftl b (8 * i)) (set_vch_loop (i + 1) vch)
  end.

(** The shift by 64 bits that a nine-byte vector leads to, undefined in C++,
    gives no bits here. *)
Definition set_vch (vch : bytes) : Z :=
  match vch with
  | [] => 0
  | _ =>
      let result := set_vch_loop 0 (take 8 vch) in
      if decide (Z.land (back vch) 0x80 ≠ 0) then
        if decide (result = uint64 (- uint64 (- 2 ^ 63))) then - 2 ^ 63
        else
          let mask := uint64 (Z.shiftl 0x80 (8 * (Z.of_nat (length vch) - 1))) in
          int64 (- int64 (Z.land result (Z.lnot mask)))
      else int64 result
  end.

(** The constructor from bytes; [None] is the [scriptnum_error]. *)
Definition CScriptNum_new (vch : bytes) (fRequireMinimal : bool) (nMaxNumSize : nat) : option Z :=
  if decide (nMaxNumSize < length vch)%nat then None
  else if fRequireMinimal && bool_decide (0 < length vch)%nat &&
          bool_decide (Z.land (back vch) 0x7f = 0) &&
          (bool_decide (length vch ≤ 1)%nat ||
           bool_decide (Z.land (at_ vch (length vch - 2)) 0x80 = 0))
  then None
  else Some (set_vch vch).

(** [deserialize<T>]; [tmin] and [tmax] are the limits of [T]. *)
Definition CScriptNum_deserialize (tmin tmax : Z) (vch : bytes) : option Z :=
  if bool_decide (8 < length vch)%nat &&
     (bool_decide (Z.land (back vch) 0x80 = 0) || bool_decide (length vch ≠ 9%nat))
  then None
  else
    let num := set_vch vch in
    if decide (tmax < num) then None
    else if decide (num < tmin) then None
    else Some num.

Definition getint (m_value : Z) : Z :=
  if decide (2 ^ 31 - 1 < m_value) then 2 ^ 31 - 1
  else if decide (m_value < - 2 ^ 31) then - 2 ^ 31
  else m_value.

(** ** Building scripts *)

(** [operator<<] for byte vectors. *)
Definition push_data (b : bytes) : CScript :=
  let n := Z.of_nat (length b) in
  (if decide (n < OP_PUSHDATA1) then [n]
   else if decide (n ≤ 0xff) then [OP_PUSHDATA1; n]
   else if decide (n ≤ 0xffff) then OP_PUSHDATA2 :: le_bytes 2 n
   else OP_PUSHDATA4 :: le_bytes 4 n) ++ b.

Definition push_int64 (n : Z) : CScript :=
  if decide (n = -1 ∨ 1 ≤ n ≤ 16) then [n + (OP_1 - 1)]
  else if decide (n = 0) then [OP_0]
  else push_data (CScriptNum_serialize n).

Definition DecodeOP_N (opcode : Z) : outcome Z :=
  if decide (opcode = OP_0) then Ok 0
  else
    _ ← cpp_assert (bool_decide (OP_1 ≤ opcode ≤ OP_16));
    Ok (opcode - (OP_1 - 1)).

Definition EncodeOP_N (n : Z) : outcome Z :=
  _ ← cpp_assert (bool_decide (0 ≤ n ≤ 16));
  if decide (n = 0) then Ok OP_0 else Ok (OP_1 + n - 1).

(** ** Reading scripts *)

(** The operation with its data, or a failure, and the new position. *)
Definition GetScriptOp (pc : CScript) : option (Z * bytes) * CScript :=
  match pc with
  | [] => (None, pc)
  | opcode :: pc =>
      if decide (opcode ≤ OP_PUSHDATA4) then
        match
          (if decide (opcode < OP_PUSHDATA1) then Some (opcode, pc)
           else if decide (opcode = OP_PUSHDATA1) then ser_readdata8 pc
           else if decide (opcode = OP_PUSHDATA2) then ser_readdata16 pc
           else ser_readdata32 pc)
        with
        | None => (None, pc)
        | Some (nSize, pc) =>
            if decide (Z.of_nat (length pc) < nSize) then (None, pc)
            else (Some (opcode, take (Z.to_nat nSize) pc), drop (Z.to_nat nSize) pc)
        end
      else (Some (opcode, []), pc)
  end.

Section loops.

(** [GetSigOpCount(bool)]: the count is an [unsigned int]. *)
Fixpoint GetSigOpCount_loop (fuel : nat) (fAccurate : bool) (pc : CScript) (lastOpcode n : Z) :
  outcome Z :=
  match fuel with
  | O => Ok n
  | S fuel =>
      match GetScriptOp pc with
      | (None, _) => Ok n
      | (Some (opcode, _), pc) =>
          n ← (if decide (opcode = OP_CHECKSIG ∨ opcode = OP_CHECKSIGVERIFY)
               then Ok (uint32 (n + 1))
               else if decide (opcode = OP_CHECKMULTISIG ∨ opcode = OP_CHECKMULTISIGVERIFY) then
                 if fAccurate && bool_decide (OP_1 ≤ lastOpcode) && bool_decide (lastOpcode ≤ OP_16)
                 then k ← DecodeOP_N lastOpcode; Ok (uint32 (n + k))
                 else Ok (uint32 (n + MAX_PUBKEYS_PER_MULTISIG))
               else Ok n);
          GetSigOpCount_loop fuel fAccurate pc opcode n
      end
  end.

Definition GetSigOpCount (script : CScript) (fAccurate : bool) : outcome Z :=
  GetSigOpCount_loop (length script) fAccurate script OP_INVALIDOPCODE 0.

(** [IsPushOnly(pc)]. *)
Fixpoint IsPushOnly_loop (fuel : nat) (pc : CScript) : bool :=
  match fuel, pc with
  | _, [] => true
  | O, _ => false
  | S fuel, _ =>
      match GetScriptOp pc with
      | (None, _) => false
      | (Some (opcode, _), pc) =>
          if decide (OP_16 < opcode) then false else IsPushOnly_loop fuel pc
      end
  end.

Definition IsPushOnly (script : CScript) : bool := IsPushOnly_loop (length script) script.

Fixpoint HasValidOps_loop (fuel : nat) (it : CScript) : bool :=
  match fuel, it with
  | _, [] => true
  | O, _ => false
  | S fuel, _ =>
      match GetScriptOp it with
      | (None, _) => false
      | (Some (opcode, item), it) =>
          if decide (MAX_OPCODE < opcode ∨ MAX_SCRIPT_ELEMENT_SIZE < Z.of_nat (length item))
          then false else HasValidOps_loop fuel it
      end
  end.

Definition HasValidOps (script : CScript) : bool := HasValidOps_loop (length script) script.
End loops.

(** ** Kinds of output scripts *)

Definition IsPayToScriptHash (s : CScript) : bool :=
  bool_decide (length s = 23%nat) && bool_decide (at_ s 0 = OP_HASH160) &&
  bool_decide (at_ s 1 = 0x14) && bool_decide (at_ s 22 = OP_EQUAL).

(** [GetSigOpCount(scriptSig)]: the last item [scriptSig] pushes, [None] for
    the early [return 0]. *)
Fixpoint last_push_loop (fuel : nat) (pc : CScript) (vData : bytes) : option bytes :=
  match fuel, pc with
  | _, [] => Some vData
  | O, _ => None
  | S fuel, _ =>
      match GetScriptOp pc with
      | (None, _) => None
      | (Some (opcode, vData), pc) =>
          if decide (OP_16 < opcode) then None else last_push_loop fuel pc vData
      end
  end.

Definition GetSigOpCount_sig (script scriptSig : CScript) : outcome Z :=
  if negb (IsPayToScriptHash script) then GetSigOpCount script true
  else
    match last_push_loop (length scriptSig) scriptSig [] with
    | None => Ok 0
    | Some subscript => GetSigOpCount subscript true
    end.

Definition IsPayToPublicKeyHash (s : CScript) : bool :=
  bool_decide (length s = 25%nat) && bool_decide (at_ s 0 = OP_DUP) &&
  bool_decide (at_ s 1 = OP_HASH160) && bool_decide (at_ s 2 = 0x14) &&
  bool_decide (at_ s 23 = OP_EQUALVERIFY) && bool_decide (at_ s 24 = OP_CHECKSIG).

(** [size() - ofs] is unsigned. *)
Definition MatchPayToPublicKeyHash (s : CScript) (ofs : nat) : bool :=
  bool_decide (25 ≤ uint64 (Z.of_nat (length s) - Z.of_nat ofs)) &&
  bool_decide (at_ s (ofs + 0) = OP_DUP) &&
  bool_decide (at_ s (ofs + 1) = OP_HASH160) && bool_decide (at_ s (ofs + 2) = 0x14) &&
  bool_decide (at_ s (ofs + 23) = OP_EQUALVERIFY) && bool_decide (at_ s (ofs + 24) = OP_CHECKSIG).

(** The inner match starts at 38 and not at [ofs + 38]. *)
Definition MatchFinalizerCommitScript (s : CScript) (ofs : nat) : bool :=
  bool_decide (uint64 (Z.of_nat (length s) - Z.of_nat ofs) = 64) &&
  bool_decide (at_ s (ofs + 0) = 0x21) && bool_decide (at_ s (ofs + 34) = OP_CHECKCOMMIT) &&
  bool_decide (at_ s (ofs + 35) = OP_IF) && bool_decide (at_ s (ofs + 36) = OP_TRUE) &&
  bool_decide (at_ s (ofs + 37) = OP_ELSE) &&
  MatchPayToPublicKeyHash s 38 && bool_decide (at_ s (ofs + 63) = OP_ENDIF).

Definition IsFinalizerCommitScript (s : CScript) : bool := MatchFinalizerCommitScript s 0.

Definition IsPayToWitnessScriptHash (s : CScript) : bool :=
  bool_decide (length s = 34%nat) && bool_decide (at_ s 0 = OP_0) && bool_decide (at_ s 1 = 0x20).

Definition IsPayToWitnessPublicKeyHash (s : CScript) : bool :=
  bool_decide (length s = 22%nat) && bool_decide (at_ s 0 = OP_0) && bool_decide (at_ s 1 = 0x14).

Definition IsUnspendable (s : CScript) : bool :=
  (bool_decide (0 < length s)%nat && bool_decide (at_ s 0 = OP_RETURN)) ||
  bool_decide (MAX_SCRIPT_SIZE < Z.of_nat (length s)).

(** ** Witness programs *)

Record WitnessProgram := {
  version : Z;
  program : list bytes;
}.

Definition program_size (w : WitnessProgram) (i : nat) : nat :=
  length (default [] (program w !! i)).

Definition WP_IsPayToScriptHash (w : WitnessProgram) : bool :=
  bool_decide (version w = 0) && bool_decide (length (program w) = 1%nat) &&
  bool_decide (program_size w 0 = 32%nat).

Definition WP_IsPayToPubkeyHash (w : WitnessProgram) : bool :=
  bool_decide (version w = 0) && bool_decide (length (program w) = 1%nat) &&
  bool_decide (program_size w 0 = 20%nat).

Definition IsRemoteStakingP2WPKH (w : WitnessProgram) : bool :=
  bool_decide (version w = 1) && bool_decide (length (program w) = 2%nat) &&
  bool_decide (program_size w 0 = 20%nat) && bool_decide (program_size w 1 = 32%nat).

Definition IsRemoteStakingP2WSH (w : WitnessProgram) : bool :=
  bool_decide (version w = 2) && bool_decide (length (program w) = 2%nat) &&
  bool_decide (program_size w 0 = 20%nat) && bool_decide (program_size w 1 = 32%nat).

Definition IsRemoteStaking (w : WitnessProgram) : bool :=
  IsRemoteStakingP2WPKH w || IsRemoteStakingP2WSH w.

(** The [do ... while (pc < end())] of [IsWitnessProgram]. *)
Fixpoint witness_pushes_ok (fuel : nat) (pc : CScript) : bool :=
  match fuel with
  | O => false
  | S fuel =>
      match GetScriptOp pc with
      | (None, _) => false
      | (Some (opcode, _), pc) =>
          if decide (opcode = OP_0 ∨ 40 < opcode) then false
          else match pc with [] => true | _ => witness_pushes_ok fuel pc end
      end
  end.

Definition IsWitnessProgram (s : CScript) : bool :=
  if decide (length s < 4 ∨ 83 < length s)%nat then false
  else
    match GetScriptOp s with
    | (None, _) => false
    | (Some (opcode, _), pc) =>
        if decide (opcode ≠ OP_0 ∧ (opcode < OP_1 ∨ OP_16 < opcode)) then false
        else if decide (opcode = OP_0) then bool_decide (at_ s 1 + 2 = Z.of_nat (length s))
        else witness_pushes_ok (length s) pc
    end.

(** The [do ... while (pc < end())] of [ExtractWitnessProgram]. *)
Fixpoint witness_pushes (fuel : nat) (pc : CScript) : option (list bytes) :=
  match fuel with
  | O => None
  | S fuel =>
      match GetScriptOp pc with
      | (None, _) => None
      | (Some (_, data), pc) =>
          match pc with
          | [] => Some [data]
          | _ => rest ← witness_pushes fuel pc; Some (data :: rest)
          end
      end
  end.

Definition ExtractWitnessProgram (s : CScript) : outcome (option WitnessProgram) :=
  if negb (IsWitnessProgram s) then Ok None
  else
    match GetScriptOp s with
    | (None, _) => Ok None
    | (Some (opcode, _), pc) =>
        v ← DecodeOP_N opcode;
        Ok (progs ← witness_pushes (length s) pc; Some {| version := v; program := progs |})
    end.

(** ** The scripts the code creates *)

Definition CreateFinalizerCommitScript `{!Crypto} (pubkey : CPubKey) : CScript :=
  push_data pubkey ++ [OP_CHECKCOMMIT] ++
  [OP_IF; OP_TRUE; OP_ELSE] ++
  [OP_DUP; OP_HASH160] ++ push_data (be_bytes 20 (GetID pubkey)) ++ [OP_EQUALVERIFY; OP_CHECKSIG] ++
  [OP_ENDIF].

Definition CreateUnspendableScript : CScript := [OP_RETURN].

Definition CreateP2PKHScript (publicKeyHash : bytes) : CScript :=
  [OP_DUP; OP_HASH160] ++ push_data publicKeyHash ++ [OP_EQUALVERIFY; OP_CHECKSIG].

Definition CreateRemoteStakingKeyhashScript (staking_key_hash spending_key_hash : bytes) :
  outcome CScript :=
  _ ← cpp_assert (bool_decide (length staking_key_hash = 20%nat));
  _ ← cpp_assert (bool_decide (length spending_key_hash = 32%nat));
  Ok ([OP_1] ++ push_data staking_key_hash ++ push_data spending_key_hash).

Definition CreateRemoteStakingScripthashScript (staking_key_hash spending_script_hash : bytes) :
  outcome CScript :=
  _ ← cpp_assert (bool_decide (length staking_key_hash = 20%nat));
  _ ← cpp_assert (bool_decide (length spending_script_hash = 32%nat));
  Ok ([OP_2] ++ push_data staking_key_hash ++ push_data spending_script_hash).
