(* ===== verification/ScriptProofs.v ===== *)
(** * Properties of scripts

    Pushing and reading data, script numbers, and the recognizers of output
    scripts against the functions that create them. *)
From S2P Require Import Prelude Serialize Admin Script.

(** ** Pushes *)

(** The opcode [operator<<] chooses for a byte vector. *)
Definition push_opcode (b : bytes) : Z :=
  let n := Z.of_nat (length b) in
  if decide (n < OP_PUSHDATA1) then n
  else if decide (n ≤ 0xff) then OP_PUSHDATA1
  else if decide (n ≤ 0xffff) then OP_PUSHDATA2
  else OP_PUSHDATA4.

Lemma push_opcode_range b : 0 ≤ push_opcode b ≤ OP_PUSHDATA4.
Proof. unfold push_opcode, OP_PUSHDATA1, OP_PUSHDATA2, OP_PUSHDATA4. repeat case_decide; lia. Qed.

(** Reading a push gives the pushed bytes and the rest of the script. *)
Lemma GetScriptOp_push_data b rest :
  Z.of_nat (length b) < 2 ^ 32 →
  GetScriptOp (push_data b ++ rest) = (Some (push_opcode b, b), rest).
Proof.
  intros Hb. pose proof (push_opcode_range b) as Hop. unfold push_data.
  rewrite <- app_assoc. unfold push_opcode in *. set (n := Z.of_nat (length b)) in *.
  assert (∀ m, m = n → (if decide (Z.of_nat (length (b ++ rest)) < m) then (None, b ++ rest)
    else (Some (push_opcode b, take (Z.to_nat m) (b ++ rest)), drop (Z.to_nat m) (b ++ rest))) =
    (Some (push_opcode b, b), rest)) as Hpush.
  { intros m ->. unfold n. rewrite length_app. decide_lia. rewrite Nat2Z.id.
    by rewrite take_app_length, drop_app_length. }
  unfold push_opcode in Hpush. fold n in Hpush.
  unfold OP_PUSHDATA1, OP_PUSHDATA2, OP_PUSHDATA4 in *.
  repeat case_decide; cbn [app GetScriptOp]; unfold OP_PUSHDATA1, OP_PUSHDATA2, OP_PUSHDATA4;
    decide_lia.
  - by apply Hpush.
  - change (n :: b ++ rest) with ([n] ++ b ++ rest).
    replace [n] with (ser_writedata8 n) by (cbn; rewrite Z.mod_small by lia; done).
    rewrite read8 by (unfold is_byte; lia). by apply Hpush.
  - rewrite (read16 n) by lia. by apply Hpush.
  - rewrite (read32 n) by (unfold is_uint32; lia). by apply Hpush.
Qed.

Lemma read_bytes_length n bs b rest :
  read_bytes n bs = Some (b, rest) → (length bs = n + length rest)%nat.
Proof. intros [-> <-]%read_bytes_Some. by rewrite length_app. Qed.

(** Every operation that is read consumes a byte at least: the loops end. *)
Lemma GetScriptOp_shrinks pc x pc' :
  GetScriptOp pc = (Some x, pc') → (length pc' < length pc)%nat.
Proof.
  destruct pc as [|op pc]; cbn; [done|].
  case_decide; [|by intros [= _ <-]; lia].
  match goal with |- context [match ?r with Some _ => _ | None => _ end] =>
    destruct r as [[n pc1]|] eqn:E end; [|done].
  assert (length pc1 ≤ length pc)%nat as Hle.
  { repeat case_decide; simplify_eq; [lia|..];
      unfold ser_readdata8, ser_readdata16, ser_readdata32 in E;
      match type of E with (_ ← read_bytes ?k pc; _) = _ =>
        destruct (read_bytes k pc) as [[]|] eqn:R; [|done] end;
      cbn in E; simplify_eq; apply read_bytes_length in R; lia. }
  destruct (decide (Z.of_nat (length pc1) < n)); [done|]. intros [= _ <-]. rewrite length_drop. lia.
Qed.

(** An opcode that is no push. *)
Lemma GetScriptOp_opcode op rest :
  OP_PUSHDATA4 < op → GetScriptOp (op :: rest) = (Some (op, []), rest).
Proof. intros Hop. cbn. by decide_lia. Qed.

(** ** Script numbers *)

Lemma set_vch_loop_value i vch :
  0 ≤ i → Forall is_byte vch → set_vch_loop i vch = le_value vch * 2 ^ (8 * i).
Proof.
  intros Hi Hb. revert i Hi. induction Hb as [|b vch Hb Hvch IH]; intros i Hi; cbn -[Z.mul]; [done|].
  rewrite IH by lia. unfold is_byte in Hb.
  replace (8 * (i + 1)) with (8 + 8 * i) by lia. rewrite Z.pow_add_r by lia.
  replace (le_value vch * (2 ^ 8 * 2 ^ (8 * i))) with (Z.shiftl (le_value vch * 2 ^ 8) (8 * i))
    by (rewrite Z.shiftl_mul_pow2 by lia; lia).
  rewrite <- Z.shiftl_lor, Z.shiftl_mul_pow2, Z.lor_comm by lia. f_equal.
  rewrite <- Z.shiftl_mul_pow2, lor_shiftl_add by lia. lia.
Qed.

Lemma set_vch_loop_0 vch : Forall is_byte vch → set_vch_loop 0 vch = le_value vch.
Proof. intros. rewrite set_vch_loop_value by done. lia. Qed.

Lemma land_255 n : Z.land n 0xff = n mod 2 ^ 8.
Proof. apply (Z.land_ones n 8). lia. Qed.

(** The bytes of a number that ends in a nonzero byte are found again. *)
Lemma abs_bytes_value fuel init t :
  Forall is_byte (init ++ [t]) → t ≠ 0 → (length init < fuel)%nat →
  abs_bytes fuel (le_value (init ++ [t])) = init ++ [t].
Proof.
  revert fuel. induction init as [|b init IH]; intros fuel Hb Ht Hf; cbn [app] in *;
    (destruct fuel as [|fuel]; [cbn in Hf; lia|]); cbn [abs_bytes le_value].
  - apply Forall_cons_1 in Hb as [Hb _]. unfold is_byte in Hb. decide_lia.
    rewrite Z.mul_0_r, Z.add_0_r, Z.shiftr_div_pow2, Z.div_small by lia.
    rewrite land_255, Z.mod_small by lia. by destruct fuel.
  - apply Forall_cons in Hb as [Hb Hi]. unfold is_byte in Hb.
    assert (0 < le_value (init ++ [t])) as Hpos.
    { apply Forall_app in Hi as [Hi [Hti _]%Forall_cons]. unfold is_byte in Hti.
      pose proof (le_value_range init Hi). rewrite le_value_app. cbn [le_value]. nia. }
    decide_lia. rewrite land_255, Z.shiftr_div_pow2 by lia.
    rewrite Z.mul_comm, Z_mod_plus_full, Z_div_plus_full, (Z.mod_small b), (Z.div_small b) by lia.
    rewrite Z.add_0_l, IH; [done|done|done|]. cbn in Hf. lia.
Qed.

(** Every positive number has such bytes. *)
Lemma abs_bytes_last fuel a :
  0 < a < 2 ^ (8 * Z.of_nat fuel) →
  ∃ init t, abs_bytes fuel a = init ++ [t] ∧ le_value (init ++ [t]) = a ∧
    Forall is_byte (init ++ [t]) ∧ t ≠ 0 ∧ (length init < fuel)%nat.
Proof.
  revert a. induction fuel as [|fuel IH]; intros a Ha; [cbn in Ha; lia|].
  cbn [abs_bytes]. decide_lia. rewrite land_255, Z.shiftr_div_pow2 by lia.
  pose proof (Z.mod_pos_bound a (2 ^ 8)). pose proof (Z.div_mod a (2 ^ 8)).
  destruct (decide (a / 2 ^ 8 = 0)) as [Hz|Hz].
  - exists [], (a mod 2 ^ 8). rewrite Hz. split_and!.
    + by destruct fuel.
    + cbn. lia.
    + apply Forall_singleton. unfold is_byte. lia.
    + lia.
    + cbn. lia.
  - destruct (IH (a / 2 ^ 8)) as (init & t & E & Hv & Hb & Ht & Hl).
    { replace (8 * Z.of_nat (S fuel)) with (8 + 8 * Z.of_nat fuel) in Ha by lia.
      rewrite Z.pow_add_r in Ha by lia. split; [|apply Z.div_lt_upper_bound; lia].
      pose proof (Z.div_pos a (2 ^ 8)). lia. }
    exists (a mod 2 ^ 8 :: init), t. rewrite E. split_and!; [done| | |done|cbn; lia].
    + cbn [app le_value]. rewrite Hv. lia.
    + cbn [app]. constructor; [unfold is_byte; lia|done].
Qed.

Lemma back_snoc init t : back (init ++ [t]) = t.
Proof. unfold back. by rewrite last_snoc. Qed.

Lemma sign_bit t : is_byte t → Z.land t 0x80 ≠ 0 ↔ 2 ^ 7 ≤ t.
Proof.
  intros Ht. apply (bool_decide_eq_true_1 _). revert t Ht.
  apply (forall_bytes (λ t, bool_decide (Z.land t 0x80 ≠ 0 ↔ 2 ^ 7 ≤ t))).
  by vm_compute.
Qed.

Lemma set_sign_bit t : is_byte t → t < 2 ^ 7 → Z.lor t 0x80 = t + 2 ^ 7.
Proof.
  intros Ht Hs. unfold is_byte in Ht. rewrite Z.lor_comm.
  rewrite (lor_shiftl_add 1 t 7 ltac:(lia) ltac:(lia) : Z.lor 0x80 t = _). lia.
Qed.

Lemma clear_bit a k : 0 ≤ k → 0 ≤ a < 2 ^ k → Z.land (a + 2 ^ k) (Z.lnot (2 ^ k)) = a.
Proof.
  intros Hk Ha. rewrite <- Z.ldiff_land. rewrite Z.add_comm.
  pose proof (lor_shiftl_add 1 a k Hk Ha) as Hl.
  rewrite Z.shiftl_mul_pow2, Z.mul_1_l in Hl by lia. rewrite <- Hl.
  apply Z.bits_inj'. intros i Hi. rewrite Z.ldiff_spec, Z.lor_spec, Z.pow2_bits_eqb by lia.
  destruct (Z.eqb_spec k i) as [->|]; cbn; [|by rewrite andb_true_r].
  rewrite <- (Z.mod_small a (2 ^ i)), Z.mod_pow2_bits_high by lia. done.
Qed.

(** The magnitude of a number whose last byte carries the sign. *)
Definition magnitude (init : bytes) (t : Z) : Z :=
  le_value init + 2 ^ (8 * Z.of_nat (length init)) * (t mod 2 ^ 7).

Lemma magnitude_range init t :
  Forall is_byte init → 0 ≤ magnitude init t < 2 ^ (8 * Z.of_nat (length init) + 7).
Proof.
  intros Hb. unfold magnitude. pose proof (le_value_range init Hb).
  pose proof (Z.mod_pos_bound t (2 ^ 7)). rewrite Z.pow_add_r by lia. nia.
Qed.

Lemma set_vch_snoc init t :
  Forall is_byte init → is_byte t → (length init ≤ 7)%nat →
  ¬ (length init = 7%nat ∧ magnitude init t = 0) →
  set_vch (init ++ [t]) =
  if decide (2 ^ 7 ≤ t) then - magnitude init t else magnitude init t.
Proof.
  intros Hi Ht Hlen Hnz. assert (Forall is_byte (init ++ [t])) as Hb.
  { apply Forall_app. split; [done|by apply Forall_singleton]. }
  pose proof (magnitude_range init t Hi) as Hm. set (k := 8 * Z.of_nat (length init) + 7) in *.
  assert (2 ^ k ≤ 2 ^ 63) as Hk by (apply Z.pow_le_mono_r; lia).
  unfold set_vch. destruct (init ++ [t]) eqn:E; [by destruct init|]. rewrite <- E in *. clear E.
  rewrite take_ge, set_vch_loop_0, back_snoc by (rewrite ?length_app; cbn; done || lia).
  assert (le_value (init ++ [t]) =
    magnitude init t + if decide (2 ^ 7 ≤ t) then 2 ^ k else 0) as ->.
  { rewrite le_value_app. cbn [le_value]. unfold magnitude, k. unfold is_byte in Ht.
    rewrite Z.pow_add_r by lia. case_decide.
    - rewrite <- (Z_mod_plus_full t (-1)), (Z.mod_small (t + _)) by lia. lia.
    - rewrite Z.mod_small by lia. lia. }
  cbv zeta. destruct (decide (2 ^ 7 ≤ t)) as [Hneg|Hpos].
  - rewrite decide_True by (by apply sign_bit).
    rewrite decide_False.
    2: { change (uint64 (- uint64 (- 2 ^ 63))) with (2 ^ 63).
         destruct (decide (length init = 7%nat)) as [E7|]; [subst k; rewrite E7 in *; cbn in *; lia|].
         assert (2 ^ k * 2 ≤ 2 ^ 63); [|lia].
         replace (2 ^ k * 2) with (2 ^ (k + 1)) by (rewrite Z.pow_add_r; lia).
         apply Z.pow_le_mono_r; lia. }
    replace (Z.shiftl 0x80 _) with (2 ^ k).
    + rewrite (uint64_small (2 ^ k)) by (unfold is_uint64; lia).
      rewrite clear_bit by lia. rewrite (int64_small (magnitude init t)) by (unfold is_int64; lia).
      by rewrite int64_small by (unfold is_int64; lia).
    + rewrite length_app. cbn [length]. change 0x80 with (Z.shiftl 1 7).
      rewrite Z.shiftl_shiftl, Z.shiftl_mul_pow2, Z.mul_1_l by lia. f_equal. lia.
  - rewrite decide_False by (intros Hc; apply sign_bit in Hc; [lia|done]).
    rewrite Z.add_0_r. apply int64_small. unfold is_int64. lia.
Qed.

Lemma CScriptNum_serialize_spec v init t :
  is_int64 v → v ≠ 0 → abs_bytes 8 (Z.abs v) = init ++ [t] → is_byte t →
  CScriptNum_serialize v =
  if decide (2 ^ 7 ≤ t) then (init ++ [t]) ++ [if decide (v < 0) then 2 ^ 7 else 0]
  else init ++ [if decide (v < 0) then t + 2 ^ 7 else t].
Proof.
  intros Hv Hnz Habs Ht. unfold CScriptNum_serialize. rewrite decide_False by done. cbv zeta.
  replace (if bool_decide (v < 0) then uint64 (- uint64 v) else v) with (Z.abs v).
  2: { unfold is_int64 in Hv. case_bool_decide; [|lia]. apply eqm64_eq_uint64.
       - unfold is_uint64. lia.
       - apply uint64_range.
       - rewrite <- Z.sub_0_l, !eqm64_uint64. apply eqm64_of_eq. lia. }
  rewrite Habs, back_snoc. destruct (decide (2 ^ 7 ≤ t)) as [Hs|Hs].
  - rewrite decide_True by (by apply sign_bit). f_equal. f_equal.
    case_bool_decide; case_decide; lia.
  - rewrite decide_False by (intros Hc; apply sign_bit in Hc; [lia|done]).
    rewrite length_app, Nat.add_sub, take_app_length, set_sign_bit by (done || lia).
    case_bool_decide; case_decide; done || lia.
Qed.

(** [set_vch] undoes [serialize]; only the smallest number needs nine bytes. *)
Lemma set_vch_serialize v :
  is_int64 v → v ≠ - 2 ^ 63 →
  set_vch (CScriptNum_serialize v) = v ∧ (length (CScriptNum_serialize v) ≤ 8)%nat.
Proof.
  intros Hv Hmin. destruct (decide (v = 0)) as [->|Hnz]; [split; [done|apply (Nat.le_0_l 8)]|].
  unfold is_int64 in Hv.
  destruct (abs_bytes_last 8 (Z.abs v)) as (init & t & E & Hval & Hb & Ht & Hl); [lia|].
  pose proof Hb as [Hi [Hbt _]%Forall_cons_1]%Forall_app.
  rewrite (CScriptNum_serialize_spec v init t) by done. unfold is_byte in Hbt.
  destruct (decide (2 ^ 7 ≤ t)) as [Hs|Hs].
  - assert (length (init ++ [t]) ≤ 7)%nat as Hl7.
    { rewrite length_app. cbn [length]. destruct (decide (length init = 7%nat)) as [E7|]; [|lia].
      rewrite le_value_app, E7 in Hval. cbn [le_value] in Hval.
      pose proof (le_value_range init Hi). lia. }
    split; [|rewrite length_app; cbn [length]; lia].
    set (x := if decide (v < 0) then 2 ^ 7 else 0).
    assert (magnitude (init ++ [t]) x = Z.abs v) as Hm.
    { unfold magnitude. rewrite Hval. subst x. case_decide; rewrite ?Z.mod_0_l, ?Z.mod_same by lia; lia. }
    rewrite set_vch_snoc; [|done|unfold is_byte; subst x; case_decide; lia|done|lia].
    rewrite Hm. subst x. destruct (decide (v < 0)); decide_lia; lia.
  - split; [|rewrite length_app; cbn [length]; lia].
    set (x := if decide (v < 0) then t + 2 ^ 7 else t).
    assert (magnitude init x = Z.abs v) as Hm.
    { rewrite <- Hval, le_value_app. cbn [le_value]. unfold magnitude. subst x.
      case_decide; [rewrite <- (Z_mod_plus_full _ (-1))|]; rewrite Z.mod_small by lia; lia. }
    rewrite set_vch_snoc; [|done|unfold is_byte; subst x; case_decide; lia|lia|lia].
    rewrite Hm. subst x. destruct (decide (v < 0)); decide_lia; lia.
Qed.

(** Every number within the type is read back from its serialization. *)
Lemma CScriptNum_roundtrip tmin tmax v :
  is_int64 v → tmin ≤ v ≤ tmax →
  CScriptNum_deserialize tmin tmax (CScriptNum_serialize v) = Some v.
Proof.
  intros Hv Hr. unfold CScriptNum_deserialize. destruct (decide (v = - 2 ^ 63)) as [->|Hmin].
  - change (set_vch (CScriptNum_serialize (- 2 ^ 63))) with (- 2 ^ 63).
    cbv zeta. by decide_lia.
  - destruct (set_vch_serialize v Hv Hmin) as [-> Hl]. rewrite bool_decide_eq_false_2 by lia.
    cbn [andb]. by decide_lia.
Qed.

Lemma at_before_last init u t : at_ ((init ++ [u]) ++ [t]) (length ((init ++ [u]) ++ [t]) - 2) = u.
Proof.
  unfold at_. rewrite !length_app. cbn [length].
  replace (length init + 1 + 1 - 2)%nat with (length init) by lia.
  rewrite <- app_assoc, lookup_app_r, Nat.sub_diag by lia. done.
Qed.

(** What [fRequireMinimal] asks of the last two bytes. *)
Lemma CScriptNum_new_snoc init t n v :
  Forall is_byte init → CScriptNum_new (init ++ [t]) true n = Some v →
  v = set_vch (init ++ [t]) ∧ (length init < n)%nat ∧
  (t mod 2 ^ 7 ≠ 0 ∨ t mod 2 ^ 7 = 0 ∧ ∃ init' u, init = init' ++ [u] ∧ 2 ^ 7 ≤ u).
Proof.
  intros Hi. unfold CScriptNum_new. rewrite back_snoc, land_127.
  destruct (decide (n < length (init ++ [t]))%nat) as [|Hlen]; [done|].
  rewrite length_app in Hlen. cbn [length] in Hlen.
  rewrite bool_decide_eq_true_2 by (rewrite length_app; cbn; lia). cbn [andb].
  destruct (decide (t mod 2 ^ 7 = 0)) as [Hz|Hz].
  - rewrite bool_decide_eq_true_2 by done. cbn [andb].
    destruct init as [|u init _] using rev_ind; [done|]. rewrite at_before_last.
    apply Forall_app in Hi as [_ [Hu _]%Forall_cons_1].
    rewrite bool_decide_eq_false_2 by (rewrite !length_app; cbn; lia). cbn [orb].
    case_bool_decide as Hs; [done|]. intros [= <-]. split_and!; [done|lia|]. right.
    split; [done|]. exists init, u. split; [done|]. by apply sign_bit.
  - rewrite bool_decide_eq_false_2 by done. cbn [andb]. intros [= <-].
    split_and!; [done|lia|by left].
Qed.

(** The minimal encoding is unique: the constructor that requires it accepts
    only the serialization of the number it returns. *)
Lemma CScriptNum_new_minimal vch n v :
  (n ≤ 8)%nat → Forall is_byte vch →
  CScriptNum_new vch true n = Some v → CScriptNum_serialize v = vch.
Proof.
  intros Hn Hb H. destruct vch as [|t init _] using rev_ind.
  { unfold CScriptNum_new in H. cbn in H. by injection H as <-. }
  apply Forall_app in Hb as [Hi [Ht _]%Forall_cons_1].
  apply CScriptNum_new_snoc in H as (-> & Hlen & Hmin); [|done].
  pose proof (magnitude_range init t Hi) as Hm.
  assert (2 ^ (8 * Z.of_nat (length init) + 7) ≤ 2 ^ 63) as Hk by (apply Z.pow_le_mono_r; lia).
  pose proof (Z.mod_pos_bound t (2 ^ 7)). pose proof (Z.div_mod t (2 ^ 7)).
  pose proof (le_value_range init Hi) as Hr. pose proof Ht as Htr. unfold is_byte in Htr.
  (** the bytes of the magnitude *)
  assert (∃ init' u, le_value (init' ++ [u]) = magnitude init t ∧ Forall is_byte (init' ++ [u]) ∧
    u ≠ 0 ∧ (length init' < 8)%nat ∧
    (init' = init ∧ u = t mod 2 ^ 7 ∨ init = init' ++ [u] ∧ t mod 2 ^ 7 = 0 ∧ 2 ^ 7 ≤ u))
    as (init' & u & Hval & Hb & Hu & Hl & Hcase).
  { destruct Hmin as [Hz|(Hz & init' & u & -> & Hu)].
    - exists init, (t mod 2 ^ 7). split_and!; [|..|lia|by left]; [|
        apply Forall_app; split; [done|]; apply Forall_singleton; unfold is_byte; lia|done].
      rewrite le_value_app. cbn [le_value]. unfold magnitude. lia.
    - exists init', u. rewrite length_app in Hlen. cbn in Hlen.
      split_and!; [|done|lia|lia|by right]. unfold magnitude. rewrite Hz. lia. }
  pose proof Hb as [_ [Hbu _]%Forall_cons_1]%Forall_app.
  assert (0 < magnitude init t) as Hpos.
  { rewrite <- Hval, le_value_app. cbn [le_value]. unfold is_byte in Hbu.
    apply Forall_app in Hb as [Hi' _]. pose proof (le_value_range init' Hi'). nia. }
  rewrite set_vch_snoc by (done || lia).
  set (v := if decide (2 ^ 7 ≤ t) then _ else _).
  assert (Z.abs v = magnitude init t ∧ (v < 0 ↔ 2 ^ 7 ≤ t)) as [Habs Hneg]
    by (subst v; case_decide; lia).
  rewrite (CScriptNum_serialize_spec v init' u).
  - destruct Hcase as [[-> ->]|(-> & Hz & Hu7)]; decide_lia; repeat f_equal;
      destruct (decide (v < 0)); lia.
  - unfold is_int64. lia.
  - lia.
  - rewrite Habs, <- Hval. by apply abs_bytes_value.
  - done.
Qed.

(** ** Theorems *)

(** Script numbers.  Every 64-bit number within the limits of the type is
    read back from its serialization, the smallest one included, and of all
    byte strings of up to eight bytes the constructor that requires minimal
    encoding accepts only the one [serialize] writes. *)
Theorem script_numbers_canonical :
  (∀ tmin tmax v, is_int64 v → tmin ≤ v ≤ tmax →
     CScriptNum_deserialize tmin tmax (CScriptNum_serialize v) = Some v) ∧
  (∀ vch n v, (n ≤ 8)%nat → Forall is_byte vch →
     CScriptNum_new vch true n = Some v → CScriptNum_serialize v = vch).
Proof. split; [apply CScriptNum_roundtrip|apply CScriptNum_new_minimal]. Qed.

Lemma script_numbers_canonical_witness :
  CScriptNum_deserialize 0 MAX_SIZE (CScriptNum_serialize 1000) = Some 1000 ∧
  CScriptNum_new [0xff; 0x80] true 4 = Some (- 255) ∧
  CScriptNum_serialize (- 255) = [0xff; 0x80].
Proof.
  destruct script_numbers_canonical as [Hr Hm]. split_and!.
  - apply Hr; [unfold is_int64|unfold MAX_SIZE]; lia.
  - reflexivity.
  - apply (Hm _ 4%nat); [lia| |reflexivity].
    repeat (apply Forall_cons; split; [unfold is_byte; lia|]). by apply Forall_nil.
Defined.

(** Remote staking outputs.  The two script constructors produce witness
    programs of versions 1 and 2 from which the staking and the spending hash
    are extracted again, and each is recognized as its own kind only. *)
Theorem remote_staking_scripts staking spending s1 s2 :
  CreateRemoteStakingKeyhashScript staking spending = Ok s1 →
  CreateRemoteStakingScripthashScript staking spending = Ok s2 →
  ∃ w1 w2, ExtractWitnessProgram s1 = Ok (Some w1) ∧ ExtractWitnessProgram s2 = Ok (Some w2) ∧
    program w1 = [staking; spending] ∧ program w2 = [staking; spending] ∧
    IsRemoteStakingP2WPKH w1 = true ∧ IsRemoteStakingP2WSH w1 = false ∧
    IsRemoteStakingP2WPKH w2 = false ∧ IsRemoteStakingP2WSH w2 = true.
Proof.
  intros H1 H2. open CreateRemoteStakingKeyhashScript in H1. ok_inv H1.
  open CreateRemoteStakingScripthashScript in H2. ok_inv H2.
  apply bool_decide_eq_true in Hr, Hr0. clear Hr1 Hr2. subst s1 s2.
  fixed_list staking Hr. fixed_list spending Hr0.
  by eexists {| version := 1; program := _ |}, {| version := 2; program := _ |}.
Qed.

Lemma remote_staking_scripts_witness :
  ∃ w, ExtractWitnessProgram (0x51 :: 0x14 :: replicate 20 3 ++ 0x20 :: replicate 32 4) = Ok (Some w) ∧
    IsRemoteStakingP2WPKH w = true.
Proof.
  destruct (remote_staking_scripts (replicate 20 3) (replicate 32 4)
    (0x51 :: 0x14 :: replicate 20 3 ++ 0x20 :: replicate 32 4)
    (0x52 :: 0x14 :: replicate 20 3 ++ 0x20 :: replicate 32 4) eq_refl eq_refl)
    as (w & _ & Hw & _ & _ & _ & Hk & _). by exists w.
Defined.

(** The shape of a finalizer commit script. *)
Definition commit_script (key hash : bytes) : CScript :=
  push_data key ++ [OP_CHECKCOMMIT] ++ [OP_IF; OP_TRUE; OP_ELSE] ++
  [OP_DUP; OP_HASH160] ++ push_data hash ++ [OP_EQUALVERIFY; OP_CHECKSIG] ++ [OP_ENDIF].

(** The byte tests of [IsFinalizerCommitScript] accept exactly the scripts
    of the commit template with some 33-byte key and some 20-byte hash; among
    them are the ones created for compressed keys. *)
Theorem finalizer_commit_template `{!Crypto} s k :
  Z.of_nat (length s) < 2 ^ 64 → length k = COMPRESSED_PUBLIC_KEY_SIZE →
  (IsFinalizerCommitScript s = true ↔
   ∃ key hash, length key = 33%nat ∧ length hash = 20%nat ∧ s = commit_script key hash) ∧
  IsFinalizerCommitScript (CreateFinalizerCommitScript k) = true.
Proof.
  intros Hs Hk.
  assert (∀ key hash, length key = 33%nat → length hash = 20%nat →
    IsFinalizerCommitScript (commit_script key hash) = true) as Hc.
  { intros key hash Hkey Hhash. fixed_list key Hkey. fixed_list hash Hhash. done. }
  split; [split|].
  - intros H0. unfold IsFinalizerCommitScript, MatchFinalizerCommitScript, MatchPayToPublicKeyHash in H0.
    split_andb. rewrite uint64_small in * by (unfold is_uint64; lia).
    assert (length s = 64%nat) as Hl by lia.
    exists (take 33 (drop 1 s)), (take 20 (drop 41 s)).
    fixed_list s Hl. cbn in *. by subst.
  - intros (key & hash & Hkey & Hhash & ->). by apply Hc.
  - apply (Hc k (be_bytes 20 (GetID k)) Hk). apply be_bytes_length.
Qed.

#[local] Instance script_crypto : Crypto := {|
  Hash160 := foldl (λ h b, uint32 (h * 31 + b)) 7;
  IsFullyValid := λ k, bool_decide (length k = 33%nat);
|}.

Lemma finalizer_commit_template_witness :
  let s := commit_script (replicate 33 2) (replicate 20 5) in
  IsFinalizerCommitScript s = true ∧
  IsFinalizerCommitScript (CreateFinalizerCommitScript (replicate 33 2)) = true.
Proof.
  destruct (finalizer_commit_template (commit_script (replicate 33 2) (replicate 20 5))
    (replicate 33 2) ltac:(vm_compute; reflexivity) eq_refl) as [Hiff Hk].
  split; [|exact Hk]. apply Hiff. by exists (replicate 33 2), (replicate 20 5).
Defined.
