(* ===== verification/Standard.v ===== *)
(** * Standard output scripts: src/src/script/standard.cpp, standard.h

    [Solver] classifies an output script and takes the keys and hashes out of
    it.  Its result is [None] where the code returns false, with the type
    [TX_NONSTANDARD] and no solutions. *)
From S2P Require Import Prelude Serialize Admin Script ScriptProofs.

Inductive txnouttype :=
  | TX_NONSTANDARD
  | TX_PUBKEY
  | TX_PUBKEYHASH
  | TX_SCRIPTHASH
  | TX_MULTISIG
  | TX_NULL_DATA
  | TX_WITNESS_V0_SCRIPTHASH
  | TX_WITNESS_V0_KEYHASH
  | TX_WITNESS_V1_REMOTESTAKE_KEYHASH
  | TX_WITNESS_V2_REMOTESTAKE_SCRIPTHASH
  | TX_WITNESS_UNKNOWN
  | TX_COMMIT.

#[export] Instance txnouttype_eq_dec : EqDecision txnouttype.
Proof. solve_decision. Defined.

(** The bytes from [a] up to [b]. *)
Definition slice (s : CScript) (a b : nat) : bytes := take (b - a) (drop a s).

(** [CPubKey::ValidSize]. *)
Definition ValidSize (vch : bytes) : bool :=
  bool_decide (0 < length vch)%nat && bool_decide (GetLen (at_ vch 0) = length vch).

Definition MatchPayToPubkey (script : CScript) : option bytes :=
  if bool_decide (length script = PUBLIC_KEY_SIZE + 2)%nat &&
     bool_decide (at_ script 0 = Z.of_nat PUBLIC_KEY_SIZE) &&
     bool_decide (back script = OP_CHECKSIG)
  then
    let pubkey := slice script 1 (PUBLIC_KEY_SIZE + 1) in
    if ValidSize pubkey then Some pubkey else None
  else if bool_decide (length script = COMPRESSED_PUBLIC_KEY_SIZE + 2)%nat &&
          bool_decide (at_ script 0 = Z.of_nat COMPRESSED_PUBLIC_KEY_SIZE) &&
          bool_decide (back script = OP_CHECKSIG)
  then
    let pubkey := slice script 1 (COMPRESSED_PUBLIC_KEY_SIZE + 1) in
    if ValidSize pubkey then Some pubkey else None
  else None.

Definition MatchPayToPubkeyHash (script : CScript) : option bytes :=
  if bool_decide (length script = 25)%nat && bool_decide (at_ script 0 = OP_DUP) &&
     bool_decide (at_ script 1 = OP_HASH160) && bool_decide (at_ script 2 = 20) &&
     bool_decide (at_ script 23 = OP_EQUALVERIFY) && bool_decide (at_ script 24 = OP_CHECKSIG)
  then Some (slice script 3 23)
  else None.

Definition IsSmallInteger (opcode : Z) : bool := bool_decide (OP_1 ≤ opcode ≤ OP_16).

(** The [while] of [MatchMultisig]: the keys, the last opcode read and the
    position after it. *)
Fixpoint multisig_keys (fuel : nat) (it : CScript) : list bytes * Z * CScript :=
  match fuel with
  | O => ([], OP_INVALIDOPCODE, it)
  | S fuel =>
      match GetScriptOp it with
      | (None, it) => ([], OP_INVALIDOPCODE, it)
      | (Some (opcode, data), it) =>
          if ValidSize data then
            let '(keys, opcode, it) := multisig_keys fuel it in (data :: keys, opcode, it)
          else ([], opcode, it)
      end
  end.

(** The number of required signatures and the keys. *)
Definition MatchMultisig (script : CScript) : outcome (option (Z * list bytes)) :=
  if decide (length script < 1%nat ∨ back script ≠ OP_CHECKMULTISIG)%nat then Ok None
  else
    match GetScriptOp script with
    | (None, _) => Ok None
    | (Some (opcode, _), it) =>
        if negb (IsSmallInteger opcode) then Ok None
        else
          required ← DecodeOP_N opcode;
          let '(pubkeys, opcode, it) := multisig_keys (length script) it in
          if negb (IsSmallInteger opcode) then Ok None
          else
            keys ← DecodeOP_N opcode;
            if decide (Z.of_nat (length pubkeys) ≠ keys ∨ keys < required) then Ok None
            else if decide (length it = 1%nat) then Ok (Some (required, pubkeys))
            else Ok None
    end.

(** The part of [Solver] that follows a successful [ExtractWitnessProgram]. *)
Definition Solver_witness (w : WitnessProgram) : option (txnouttype * list bytes) :=
  let prog (i : nat) := default [] (program w !! i) in
  if WP_IsPayToPubkeyHash w then Some (TX_WITNESS_V0_KEYHASH, [prog 0%nat])
  else if WP_IsPayToScriptHash w then Some (TX_WITNESS_V0_SCRIPTHASH, [prog 0%nat])
  else if IsRemoteStakingP2WPKH w then
    Some (TX_WITNESS_V1_REMOTESTAKE_KEYHASH, [prog 0%nat; prog 1%nat])
  else if IsRemoteStakingP2WSH w then
    Some (TX_WITNESS_V2_REMOTESTAKE_SCRIPTHASH, [prog 0%nat; prog 1%nat])
  else if decide (2 < version w) then
    Some (TX_WITNESS_UNKNOWN, [uint8 (version w)] :: program w)
  else None.

Definition Solver (scriptPubKey : CScript) : outcome (option (txnouttype * list bytes)) :=
  if IsPayToScriptHash scriptPubKey then
    Ok (Some (TX_SCRIPTHASH, [slice scriptPubKey 2 22]))
  else if IsFinalizerCommitScript scriptPubKey then
    Ok (Some (TX_COMMIT, [slice scriptPubKey 1 34]))
  else
    witnessProgram ← ExtractWitnessProgram scriptPubKey;
    match witnessProgram with
    | Some w => Ok (Solver_witness w)
    | None =>
        if bool_decide (1 ≤ length scriptPubKey)%nat &&
           bool_decide (at_ scriptPubKey 0 = OP_RETURN) && IsPushOnly (drop 1 scriptPubKey)
        then Ok (Some (TX_NULL_DATA, []))
        else
          match MatchPayToPubkey scriptPubKey with
          | Some data => Ok (Some (TX_PUBKEY, [data]))
          | None =>
              match MatchPayToPubkeyHash scriptPubKey with
              | Some data => Ok (Some (TX_PUBKEYHASH, [data]))
              | None =>
                  multisig ← MatchMultisig scriptPubKey;
                  match multisig with
                  | Some (required, keys) =>
                      Ok (Some (TX_MULTISIG,
                        [uint8 required] :: keys ++ [[uint8 (Z.of_nat (length keys))]]))
                  | None => Ok None
                  end
              end
          end
    end.

(** ** Creating scripts *)

Definition GetScriptForRawPubKey (pubKey : CPubKey) : CScript :=
  push_data pubKey ++ [OP_CHECKSIG].

Definition GetScriptForMultisig (nRequired : Z) (keys : list CPubKey) : outcome CScript :=
  m ← EncodeOP_N nRequired;
  n ← EncodeOP_N (Z.of_nat (length keys));
  Ok ([m] ++ concat (push_data <$> keys) ++ [n; OP_CHECKMULTISIG]).

(** ** Properties *)

Lemma DecodeOP_N_small op : OP_1 ≤ op ≤ OP_16 → DecodeOP_N op = Ok (op - (OP_1 - 1)).
Proof.
  intros Hop. unfold DecodeOP_N. rewrite decide_False by (unfold OP_0, OP_1 in *; lia).
  by rewrite bool_decide_eq_true_2.
Qed.

(** A decoded version is one the asserts accept. *)
Lemma ExtractWitnessProgram_returns s : returns (ExtractWitnessProgram s).
Proof.
  unfold ExtractWitnessProgram. destruct (IsWitnessProgram s) eqn:E; [|by eexists]. cbn [negb].
  unfold IsWitnessProgram in E. case_decide; [done|].
  destruct (GetScriptOp s) as [[[op data]|] pc]; [|done]. case_decide as Hop; [done|].
  destruct (decide (op = OP_0)) as [->|].
  - walk. by eexists.
  - walk. rewrite DecodeOP_N_small by lia. by eexists.
Qed.

Lemma MatchMultisig_returns s : returns (MatchMultisig s).
Proof.
  unfold MatchMultisig. case_decide; [by eexists|].
  destruct (GetScriptOp s) as [[[op data]|] pc]; [|by eexists].
  destruct (IsSmallInteger op) eqn:E1; [|by eexists]. cbn [negb].
  apply bool_decide_eq_true in E1. rewrite (DecodeOP_N_small op) by done. cbn [mbind outcome_bind].
  destruct (multisig_keys _ _) as [[keys op2] it].
  destruct (IsSmallInteger op2) eqn:E2; [|by eexists]. cbn [negb].
  apply bool_decide_eq_true in E2. rewrite (DecodeOP_N_small op2) by done. cbn [mbind outcome_bind].
  repeat case_decide; by eexists.
Qed.

(** Classifying a script never runs into an assertion. *)
Lemma Solver_returns s : returns (Solver s).
Proof.
  unfold Solver. destruct (IsPayToScriptHash s); [by eexists|].
  destruct (IsFinalizerCommitScript s); [by eexists|].
  apply returns_bind; [apply ExtractWitnessProgram_returns|]. intros [w|] _; [by eexists|].
  destruct (_ && _ && _); [by eexists|]. destruct (MatchPayToPubkey s); [by eexists|].
  destruct (MatchPayToPubkeyHash s); [by eexists|].
  apply returns_bind; [apply MatchMultisig_returns|]. intros [[]|] _; by eexists.
Qed.

Lemma Solver_commit s :
  IsFinalizerCommitScript s = true → Solver s = Ok (Some (TX_COMMIT, [slice s 1 34])).
Proof.
  intros Hs. unfold Solver. rewrite Hs.
  destruct (IsPayToScriptHash s) eqn:E; [|done]. exfalso.
  unfold IsPayToScriptHash in E. unfold IsFinalizerCommitScript, MatchFinalizerCommitScript in Hs.
  split_andb. by replace (length s) with 23%nat in *.
Qed.

Lemma witness_first_op s op pc :
  GetScriptOp s = (Some (op, []), pc) → OP_16 < op → ExtractWitnessProgram s = Ok None.
Proof.
  intros Hop Hr. unfold ExtractWitnessProgram, IsWitnessProgram. rewrite Hop.
  case_decide; [done|]. by rewrite decide_True by (unfold OP_0, OP_16 in *; lia).
Qed.

Lemma Solver_p2pkh s :
  IsPayToPublicKeyHash s = true → Solver s = Ok (Some (TX_PUBKEYHASH, [slice s 3 23])).
Proof.
  intros Hs. unfold IsPayToPublicKeyHash in Hs. unfold Solver.
  assert (length s = 25%nat ∧ at_ s 0 = OP_DUP) as [Hlen H0] by (clear -Hs; by split_andb).
  assert (IsPayToScriptHash s = false) as ->.
  { unfold IsPayToScriptHash. by rewrite bool_decide_eq_false_2 by lia. }
  assert (IsFinalizerCommitScript s = false) as ->.
  { unfold IsFinalizerCommitScript, MatchFinalizerCommitScript. by rewrite Hlen. }
  destruct s as [|op s]; [done|]. cbn in H0. subst op.
  rewrite (witness_first_op _ OP_DUP s) by done. cbn [mbind outcome_bind].
  rewrite (bool_decide_eq_false_2 (at_ (OP_DUP :: s) 0 = OP_RETURN)) by done.
  rewrite andb_false_r. cbn [andb].
  assert (MatchPayToPubkey (OP_DUP :: s) = None) as ->.
  { unfold MatchPayToPubkey. by rewrite Hlen. }
  unfold MatchPayToPubkeyHash. by rewrite Hs.
Qed.

(** ** Multisignature scripts *)

Definition key_ok (k : CPubKey) : Prop := ValidSize k = true.

Lemma GetLen_max h : (GetLen h ≤ 65)%nat.
Proof.
  unfold GetLen, PUBLIC_KEY_SIZE, COMPRESSED_PUBLIC_KEY_SIZE. repeat case_decide; lia.
Qed.

Lemma key_ok_length k : key_ok k → (0 < length k ≤ 65)%nat.
Proof.
  unfold key_ok, ValidSize. rewrite andb_true_iff, !bool_decide_eq_true. intros [H1 H2].
  pose proof (GetLen_max (at_ k 0)). lia.
Qed.

Lemma GetScriptOp_push_key k rest :
  key_ok k → GetScriptOp (push_data k ++ rest) = (Some (Z.of_nat (length k), k), rest).
Proof.
  intros Hk%key_ok_length. rewrite GetScriptOp_push_data by lia. unfold push_opcode, OP_PUSHDATA1.
  by decide_lia.
Qed.

Lemma multisig_keys_spec keys op rest fuel :
  Forall key_ok keys → OP_1 ≤ op → (length keys < fuel)%nat →
  multisig_keys fuel (concat (push_data <$> keys) ++ op :: rest) = (keys, op, rest).
Proof.
  intros Hk Hop. revert fuel. induction Hk as [|k keys Hk Hks IH]; intros fuel Hf;
    (destruct fuel as [|fuel]; [cbn in Hf; lia|]); cbn [fmap list_fmap concat app multisig_keys].
  - rewrite GetScriptOp_opcode by (unfold OP_1, OP_PUSHDATA4 in *; lia). done.
  - rewrite <- app_assoc, GetScriptOp_push_key, Hk, IH by (done || (cbn in Hf; lia)). done.
Qed.

Lemma multisig_not_witness keys op rest fuel :
  Forall key_ok keys → OP_1 ≤ op →
  witness_pushes_ok fuel (concat (push_data <$> keys) ++ op :: rest) = false.
Proof.
  intros Hk Hop. revert fuel. induction Hk as [|k keys Hk Hks IH]; intros [|fuel];
    cbn [fmap list_fmap concat app witness_pushes_ok]; try done.
  - rewrite GetScriptOp_opcode by (unfold OP_1, OP_PUSHDATA4 in *; lia).
    rewrite decide_True by (unfold OP_1 in *; lia). done.
  - rewrite <- app_assoc, GetScriptOp_push_key by done.
    case_decide; [done|].
    destruct (concat _ ++ op :: rest) as [|b l] eqn:E; [by destruct (concat _)|].
    apply IH.
Qed.

Lemma concat_push_length (keys : list CPubKey) :
  (length keys ≤ length (concat (push_data <$> keys)))%nat.
Proof.
  induction keys as [|k keys IH]; cbn; [lia|]. rewrite length_app.
  assert (0 < length (push_data k))%nat; [|lia].
  unfold push_data. rewrite length_app. repeat case_decide; cbn; lia.
Qed.

Lemma EncodeOP_N_small n : 1 ≤ n ≤ 16 → EncodeOP_N n = Ok (OP_1 + n - 1).
Proof. intros Hn. unfold EncodeOP_N. rewrite bool_decide_eq_true_2 by lia. cbn. by decide_lia. Qed.

(** A script that starts with the opcode of a small number is not one of the
    templates [Solver] looks for before multisignatures. *)
Lemma Solver_small_op op s :
  OP_1 ≤ op ≤ OP_16 → witness_pushes_ok (S (length s)) s = false →
  Solver (op :: s) =
  (multisig ← MatchMultisig (op :: s);
   match multisig with
   | Some (required, keys) =>
       Ok (Some (TX_MULTISIG, [uint8 required] :: keys ++ [[uint8 (Z.of_nat (length keys))]]))
   | None => Ok None
   end).
Proof.
  intros Hop Hw. unfold Solver.
  assert (IsPayToScriptHash (op :: s) = false) as ->.
  { unfold IsPayToScriptHash. rewrite (bool_decide_eq_false_2 (at_ _ 0 = OP_HASH160)).
    - by rewrite andb_false_r.
    - cbn. unfold OP_16, OP_HASH160 in *. lia. }
  assert (IsFinalizerCommitScript (op :: s) = false) as ->.
  { unfold IsFinalizerCommitScript, MatchFinalizerCommitScript.
    rewrite (bool_decide_eq_false_2 (at_ _ (0 + 0) = 0x21)) by (cbn; unfold OP_1 in *; lia).
    by rewrite andb_false_r. }
  assert (ExtractWitnessProgram (op :: s) = Ok None) as ->.
  { unfold ExtractWitnessProgram, IsWitnessProgram. cbn [length].
    rewrite GetScriptOp_opcode by (unfold OP_1, OP_PUSHDATA4 in *; lia).
    repeat case_decide; try done; [unfold OP_0, OP_1 in *; lia|]. by rewrite Hw. }
  cbn [mbind outcome_bind].
  rewrite (bool_decide_eq_false_2 (at_ (op :: s) 0 = OP_RETURN)), andb_false_r
    by (cbn; unfold OP_RETURN, OP_16 in *; lia). cbn [andb].
  assert (MatchPayToPubkey (op :: s) = None) as ->.
  { unfold MatchPayToPubkey.
    rewrite (bool_decide_eq_false_2 (at_ (op :: s) 0 = Z.of_nat PUBLIC_KEY_SIZE)),
      (bool_decide_eq_false_2 (at_ (op :: s) 0 = Z.of_nat COMPRESSED_PUBLIC_KEY_SIZE)),
      !andb_false_r by (change (op ≠ 65) || change (op ≠ 33); unfold OP_1 in *; lia). done. }
  assert (MatchPayToPubkeyHash (op :: s) = None) as ->; [|done].
  unfold MatchPayToPubkeyHash.
  rewrite (bool_decide_eq_false_2 (at_ (op :: s) 0 = OP_DUP)), andb_false_r
    by (cbn; unfold OP_DUP, OP_16 in *; lia). done.
Qed.

(** The scripts the code creates for payments are the ones it recognizes.
    A multisignature script for [m] of up to 16 valid keys is solved as
    [TX_MULTISIG] with the same numbers and keys, a pay-to-public-key-hash
    script as [TX_PUBKEYHASH] with the same hash. *)
Theorem created_scripts_are_solved m keys script hash :
  1 ≤ m ≤ Z.of_nat (length keys) → Z.of_nat (length keys) ≤ 16 → Forall key_ok keys →
  GetScriptForMultisig m keys = Ok script → length hash = 20%nat →
  Solver script = Ok (Some (TX_MULTISIG, [m] :: keys ++ [[Z.of_nat (length keys)]])) ∧
  Solver (CreateP2PKHScript hash) = Ok (Some (TX_PUBKEYHASH, [hash])).
Proof.
  intros Hm Hn Hk Hs Hh. split.
  - unfold GetScriptForMultisig in Hs. rewrite !EncodeOP_N_small in Hs by lia.
    cbn [mbind outcome_bind] in Hs. injection Hs as <-.
    set (n := Z.of_nat (length keys)) in *. set (body := concat (push_data <$> keys)).
    cbn [app]. rewrite Solver_small_op; [|unfold OP_1, OP_16; lia|by apply multisig_not_witness; [|unfold OP_1; lia]].
    unfold MatchMultisig. rewrite decide_False.
    2: { intros [Hc|Hc]; [cbn in Hc; lia|]. apply Hc.
         rewrite (app_comm_cons body), (app_assoc _ [OP_1 + n - 1] [OP_CHECKMULTISIG]). apply back_snoc. }
    rewrite GetScriptOp_opcode by (unfold OP_1, OP_PUSHDATA4; lia).
    unfold IsSmallInteger. rewrite bool_decide_eq_true_2 by (unfold OP_1, OP_16; lia). cbn [negb].
    rewrite DecodeOP_N_small by (unfold OP_1, OP_16; lia). cbn [mbind outcome_bind].
    subst body. rewrite multisig_keys_spec; [|done|unfold OP_1; lia|].
    2: { cbn [length]. pose proof (concat_push_length keys). rewrite length_app. lia. }
    rewrite bool_decide_eq_true_2 by (unfold OP_1, OP_16; lia). cbn [negb].
    rewrite DecodeOP_N_small by (unfold OP_1, OP_16; lia). cbn [mbind outcome_bind].
    rewrite decide_False by lia. cbn [mbind outcome_bind length decide]. rewrite decide_True by done.
    cbn [mbind outcome_bind]. unfold uint8. fold n.
    replace (OP_1 + m - 1 - (OP_1 - 1)) with m by lia. rewrite !Z.mod_small by lia. done.
  - fixed_list hash Hh. by rewrite Solver_p2pkh.
Qed.

Lemma created_scripts_are_solved_witness :
  let k1 := 2 :: replicate 32 7 in
  let k2 := 3 :: replicate 32 9 in
  let hash := replicate 20 5 in
  Solver ([0x51] ++ (0x21 :: k1) ++ (0x21 :: k2) ++ [0x52; 0xae]) =
    Ok (Some (TX_MULTISIG, [[1]; k1; k2; [2]])) ∧
  Solver (CreateP2PKHScript hash) = Ok (Some (TX_PUBKEYHASH, [hash])).
Proof.
  apply (created_scripts_are_solved 1 [2 :: replicate 32 7; 3 :: replicate 32 9]);
    [cbn; lia|cbn; lia| |reflexivity|reflexivity].
  repeat (apply Forall_cons; split; [reflexivity|]). apply Forall_nil. exact I.
Defined.
