(* ===== verification/CommitScripts.v ===== *)
(** * Finalizer messages in scripts: src/src/script/script.cpp,
    src/src/esperanza/admincommand.cpp

    Votes travel in the [scriptSig] of vote and slash transactions, the
    administrator keys in the witness of admin transactions and the
    administrator commands in data outputs.  The decoders return [None] where
    the code returns false. *)
From S2P Require Import Prelude Serialize Admin Params FinalizationData FinalizationOps.
From S2P Require Import FinalizationTypes StateFormat Script ScriptProofs Scenario.

(** [GetOp(it, opcode, data)] for a reader that gives up on failure. *)
Definition GetData (it : CScript) : option (bytes * CScript) :=
  match GetScriptOp it with
  | (Some (_, data), it) => Some (data, it)
  | (None, _) => None
  end.

(** ** Votes *)

Definition MAX_UINT32_T : Z := 2 ^ 32 - 1.

Definition DecodeVote (script : CScript) : option (Vote * bytes) :=
  '(voteSig, it) ← GetData script;
  '(validator, it) ← GetData it;
  if decide (length validator ≠ 20%nat) then None
  else
    let validatorAddress := be_value validator in
    '(target, it) ← GetData it;
    if decide (length target ≠ 32%nat) then None
    else
      let targetHash := be_value target in
      '(sourceEpochVec, it) ← GetData it;
      sourceEpoch ← CScriptNum_deserialize 0 MAX_UINT32_T sourceEpochVec;
      '(targetEpochVec, it) ← GetData it;
      targetEpoch ← CScriptNum_deserialize 0 MAX_UINT32_T targetEpochVec;
      if decide (it = []) then
        Some ({| m_validator_address := validatorAddress; m_target_hash := targetHash;
                 m_source_epoch := sourceEpoch; m_target_epoch := targetEpoch |}, voteSig)
      else None.

Definition EncodeVote (data : Vote) (voteSig : bytes) : outcome CScript :=
  _ ← cpp_assert (bool_decide (voteSig ≠ []));
  Ok (push_data voteSig ++
      push_data (be_bytes 20 (m_validator_address data)) ++
      push_data (be_bytes 32 (m_target_hash data)) ++
      push_data (CScriptNum_serialize (m_source_epoch data)) ++
      push_data (CScriptNum_serialize (m_target_epoch data))).

(** The first value is the signature of the transaction. *)
Definition ExtractVoteFromVoteSignature (scriptSig : CScript) : option (Vote * bytes) :=
  '(_, pc) ← GetData scriptSig;
  '(vData, _) ← GetData pc;
  DecodeVote vData.

Definition ExtractVotesFromSlashSignature (scriptSig : CScript) :
  option ((Vote * bytes) * (Vote * bytes)) :=
  '(vData, pc) ← GetData scriptSig;
  vote1 ← DecodeVote vData;
  '(vData, _) ← GetData pc;
  vote2 ← DecodeVote vData;
  Some (vote1, vote2).

(** ** Administrator keys *)

(** The [while] loop: the keys, and the position after the operation that is
    no key. *)
Fixpoint admin_keys_loop (fuel : nat) (it : CScript) : list CPubKey * CScript :=
  match fuel with
  | O => ([], it)
  | S fuel =>
      match GetScriptOp it with
      | (None, it) => ([], it)
      | (Some (_, buffer), it) =>
          if decide (length buffer = COMPRESSED_PUBLIC_KEY_SIZE) then
            let '(keys, it) := admin_keys_loop fuel it in (CPubKey_Set buffer :: keys, it)
          else ([], it)
      end
  end.

Definition ExtractAdminKeysFromWitness (stack : list bytes) : option (list CPubKey) :=
  if decide (length stack < 2)%nat then None
  else
    let script := default [] (last stack) in
    match GetScriptOp script with
    | (None, _) => None
    | (Some _, it) =>
        let '(outKeys, it) := admin_keys_loop (S (length script)) it in
        match GetScriptOp it with
        | (Some (opcode, _), it) =>
            if decide (opcode ≠ OP_CHECKMULTISIG) then None
            else if decide (it = []) then Some outKeys else None
        | (None, _) => None
        end
    end.

(** ** Administrator commands *)

Section admin_commands.
Context (garbage : bytes).

Definition EncodeAdminCommand (command : AdminCommand) : CScript :=
  let data := enc (AdminCommand_format garbage) command in
  [OP_RETURN] ++ push_data data.

Definition MatchAdminCommand (script : CScript) : bool :=
  negb (bool_decide (script = [])) && bool_decide (at_ script 0 = OP_RETURN).

Definition DecodeAdminCommand (script : CScript) : option AdminCommand :=
  match GetScriptOp script with
  | (None, _) => None
  | (Some (opcode, _), it) =>
      if decide (opcode ≠ OP_RETURN) then None
      else
        '(data, _) ← GetData it;
        '(command, _) ← dec (AdminCommand_format garbage) data;
        if AdminCommand_IsValid command then Some command else None
  end.
End admin_commands.

(** ** Round trips *)

Lemma GetData_push b rest :
  Z.of_nat (length b) < 2 ^ 32 → GetData (push_data b ++ rest) = Some (b, rest).
Proof. intros Hb. unfold GetData. by rewrite GetScriptOp_push_data. Qed.

Lemma CScriptNum_serialize_length v :
  is_int64 v → (length (CScriptNum_serialize v) ≤ 9)%nat.
Proof.
  intros Hv. destruct (decide (v = - 2 ^ 63)) as [->|Hmin];
    [by apply Nat.leb_le|].
  pose proof (set_vch_serialize v Hv Hmin). lia.
Qed.

Lemma EncodeVote_Ok vote sig script :
  EncodeVote vote sig = Ok script →
  sig ≠ [] ∧
  script = push_data sig ++ push_data (be_bytes 20 (m_validator_address vote)) ++
    push_data (be_bytes 32 (m_target_hash vote)) ++
    push_data (CScriptNum_serialize (m_source_epoch vote)) ++
    push_data (CScriptNum_serialize (m_target_epoch vote)).
Proof.
  unfold EncodeVote. rewrite bind_Ok. intros (u & Hsig%cpp_assert_Ok & [= H]).
  split; [by apply bool_decide_eq_true in Hsig|done].
Qed.

Lemma DecodeVote_EncodeVote vote sig script :
  typed_vote vote → Z.of_nat (length sig) < 2 ^ 32 →
  EncodeVote vote sig = Ok script → DecodeVote script = Some (vote, sig).
Proof.
  intros [Ha Hh Hs Ht] Hsig [_ ->]%EncodeVote_Ok.
  assert (∀ v, is_uint32 v → is_int64 v) as Hi by (unfold is_uint32, is_int64; lia).
  unfold DecodeVote. rewrite GetData_push by done. cbn [mbind option_bind].
    rewrite GetData_push by (rewrite be_bytes_length; lia). cbn [mbind option_bind].
  rewrite be_bytes_length, decide_False by lia. cbv zeta.
  rewrite GetData_push by (rewrite be_bytes_length; lia). cbn [mbind option_bind].
  rewrite be_bytes_length, decide_False by lia.
  pose proof (CScriptNum_serialize_length _ (Hi _ Hs)).
  pose proof (CScriptNum_serialize_length _ (Hi _ Ht)).
  rewrite GetData_push by lia. cbn [mbind option_bind].
  rewrite CScriptNum_roundtrip by (unfold is_uint32, is_int64, MAX_UINT32_T in *; lia).
  cbn [mbind option_bind]. rewrite <- (app_nil_r (push_data _)), GetData_push by lia.
  cbn [mbind option_bind].
  rewrite CScriptNum_roundtrip by (unfold is_uint32, is_int64, MAX_UINT32_T in *; lia).
  cbn [mbind option_bind]. rewrite decide_True by done.
  rewrite !be_value_bytes, !Z.mod_small by done. by destruct vote.
Qed.

(** Votes survive the trip through transactions.  A vote and its signature
    encoded by [EncodeVote] are extracted unchanged from the second push of a
    vote transaction's [scriptSig] and, two of them, from a slash
    transaction's. *)
Theorem vote_messages_roundtrip vote1 vote2 sig1 sig2 txsig s1 s2 rest :
  typed_vote vote1 → typed_vote vote2 →
  Z.of_nat (length sig1) < 2 ^ 16 → Z.of_nat (length sig2) < 2 ^ 16 →
  Z.of_nat (length txsig) < 2 ^ 32 →
  EncodeVote vote1 sig1 = Ok s1 → EncodeVote vote2 sig2 = Ok s2 →
  ExtractVoteFromVoteSignature (push_data txsig ++ push_data s1 ++ rest) = Some (vote1, sig1) ∧
  ExtractVotesFromSlashSignature (push_data s1 ++ push_data s2 ++ rest) =
    Some ((vote1, sig1), (vote2, sig2)).
Proof.
  intros Hv1 Hv2 Hs1 Hs2 Htx E1 E2.
  assert (∀ b, (length (push_data b) ≤ length b + 5)%nat) as Hpush.
  { intros b. unfold push_data. rewrite length_app. repeat case_decide; cbn; lia. }
  assert (∀ vote sig s, typed_vote vote → Z.of_nat (length sig) < 2 ^ 16 →
    EncodeVote vote sig = Ok s → Z.of_nat (length s) < 2 ^ 32) as Hlen.
  { intros vote sig s [_ _ Hs Ht] Hsig [_ ->]%EncodeVote_Ok.
    pose proof (CScriptNum_serialize_length (m_source_epoch vote)).
    pose proof (CScriptNum_serialize_length (m_target_epoch vote)).
    pose proof (Hpush sig). pose proof (Hpush (be_bytes 20 (m_validator_address vote))).
    pose proof (Hpush (be_bytes 32 (m_target_hash vote))).
    pose proof (Hpush (CScriptNum_serialize (m_source_epoch vote))).
    pose proof (Hpush (CScriptNum_serialize (m_target_epoch vote))).
    rewrite !be_bytes_length in *. rewrite !length_app.
    unfold is_uint32, is_int64 in *. lia. }
  unfold ExtractVoteFromVoteSignature, ExtractVotesFromSlashSignature.
  rewrite !GetData_push by eauto. cbn [mbind option_bind].
  rewrite !GetData_push by eauto. cbn [mbind option_bind].
  rewrite (DecodeVote_EncodeVote vote1 sig1 s1) by (done || lia). split; [done|].
  cbn [mbind option_bind]. rewrite ?GetData_push by eauto. cbn [mbind option_bind].
  by rewrite (DecodeVote_EncodeVote vote2 sig2 s2) by (done || lia).
Qed.

Lemma vote_messages_roundtrip_witness :
  let v1 := demo_vote 7 2 3 in
  let v2 := demo_conflicting_vote 7 2 3 in
  ∃ s1 s2, EncodeVote v1 [1; 2; 3] = Ok s1 ∧ EncodeVote v2 [4; 5] = Ok s2 ∧
    ExtractVotesFromSlashSignature (push_data s1 ++ push_data s2 ++ []) =
      Some ((v1, [1; 2; 3]), (v2, [4; 5])).
Proof.
  eexists _, _. split; [reflexivity|]. split; [reflexivity|].
  apply (vote_messages_roundtrip _ _ _ _ [9]); try reflexivity;
    try (split; cbn; unfold is_uint160, is_uint256, is_uint32; lia); cbn; lia.
Defined.

Lemma WriteCompactSize_length n : (length (WriteCompactSize n) ≤ 9)%nat.
Proof. unfold WriteCompactSize. repeat case_decide; cbn; lia. Qed.

Lemma CPubKey_enc_length garbage k : (length (enc (CPubKey_format garbage) k) ≤ 74)%nat.
Proof.
  cbn [enc CPubKey_format]. unfold CPubKey_Serialize.
  rewrite length_app, length_take. pose proof (WriteCompactSize_length (Z.of_nat (CPubKey_size k))).
  assert (CPubKey_size k ≤ 65)%nat; [|lia].
  destruct k as [|h k]; cbn; [lia|]. unfold GetLen, PUBLIC_KEY_SIZE, COMPRESSED_PUBLIC_KEY_SIZE.
  repeat case_decide; lia.
Qed.

Lemma AdminCommand_enc_length garbage c :
  Forall typed_pubkey (m_payload c) →
  (length (enc (AdminCommand_format garbage) c) ≤ 10 + 74 * length (m_payload c))%nat.
Proof.
  intros Hk. cbn [enc AdminCommand_format]. unfold AdminCommand_Serialize, vector_Serialize.
  rewrite !length_app. pose proof (WriteCompactSize_length (Z.of_nat (length (m_payload c)))).
  assert (length (concat (enc (CPubKey_format garbage) <$> m_payload c)) ≤
          74 * length (m_payload c))%nat; [|cbn [length ser_writedata8 le_bytes]; lia].
  clear -Hk. induction Hk as [|k ks [_ Hl] Hks IH]; cbn [fmap list_fmap concat length]; [lia|].
  rewrite length_app. pose proof (CPubKey_enc_length garbage k). lia.
Qed.

(** Administrator commands survive the trip through data outputs.  A valid
    command with well-formed keys is matched and decoded from the script
    [EncodeAdminCommand] produces. *)
Theorem admin_command_roundtrip garbage c :
  typed_command c → Z.of_nat (length (m_payload c)) < 2 ^ 16 →
  MatchAdminCommand (EncodeAdminCommand garbage c) = true ∧
  DecodeAdminCommand garbage (EncodeAdminCommand garbage c) = Some c.
Proof.
  intros [Hvalid Hkeys] Hlen. split; [done|].
  unfold DecodeAdminCommand, EncodeAdminCommand. cbn [app].
  rewrite GetScriptOp_opcode by done. rewrite decide_False by (intros Hc; by apply Hc).
  rewrite <- (app_nil_r (push_data _)), GetData_push.
  2: { pose proof (AdminCommand_enc_length garbage c Hkeys). lia. }
  cbn [mbind option_bind]. rewrite <- (app_nil_r (enc _ c)).
  rewrite (AdminCommand_roundtrip garbage c []).
  - cbn [mbind option_bind]. by rewrite Hvalid.
  - split; [unfold size_ok, MAX_SIZE; lia|done].
Qed.

Lemma admin_command_roundtrip_witness :
  let c := {| m_command_type := ADD_TO_WHITELIST; m_payload := [2 :: replicate 32 7] |} in
  DecodeAdminCommand [] (EncodeAdminCommand [] c) = Some c.
Proof.
  apply (admin_command_roundtrip [] {| m_command_type := ADD_TO_WHITELIST;
    m_payload := [2 :: replicate 32 7] |}); [|cbn; lia].
  split; [reflexivity|]. apply Forall_cons. split; [|by apply Forall_nil].
  split; [|reflexivity]. apply Forall_cons. split; [lia|]. apply Forall_replicate. lia.
Defined.

(** A command byte that names no command type is read as
    REMOVE_FROM_WHITELIST, the type of the default constructor. *)
Lemma unknown_command_type_removes :
  DecodeAdminCommand [] ([OP_RETURN] ++ push_data (99 :: 1 :: 33 :: 2 :: replicate 32 7)) =
  Some {| m_command_type := REMOVE_FROM_WHITELIST; m_payload := [2 :: replicate 32 7] |}.
Proof. vm_compute. reflexivity. Qed.
