(* ===== verification/Transaction.v ===== *)
(** * Transactions: src/src/primitives/transaction.h, transaction.cpp, txtype.h,
    src/src/amount.h

    A [CTransaction] and a [CMutableTransaction] have the same four fields;
    the hash a [CTransaction] caches is the one its constructor computes from
    them.  The double SHA-256 behind [SerializeHash] is a parameter. *)
From S2P Require Import Prelude Serialize Params Script.

(** [CHash256], as the value of a [uint256]. *)
Class Hashing := { Hash256 : bytes → Z }.

(** ** Types of transactions *)

Inductive TxType :=
  | REGULAR
  | COINBASE
  | DEPOSIT
  | VOTE
  | LOGOUT
  | SLASH
  | WITHDRAW
  | ADMIN.

#[export] Instance TxType_eq_dec : EqDecision TxType.
Proof. solve_decision. Defined.

Definition TxType_value (t : TxType) : Z :=
  match t with
  | REGULAR => 0 | COINBASE => 1 | DEPOSIT => 2 | VOTE => 3
  | LOGOUT => 4 | SLASH => 5 | WITHDRAW => 6 | ADMIN => 7
  end.

(** [TxType::_from_index_unchecked]: an index out of range gives the
    enumerator with the value zero. *)
Definition TxType_from_index_unchecked (index : Z) : TxType :=
  if decide (index = 1) then COINBASE
  else if decide (index = 2) then DEPOSIT
  else if decide (index = 3) then VOTE
  else if decide (index = 4) then LOGOUT
  else if decide (index = 5) then SLASH
  else if decide (index = 6) then WITHDRAW
  else if decide (index = 7) then ADMIN
  else REGULAR.

(** ** Inputs and outputs *)

(** [outpoint_hash] and [outpoint_n] are the members [hash] and [n]. *)
Record COutPoint := {
  outpoint_hash : Z;
  outpoint_n : Z;
}.

#[export] Instance COutPoint_eq_dec : EqDecision COutPoint.
Proof. solve_decision. Defined.

Definition COutPoint_null : COutPoint := {| outpoint_hash := 0; outpoint_n := 2 ^ 32 - 1 |}.

Definition COutPoint_IsNull (o : COutPoint) : bool :=
  bool_decide (outpoint_hash o = 0) && bool_decide (outpoint_n o = 2 ^ 32 - 1).

Definition COutPoint_ltb (a b : COutPoint) : bool :=
  bool_decide (outpoint_hash a < outpoint_hash b) ||
  (bool_decide (outpoint_hash a = outpoint_hash b) && bool_decide (outpoint_n a < outpoint_n b)).

Definition SEQUENCE_FINAL : Z := 0xffffffff.
Definition SEQUENCE_LOCKTIME_DISABLE_FLAG : Z := Z.shiftl 1 31.
Definition SEQUENCE_LOCKTIME_TYPE_FLAG : Z := Z.shiftl 1 22.
Definition SEQUENCE_LOCKTIME_MASK : Z := 0x0000ffff.
Definition SEQUENCE_LOCKTIME_GRANULARITY : Z := 9.

(** [scriptWitness] is the stack of the [CScriptWitness]. *)
Record CTxIn := {
  prevout : COutPoint;
  scriptSig : CScript;
  nSequence : Z;
  scriptWitness : list bytes;
}.

#[export] Instance CTxIn_eq_dec : EqDecision CTxIn.
Proof. solve_decision. Defined.

(** [operator==] leaves the witness out. *)
Definition CTxIn_eqb (a b : CTxIn) : bool :=
  bool_decide (prevout a = prevout b) && bool_decide (scriptSig a = scriptSig b) &&
  bool_decide (nSequence a = nSequence b).

Definition CTxIn_new (prevoutIn : COutPoint) (scriptSigIn : CScript) (nSequenceIn : Z) : CTxIn :=
  {| prevout := prevoutIn; scriptSig := scriptSigIn; nSequence := nSequenceIn; scriptWitness := [] |}.

Record CTxOut := {
  nValue : Z;
  scriptPubKey : CScript;
}.

#[export] Instance CTxOut_eq_dec : EqDecision CTxOut.
Proof. solve_decision. Defined.

Definition CTxOut_null : CTxOut := {| nValue := -1; scriptPubKey := [] |}.
Definition CTxOut_IsNull (o : CTxOut) : bool := bool_decide (nValue o = -1).

(** ** Transactions *)

Record CTransaction := {
  vin : list CTxIn;
  vout : list CTxOut;
  nVersion : Z;
  nLockTime : Z;
}.

#[export] Instance CTransaction_eq_dec : EqDecision CTransaction.
Proof. solve_decision. Defined.

Definition CURRENT_VERSION : Z := 2.

Definition CMutableTransaction_new : CTransaction :=
  {| vin := []; vout := []; nVersion := CURRENT_VERSION; nLockTime := 0 |}.

Definition GetVersion (tx : CTransaction) : Z := nVersion tx mod 2 ^ 16.

Definition GetType (tx : CTransaction) : TxType :=
  TxType_from_index_unchecked (Z.shiftr (nVersion tx) 16).

Definition set_nVersion (x : Z) (tx : CTransaction) : CTransaction :=
  {| vin := vin tx; vout := vout tx; nVersion := x; nLockTime := nLockTime tx |}.

Definition SetType (type : TxType) (tx : CTransaction) : CTransaction :=
  set_nVersion (Z.lor (Z.land (nVersion tx) 0x0000FFFF) (Z.shiftl (TxType_value type) 16)) tx.

Definition SetVersion (type : Z) (tx : CTransaction) : CTransaction :=
  set_nVersion (Z.lor (Z.land (nVersion tx) 0xFFFF0000) (type mod 2 ^ 16)) tx.

Definition IsType (t : TxType) (tx : CTransaction) : bool := bool_decide (GetType tx = t).
Definition IsRegular := IsType REGULAR.
Definition IsCoinBase := IsType COINBASE.
Definition IsDeposit := IsType DEPOSIT.
Definition IsVote := IsType VOTE.
Definition IsLogout := IsType LOGOUT.
Definition IsSlash := IsType SLASH.
Definition IsWithdraw := IsType WITHDRAW.
Definition IsAdmin := IsType ADMIN.

Definition IsFinalizerCommit (tx : CTransaction) : bool :=
  match GetType tx with
  | DEPOSIT | VOTE | LOGOUT | SLASH | WITHDRAW | ADMIN => true
  | REGULAR | COINBASE => false
  end.

Definition HasWitness (tx : CTransaction) : bool :=
  existsb (λ i, negb (bool_decide (scriptWitness i = []))) (vin tx).

(** ** Serialization *)

Definition COutPoint_format : format COutPoint :=
  record_format (uint256_format ⊗ uint32_format) (λ o, (outpoint_hash o, outpoint_n o))
    (λ '(h, i), {| outpoint_hash := h; outpoint_n := i |}).

(** A [CScript] is written like a vector of bytes. *)
Definition CScript_format : format CScript := byte_vector_format.

Definition CTxIn_format : format CTxIn :=
  record_format (COutPoint_format ⊗ CScript_format ⊗ uint32_format)
    (λ i, (prevout i, (scriptSig i, nSequence i)))
    (λ '(o, (s, q)), {| prevout := o; scriptSig := s; nSequence := q; scriptWitness := [] |}).

Definition CTxOut_format : format CTxOut :=
  record_format (int64_format ⊗ CScript_format) (λ o, (nValue o, scriptPubKey o))
    (λ '(v, s), {| nValue := v; scriptPubKey := s |}).

Definition witness_format : format (list bytes) := vector_format byte_vector_format.

Definition set_witness (w : list bytes) (i : CTxIn) : CTxIn :=
  {| prevout := prevout i; scriptSig := scriptSig i; nSequence := nSequence i; scriptWitness := w |}.

(** [for (i = 0; i < tx.vin.size(); i++) s >> tx.vin[i].scriptWitness.stack]. *)
Fixpoint read_witnesses (vin : list CTxIn) (s : bytes) : option (list CTxIn * bytes) :=
  match vin with
  | [] => Some ([], s)
  | i :: vin =>
      '(w, s) ← dec witness_format s;
      '(vin, s) ← read_witnesses vin s;
      Some (set_witness w i :: vin, s)
  end.

Definition UnserializeTransaction (fAllowWitness : bool) (s : bytes) :
  option (CTransaction * bytes) :=
  '(version, s) ← dec uint32_format s;
  '(vin, s) ← dec (vector_format CTxIn_format) s;
  '(flags, vin, vout, s) ←
    (if bool_decide (vin = []) && fAllowWitness then
       '(flags, s) ← dec uint8_format s;
       if decide (flags ≠ 0) then
         '(vin, s) ← dec (vector_format CTxIn_format) s;
         '(vout, s) ← dec (vector_format CTxOut_format) s;
         Some (flags, vin, vout, s)
       else Some (flags, vin, [], s)
     else
       '(vout, s) ← dec (vector_format CTxOut_format) s;
       Some (0, vin, vout, s));
  '(flags, vin, s) ←
    (if decide (Z.land flags 1 ≠ 0 ∧ fAllowWitness = true) then
       '(vin, s) ← read_witnesses vin s;
       Some (Z.lxor flags 1, vin, s)
     else Some (flags, vin, s));
  if decide (flags ≠ 0) then None
  else
    '(locktime, s) ← dec uint32_format s;
    Some ({| vin := vin; vout := vout; nVersion := version; nLockTime := locktime |}, s).

Definition SerializeTransaction (fAllowWitness : bool) (tx : CTransaction) : bytes :=
  let flags := if fAllowWitness && HasWitness tx then 1 else 0 in
  enc uint32_format (nVersion tx) ++
  (if decide (flags ≠ 0) then
     enc (vector_format CTxIn_format) [] ++ enc uint8_format flags
   else []) ++
  enc (vector_format CTxIn_format) (vin tx) ++
  enc (vector_format CTxOut_format) (vout tx) ++
  (if decide (Z.land flags 1 ≠ 0) then
     concat ((λ i, enc witness_format (scriptWitness i)) <$> vin tx)
   else []) ++
  enc uint32_format (nLockTime tx).

Section hash.
Context `{!Hashing}.

(** [ComputeHash] and [ComputeWitnessHash]. *)
Definition GetHash (tx : CTransaction) : Z := Hash256 (SerializeTransaction false tx).

Definition GetWitnessHash (tx : CTransaction) : Z :=
  if negb (HasWitness tx) then GetHash tx else Hash256 (SerializeTransaction true tx).
End hash.

(** ** Values *)

(** [MoneyRange]. *)
Definition MoneyRange (nValue : Z) : bool := bool_decide (0 ≤ nValue) && bool_decide (nValue ≤ MAX_MONEY).

(** [None] is the [std::runtime_error]. *)
Fixpoint GetValueOut_loop (vout : list CTxOut) (nValueOut : Z) : option Z :=
  match vout with
  | [] => Some nValueOut
  | tx_out :: vout =>
      let nValueOut := int64 (nValueOut + nValue tx_out) in
      if negb (MoneyRange (nValue tx_out)) || negb (MoneyRange nValueOut) then None
      else GetValueOut_loop vout nValueOut
  end.

Definition GetValueOut (tx : CTransaction) : option Z := GetValueOut_loop (vout tx) 0.

(** ** Types and versions *)

Lemma land_low_16 x : Z.land x 0x0000FFFF = x mod 2 ^ 16.
Proof. apply (Z.land_ones x 16). lia. Qed.

Lemma lor_low_16 x t : 0 ≤ x < 2 ^ 16 → Z.lor x (Z.shiftl t 16) = t * 2 ^ 16 + x.
Proof. intros. rewrite Z.lor_comm, lor_shiftl_add by lia. done. Qed.

Lemma land_high_16 x : is_uint32 x → Z.land x 0xFFFF0000 = Z.shiftl (x / 2 ^ 16) 16.
Proof.
  intros Hx. unfold is_uint32 in Hx.
  replace 0xFFFF0000 with (Z.shiftl (Z.ones 16) 16) by done.
  rewrite <- (Z.shiftr_div_pow2 x 16) by lia. apply Z.bits_inj'. intros i Hi.
  rewrite Z.land_spec, !Z.shiftl_spec by lia.
  destruct (decide (i < 16)); [by rewrite !(Z.testbit_neg_r _ (i - 16)), andb_false_r by lia|].
  rewrite Z.shiftr_spec, Z.sub_add by lia.
  destruct (decide (i < 32)).
  - rewrite Z.ones_spec_low by lia. apply andb_true_r.
  - rewrite Z.ones_spec_high, andb_false_r by lia. symmetry.
    rewrite <- (Z.mod_small x (2 ^ 32)) by lia. apply Z.mod_pow2_bits_high. lia.
Qed.

(** The type and the version of a transaction share [nVersion] without
    disturbing each other: setting one gives it back and keeps the other, and
    the field stays a [uint32_t]. *)
Theorem type_and_version_independent tx t v :
  is_uint32 (nVersion tx) → 0 ≤ v < 2 ^ 16 →
  GetType (SetType t tx) = t ∧ GetVersion (SetType t tx) = GetVersion tx ∧
  GetVersion (SetVersion v tx) = v ∧ GetType (SetVersion v tx) = GetType tx ∧
  is_uint32 (nVersion (SetType t tx)) ∧ is_uint32 (nVersion (SetVersion v tx)).
Proof.
  intros Hx Hv. pose proof Hx as Hr. unfold is_uint32 in Hr.
  set (x := nVersion tx) in *. pose proof (Z.mod_pos_bound x (2 ^ 16)). pose proof (Z.div_mod x (2 ^ 16)).
  assert (nVersion (SetType t tx) = TxType_value t * 2 ^ 16 + x mod 2 ^ 16) as Ht.
  { cbn. fold x. rewrite land_low_16, lor_low_16 by lia. done. }
  assert (nVersion (SetVersion v tx) = x / 2 ^ 16 * 2 ^ 16 + v) as Hsv.
  { cbn -[Z.land Z.lor]. fold x. rewrite land_high_16, (Z.mod_small v), lor_shiftl_add by done. done. }
  assert (0 ≤ TxType_value t ≤ 7) as Hval by (destruct t; cbn; lia).
  unfold GetType, GetVersion. rewrite Ht, Hsv, !Z.shiftr_div_pow2 by lia. fold x.
  rewrite !Z.div_add_l, !(Z.add_comm (_ * 2 ^ 16)), !Z_mod_plus_full by lia.
  rewrite Zmod_mod, (Z.div_small (x mod _)), (Z.div_small v), (Z.mod_small v), !Z.add_0_r by lia.
  unfold is_uint32. split_and!; [by destruct t|done|done|done|lia|lia|nia|nia].
Qed.

Lemma type_and_version_independent_witness :
  let tx := CMutableTransaction_new in
  GetType (SetType VOTE tx) = VOTE ∧ GetVersion (SetType VOTE tx) = 2.
Proof.
  destruct (type_and_version_independent CMutableTransaction_new VOTE 1) as (H1 & H2 & _);
    [cbn; unfold is_uint32, CURRENT_VERSION; lia|lia|]. split; [exact H1|exact H2].
Defined.

(** ** Round trips *)

Record typed_txin (i : CTxIn) : Prop := {
  ti_hash : 0 ≤ outpoint_hash (prevout i) < 2 ^ 256;
  ti_n : is_uint32 (outpoint_n (prevout i));
  ti_sig : size_ok (length (scriptSig i));
  ti_sequence : is_uint32 (nSequence i);
  ti_stack : size_ok (length (scriptWitness i)) ∧ Forall (λ w, size_ok (length w)) (scriptWitness i);
}.

Record typed_txout (o : CTxOut) : Prop := {
  to_value : is_int64 (nValue o);
  to_script : size_ok (length (scriptPubKey o));
}.

Record typed_tx (tx : CTransaction) : Prop := {
  tt_vin : size_ok (length (vin tx)) ∧ Forall typed_txin (vin tx);
  tt_vout : size_ok (length (vout tx)) ∧ Forall typed_txout (vout tx);
  tt_version : is_uint32 (nVersion tx);
  tt_locktime : is_uint32 (nLockTime tx);
}.

(** The transaction without its witnesses. *)
Definition strip_witness (tx : CTransaction) : CTransaction :=
  {| vin := set_witness [] <$> vin tx; vout := vout tx; nVersion := nVersion tx;
     nLockTime := nLockTime tx |}.

#[export] Instance COutPoint_roundtrip :
  RoundTrip COutPoint_format (λ o, 0 ≤ outpoint_hash o < 2 ^ 256 ∧ is_uint32 (outpoint_n o)).
Proof. intros o rest []. eapply (record_roundtrip _ _ _ _); [by intros []|by cbn]. Qed.

#[export] Instance CTxOut_roundtrip : RoundTrip CTxOut_format typed_txout.
Proof. intros o rest []. eapply (record_roundtrip _ _ _ _); [by intros []|by cbn]. Qed.

(** Inputs are read without their witnesses. *)
Lemma CTxIn_dec_enc i rest :
  typed_txin i → dec CTxIn_format (enc CTxIn_format i ++ rest) = Some (set_witness [] i, rest).
Proof.
  intros []. cbn [enc dec CTxIn_format record_format].
  rewrite (dec_enc (f := COutPoint_format ⊗ CScript_format ⊗ uint32_format)) by (by cbn).
  done.
Qed.

Lemma read_list_fmap {A} (f : format A) (g : A → A) xs rest :
  (∀ x r, x ∈ xs → dec f (enc f x ++ r) = Some (g x, r)) →
  read_list (dec f) (length xs) (concat (enc f <$> xs) ++ rest) = Some (g <$> xs, rest).
Proof.
  induction xs as [|x xs IH]; intros Hx; cbn; [done|].
  rewrite <- app_assoc, Hx by left. cbn. rewrite IH; [done|]. intros y r Hy. apply Hx. by right.
Qed.

Lemma vin_dec_enc tx rest :
  typed_tx tx →
  dec (vector_format CTxIn_format) (enc (vector_format CTxIn_format) (vin tx) ++ rest) =
  Some (set_witness [] <$> vin tx, rest).
Proof.
  intros [[Hsize Hvin] _ _ _]. cbn [enc dec vector_format].
  unfold vector_Serialize, vector_Unserialize.
  rewrite <- app_assoc, ReadCompactSize_size by done. cbn [mbind option_bind].
  rewrite Nat2Z.id. apply (read_list_fmap CTxIn_format (set_witness [])).
  intros i r Hi. rewrite Forall_forall in Hvin. by apply CTxIn_dec_enc, Hvin.
Qed.

Lemma read_witnesses_spec vin rest :
  Forall typed_txin vin →
  read_witnesses (set_witness [] <$> vin)
    (concat ((λ i, enc witness_format (scriptWitness i)) <$> vin) ++ rest) = Some (vin, rest).
Proof.
  induction 1 as [|i vin Hi Hvin IH]; cbn [fmap list_fmap concat read_witnesses]; [done|].
  rewrite <- app_assoc. destruct Hi.
  rewrite (dec_enc (f := witness_format)) by done. cbn [mbind option_bind].
  rewrite IH. cbn. by destruct i.
Qed.

Lemma strip_no_witness tx : HasWitness tx = false → strip_witness tx = tx.
Proof.
  intros Hw. destruct tx as [vin vout v l]. unfold strip_witness. cbn in *. f_equal.
  unfold HasWitness in Hw. cbn in Hw. induction vin as [|i vin IH]; [done|].
  cbn in Hw. apply orb_false_iff in Hw as [Hi Hv]. cbn. rewrite IH by done. f_equal.
  apply negb_false_iff, bool_decide_eq_true in Hi. destruct i. cbn in Hi. by subst.
Qed.

(** Without witnesses, whoever reads. *)
Lemma transaction_dec_enc_stripped b tx rest :
  typed_tx tx → vin tx ≠ [] →
  UnserializeTransaction b (SerializeTransaction false tx ++ rest) = Some (strip_witness tx, rest).
Proof.
  intros Ht Hne. pose proof Ht as [_ Hvout Hv Hl].
  unfold SerializeTransaction, UnserializeTransaction. cbn [andb].
  rewrite (decide_False (P := 0 ≠ 0)), (decide_False (P := Z.land 0 1 ≠ 0)) by (intros Hc; by apply Hc).
  cbn [app]. rewrite <- !app_assoc, (dec_enc (f := uint32_format)) by done. cbn [mbind option_bind].
  rewrite vin_dec_enc by done. cbn [mbind option_bind].
  rewrite bool_decide_eq_false_2 by (by destruct (vin tx)). cbn [andb].
  rewrite (dec_enc (f := vector_format CTxOut_format)) by done. cbn [mbind option_bind].
  rewrite decide_False by (intros [Hc _]; by apply Hc). cbn [mbind option_bind].
  rewrite decide_False by (intros Hc; by apply Hc).
  rewrite (dec_enc (f := uint32_format)) by done. done.
Qed.

Lemma transaction_dec_enc tx rest :
  typed_tx tx → vin tx ≠ [] →
  UnserializeTransaction true (SerializeTransaction true tx ++ rest) = Some (tx, rest).
Proof.
  intros Ht Hne. destruct (HasWitness tx) eqn:Hw.
  - pose proof Ht as [[_ Hvin] Hvout Hv Hl].
    unfold SerializeTransaction, UnserializeTransaction. rewrite Hw. cbn [andb].
    rewrite (decide_True (P := 1 ≠ 0)), (decide_True (P := Z.land 1 1 ≠ 0)) by done.
    rewrite <- !app_assoc, (dec_enc (f := uint32_format)) by done. cbn [mbind option_bind].
    rewrite (vin_dec_enc CMutableTransaction_new) by (by repeat split; try apply Forall_nil_2).
    cbn [mbind option_bind fmap list_fmap vin CMutableTransaction_new].
    rewrite bool_decide_eq_true_2 by done. cbn [andb].
    rewrite (dec_enc (f := uint8_format)) by done. cbn [mbind option_bind].
    rewrite (decide_True (P := 1 ≠ 0)) by done. rewrite vin_dec_enc by done.
    cbn [mbind option_bind]. rewrite (dec_enc (f := vector_format CTxOut_format)) by done.
    cbn [mbind option_bind]. rewrite decide_True by done. rewrite read_witnesses_spec by done.
    cbn [mbind option_bind]. rewrite decide_False by (intros Hc; by apply Hc).
    rewrite (dec_enc (f := uint32_format)) by done. by destruct tx.
  - replace (SerializeTransaction true tx) with (SerializeTransaction false tx)
      by (unfold SerializeTransaction; by rewrite Hw).
    by rewrite transaction_dec_enc_stripped, strip_no_witness.
Qed.

(** Round trip of transactions.  A transaction with at least one input is
    read back unchanged from its extended serialization, and from the one
    without witnesses as the same transaction stripped of them, whether or
    not the reader expects witnesses. *)
Theorem transaction_roundtrip tx rest b :
  typed_tx tx → vin tx ≠ [] →
  UnserializeTransaction true (SerializeTransaction true tx ++ rest) = Some (tx, rest) ∧
  UnserializeTransaction b (SerializeTransaction false tx ++ rest) = Some (strip_witness tx, rest).
Proof. intros. split; [by apply transaction_dec_enc|by apply transaction_dec_enc_stripped]. Qed.

Definition demo_tx : CTransaction :=
  {| vin := [{| prevout := {| outpoint_hash := 5; outpoint_n := 0 |}; scriptSig := [1; 2];
                nSequence := SEQUENCE_FINAL; scriptWitness := [[3]; []] |}];
     vout := [{| nValue := 100; scriptPubKey := [OP_TRUE] |}];
     nVersion := 2; nLockTime := 0 |}.

Lemma transaction_roundtrip_witness :
  UnserializeTransaction true (SerializeTransaction true demo_tx ++ [9]) = Some (demo_tx, [9]).
Proof.
  apply (transaction_roundtrip demo_tx [9] true); [|done].
  split; [split|split|..]; try (cbn; unfold is_uint32; lia); try (unfold size_ok; cbn; unfold MAX_SIZE; lia).
  - apply Forall_cons. split; [|by apply Forall_nil].
    split; cbn; try (unfold is_uint32, size_ok, MAX_SIZE, SEQUENCE_FINAL; cbn; lia).
    split; [unfold size_ok, MAX_SIZE; cbn; lia|].
    repeat (apply Forall_cons; split; [unfold size_ok, MAX_SIZE; cbn; lia|]). by apply Forall_nil.
  - apply Forall_cons. split; [|by apply Forall_nil].
    split; cbn; unfold is_int64, size_ok, MAX_SIZE; cbn; lia.
Defined.

(** Signatures in witnesses do not change the identity of a transaction.
    [GetHash] is the same for transactions that differ in their witnesses
    only, and without witnesses it is the witness hash as well. *)
Theorem txid_ignores_witness `{!Hashing} tx tx' :
  strip_witness tx = strip_witness tx' →
  GetHash tx = GetHash tx' ∧ (HasWitness tx = false → GetWitnessHash tx = GetHash tx').
Proof.
  intros H0. assert (∀ t, SerializeTransaction false t = SerializeTransaction false (strip_witness t)) as Hs.
  { intros t. unfold SerializeTransaction. cbn [andb].
    rewrite !(decide_False (P := Z.land 0 1 ≠ 0)) by (intros Hc; by apply Hc).
    cbn [vin vout nVersion nLockTime strip_witness]. do 3 f_equal.
    cbn [enc vector_format]. unfold vector_Serialize. rewrite length_fmap. f_equal.
    by rewrite <- list_fmap_compose. }
  assert (GetHash tx = GetHash tx') as Hh by (unfold GetHash; by rewrite (Hs tx), (Hs tx'), H0).
  split; [done|]. intros Hw. unfold GetWitnessHash. by rewrite Hw.
Qed.

Lemma txid_ignores_witness_witness :
  let h : Hashing := {| Hash256 := λ b, le_value b |} in
  GetHash demo_tx = GetHash (strip_witness demo_tx) ∧
  GetWitnessHash (strip_witness demo_tx) = GetHash demo_tx.
Proof.
  intros h. destruct (txid_ignores_witness demo_tx (strip_witness demo_tx)) as [Hid _]; [done|].
  destruct (txid_ignores_witness (strip_witness demo_tx) demo_tx) as [_ Hw]; [done|].
  split; [exact Hid|]. apply Hw. by vm_compute.
Defined.
