(* ===== verification/Block.v ===== *)
(** * Blocks and their Merkle roots: src/src/primitives/block.h and block.cpp,
    src/src/consensus/merkle.cpp

    The header of a block commits to its transactions, to their witnesses and
    to its finalizer commits with one Merkle root each.  The root of a list
    of hashes does not determine the list; [ComputeMerkleRoot] reports when a
    list could have been changed, and [merkle_root_binds] shows that this is
    enough. *)
From S2P Require Import Prelude Serialize Params Script Transaction.

Definition int32 (z : Z) : Z := (z + 2 ^ 31) mod 2 ^ 32 - 2 ^ 31.

Definition int32_format : format Z :=
  Format (λ x, ser_writedata32 (uint32 x)) (λ s, '(n, s) ← ser_readdata32 s; Some (int32 n, s)).

Record CBlockHeader := {
  block_nVersion : Z;
  hashPrevBlock : Z;
  hashMerkleRoot : Z;
  hash_witness_merkle_root : Z;
  hash_finalizer_commits_merkle_root : Z;
  block_nTime : Z;
  nBits : Z;
}.

Definition CBlockHeader_format : format CBlockHeader :=
  record_format
    (int32_format ⊗ uint256_format ⊗ uint256_format ⊗ uint256_format ⊗ uint256_format ⊗
     uint32_format ⊗ uint32_format)
    (λ h, (block_nVersion h, (hashPrevBlock h, (hashMerkleRoot h, (hash_witness_merkle_root h,
       (hash_finalizer_commits_merkle_root h, (block_nTime h, nBits h)))))))
    (λ '(v, (p, (m, (w, (f, (t, b)))))),
       {| block_nVersion := v; hashPrevBlock := p; hashMerkleRoot := m;
          hash_witness_merkle_root := w; hash_finalizer_commits_merkle_root := f;
          block_nTime := t; nBits := b |}).

(** Without the memory-only [fChecked]. *)
Record CBlock := {
  GetBlockHeader : CBlockHeader;
  vtx : list CTransaction;
  signature : bytes;
}.

Definition CTransaction_format : format CTransaction :=
  Format (SerializeTransaction true) (UnserializeTransaction true).

Definition CBlock_format : format CBlock :=
  record_format (CBlockHeader_format ⊗ vector_format CTransaction_format ⊗ byte_vector_format)
    (λ b, (GetBlockHeader b, (vtx b, signature b)))
    (λ '(h, (txs, sig)), {| GetBlockHeader := h; vtx := txs; signature := sig |}).

Section merkle.
Context `{!Hashing}.

Definition Header_GetHash (h : CBlockHeader) : Z := Hash256 (enc CBlockHeader_format h).

(** [Hash] of the bytes of two hashes. *)
Definition Hash_pair (left right : Z) : Z := Hash256 (be_bytes 32 left ++ be_bytes 32 right).

(** [SHA256D64] on the front half of the array it reads. *)
Fixpoint SHA256D64 (hashes : list Z) : list Z :=
  match hashes with
  | a :: b :: rest => Hash_pair a b :: SHA256D64 rest
  | _ => []
  end.

(** The [for] loop: two equal hashes would be hashed together. *)
Fixpoint pair_repeated (hashes : list Z) : bool :=
  match hashes with
  | a :: b :: rest => bool_decide (a = b) || pair_repeated rest
  | _ => false
  end.

(** [if (hashes.size() & 1) hashes.push_back(hashes.back())]. *)
Definition duplicate_last (hashes : list Z) : list Z :=
  if Nat.odd (length hashes) then hashes ++ option_list (last hashes) else hashes.

(** The [while] loop: every round halves the list, so its length is enough
    fuel. *)
Fixpoint merkle_loop (fuel : nat) (hashes : list Z) (mutation : bool) : list Z * bool :=
  match fuel with
  | O => (hashes, mutation)
  | S fuel =>
      if decide (1 < length hashes)%nat
      then merkle_loop fuel (SHA256D64 (duplicate_last hashes)) (mutation || pair_repeated hashes)
      else (hashes, mutation)
  end.

(** The root and [*mutated]. *)
Definition ComputeMerkleRoot (hashes : list Z) : Z * bool :=
  let '(hashes, mutation) := merkle_loop (length hashes) hashes false in
  (match hashes with [] => 0 | root :: _ => root end, mutation).

Definition ComputeMerkleRoot_txs (vtx : list CTransaction) : Z * bool :=
  ComputeMerkleRoot (GetHash <$> vtx).

Definition BlockMerkleRoot (block : CBlock) : Z * bool := ComputeMerkleRoot (GetHash <$> vtx block).

Definition BlockFinalizerCommitsMerkleRoot (block : CBlock) : Z * bool :=
  ComputeMerkleRoot (GetHash <$> filter (λ tx, IsFinalizerCommit tx = true) (vtx block)).

Definition BlockWitnessMerkleRoot (block : CBlock) : Z * bool :=
  ComputeMerkleRoot (GetWitnessHash <$> vtx block).

Definition ComputeMerkleTrees (block : CBlock) : outcome CBlock :=
  let h := GetBlockHeader block in
  let '(root, mutated) := BlockMerkleRoot block in
  _ ← cpp_assert (negb mutated);
  let '(commits_root, _) := BlockFinalizerCommitsMerkleRoot block in
  let '(witness_root, mutated) := BlockWitnessMerkleRoot block in
  _ ← cpp_assert (negb mutated);
  Ok {| GetBlockHeader :=
          {| block_nVersion := block_nVersion h; hashPrevBlock := hashPrevBlock h;
             hashMerkleRoot := root; hash_witness_merkle_root := witness_root;
             hash_finalizer_commits_merkle_root := commits_root;
             block_nTime := block_nTime h; nBits := nBits h |};
        vtx := vtx block; signature := signature block |}.

(** ** Levels of the tree *)

Definition next_level (hashes : list Z) : list Z := SHA256D64 (duplicate_last hashes).

Fixpoint level (hashes : list Z) (height : nat) : list Z :=
  match height with O => hashes | S height => next_level (level hashes height) end.

(** The pairs that are hashed in one level. *)
Fixpoint level_pairs (hashes : list Z) : list (Z * Z) :=
  match hashes with
  | [] => []
  | [a] => [(a, a)]
  | a :: b :: rest => (a, b) :: level_pairs rest
  end.

(** Number of levels above the leaves. *)
Definition tree_height (n : nat) : nat := Nat.log2_up n.

(** All pairs hashed for the root. *)
Definition merkle_pairs (hashes : list Z) : list (Z * Z) :=
  concat ((λ h, level_pairs (level hashes h)) <$> seq 0 (tree_height (length hashes))).

Lemma pairs_ind (P : list Z → Prop) :
  P [] → (∀ a, P [a]) → (∀ a b rest, P rest → P (a :: b :: rest)) → ∀ hashes, P hashes.
Proof.
  intros H0 H1 H2 hashes.
  enough (P hashes ∧ ∀ a, P (a :: hashes)) by tauto.
  induction hashes as [|b hashes [IH IH']]; auto.
Qed.

Lemma next_level_pair a b rest : next_level (a :: b :: rest) = Hash_pair a b :: next_level rest.
Proof.
  unfold next_level, duplicate_last. cbn [length]. rewrite Nat.odd_succ, Nat.even_succ.
  destruct (Nat.odd (length rest)) eqn:Ho; [|done].
  destruct rest as [|c rest]; [done|]. cbn [app SHA256D64]. done.
Qed.

Lemma next_level_spec hashes : next_level hashes = (λ '(a, b), Hash_pair a b) <$> level_pairs hashes.
Proof.
  induction hashes as [|a|a b rest IH] using pairs_ind; [done..|].
  rewrite next_level_pair. cbn. by rewrite IH.
Qed.

Lemma length_next_level hashes : length (next_level hashes) = Nat.div2 (S (length hashes)).
Proof.
  induction hashes as [|a|a b rest IH] using pairs_ind; [done..|].
  rewrite next_level_pair. cbn [length]. by rewrite IH.
Qed.

Lemma level_next hashes h : level (next_level hashes) h = next_level (level hashes h).
Proof. induction h as [|h IH]; [done|]. cbn. by rewrite IH. Qed.

Lemma level_pairs_lookup hashes i :
  level_pairs hashes !! i =
  a ← hashes !! (2 * i)%nat; Some (a, default a (hashes !! (2 * i + 1)%nat)).
Proof.
  revert i. induction hashes as [|a|a b rest IH] using pairs_ind; intros i.
  - done.
  - destruct i as [|i]; [done|]. rewrite (lookup_ge_None_2 [a] (2 * S i)) by (cbn; lia). done.
  - destruct i as [|i]; [done|]. cbn [level_pairs]. cbn [lookup list_lookup]. rewrite IH.
    by replace (2 * S i)%nat with (S (S (2 * i))) by lia.
Qed.

Lemma next_level_lookup hashes i :
  next_level hashes !! i =
  a ← hashes !! (2 * i)%nat; Some (Hash_pair a (default a (hashes !! (2 * i + 1)%nat))).
Proof.
  rewrite next_level_spec, list_lookup_fmap, level_pairs_lookup.
  by destruct (hashes !! (2 * i)%nat).
Qed.

Lemma tree_height_next n : (1 < n)%nat → tree_height n = S (tree_height (Nat.div2 (S n))).
Proof.
  intros Hn. unfold tree_height. pose proof (Nat.log2_up_spec n Hn) as Hs.
  pose proof (Nat.log2_up_pos n Hn).
  destruct (Nat.log2_up n) as [|k] eqn:Hk; [lia|]. f_equal. symmetry. cbn [Nat.pred] in Hs.
  pose proof (Nat.div2_odd (S n)). pose proof (Nat.pow_succ_r' 2 k).
  destruct (decide (k = 0)%nat) as [->|Hk0].
  { assert (n = 2)%nat as -> by (cbn in *; lia). done. }
  assert (2 ^ k = 2 * 2 ^ Nat.pred k)%nat as Hp.
  { rewrite <- Nat.pow_succ_r'. f_equal. lia. }
  apply Nat.log2_up_unique; destruct (Nat.odd (S n)); cbn in *; lia.
Qed.

Lemma level_tree_next hashes :
  (1 < length hashes)%nat →
  level hashes (tree_height (length hashes)) =
  level (next_level hashes) (tree_height (length (next_level hashes))).
Proof. intros Hl. rewrite length_next_level, tree_height_next by done. by rewrite level_next. Qed.

(** Whether [*mutated] is set, level by level. *)
Definition mutated_tree (hashes : list Z) : bool :=
  existsb (λ h, pair_repeated (level hashes h)) (seq 0 (tree_height (length hashes))).

Lemma mutated_tree_next hashes :
  (1 < length hashes)%nat →
  mutated_tree hashes = pair_repeated hashes || mutated_tree (next_level hashes).
Proof.
  intros Hl. unfold mutated_tree. rewrite tree_height_next, <- length_next_level by done.
  cbn [seq existsb level]. f_equal. rewrite <- seq_shift.
  generalize (seq 0 (tree_height (length (next_level hashes)))). intros l.
  induction l as [|h l IH]; [done|]. cbn [existsb map]. rewrite IH. by rewrite level_next.
Qed.

Lemma tree_height_small n : (n ≤ 1)%nat → tree_height n = O.
Proof. intros. unfold tree_height. rewrite Nat.log2_up_eqn0; lia. Qed.

Lemma merkle_loop_spec fuel hashes mutation :
  (length hashes ≤ fuel)%nat →
  merkle_loop fuel hashes mutation =
  (level hashes (tree_height (length hashes)), mutation || mutated_tree hashes).
Proof.
  revert hashes mutation. induction fuel as [|fuel IH]; intros hashes mutation Hf; cbn [merkle_loop].
  - unfold mutated_tree. rewrite tree_height_small by lia. cbn. by rewrite orb_false_r.
  - fold (next_level hashes). destruct (decide _) as [Hl|Hl].
    + rewrite IH.
      * rewrite (level_tree_next hashes), (mutated_tree_next hashes) by done. f_equal. by rewrite orb_assoc.
      * rewrite length_next_level. pose proof (Nat.div2_odd (S (length hashes))).
        destruct (Nat.odd _); cbn in *; lia.
    + unfold mutated_tree. rewrite tree_height_small by lia. cbn. by rewrite orb_false_r.
Qed.

Lemma top_level_singleton hashes :
  hashes ≠ [] → ∃ root, level hashes (tree_height (length hashes)) = [root].
Proof.
  induction hashes as [hashes IH] using (induction_ltof1 _ (@length Z)). intros Hne.
  destruct hashes as [|a [|b rest]]; [done|by exists a|].
  rewrite level_tree_next by (cbn; lia). apply IH; [|by rewrite next_level_pair].
  unfold ltof. rewrite length_next_level. pose proof (Nat.div2_odd (S (length (a :: b :: rest)))).
  destruct (Nat.odd _); cbn in *; lia.
Qed.

Lemma ComputeMerkleRoot_spec hashes root mutated :
  hashes ≠ [] →
  ComputeMerkleRoot hashes = (root, mutated) ↔
  level hashes (tree_height (length hashes)) = [root] ∧ mutated = mutated_tree hashes.
Proof.
  intros Hne. unfold ComputeMerkleRoot. rewrite merkle_loop_spec by done.
  destruct (top_level_singleton hashes Hne) as [r ->]. cbn. split; [intros [= -> ->]|intros [[= ->] ->]]; done.
Qed.

(** ** What a root determines *)

Definition is_uint256 (z : Z) : Prop := 0 ≤ z < 2 ^ 256.

(** Other hashes with the hash of a node of the tree. *)
Definition second_preimage (hashes : list Z) : Prop :=
  ∃ a b c d, (a, b) ∈ merkle_pairs hashes ∧ is_uint256 c ∧ is_uint256 d ∧
    (c, d) ≠ (a, b) ∧ Hash_pair c d = Hash_pair a b.

Lemma merkle_pairs_level hashes h p :
  (h < tree_height (length hashes))%nat → p ∈ level_pairs (level hashes h) → p ∈ merkle_pairs hashes.
Proof.
  intros Hh Hp. apply list_elem_of_In, in_concat. exists (level_pairs (level hashes h)).
  split; [|by apply list_elem_of_In]. apply list_elem_of_In, list_elem_of_fmap. exists h.
  split; [done|]. apply elem_of_seq. lia.
Qed.

Lemma merkle_pairs_next hashes p :
  (1 < length hashes)%nat → p ∈ merkle_pairs (next_level hashes) → p ∈ merkle_pairs hashes.
Proof.
  intros Hl Hp. apply list_elem_of_In, in_concat in Hp as (ps & Hps & Hp).
  apply list_elem_of_In, list_elem_of_fmap in Hps as (h & -> & Hh). apply elem_of_seq in Hh.
  rewrite level_next in Hp. apply (merkle_pairs_level hashes (S h)).
  - rewrite tree_height_next, <- length_next_level by done. lia.
  - by apply list_elem_of_In.
Qed.

(** Two levels with the same hashes above come from the same pairs. *)
Lemma same_pairs (P : Prop) xs ys :
  next_level xs = next_level ys →
  Forall is_uint256 ys →
  (∀ p c d, p ∈ level_pairs xs → is_uint256 c → is_uint256 d → (c, d) ≠ p →
    Hash_pair c d = Hash_pair p.1 p.2 → P) →
  level_pairs xs = level_pairs ys ∨ P.
Proof.
  rewrite !next_level_spec. revert ys.
  induction (level_pairs xs) as [|[a b] ps IH]; intros ys Heq Hys HP.
  - left. by destruct (level_pairs ys).
  - destruct ys as [|c [|d ys]]; [done| |]; cbn [level_pairs fmap list_fmap] in Heq |- *.
    + injection Heq as Heq Hnil. apply fmap_nil_inv in Hnil as ->. apply Forall_cons in Hys as [Hc _].
      destruct (decide ((c, c) = (a, b))) as [->|Hne]; [by left|]. right.
      apply (HP (a, b) c c); [apply list_elem_of_here|done..|by symmetry].
    + injection Heq as Heq Hrest. apply Forall_cons in Hys as [Hc [Hd Hys]%Forall_cons].
      destruct (decide ((c, d) = (a, b))) as [->|Hne].
      * destruct (IH ys Hrest Hys) as [->|HP']; [|by left|by right].
        intros p c' d' Hp. apply HP. by apply list_elem_of_further.
      * right. apply (HP (a, b) c d); [apply list_elem_of_here|done..|by symmetry].
Qed.

(** A level without a repeated pair is determined by its pairs. *)
Lemma level_pairs_inj xs ys :
  level_pairs xs = level_pairs ys → pair_repeated xs = false → pair_repeated ys = false → xs = ys.
Proof.
  revert ys. induction xs as [|a|a b xs IH] using pairs_ind; intros [|c [|d ys]] Heq Hx Hy;
    cbn in *; simplify_eq; try done.
  - by rewrite bool_decide_eq_true_2 in Hy.
  - by rewrite bool_decide_eq_true_2 in Hx.
  - apply orb_false_iff in Hx as [_ Hx], Hy as [_ Hy]. by rewrite (IH ys).
Qed.

(** Repeating the last of an odd number of hashes. *)
Lemma next_level_duplicate xs h :
  Nat.odd (length xs) = true → last xs = Some h →
  next_level (xs ++ [h]) = next_level xs ∧ pair_repeated (xs ++ [h]) = true.
Proof.
  induction xs as [|a|a b rest IH] using pairs_ind; [done| |].
  - intros _ [= ->]. cbn. by rewrite bool_decide_eq_true_2.
  - intros Ho Hl. destruct rest as [|c rest]; [done|]. destruct (IH Ho Hl) as [Hn Hm].
    change ((a :: b :: c :: rest) ++ [h]) with (a :: b :: ((c :: rest) ++ [h])).
    rewrite !next_level_pair, Hn. split; [done|]. cbn [pair_repeated]. by rewrite Hm, orb_true_r.
Qed.

Section binding.
(** A hash is a [uint256]. *)
Context (Hash256_range : ∀ bs, is_uint256 (Hash256 bs)).

Lemma next_level_range hashes : Forall is_uint256 (next_level hashes).
Proof.
  rewrite next_level_spec. apply Forall_fmap, Forall_forall. intros [a b] _. apply Hash256_range.
Qed.

Lemma same_top_level xs ys :
  level xs (tree_height (length xs)) = level ys (tree_height (length ys)) →
  tree_height (length xs) = tree_height (length ys) →
  Forall is_uint256 ys → mutated_tree xs = false → mutated_tree ys = false →
  xs = ys ∨ second_preimage xs.
Proof.
  remember (tree_height (length xs)) as h eqn:Hx. revert xs ys Hx.
  induction h as [|h IH]; intros xs ys Hx Hroot Hy Hr Hmx Hmy.
  { rewrite <- Hy in Hroot. by left. }
  assert (∀ n, S h = tree_height n → 1 < n)%nat as Hlarge.
  { intros n Hn. destruct (decide (1 < n)%nat); [done|]. rewrite tree_height_small in Hn; lia. }
  pose proof (Hlarge _ Hx) as Hlx. pose proof (Hlarge _ Hy) as Hly.
  rewrite mutated_tree_next in Hmx, Hmy by done. apply orb_false_iff in Hmx as [Hmx Hmx'], Hmy as [Hmy Hmy'].
  assert (∀ zs, (1 < length zs)%nat → S h = tree_height (length zs) →
    h = tree_height (length (next_level zs))) as Hdown.
  { intros zs Hl Hz. rewrite length_next_level. rewrite tree_height_next in Hz by done. lia. }
  destruct (IH (next_level xs) (next_level ys)) as [Heq|(a & b & c & d & Hin & Hp)]; [by auto| |by auto|
    apply next_level_range|done|done| |].
  - rewrite <- Hy in Hroot. rewrite <- (Hdown ys Hly Hy), !level_next. done.
  - destruct (same_pairs (second_preimage xs) xs ys Heq Hr) as [Hpairs|Hsec]; [|left|by right].
    + intros [a b] c d Hp Hc Hd Hne Heq'. exists a, b, c, d. split_and!; [|done..].
      apply (merkle_pairs_level xs 0); [lia|done].
    + by apply level_pairs_inj.
  - right. exists a, b, c, d. split; [|done]. by apply merkle_pairs_next.
Qed.

(** C27: Merkle roots bind the list of hashes although odd levels repeat
    their last hash: two lists whose trees have the same height, for which
    [ComputeMerkleRoot] gives the same root and reports no mutation, are
    equal, or two hashes are exhibited that hash like a node of the tree and
    are not its children.  Repeating the last hash of a list of odd length
    with more than one hash keeps the root and is reported. *)
Theorem merkle_root_binds xs root :
  xs ≠ [] → ComputeMerkleRoot xs = (root, false) →
  (∀ ys, ys ≠ [] → Forall is_uint256 ys → tree_height (length xs) = tree_height (length ys) →
    ComputeMerkleRoot ys = (root, false) → xs = ys ∨ second_preimage xs) ∧
  (∀ h, (1 < length xs)%nat → Nat.odd (length xs) = true → last xs = Some h →
    ComputeMerkleRoot (xs ++ [h]) = (root, true)).
Proof.
  intros Hx [Hxr Hxm]%ComputeMerkleRoot_spec; [|done]. split.
  - intros ys Hy Hr Hh [Hyr Hym]%ComputeMerkleRoot_spec; [|done]. apply same_top_level; congruence.
  - intros h Hl Ho Hh. destruct (next_level_duplicate xs h Ho Hh) as [Hn Hm].
    assert (1 < length (xs ++ [h]))%nat as Hl' by (rewrite length_app; cbn; lia).
    apply ComputeMerkleRoot_spec; [by destruct xs|]. split.
    + rewrite level_tree_next, Hn, <- level_tree_next by done. done.
    + by rewrite mutated_tree_next, Hm by done.
Qed.
End binding.
End merkle.

(** ** Examples *)

(** A hash with the range of [Hash256] under which the hashes of the example
    below differ. *)
Definition toy_hash : Hashing := {| Hash256 := foldl (λ h b, uint256 (h * 31 + b)) 7 |}.

Lemma merkle_root_binds_witness :
  let _ := toy_hash in
  ∃ root, ComputeMerkleRoot [1; 2; 3] = (root, false) ∧ ComputeMerkleRoot [1; 2; 3; 3] = (root, true).
Proof.
  intros H. exists (ComputeMerkleRoot [1; 2; 3]).1. split; [vm_compute; reflexivity|].
  refine (proj2 (merkle_root_binds _ [1; 2; 3] _ _ _) 3 _ _ _);
    [|discriminate|vm_compute; reflexivity|cbn; lia|reflexivity|reflexivity].
  intros bs. unfold Hash256, is_uint256. cbn.
  destruct bs as [|b bs _] using rev_ind; [cbn; lia|]. rewrite foldl_snoc. apply Z.mod_pos_bound. lia.
Defined.
