(* ===== verification/Coins.v ===== *)
(** * The coin views: src/src/coins.h, src/src/coins.cpp

    [CCoinsViewCache] keeps changes to a set of unspent outputs on top of a
    base view, together with the snapshot hash of the set.  The base view is
    the finite map its [GetCoin] answers from: a cache underneath caches what
    it is asked for, which does not change its answers
    ([FetchCoin_utxo]).  The memory accounting in [cachedCoinsUsage] is left
    out.  The elliptic-curve multiset hash behind [snapshot::SnapshotHash] is
    a parameter with the two laws of such a hash. *)
From S2P Require Import Prelude Serialize Params Script Transaction.

#[export] Instance COutPoint_countable : Countable COutPoint.
Proof.
  apply (inj_countable' (λ o, (outpoint_hash o, outpoint_n o))
           (λ p, {| outpoint_hash := p.1; outpoint_n := p.2 |})).
  by intros [].
Defined.

(** ** Coins *)

Definition COINBASE_MATURITY : Z := 100.

Record Coin := {
  out : CTxOut;
  tx_type : TxType;
  coin_nHeight : Z;
}.

#[export] Instance Coin_eq_dec : EqDecision Coin.
Proof. solve_decision. Defined.

(** The empty constructor, and what [Clear] leaves. *)
Definition Coin_empty : Coin := {| out := CTxOut_null; tx_type := REGULAR; coin_nHeight := 0 |}.

(** [nHeightIn] is an [int], the member a [uint32_t]. *)
Definition Coin_new (outIn : CTxOut) (nHeightIn : Z) (tx_type : TxType) : Coin :=
  {| out := outIn; tx_type := tx_type; coin_nHeight := uint32 nHeightIn |}.

Definition Coin_IsCoinBase (c : Coin) : bool := bool_decide (tx_type c = COINBASE).

(** The difference of an [int] and a [uint32_t] is unsigned. *)
Definition IsImmatureCoinBaseReward (c : Coin) (prevout_index spend_height : Z) : bool :=
  if negb (Coin_IsCoinBase c) || bool_decide (0 < prevout_index) then false
  else if decide (coin_nHeight c ≤ COINBASE_MATURITY) then false
  else bool_decide (uint32 (spend_height - coin_nHeight c) < COINBASE_MATURITY).

Definition IsSpent (c : Coin) : bool := CTxOut_IsNull (out c).

(** [snapshot::SnapshotHash] over secp256k1's multiset: the order in which
    outputs are added does not matter, and subtracting an output undoes its
    addition. *)
Class SnapshotHashing := {
  SnapshotHash : Type;
  SnapshotHash_empty : SnapshotHash;
  AddUTXO : COutPoint → Coin → SnapshotHash → SnapshotHash;
  SubtractUTXO : COutPoint → Coin → SnapshotHash → SnapshotHash;
}.

Class SnapshotHashingLaws `{!SnapshotHashing} : Prop := {
  AddUTXO_comm : ∀ o1 c1 o2 c2 h, AddUTXO o1 c1 (AddUTXO o2 c2 h) = AddUTXO o2 c2 (AddUTXO o1 c1 h);
  SubtractUTXO_AddUTXO : ∀ o c h, SubtractUTXO o c (AddUTXO o c h) = h;
}.

(** ** The cache *)

(** [dirty] and [fresh] are the bits DIRTY and FRESH of [flags]. *)
Record CCoinsCacheEntry := {
  coin : Coin;
  dirty : bool;
  fresh : bool;
}.

Abbreviation CCoinsMap := (gmap COutPoint CCoinsCacheEntry).

Section cache.
Context `{!SnapshotHashing, !Hashing}.

Record CCoinsViewCache := {
  hashBlock : Z;
  snapshotHash : SnapshotHash;
  cacheCoins : CCoinsMap;
}.

Definition set_cacheCoins (m : CCoinsMap) (c : CCoinsViewCache) : CCoinsViewCache :=
  {| hashBlock := hashBlock c; snapshotHash := snapshotHash c; cacheCoins := m |}.
Definition set_snapshotHash (h : SnapshotHash) (c : CCoinsViewCache) : CCoinsViewCache :=
  {| hashBlock := hashBlock c; snapshotHash := h; cacheCoins := cacheCoins c |}.
Definition SetBestBlock (h : Z) (c : CCoinsViewCache) : CCoinsViewCache :=
  {| hashBlock := h; snapshotHash := snapshotHash c; cacheCoins := cacheCoins c |}.

(** The constructor, from the snapshot hash of the base. *)
Definition CCoinsViewCache_new (base_snapshotHash : SnapshotHash) : CCoinsViewCache :=
  {| hashBlock := 0; snapshotHash := base_snapshotHash; cacheCoins := ∅ |}.

Section operations.
(** What [base->GetCoin] answers. *)
Context (base : gmap COutPoint Coin).

Definition FetchCoin (outpoint : COutPoint) (c : CCoinsViewCache) :
  option CCoinsCacheEntry * CCoinsViewCache :=
  match cacheCoins c !! outpoint with
  | Some it => (Some it, c)
  | None =>
      match base !! outpoint with
      | None => (None, c)
      | Some tmp =>
          let ret := {| coin := tmp; dirty := false; fresh := IsSpent tmp |} in
          (Some ret, set_cacheCoins (<[outpoint := ret]> (cacheCoins c)) c)
      end
  end.

(** The coin when the method returns true. *)
Definition GetCoin (outpoint : COutPoint) (c : CCoinsViewCache) : option Coin * CCoinsViewCache :=
  let '(it, c) := FetchCoin outpoint c in
  (match it with
   | Some it => if IsSpent (coin it) then None else Some (coin it)
   | None => None
   end, c).

Definition HaveCoin (outpoint : COutPoint) (c : CCoinsViewCache) : bool * CCoinsViewCache :=
  let '(it, c) := FetchCoin outpoint c in
  (match it with Some it => negb (IsSpent (coin it)) | None => false end, c).

Definition HaveCoinInCache (outpoint : COutPoint) (c : CCoinsViewCache) : bool :=
  match cacheCoins c !! outpoint with Some it => negb (IsSpent (coin it)) | None => false end.

Definition AccessCoin (outpoint : COutPoint) (c : CCoinsViewCache) : Coin * CCoinsViewCache :=
  let '(it, c) := FetchCoin outpoint c in
  (match it with Some it => coin it | None => Coin_empty end, c).

Definition AddCoin (outpoint : COutPoint) (new : Coin) (possible_overwrite : bool)
    (c : CCoinsViewCache) : outcome CCoinsViewCache :=
  _ ← cpp_assert (negb (IsSpent new));
  if IsUnspendable (scriptPubKey (out new)) then Ok c
  else
    let inserted := bool_decide (cacheCoins c !! outpoint = None) in
    let it := default {| coin := Coin_empty; dirty := false; fresh := false |}
                (cacheCoins c !! outpoint) in
    fresh_flag ← (if possible_overwrite then Ok false
                  else if negb (IsSpent (coin it)) then Raise LogicError
                  else Ok (negb (dirty it)));
    let c := if negb inserted && negb (IsSpent (coin it))
             then set_snapshotHash (SubtractUTXO outpoint (coin it) (snapshotHash c)) c else c in
    let it := {| coin := new; dirty := true; fresh := fresh it || fresh_flag |} in
    let c := set_cacheCoins (<[outpoint := it]> (cacheCoins c)) c in
    Ok (set_snapshotHash (AddUTXO outpoint new (snapshotHash c)) c).

(** The returned flag and the coin [moveout] receives. *)
Definition SpendCoin (outpoint : COutPoint) (c : CCoinsViewCache) :
  option Coin * CCoinsViewCache :=
  let '(it, c) := FetchCoin outpoint c in
  match it with
  | None => (None, c)
  | Some it =>
      let c := set_snapshotHash (SubtractUTXO outpoint (coin it) (snapshotHash c)) c in
      let moveout := coin it in
      (Some moveout,
       if fresh it then set_cacheCoins (delete outpoint (cacheCoins c)) c
       else
         let it := {| coin := Coin_empty; dirty := true; fresh := fresh it |} in
         set_cacheCoins (<[outpoint := it]> (cacheCoins c)) c)
  end.

(** The loop of [AddCoins] over the outputs from index [i] on. *)
Fixpoint AddCoins_loop (tx : CTransaction) (txid nHeight : Z) (check : bool)
    (outs : list CTxOut) (i : Z) (c : CCoinsViewCache) : outcome CCoinsViewCache :=
  match outs with
  | [] => Ok c
  | o :: outs =>
      let outpoint := {| outpoint_hash := txid; outpoint_n := uint32 i |} in
      let '(overwrite, c) :=
        if check then HaveCoin outpoint c else (IsCoinBase tx, c) in
      c ← AddCoin outpoint (Coin_new o nHeight (GetType tx)) overwrite c;
      AddCoins_loop tx txid nHeight check outs (i + 1) c
  end.

Definition AddCoins (tx : CTransaction) (nHeight : Z) (check : bool) (c : CCoinsViewCache) :
  outcome CCoinsViewCache :=
  AddCoins_loop tx (GetHash tx) nHeight check (vout tx) 0 c.

(** An entry without flags is forgotten. *)
Definition Uncache (outpoint : COutPoint) (c : CCoinsViewCache) : CCoinsViewCache :=
  match cacheCoins c !! outpoint with
  | Some it =>
      if negb (dirty it) && negb (fresh it)
      then set_cacheCoins (delete outpoint (cacheCoins c)) c else c
  | None => c
  end.

(** The inputs the loops of [GetValueIn] and [HaveInputs] go through. *)
Definition spending_inputs (tx : CTransaction) : list CTxIn :=
  drop (if IsCoinBase tx then 1 else 0) (vin tx).

Fixpoint GetValueIn_loop (ins : list CTxIn) (nResult : Z) (c : CCoinsViewCache) :
  Z * CCoinsViewCache :=
  match ins with
  | [] => (nResult, c)
  | i :: ins =>
      let '(k, c) := AccessCoin (prevout i) c in
      GetValueIn_loop ins (int64 (nResult + nValue (out k))) c
  end.

Definition GetValueIn (tx : CTransaction) (c : CCoinsViewCache) : Z * CCoinsViewCache :=
  GetValueIn_loop (spending_inputs tx) 0 c.

Fixpoint HaveInputs_loop (ins : list CTxIn) (c : CCoinsViewCache) : bool * CCoinsViewCache :=
  match ins with
  | [] => (true, c)
  | i :: ins =>
      let '(have, c) := HaveCoin (prevout i) c in
      if have then HaveInputs_loop ins c else (false, c)
  end.

Definition HaveInputs (tx : CTransaction) (c : CCoinsViewCache) : bool * CCoinsViewCache :=
  HaveInputs_loop (spending_inputs tx) c.
End operations.

(** ** Writing a cache into the one below *)

(** One round of the loop: the entry [it] of the child is merged into
    [cacheCoins] of the parent. *)
Definition batch_write_entry (m : CCoinsMap) (outpoint : COutPoint) (it : CCoinsCacheEntry) :
  outcome CCoinsMap :=
  if negb (dirty it) then Ok m
  else
    match m !! outpoint with
    | None =>
        if fresh it && IsSpent (coin it) then Ok m
        else Ok (<[outpoint := {| coin := coin it; dirty := true; fresh := fresh it |}]> m)
    | Some itUs =>
        if fresh it && negb (IsSpent (coin itUs)) then Raise LogicError
        else if fresh itUs && IsSpent (coin it) then Ok (delete outpoint m)
        else Ok (<[outpoint := {| coin := coin it; dirty := true; fresh := fresh itUs |}]> m)
    end.

Fixpoint batch_write_loop (l : list (COutPoint * CCoinsCacheEntry)) (m : CCoinsMap) :
  outcome CCoinsMap :=
  match l with
  | [] => Ok m
  | (outpoint, it) :: l => m ← batch_write_entry m outpoint it; batch_write_loop l m
  end.

Definition BatchWrite (mapCoins : CCoinsMap) (hashBlockIn : Z) (snapshotHashIn : SnapshotHash)
    (c : CCoinsViewCache) : outcome CCoinsViewCache :=
  m ← batch_write_loop (map_to_list mapCoins) (cacheCoins c);
  Ok {| hashBlock := hashBlockIn; snapshotHash := snapshotHashIn; cacheCoins := m |}.

(** [Flush] of [c] when its base is the cache [parent]: the new parent and
    the emptied cache. *)
Definition Flush (parent c : CCoinsViewCache) : outcome (CCoinsViewCache * CCoinsViewCache) :=
  parent ← BatchWrite (cacheCoins c) (hashBlock c) (snapshotHash c) parent;
  Ok (parent, set_cacheCoins ∅ c).
End cache.

Arguments CCoinsViewCache {_}.

(** ** The set of unspent outputs a cache stands for *)

Definition unspent (e : CCoinsCacheEntry) : option Coin :=
  if IsSpent (coin e) then None else Some (coin e).

Section utxo.
Context `{!SnapshotHashing, !SnapshotHashingLaws, !Hashing}.
Implicit Types (base : gmap COutPoint Coin) (c : CCoinsViewCache) (o : COutPoint).

Definition utxo base c : gmap COutPoint Coin :=
  merge (λ e b, match e with Some e => unspent e | None => b end) (cacheCoins c) base.

(** The hash of a set of outputs, taken up one by one. *)
Definition set_hash (m : gmap COutPoint Coin) : SnapshotHash :=
  map_fold AddUTXO SnapshotHash_empty m.

(** A fresh entry is unknown to the base and a clean one agrees with it; the
    base holds no spent coins. *)
Definition entry_ok base (o : COutPoint) (e : CCoinsCacheEntry) : Prop :=
  (fresh e = true → base !! o = None) ∧ (dirty e = false → base !! o = Some (coin e)).

Record cache_ok base c : Prop := {
  ck_base : map_Forall (λ _ k, IsSpent k = false) base;
  ck_entries : map_Forall (entry_ok base) (cacheCoins c);
  ck_hash : snapshotHash c = set_hash (utxo base c);
}.

Lemma lookup_utxo base c o :
  utxo base c !! o =
    match cacheCoins c !! o with Some e => unspent e | None => base !! o end.
Proof. unfold utxo. rewrite lookup_merge. unfold diag_None. by repeat case_match. Qed.

Lemma utxo_unspent base c : cache_ok base c → map_Forall (λ _ k, IsSpent k = false) (utxo base c).
Proof.
  intros [Hb _ _] o k. rewrite lookup_utxo. unfold unspent.
  destruct (cacheCoins c !! o) as [e|]; [|apply Hb].
  destruct (IsSpent (coin e)) eqn:E; [done|]. by intros [= <-].
Qed.

Lemma set_hash_insert m o k : m !! o = None → set_hash (<[o := k]> m) = AddUTXO o k (set_hash m).
Proof.
  intros Ho. unfold set_hash. apply map_fold_insert_L; [|done].
  intros. apply AddUTXO_comm.
Qed.

Lemma set_hash_delete m o k : m !! o = Some k → SubtractUTXO o k (set_hash m) = set_hash (delete o m).
Proof.
  intros Ho. rewrite <- (insert_delete_id m o k) at 1 by done.
  rewrite set_hash_insert by apply lookup_delete_eq. apply SubtractUTXO_AddUTXO.
Qed.

(** A clean entry is not spent, its coin is the base's. *)
Lemma clean_unspent base c o e :
  cache_ok base c → cacheCoins c !! o = Some e → dirty e = false → IsSpent (coin e) = false.
Proof. intros [Hb He _] Ho Hd. apply He in Ho as [_ Ho]. by eapply Hb, Ho. Qed.

(** How a change of the entry for [o] shows in the set. *)
Lemma utxo_insert base c o e :
  utxo base (set_cacheCoins (<[o := e]> (cacheCoins c)) c) =
    match unspent e with Some k => <[o := k]> (utxo base c) | None => delete o (utxo base c) end.
Proof.
  apply map_eq. intros o'. rewrite lookup_utxo. cbn.
  destruct (decide (o' = o)) as [->|Hne].
  - rewrite lookup_insert_eq. destruct (unspent e); by rewrite ?lookup_insert_eq, ?lookup_delete_eq.
  - rewrite lookup_insert_ne by done.
    destruct (unspent e); rewrite ?lookup_insert_ne, ?lookup_delete_ne, lookup_utxo by done; done.
Qed.

Lemma utxo_delete base c o :
  base !! o = None →
  utxo base (set_cacheCoins (delete o (cacheCoins c)) c) = delete o (utxo base c).
Proof.
  intros Hb. apply map_eq. intros o'. rewrite lookup_utxo. cbn.
  destruct (decide (o' = o)) as [->|Hne].
  - by rewrite !lookup_delete_eq.
  - by rewrite !lookup_delete_ne, lookup_utxo.
Qed.

Lemma utxo_snapshotHash base c h : utxo base (set_snapshotHash h c) = utxo base c.
Proof. done. Qed.

(** ** The operations on the set *)

(** Fetching fills the cache and leaves the set alone. *)
Lemma FetchCoin_utxo base o c :
  cache_ok base c →
  let '(it, c') := FetchCoin base o c in
  cache_ok base c' ∧ utxo base c' = utxo base c ∧ it = cacheCoins c' !! o ∧
  snapshotHash c' = snapshotHash c ∧ (it = None → utxo base c !! o = None) ∧
  (∀ e, it = Some e → utxo base c !! o = unspent e).
Proof.
  intros [Hb He Hh]. unfold FetchCoin.
  destruct (cacheCoins c !! o) as [e|] eqn:Ho.
  { rewrite lookup_utxo, Ho. do 4 (split; [done|]). split; [done|]. by intros ? [= <-]. }
  destruct (base !! o) as [k|] eqn:Hk.
  2: { rewrite lookup_utxo, Ho. do 4 (split; [done|]). by split. }
  pose proof (Hb o k Hk) as Hsp. cbn in Hsp. rewrite Hsp.
  set (e := {| coin := k; dirty := false; fresh := false |}).
  assert (unspent e = Some k) as Hu by (unfold unspent; cbn; by rewrite Hsp).
  assert (utxo base c !! o = Some k) as Hok by by rewrite lookup_utxo, Ho.
  assert (utxo base (set_cacheCoins (<[o := e]> (cacheCoins c)) c) = utxo base c) as Hut.
  { rewrite utxo_insert, Hu. by apply insert_id. }
  split; [split; [done| |by rewrite Hut]|].
  - apply map_Forall_insert_2; [|done]. by split.
  - cbn. rewrite lookup_insert_eq. do 4 (split; [done|]).
    intros e' He'. injection He' as <-. by rewrite Hok.
Qed.

Lemma GetCoin_utxo base o c :
  cache_ok base c →
  let '(r, c') := GetCoin base o c in
  r = utxo base c !! o ∧ cache_ok base c' ∧ utxo base c' = utxo base c.
Proof.
  intros Hc. unfold GetCoin. pose proof (FetchCoin_utxo base o c Hc) as Hf0.
  destruct (FetchCoin base o c) as [[e|] c']; destruct Hf0 as (Hc' & Hu & _ & _ & Hn & Hs).
  - rewrite (Hs e eq_refl). by split.
  - rewrite Hn by done. by split.
Qed.

Lemma HaveCoin_utxo base o c :
  cache_ok base c →
  let '(r, c') := HaveCoin base o c in
  (r = true ↔ is_Some (utxo base c !! o)) ∧ cache_ok base c' ∧ utxo base c' = utxo base c ∧
  (r = true → is_Some (cacheCoins c' !! o)).
Proof.
  intros Hc. unfold HaveCoin. pose proof (FetchCoin_utxo base o c Hc) as Hf0.
  destruct (FetchCoin base o c) as [[e|] c']; destruct Hf0 as (Hc' & Hu & He & _ & Hn & Hs).
  - rewrite (Hs e eq_refl). unfold unspent. split; [|by rewrite <- He].
    destruct (IsSpent (coin e)); split; try done; by intros [].
  - rewrite Hn by done. split; [|done]. split; [done|by intros []].
Qed.

Lemma SpendCoin_utxo base o c k :
  cache_ok base c → utxo base c !! o = Some k →
  let '(r, c') := SpendCoin base o c in
  r = Some k ∧ cache_ok base c' ∧ utxo base c' = delete o (utxo base c).
Proof.
  intros Hc Hk. unfold SpendCoin. pose proof (FetchCoin_utxo base o c Hc) as Hf0.
  destruct (FetchCoin base o c) as [[e|] c']; destruct Hf0 as (Hc' & Hu & He & Hh & Hn & Hs);
    [|rewrite Hn in Hk; done].
  pose proof (Hs e eq_refl) as Hek. rewrite Hk in Hek. unfold unspent in Hek.
  destruct (IsSpent (coin e)) eqn:Hsp; [done|]. injection Hek as ->.
  assert (SubtractUTXO o (coin e) (snapshotHash c') = set_hash (delete o (utxo base c))) as Hsub.
  { destruct Hc' as [_ _ ->]. rewrite Hu. by apply set_hash_delete. }
  destruct Hc' as [Hb Hen Hh']. split; [done|].
  destruct (fresh e) eqn:Hf.
  - pose proof (proj1 (Hen o e (eq_sym He)) Hf) as Hbo.
    rewrite utxo_delete, utxo_snapshotHash, Hu by done. split; [|done]. split; [done| |].
    + cbn. by apply map_Forall_delete.
    + rewrite utxo_delete, utxo_snapshotHash, Hu by done. apply Hsub.
  - rewrite utxo_insert, utxo_snapshotHash, Hu. split; [|done]. split; [done| |].
    + cbn. apply map_Forall_insert_2; [|done]. by split.
    + rewrite utxo_insert, utxo_snapshotHash, Hu. apply Hsub.
Qed.

(** [AddCoin] may overwrite a coin of the set only if it is told so and the
    coin is in the cache. *)
Definition may_add c base o (possible_overwrite : bool) : Prop :=
  utxo base c !! o = None ∨ possible_overwrite = true ∧ is_Some (cacheCoins c !! o).

Lemma AddCoin_utxo base o k possible_overwrite c :
  cache_ok base c → IsSpent k = false → IsUnspendable (scriptPubKey (out k)) = false →
  may_add c base o possible_overwrite →
  ∃ c', AddCoin o k possible_overwrite c = Ok c' ∧
    cache_ok base c' ∧ utxo base c' = <[o := k]> (utxo base c).
Proof.
  intros Hc Hk Hun Hmay. unfold AddCoin. rewrite Hk, Hun. cbn.
  pose proof (clean_unspent base c o) as Hclean. destruct Hc as [Hb He Hh].
  set (it := default _ (cacheCoins c !! o)).
  set (f := if possible_overwrite then Ok false else _).
  assert (∃ b, f = Ok b ∧ (fresh it || b = true → base !! o = None)) as (b & -> & Hfresh).
  { subst f it. unfold may_add in Hmay. rewrite lookup_utxo in Hmay.
    destruct (cacheCoins c !! o) as [e|] eqn:Ho; cbn in *.
    - destruct (He o e Ho) as [Hfr Hdi]. unfold unspent in Hmay.
      destruct possible_overwrite; [exists false; rewrite orb_false_r; auto|].
      destruct Hmay as [Hmay|[? _]]; [|done].
      destruct (IsSpent (coin e)) eqn:Hsp; [|done]. cbn. exists (negb (dirty e)).
      split; [done|]. destruct (dirty e) eqn:Hd; [by rewrite orb_false_r|].
      rewrite Hclean in Hsp; [done|by split|done|done].
    - destruct Hmay as [Hmay|[_ []]]; [|done].
      destruct possible_overwrite; by eexists. }
  cbn. set (c1 := if _ && _ then _ else c). eexists. split; [done|].
  assert (cacheCoins c1 = cacheCoins c ∧ snapshotHash c1 = set_hash (delete o (utxo base c)))
    as [Hc1 Hh1].
  { subst c1 it. rewrite Hh. destruct (cacheCoins c !! o) as [e|] eqn:Ho; cbn.
    - destruct (IsSpent (coin e)) eqn:Hsp; cbn; split; try done.
      + rewrite delete_id; [done|]. rewrite lookup_utxo, Ho. unfold unspent. by rewrite Hsp.
      + apply set_hash_delete. rewrite lookup_utxo, Ho. unfold unspent. by rewrite Hsp.
    - split; [done|]. rewrite delete_id; [done|]. destruct Hmay as [|[_ [? ?]]]; [done|congruence]. }
  assert (utxo base (set_cacheCoins (<[o := {| coin := k; dirty := true; fresh := fresh it || b |}]>
    (cacheCoins c1)) c1) = <[o := k]> (utxo base c)) as Hu.
  { rewrite utxo_insert. unfold unspent at 1. cbn. rewrite Hk. f_equal. unfold utxo. by rewrite Hc1. }
  rewrite utxo_snapshotHash. split; [|done]. split; [done| |].
  - cbn. apply map_Forall_insert_2; [|by rewrite Hc1]. split; [done|by intros].
  - rewrite utxo_snapshotHash, Hu, <- (insert_delete_eq (utxo base c)).
    rewrite set_hash_insert by apply lookup_delete_eq. cbn. by rewrite Hh1.
Qed.

Lemma Uncache_utxo base o c :
  cache_ok base c → cache_ok base (Uncache o c) ∧ utxo base (Uncache o c) = utxo base c.
Proof.
  intros Hc. pose proof Hc as [Hb He Hh]. unfold Uncache.
  destruct (cacheCoins c !! o) as [e|] eqn:Ho; [|done].
  destruct (dirty e) eqn:Hd; [done|]. destruct (fresh e); [done|]. cbn.
  pose proof (clean_unspent base c o e Hc Ho Hd) as Hsp.
  assert (utxo base (set_cacheCoins (delete o (cacheCoins c)) c) = utxo base c) as Hu.
  { apply map_eq. intros o'. rewrite !lookup_utxo. cbn. destruct (decide (o' = o)) as [->|].
    - rewrite lookup_delete_eq, Ho. unfold unspent. rewrite Hsp. by apply (He o e).
    - by rewrite lookup_delete_ne. }
  split; [|done]. split; [done|by apply map_Forall_delete|by rewrite Hu].
Qed.

(** ** Writing back *)

(** What a dirty entry of the child makes of the parent's entry. *)
Definition merged (child : option CCoinsCacheEntry) (us : option CCoinsCacheEntry) :
  option CCoinsCacheEntry :=
  match child with
  | None => us
  | Some it =>
      if negb (dirty it) then us
      else
        match us with
        | None =>
            if fresh it && IsSpent (coin it) then None
            else Some {| coin := coin it; dirty := true; fresh := fresh it |}
        | Some itUs =>
            if fresh itUs && IsSpent (coin it) then None
            else Some {| coin := coin it; dirty := true; fresh := fresh itUs |}
        end
  end.

(** The parent holds no unspent coin where the child's entry is fresh. *)
Definition fresh_ok (m : CCoinsMap) o (it : CCoinsCacheEntry) : Prop :=
  fresh it = true → ∀ us, m !! o = Some us → IsSpent (coin us) = true.

Lemma batch_write_entry_spec m o it :
  fresh_ok m o it →
  ∃ m', batch_write_entry m o it = Ok m' ∧ m' !! o = merged (Some it) (m !! o) ∧
    ∀ o', o' ≠ o → m' !! o' = m !! o'.
Proof.
  intros Hf. unfold batch_write_entry, merged. destruct (dirty it); cbn; [|by eexists].
  destruct (m !! o) as [us|] eqn:Ho.
  - unfold fresh_ok in Hf. destruct (fresh it).
    + rewrite (Hf eq_refl us Ho). cbn. destruct (fresh us && IsSpent (coin it)); eexists;
        (split; [done|]); rewrite ?lookup_delete_eq, ?lookup_insert_eq; (split; [done|]);
        intros; by rewrite ?lookup_delete_ne, ?lookup_insert_ne.
    + cbn. destruct (fresh us && IsSpent (coin it)); eexists;
        (split; [done|]); rewrite ?lookup_delete_eq, ?lookup_insert_eq; (split; [done|]);
        intros; by rewrite ?lookup_delete_ne, ?lookup_insert_ne.
  - destruct (fresh it && IsSpent (coin it)); eexists; (split; [done|]);
      rewrite ?lookup_insert_eq; (split; [done|]); intros; by rewrite ?lookup_insert_ne.
Qed.

Lemma batch_write_loop_spec l m :
  NoDup l.*1 → (∀ o it, (o, it) ∈ l → fresh_ok m o it) →
  ∃ m', batch_write_loop l m = Ok m' ∧
    ∀ o, m' !! o = merged ((list_to_map l : CCoinsMap) !! o) (m !! o).
Proof.
  induction l as [|[o it] l IH] in m |- *; cbn; intros Hnd Hf.
  { exists m. split; [done|]. intros. by rewrite lookup_empty. }
  apply NoDup_cons in Hnd as [Hni Hnd].
  destruct (batch_write_entry_spec m o it) as (m1 & -> & Ho & Hne); [apply Hf; by left|].
  destruct (IH m1) as (m' & Hm' & Hl); [done| |].
  { intros o' it' Hin. unfold fresh_ok. rewrite Hne; [apply Hf; by right|].
    intros ->. apply Hni, list_elem_of_fmap. by exists (o, it'). }
  exists m'. split; [done|]. intros o'. rewrite Hl. destruct (decide (o' = o)) as [->|].
  - rewrite lookup_insert_eq, Ho. by rewrite not_elem_of_list_to_map_1.
  - by rewrite lookup_insert_ne, Hne.
Qed.

(** The merged entry stands for the child's coin. *)
Lemma merged_entry base parent o it :
  cache_ok base parent → entry_ok (utxo base parent) o it →
  (fresh_ok (cacheCoins parent) o it) ∧
  (∀ e, merged (Some it) (cacheCoins parent !! o) = Some e → entry_ok base o e) ∧
  match merged (Some it) (cacheCoins parent !! o) with
  | Some e => unspent e | None => base !! o
  end = unspent it.
Proof.
  intros Hp [Hf Hd]. pose proof (utxo_unspent base parent Hp) as Hun.
  destruct Hp as [Hb He _]. rewrite lookup_utxo in Hf, Hd. split.
  { intros Hfr us Hus. specialize (Hf Hfr). rewrite Hus in Hf. unfold unspent in Hf.
    by destruct (IsSpent (coin us)). }
  unfold merged. destruct (dirty it) eqn:Hdi; cbn.
  2: { specialize (Hd eq_refl). rewrite Hd. split; [by apply He|].
       specialize (Hun o (coin it)). rewrite lookup_utxo in Hun. specialize (Hun Hd).
       cbn in Hun. unfold unspent. by rewrite Hun. }
  destruct (cacheCoins parent !! o) as [us|] eqn:Ho.
  - destruct (He o us Ho) as [Hfu _]. unfold unspent in *. destruct (fresh us) eqn:Hfus; cbn.
    + destruct (IsSpent (coin it)) eqn:Hsp; [by split; [|apply Hfu]|].
      cbn. rewrite Hsp. split; [|done]. intros e [= <-]. by split.
    + split; [|done]. intros e [= <-]. by split.
  - unfold unspent in *. destruct (fresh it); cbn; (destruct (IsSpent (coin it)) eqn:Hsp; cbn;
      [|rewrite ?Hsp]; split; try done; try (by intros e [= <-]; split); auto).
Qed.

Lemma BatchWrite_utxo base parent child :
  cache_ok base parent → cache_ok (utxo base parent) child →
  ∃ parent', BatchWrite (cacheCoins child) (hashBlock child) (snapshotHash child) parent = Ok parent' ∧
    cache_ok base parent' ∧ utxo base parent' = utxo (utxo base parent) child ∧
    hashBlock parent' = hashBlock child.
Proof.
  intros Hp Hc. pose proof Hc as [_ Hen Hh].
  assert (∀ o it, cacheCoins child !! o = Some it → entry_ok (utxo base parent) o it) as Hen'
    by (intros; by apply Hen).
  destruct (batch_write_loop_spec (map_to_list (cacheCoins child)) (cacheCoins parent))
    as (m & Hm & Hl).
  { apply NoDup_fst_map_to_list. }
  { intros o it Hin%elem_of_map_to_list. by apply (merged_entry base), Hen'. }
  unfold BatchWrite. rewrite Hm. cbn. eexists. split; [done|].
  set (parent' := {| hashBlock := _ |}).
  assert (∀ o, m !! o = merged (cacheCoins child !! o) (cacheCoins parent !! o)) as Hl'.
  { intros o. rewrite Hl. by rewrite list_to_map_to_list. }
  assert (utxo base parent' = utxo (utxo base parent) child) as Hu.
  { apply map_eq. intros o. rewrite !lookup_utxo. cbn. rewrite Hl'.
    destruct (cacheCoins child !! o) as [it|] eqn:Ho; [|done].
    by apply (merged_entry base), Hen'. }
  split; [|done]. split; [apply Hp| |by rewrite Hu].
  intros o e. cbn. rewrite Hl'. destruct (cacheCoins child !! o) as [it|] eqn:Ho.
  - by apply (merged_entry base), Hen'.
  - apply Hp.
Qed.
End utxo.

(** ** What the caches guarantee *)

Section theorems.
Context `{!SnapshotHashing, !SnapshotHashingLaws, !Hashing}.

(** C8: a cache implements the set of unspent outputs it stands for.
    Reading it, in whichever way, answers from the set and changes neither
    the set nor its hash; spending an output of the set hands it out and
    removes it; adding a spendable coin that is not in the set, or that
    replaces a cached one, inserts it without an exception; forgetting an
    unmodified entry changes nothing.  The snapshot hash stays the hash of
    the set throughout. *)
Theorem coin_cache_refines_set base c o :
  cache_ok base c →
  (let '(r, c') := GetCoin base o c in
   r = utxo base c !! o ∧ cache_ok base c' ∧ utxo base c' = utxo base c) ∧
  (let '(r, c') := HaveCoin base o c in
   (r = true ↔ is_Some (utxo base c !! o)) ∧ cache_ok base c' ∧ utxo base c' = utxo base c) ∧
  (∀ k, utxo base c !! o = Some k →
     let '(r, c') := SpendCoin base o c in
     r = Some k ∧ cache_ok base c' ∧ utxo base c' = delete o (utxo base c)) ∧
  (∀ k possible_overwrite, IsSpent k = false → IsUnspendable (scriptPubKey (out k)) = false →
     may_add c base o possible_overwrite →
     ∃ c', AddCoin o k possible_overwrite c = Ok c' ∧
       cache_ok base c' ∧ utxo base c' = <[o := k]> (utxo base c)) ∧
  (cache_ok base (Uncache o c) ∧ utxo base (Uncache o c) = utxo base c).
Proof.
  intros Hc. split; [by apply GetCoin_utxo|]. split.
  { pose proof (HaveCoin_utxo base o c Hc) as Hh. destruct (HaveCoin base o c).
    by destruct Hh as (? & ? & ? & _). }
  split; [intros; by apply SpendCoin_utxo|].
  split; [intros; by apply AddCoin_utxo|by apply Uncache_utxo].
Qed.

(** C15: flushing a cache into the cache below it always succeeds: the check
    for misapplied FRESH flags never throws.  The parent then stands for the
    child's set, with the child's snapshot hash and best block, and the
    emptied child on top of it still for the same set. *)
Theorem flush_refines_set base parent child :
  cache_ok base parent → cache_ok (utxo base parent) child →
  ∃ parent' child', Flush parent child = Ok (parent', child') ∧
    cache_ok base parent' ∧ utxo base parent' = utxo (utxo base parent) child ∧
    hashBlock parent' = hashBlock child ∧ snapshotHash parent' = snapshotHash child ∧
    cache_ok (utxo base parent') child' ∧
    utxo (utxo base parent') child' = utxo base parent'.
Proof.
  intros Hp Hc. destruct (BatchWrite_utxo base parent child Hp Hc) as (parent' & Hw & Hok & Hu & Hb).
  exists parent', (set_cacheCoins ∅ child). unfold Flush. rewrite Hw. do 4 (split; [done|]).
  split. { destruct Hok as [_ _ ->], Hc as [_ _ ->]. by rewrite Hu. }
  assert (utxo (utxo base parent') (set_cacheCoins ∅ child) = utxo base parent') as He.
  { apply map_eq. intros o. by rewrite lookup_utxo. }
  split; [|done]. split; [by apply utxo_unspent|by apply map_Forall_empty|].
  rewrite He. cbn. destruct Hc as [_ _ ->]. by rewrite Hu.
Qed.
End theorems.

(** When the cache holds an entry for an output that is already spent,
    [SpendCoin] reports success, hands out the empty coin and takes it out
    of the snapshot hash, although the set does not change. *)
Theorem spending_a_spent_coin `{!SnapshotHashing} base o c it :
  cacheCoins c !! o = Some it → IsSpent (coin it) = true → fresh it = false →
  let '(r, c') := SpendCoin base o c in
  r = Some (coin it) ∧ utxo base c' = utxo base c ∧
  snapshotHash c' = SubtractUTXO o (coin it) (snapshotHash c).
Proof.
  intros Ho Hsp Hf. unfold SpendCoin, FetchCoin. rewrite Ho, Hf. split; [done|]. split; [|done].
  rewrite utxo_insert, utxo_snapshotHash. cbn. apply delete_id.
  rewrite lookup_utxo, Ho. unfold unspent. by rewrite Hsp.
Qed.

(** ** Witnesses *)

Definition demo_outpoint (i : Z) : COutPoint := {| outpoint_hash := 77; outpoint_n := i |}.
Definition demo_coin (v : Z) : Coin := Coin_new {| nValue := v; scriptPubKey := [OP_1] |} 5 REGULAR.

(** A commutative sum stands in for the multiset hash. *)
#[local] Instance demo_snapshot_hashing : SnapshotHashing := {|
  SnapshotHash := Z;
  SnapshotHash_empty := 0;
  AddUTXO o c h := h + outpoint_n o * 1000 + nValue (out c);
  SubtractUTXO o c h := h - outpoint_n o * 1000 - nValue (out c);
|}.

#[local] Instance demo_snapshot_hashing_laws : SnapshotHashingLaws.
Proof. split; intros; cbn; lia. Qed.

#[local] Instance demo_hashing : Hashing := {| Hash256 := foldl (λ h b, uint256 (h * 31 + b)) 7 |}.

(** One output below, one added and one spent above. *)
Definition demo_base : gmap COutPoint Coin :=
  {[ demo_outpoint 1 := demo_coin 10; demo_outpoint 2 := demo_coin 20 ]}.

Definition demo_parent : CCoinsViewCache := CCoinsViewCache_new 3030.

Definition demo_child : CCoinsViewCache :=
  (SpendCoin (utxo demo_base demo_parent) (demo_outpoint 2)
     (match AddCoin (demo_outpoint 3) (demo_coin 30) false demo_parent with
      | Ok c => c | Raise _ => demo_parent end)).2.

Lemma demo_parent_ok : cache_ok demo_base demo_parent.
Proof.
  split; [|by apply map_Forall_empty|by vm_compute].
  apply (bool_decide_unpack _). by vm_compute.
Qed.

Lemma demo_child_ok : cache_ok (utxo demo_base demo_parent) demo_child.
Proof.
  assert (cache_ok (utxo demo_base demo_parent) demo_parent) as Hc.
  { split; [exact (utxo_unspent _ _ demo_parent_ok)|by apply map_Forall_empty|by vm_compute]. }
  destruct (AddCoin_utxo (utxo demo_base demo_parent) (demo_outpoint 3) (demo_coin 30) false
    demo_parent Hc) as (c' & Ha & Hc' & Hu); [done|done|by left|].
  unfold demo_child. rewrite Ha.
  pose proof (SpendCoin_utxo _ (demo_outpoint 2) c' (demo_coin 20) Hc') as Hs.
  destruct (SpendCoin _ (demo_outpoint 2) c'). apply Hs. by rewrite Hu.
Qed.

Lemma coin_cache_refines_set_witness :
  (GetCoin (utxo demo_base demo_parent) (demo_outpoint 3) demo_child).1 = Some (demo_coin 30) ∧
  (HaveCoin (utxo demo_base demo_parent) (demo_outpoint 2) demo_child).1 = false.
Proof.
  destruct (coin_cache_refines_set (utxo demo_base demo_parent) demo_child (demo_outpoint 3)
    demo_child_ok) as (Hg & _).
  destruct (coin_cache_refines_set (utxo demo_base demo_parent) demo_child (demo_outpoint 2)
    demo_child_ok) as (_ & Hh & _).
  split.
  - destruct (GetCoin _ (demo_outpoint 3) _). destruct Hg as [-> _]. by vm_compute.
  - destruct (HaveCoin _ (demo_outpoint 2) _) as [[] ?]; [|done]. destruct Hh as [[Hh _] _].
    exfalso. destruct (Hh eq_refl) as [k Hk]. by vm_compute in Hk.
Defined.

Lemma flush_refines_set_witness :
  ∃ parent' child', Flush demo_parent demo_child = Ok (parent', child') ∧
    utxo demo_base parent' =
      {[ demo_outpoint 1 := demo_coin 10; demo_outpoint 3 := demo_coin 30 ]}.
Proof.
  destruct (flush_refines_set demo_base demo_parent demo_child demo_parent_ok demo_child_ok)
    as (parent' & child' & Hf & _ & Hu & _).
  exists parent', child'. split; [exact Hf|]. rewrite Hu. by vm_compute.
Defined.

Lemma spending_a_spent_coin_witness :
  snapshotHash (SpendCoin (utxo demo_base demo_parent) (demo_outpoint 2) demo_child).2 ≠
  snapshotHash demo_child.
Proof.
  pose proof (spending_a_spent_coin (utxo demo_base demo_parent) (demo_outpoint 2) demo_child
    {| coin := Coin_empty; dirty := true; fresh := false |}) as Hs.
  destruct (SpendCoin _ (demo_outpoint 2) demo_child) as [r c'].
  destruct Hs as (_ & _ & Hs); [by vm_compute|done|done|].
  change (snapshotHash c' ≠ snapshotHash demo_child). rewrite Hs. by vm_compute.
Defined.
