(* ===== verification/Compressor.v ===== *)
(** * Compressed coins: src/src/compressor.h, compressor.cpp, coins.h

    The form in which the coin database stores an output: amounts without
    their trailing zeros and common scripts without their fixed bytes.
    [CPubKey::Decompress], which recovers a curve point from its abscissa, is
    a parameter. *)
From S2P Require Import Prelude Serialize Admin Params Script Standard Transaction Coins.

(** ** Amounts *)

(** The [while] loop: the remaining amount and the exponent. *)
Fixpoint CompressAmount_loop (fuel : nat) (n e : Z) : Z * Z :=
  match fuel with
  | O => (n, e)
  | S fuel => if decide (n mod 10 = 0) then CompressAmount_loop fuel (n / 10) (e + 1) else (n, e)
  end.

Definition CompressAmount (n : Z) : outcome Z :=
  if decide (n = 0) then Ok 0
  else
    let '(n, e) := CompressAmount_loop 9 n 0 in
    if decide (e < 9) then
      let d := n mod 10 in
      _ ← cpp_assert (bool_decide (1 ≤ d) && bool_decide (d ≤ 9));
      let n := n / 10 in
      Ok (uint64 (1 + (n * 9 + d - 1) * 10 + e))
    else Ok (uint64 (1 + (n - 1) * 10 + 9)).

Fixpoint DecompressAmount_loop (e : nat) (n : Z) : Z :=
  match e with O => n | S e => DecompressAmount_loop e (uint64 (n * 10)) end.

Definition DecompressAmount (x : Z) : Z :=
  if decide (x = 0) then 0
  else
    let x := x - 1 in
    let e := x mod 10 in
    let x := x / 10 in
    let n := if decide (e < 9) then let d := x mod 9 + 1 in uint64 (x / 9 * 10 + d)
             else uint64 (x + 1) in
    DecompressAmount_loop (Z.to_nat e) n.

(** ** Scripts *)

Section scripts.
Context `{!Crypto} (Decompress : CPubKey → option CPubKey).

Definition IsToKeyID (script : CScript) : option bytes :=
  if bool_decide (length script = 25%nat) && bool_decide (at_ script 0 = OP_DUP) &&
     bool_decide (at_ script 1 = OP_HASH160) && bool_decide (at_ script 2 = 20) &&
     bool_decide (at_ script 23 = OP_EQUALVERIFY) && bool_decide (at_ script 24 = OP_CHECKSIG)
  then Some (slice script 3 23) else None.

Definition IsToScriptID (script : CScript) : option bytes :=
  if bool_decide (length script = 23%nat) && bool_decide (at_ script 0 = OP_HASH160) &&
     bool_decide (at_ script 1 = 20) && bool_decide (at_ script 22 = OP_EQUAL)
  then Some (slice script 2 22) else None.

Definition IsToPubKey (script : CScript) : option CPubKey :=
  if bool_decide (length script = 35%nat) && bool_decide (at_ script 0 = 33) &&
     bool_decide (at_ script 34 = OP_CHECKSIG) &&
     (bool_decide (at_ script 1 = 0x02) || bool_decide (at_ script 1 = 0x03))
  then Some (CPubKey_Set (slice script 1 34))
  else if bool_decide (length script = 67%nat) && bool_decide (at_ script 0 = 65) &&
          bool_decide (at_ script 66 = OP_CHECKSIG) && bool_decide (at_ script 1 = 0x04)
  then
    let pubkey := CPubKey_Set (slice script 1 66) in
    if IsFullyValid pubkey then Some pubkey else None
  else None.

Definition CompressScript (script : CScript) : option bytes :=
  match IsToKeyID script with
  | Some keyID => Some (0x00 :: keyID)
  | None =>
      match IsToScriptID script with
      | Some scriptID => Some (0x01 :: scriptID)
      | None =>
          match IsToPubKey script with
          | Some pubkey =>
              let x := slice pubkey 1 33 in
              if decide (at_ pubkey 0 = 0x02 ∨ at_ pubkey 0 = 0x03) then Some (at_ pubkey 0 :: x)
              else if decide (at_ pubkey 0 = 0x04)
                   then Some (Z.lor 0x04 (Z.land (at_ pubkey 64) 0x01) :: x)
              else None
          | None => None
          end
      end
  end.

Definition GetSpecialScriptSize (nSize : Z) : nat :=
  if decide (nSize = 0 ∨ nSize = 1) then 20
  else if decide (nSize = 2 ∨ nSize = 3 ∨ nSize = 4 ∨ nSize = 5) then 32
  else 0.

(** [None] where the method returns false and leaves the script as it was. *)
Definition DecompressScript (nSize : Z) (input : bytes) : outcome (option CScript) :=
  if decide (nSize = 0x00) then
    Ok (Some ([OP_DUP; OP_HASH160; 20] ++ take 20 input ++ [OP_EQUALVERIFY; OP_CHECKSIG]))
  else if decide (nSize = 0x01) then
    Ok (Some ([OP_HASH160; 20] ++ take 20 input ++ [OP_EQUAL]))
  else if decide (nSize = 0x02 ∨ nSize = 0x03) then
    Ok (Some ([33; nSize] ++ take 32 input ++ [OP_CHECKSIG]))
  else if decide (nSize = 0x04 ∨ nSize = 0x05) then
    match Decompress (CPubKey_Set ((nSize - 2) :: take 32 input)) with
    | None => Ok None
    | Some pubkey =>
        _ ← cpp_assert (bool_decide (CPubKey_size pubkey = 65%nat));
        Ok (Some ([65] ++ pubkey ++ [OP_CHECKSIG]))
    end
  else Ok None.

Definition nSpecialScripts : Z := 6.

(** [CScriptCompressor]; [nSize] is an [unsigned int]. *)
Definition CScriptCompressor_Serialize (script : CScript) : bytes :=
  match CompressScript script with
  | Some compr => compr
  | None => WriteVarInt (uint32 (Z.of_nat (length script) + nSpecialScripts)) ++ script
  end.

(** [None] for the exception of a stream that ends; [s.ignore] takes an [int]. *)
Definition CScriptCompressor_Unserialize (s : bytes) : outcome (option (CScript * bytes)) :=
  match ReadVarInt (2 ^ 32 - 1) s with
  | None => Ok None
  | Some (nSize, s) =>
      if decide (nSize < nSpecialScripts) then
        match read_bytes (GetSpecialScriptSize nSize) s with
        | None => Ok None
        | Some (vch, s) =>
            script ← DecompressScript nSize vch;
            Ok (Some (default [] script, s))
        end
      else
        let nSize := nSize - nSpecialScripts in
        if decide (MAX_SCRIPT_SIZE < nSize) then
          if decide (2 ^ 31 ≤ nSize) then Ok None
          else match read_bytes (Z.to_nat nSize) s with
          | None => Ok None
          | Some (_, s) => Ok (Some ([OP_RETURN], s))
          end
        else Ok (read_bytes (Z.to_nat nSize) s)
  end.

(** ** Outputs and coins *)

(** The amount is converted to [uint64_t] and back. *)
Definition CTxOutCompressor_Serialize (txout : CTxOut) : outcome bytes :=
  nVal ← CompressAmount (uint64 (nValue txout));
  Ok (WriteVarInt nVal ++ CScriptCompressor_Serialize (scriptPubKey txout)).

Definition CTxOutCompressor_Unserialize (s : bytes) : outcome (option (CTxOut * bytes)) :=
  match ReadVarInt (2 ^ 64 - 1) s with
  | None => Ok None
  | Some (nVal, s) =>
      r ← CScriptCompressor_Unserialize s;
      Ok ('(script, s) ← r;
          Some ({| nValue := int64 (DecompressAmount nVal); scriptPubKey := script |}, s))
  end.

Definition Coin_Serialize (c : Coin) : outcome bytes :=
  _ ← cpp_assert (negb (IsSpent c));
  txout ← CTxOutCompressor_Serialize (out c);
  Ok (ser_writedata8 (TxType_value (tx_type c)) ++ ser_writedata32 (coin_nHeight c) ++ txout).

(** [TxType::_from_integral] throws on a value that is no enumerator. *)
Definition TxType_from_integral (n : Z) : option TxType :=
  if decide (0 ≤ n ≤ 7) then Some (TxType_from_index_unchecked n) else None.

Definition Coin_Unserialize (s : bytes) : outcome (option (Coin * bytes)) :=
  match ('(type, s) ← ser_readdata8 s; t ← TxType_from_integral type;
         '(h, s) ← ser_readdata32 s; Some (t, h, s)) with
  | None => Ok None
  | Some (t, h, s) =>
      r ← CTxOutCompressor_Unserialize s;
      Ok ('(txout, s) ← r; Some ({| out := txout; tx_type := t; coin_nHeight := h |}, s))
  end.
End scripts.

(** ** Round trips *)

Lemma CompressAmount_loop_spec fuel n e :
  0 < n → let '(n', e') := CompressAmount_loop fuel n e in
  0 < n' ∧ e ≤ e' ≤ e + Z.of_nat fuel ∧ n = n' * 10 ^ (e' - e) ∧
  (n' mod 10 ≠ 0 ∨ e' = e + Z.of_nat fuel).
Proof.
  induction fuel as [|fuel IH] in n, e |- *; intros Hn; cbn [CompressAmount_loop].
  { rewrite Z.sub_diag. cbn. lia. }
  case_decide as Hm; [|rewrite Z.sub_diag; cbn; lia].
  pose proof (Z.div_mod n 10 ltac:(lia)). specialize (IH (n / 10) (e + 1) ltac:(lia)).
  destruct (CompressAmount_loop fuel (n / 10) (e + 1)) as [n' e'].
  destruct IH as (? & ? & Heq & ?). split; [done|]. split; [lia|]. split; [|lia].
  replace (e' - e) with (Z.succ (e' - (e + 1))) by lia. rewrite Z.pow_succ_r by lia. lia.
Qed.

Lemma DecompressAmount_loop_spec e n :
  0 ≤ n → n * 10 ^ Z.of_nat e < 2 ^ 64 → DecompressAmount_loop e n = n * 10 ^ Z.of_nat e.
Proof.
  induction e as [|e IH] in n |- *; intros Hn Hlt; cbn [DecompressAmount_loop].
  { cbn. lia. }
  rewrite Nat2Z.inj_succ, Z.pow_succ_r in Hlt |- * by lia.
  assert (0 < 10 ^ Z.of_nat e) by (apply Z.pow_pos_nonneg; lia).
  rewrite uint64_small by (unfold is_uint64; nia). rewrite IH by nia. lia.
Qed.

(** Amounts below 2^60 survive; the money supply is below that. *)
Lemma amount_roundtrip n :
  0 ≤ n < 2 ^ 60 → ∃ x, CompressAmount n = Ok x ∧ is_uint64 x ∧ DecompressAmount x = n.
Proof.
  intros Hn. unfold CompressAmount. case_decide as H0; [by exists 0; subst|].
  pose proof (CompressAmount_loop_spec 9 n 0 ltac:(lia)) as Hl.
  destruct (CompressAmount_loop 9 n 0) as [m e]. destruct Hl as (Hm & He & Heq & Hd).
  rewrite Z.sub_0_r in Heq. assert (0 < 10 ^ e) by (apply Z.pow_pos_nonneg; lia).
  assert (m ≤ n) by nia. pose proof (Z.div_mod m 10 ltac:(lia)) as Hdm.
  pose proof (Z.mod_pos_bound m 10 ltac:(lia)). assert (0 ≤ m / 10) by (apply Z.div_pos; lia).
  case_decide.
  - rewrite !bool_decide_eq_true_2 by lia. cbn [andb cpp_assert mbind outcome_bind].
    set (x := (m / 10 * 9 + m mod 10 - 1) * 10 + e). eexists. split; [done|].
    rewrite uint64_small by (unfold is_uint64; lia). split; [unfold is_uint64; lia|].
    unfold DecompressAmount. rewrite decide_False by lia. cbv zeta.
    replace (1 + _ + e - 1) with (e + (m / 10 * 9 + m mod 10 - 1) * 10) by lia.
    rewrite Z.mod_add, Z.div_add, (Z.mod_small e), (Z.div_small e) by lia. decide_lia.
    replace (0 + (m / 10 * 9 + m mod 10 - 1)) with (m mod 10 - 1 + m / 10 * 9) by lia.
    rewrite Z.mod_add, Z.div_add, (Z.mod_small (m mod 10 - 1)), (Z.div_small (m mod 10 - 1)) by lia.
    rewrite uint64_small by (unfold is_uint64; lia).
    rewrite DecompressAmount_loop_spec; rewrite ?Z2Nat.id by lia; nia.
  - replace e with 9 in * by lia. eexists. split; [done|].
    rewrite uint64_small by (unfold is_uint64; lia). split; [unfold is_uint64; lia|].
    unfold DecompressAmount. rewrite decide_False by lia. cbv zeta.
    replace (1 + (m - 1) * 10 + 9 - 1) with (9 + (m - 1) * 10) by lia.
    rewrite Z.mod_add, Z.div_add by lia. change (9 mod 10) with 9. change (9 / 10) with 0.
    decide_lia. rewrite uint64_small by (unfold is_uint64; lia).
    rewrite DecompressAmount_loop_spec; rewrite ?Z2Nat.id by lia; nia.
Qed.

(** The shapes behind the special scripts. *)
Lemma IsToKeyID_shape script h :
  IsToKeyID script = Some h →
  length h = 20%nat ∧ script = [OP_DUP; OP_HASH160; 20] ++ h ++ [OP_EQUALVERIFY; OP_CHECKSIG].
Proof.
  unfold IsToKeyID. destruct (bool_decide (length script = 25%nat)) eqn:Hl; [|done].
  apply bool_decide_eq_true in Hl. destruct (_ && _) eqn:Hb; [|done]. intros [= <-].
  fixed_list script Hl. split_andb. cbn in *. by subst.
Qed.

Lemma IsToScriptID_shape script h :
  IsToScriptID script = Some h →
  length h = 20%nat ∧ script = [OP_HASH160; 20] ++ h ++ [OP_EQUAL].
Proof.
  unfold IsToScriptID. destruct (bool_decide (length script = 23%nat)) eqn:Hl; [|done].
  apply bool_decide_eq_true in Hl. destruct (_ && _) eqn:Hb; [|done]. intros [= <-].
  fixed_list script Hl. split_andb. cbn in *. by subst.
Qed.

Lemma key_slices script (n : nat) :
  length script = (n + 2)%nat → at_ script 0 = Z.of_nat n → at_ script (n + 1) = OP_CHECKSIG →
  script = [Z.of_nat n] ++ slice script 1 (n + 1) ++ [OP_CHECKSIG] ∧
  length (slice script 1 (n + 1)) = n ∧ (0 < n → at_ (slice script 1 (n + 1)) 0 = at_ script 1)%nat.
Proof.
  destruct script as [|b l]; [done|]. unfold slice. cbn [length]. intros Hl Hb Hc.
  destruct l as [|y l' _] using rev_ind; cbn in Hl; [lia|]. rewrite length_app in Hl. cbn in Hl.
  replace (n + 1 - 1)%nat with n by lia. assert (length l' = n) as <- by lia.
  rewrite Nat.add_1_r in Hc. change (default 0 ((l' ++ [y]) !! length l') = OP_CHECKSIG) in Hc.
  rewrite list_lookup_middle in Hc by done. cbn in Hb, Hc. subst b y. cbn.
  rewrite drop_0, take_app_length. repeat split. intros Hn.
  destruct l'; cbn in *; [lia|done].
Qed.

Section roundtrips.
Context `{!Crypto} (Decompress : CPubKey → option CPubKey).

(** Decompressing a valid key's abscissa with the parity of its ordinate
    gives the key back. *)
Hypothesis Decompress_valid : ∀ x y : bytes,
  length x = 32%nat → length y = 32%nat → IsFullyValid (4 :: x ++ y) = true →
  Decompress ((Z.lor 4 (Z.land (at_ y 31) 1) - 2) :: x) = Some (4 :: x ++ y).

Lemma IsToPubKey_shape script k :
  IsToPubKey script = Some k →
  (∃ b x, (b = 2 ∨ b = 3) ∧ length x = 32%nat ∧ k = b :: x ∧ script = [33] ++ k ++ [OP_CHECKSIG]) ∨
  (∃ x y, length x = 32%nat ∧ length y = 32%nat ∧ k = 4 :: x ++ y ∧ IsFullyValid k = true ∧
     script = [65] ++ k ++ [OP_CHECKSIG]).
Proof.
  unfold IsToPubKey. destruct (_ && _ && _ && (_ || _)) eqn:Hb.
  - intros Hk. left. apply andb_true_iff in Hb as [Hb Hh]. split_andb.
    destruct (key_slices script 33) as (Hs & Hlen & Hat); [done..|].
    assert (at_ script 1 = 2 ∨ at_ script 1 = 3) as Hh'.
    { by apply orb_true_iff in Hh as [?%bool_decide_eq_true|?%bool_decide_eq_true]; [left|right]. }
    change (33 + 1)%nat with 34%nat in *. rewrite <- Hat in Hh' by lia.
    destruct (slice script 1 34) as [|b x]; [done|]. cbn in Hlen, Hh'. injection Hlen as Hlen.
    assert (CPubKey_Set (b :: x) = b :: x) as Hset.
    { unfold CPubKey_Set. rewrite decide_True; [done|]. cbn [length]. rewrite Hlen.
      unfold GetLen. by rewrite decide_True. }
    rewrite Hset in Hk. injection Hk as <-. by exists b, x.
  - destruct (_ && _ && _ && bool_decide _) eqn:Hb'; [|done]. intros Hk. right. split_andb.
    destruct (key_slices script 65) as (Hs & Hlen & Hat); [done..|].
    change (65 + 1)%nat with 66%nat in *.
    assert (at_ (slice script 1 66) 0 = 4) as H4 by (rewrite Hat by lia; done).
    destruct (slice script 1 66) as [|b xy]; [done|]. cbn in Hlen, H4. injection Hlen as Hlen.
    subst b. assert (CPubKey_Set (4 :: xy) = 4 :: xy) as Hset.
    { unfold CPubKey_Set. rewrite decide_True; [done|]. cbn [length]. by rewrite Hlen. }
    rewrite Hset in Hk. destruct (IsFullyValid (4 :: xy)) eqn:Hv; [|done]. injection Hk as <-.
    exists (take 32 xy), (drop 32 xy). rewrite take_drop, length_take, length_drop.
    split; [lia|]. split; [lia|]. done.
Qed.

(** What the compressed form of a special script is. *)
Lemma CompressScript_cases script compr :
  CompressScript script = Some compr →
  ∃ nSize input, compr = nSize :: input ∧ 0 ≤ nSize < nSpecialScripts ∧
    length input = GetSpecialScriptSize nSize ∧
    DecompressScript Decompress nSize input = Ok (Some script).
Proof.
  unfold CompressScript. destruct (IsToKeyID script) as [h|] eqn:Hk.
  { apply IsToKeyID_shape in Hk as [Hl Hs]. intros [= <-]. exists 0, h.
    do 3 (split; [done|]). unfold DecompressScript. decide_lia.
    rewrite take_ge by lia. by rewrite Hs. }
  destruct (IsToScriptID script) as [h|] eqn:Hsc.
  { apply IsToScriptID_shape in Hsc as [Hl Hs]. intros [= <-]. exists 1, h.
    do 3 (split; [done|]). unfold DecompressScript. decide_lia.
    rewrite take_ge by lia. by rewrite Hs. }
  destruct (IsToPubKey script) as [k|] eqn:Hp; [|done].
  apply IsToPubKey_shape in Hp as [(b & x & Hb & Hx & -> & Hs)|(x & y & Hx & Hy & -> & Hv & Hs)].
  - change (slice (b :: x) 1 33) with (take 32 x). change (at_ (b :: x) 0) with b.
    rewrite decide_True by done. rewrite take_ge by lia. intros [= <-]. exists b, x.
    rewrite Hx. unfold nSpecialScripts, GetSpecialScriptSize, DecompressScript.
    decide_lia. do 3 (split; [done || lia|]). rewrite take_ge by lia. by rewrite Hs.
  - change (at_ (4 :: x ++ y) 0) with 4. decide_lia. intros [= <-].
    assert (slice (4 :: x ++ y) 1 33 = x) as ->.
    { unfold slice. cbn [drop]. rewrite drop_0. change (33 - 1)%nat with 32%nat.
      by rewrite take_app_le, take_ge by lia. }
    assert (at_ (4 :: x ++ y) 64 = at_ y 31) as ->.
    { unfold at_. rewrite lookup_cons_ne_0 by done. by rewrite lookup_app_r by (cbn; lia); rewrite Hx. }
    pose proof (Decompress_valid x y Hx Hy Hv) as Hd.
    assert (Z.lor 4 (Z.land (at_ y 31) 1) = 4 ∨ Z.lor 4 (Z.land (at_ y 31) 1) = 5) as Hz.
    { assert (Z.land (at_ y 31) 1 = at_ y 31 mod 2 ^ 1) as -> by by apply (Z.land_ones _ 1).
      pose proof (Z.mod_pos_bound (at_ y 31) (2 ^ 1)).
      destruct (decide (at_ y 31 mod 2 ^ 1 = 0)) as [->|]; [by left|right].
      replace (at_ y 31 mod 2 ^ 1) with 1 by lia. done. }
    set (z := Z.lor 4 (Z.land (at_ y 31) 1)) in *. exists z, x. split; [done|].
    unfold nSpecialScripts, GetSpecialScriptSize, DecompressScript. decide_lia.
    do 2 (split; [lia|]). rewrite take_ge by lia.
    assert (CPubKey_Set (z - 2 :: x) = z - 2 :: x) as ->.
    { unfold CPubKey_Set. rewrite decide_True; [done|]. cbn [length]. rewrite Hx.
      unfold GetLen. by rewrite decide_True by lia. }
    by rewrite Hd, Hs.
Qed.

Lemma script_roundtrip script rest :
  Z.of_nat (length script) ≤ MAX_SCRIPT_SIZE →
  CScriptCompressor_Unserialize Decompress (CScriptCompressor_Serialize script ++ rest) =
  Ok (Some (script, rest)).
Proof.
  intros Hlen. unfold CScriptCompressor_Serialize, CScriptCompressor_Unserialize.
  destruct (CompressScript script) as [compr|] eqn:Hc.
  - apply CompressScript_cases in Hc as (nSize & input & -> & Hn & Hl & Hd).
    assert (ReadVarInt (2 ^ 32 - 1) ((nSize :: input) ++ rest) = Some (nSize, input ++ rest)) as ->.
    { assert (WriteVarInt nSize = [nSize]) as Hw.
      { unfold nSpecialScripts in Hn.
        destruct (decide (nSize = 0)), (decide (nSize = 1)), (decide (nSize = 2)),
          (decide (nSize = 3)), (decide (nSize = 4)), (decide (nSize = 5)); subst; done || lia. }
      change ((nSize :: input) ++ rest) with ([nSize] ++ input ++ rest). rewrite <- Hw.
      apply ReadVarInt_WriteVarInt; unfold nSpecialScripts in Hn; lia. }
    rewrite decide_True by lia. rewrite read_bytes_app, Hd by done. done.
  - unfold nSpecialScripts, MAX_SCRIPT_SIZE in *.
    rewrite uint32_small by (unfold is_uint32; lia).
    rewrite <- app_assoc, ReadVarInt_WriteVarInt by lia. decide_lia.
    rewrite Z.add_simpl_r. decide_lia. by rewrite Nat2Z.id, read_bytes_app.
Qed.

(** Round trip of the coin database.  An unspent coin with an amount of
    the money supply and a script of admissible size is written without a
    failed assertion and read back unchanged, whichever special form its
    script takes. *)
Theorem coin_roundtrip c rest :
  MoneyRange (nValue (out c)) = true → is_uint32 (coin_nHeight c) →
  Z.of_nat (length (scriptPubKey (out c))) ≤ MAX_SCRIPT_SIZE →
  ∃ b, Coin_Serialize c = Ok b ∧ Coin_Unserialize Decompress (b ++ rest) = Ok (Some (c, rest)).
Proof.
  intros Hm Hh Hs. apply andb_true_iff in Hm as [H0%bool_decide_eq_true H1%bool_decide_eq_true].
  assert (nValue (out c) < 2 ^ 60) as Hv by (unfold MAX_MONEY, UNIT in *; lia).
  destruct (amount_roundtrip (nValue (out c)) ltac:(lia)) as (x & Hx & Hx64 & Hd).
  unfold Coin_Serialize, CTxOutCompressor_Serialize.
  assert (IsSpent c = false) as -> by (unfold IsSpent, CTxOut_IsNull; apply bool_decide_eq_false; lia).
  rewrite uint64_small, Hx by (unfold is_uint64; lia). eexists. split; [done|].
  unfold Coin_Unserialize. rewrite <- !app_assoc.
  rewrite (dec_enc (f := uint8_format)) by (by destruct (tx_type c)). cbn [mbind option_bind].
  assert (TxType_from_integral (TxType_value (tx_type c)) = Some (tx_type c)) as ->
    by by destruct (tx_type c).
  cbn [mbind option_bind]. rewrite (dec_enc (f := uint32_format)) by done. cbn [mbind option_bind].
  unfold CTxOutCompressor_Unserialize.
  rewrite ReadVarInt_WriteVarInt by (unfold is_uint64 in *; lia).
  rewrite script_roundtrip by done. cbn. rewrite Hd, int64_small by (unfold is_int64; lia).
  by destruct c as [[] ? ?].
Qed.
End roundtrips.

(** A toy curve on which the ordinate is the abscissa. *)
Definition toy_crypto : Crypto := {|
  Hash160 := λ _, 0;
  IsFullyValid := λ k, bool_decide (slice k 1 33 = drop 33 k);
|}.
Definition toy_Decompress (k : CPubKey) : option CPubKey := Some (4 :: drop 1 k ++ drop 1 k).

Lemma coin_roundtrip_witness :
  let c := Coin_new {| nValue := 5000000000;
                       scriptPubKey := 65 :: 4 :: replicate 64 7 ++ [OP_CHECKSIG] |} 12 DEPOSIT in
  ∃ b, Coin_Serialize (H := toy_crypto) c = Ok b ∧
       Coin_Unserialize toy_Decompress (b ++ [1]) = Ok (Some (c, [1])) ∧ length b = 39%nat.
Proof.
  intros c. destruct (coin_roundtrip (H := toy_crypto) toy_Decompress) with (c := c) (rest := [1])
    as (b & Hb & Hr).
  - intros x y Hx Hy Hv%bool_decide_eq_true. cbn in *. unfold slice in Hv. cbn in Hv.
    assert (x = y) as <-; [|done].
    rewrite drop_0, take_app_le, take_ge in Hv by lia. rewrite Hv. by rewrite <- Hx, drop_app_length.
  - by vm_compute.
  - by vm_compute.
  - by vm_compute.
  - exists b. split; [exact Hb|]. split; [exact Hr|]. vm_compute in Hb. by injection Hb as <-.
Defined.
