(* ===== verification/Checks.v ===== *)
(** * Checks of commit transactions: src/src/esperanza/checks.cpp, script.cpp,
    src/src/consensus/validation.h

    The structural checks of the transactions that carry deposits, votes,
    logouts, withdrawals, slashings and administrator commands, and the
    contextual ones, against a finalization state and the outputs they spend.
    A check that fails ends with the misbehaviour level and the reason the
    code passes to [CValidationState::DoS]. *)
From stdpp Require Import strings.
From S2P Require Import Prelude Serialize Admin Params FinalizationData FinalizationOps.
From S2P Require Import StateFormat Script Standard CommitScripts Transaction Coins.

(** ** Verdicts *)

Inductive verdict (A : Type) :=
  | Accept (a : A)
  | Reject (level : Z) (reason : string).
Arguments Accept {A} _.
Arguments Reject {A} _ _.

Inductive mode_state := MODE_VALID | MODE_INVALID | MODE_ERROR.

#[export] Instance mode_state_eq_dec : EqDecision mode_state.
Proof. solve_decision. Defined.

(** [CValidationState], without the debug message and the block information. *)
Record CValidationState := {
  mode : mode_state;
  nDoS : Z;
  strRejectReason : string;
  chRejectCode : Z;
}.

Definition REJECT_INVALID : Z := 0x10.

Definition CValidationState_new : CValidationState :=
  {| mode := MODE_VALID; nDoS := 0; strRejectReason := EmptyString; chRejectCode := 0 |}.

Definition DoS (level chRejectCodeIn : Z) (strRejectReasonIn : string) (st : CValidationState) :
  CValidationState :=
  let st := {| mode := mode st; nDoS := nDoS st;
               strRejectReason := strRejectReasonIn; chRejectCode := chRejectCodeIn |} in
  if decide (mode st = MODE_ERROR) then st
  else {| mode := MODE_INVALID; nDoS := nDoS st + level;
          strRejectReason := strRejectReason st; chRejectCode := chRejectCode st |}.

(** What a check leaves in its [err_state]. *)
Definition report {A} (v : verdict A) (st : CValidationState) : CValidationState :=
  match v with Accept _ => st | Reject level reason => DoS level REJECT_INVALID reason st end.

(** Checks return on the first rejection. *)
Abbreviation check A := (outcome (verdict A)).

Definition check_bind {A B} (m : check A) (k : A → check B) : check B :=
  v ← m;
  match v with Accept a => k a | Reject level reason => Ok (Reject level reason) end.

Notation "x ←! m ; k" := (check_bind m (λ x, k))
  (at level 20, m at level 100, k at level 200, right associativity).

Definition accept {A} (a : A) : check A := Ok (Accept a).
Definition reject {A} (level : Z) (reason : string) : check A := Ok (Reject level reason).
Definition lift {A} (m : outcome A) : check A := a ← m; accept a.

(** [if (!b) return err_state.DoS(level, false, REJECT_INVALID, reason)]. *)
Definition require (b : bool) (level : Z) (reason : string) : check unit :=
  if b then accept tt else reject level reason.

Definition require_some {A} (o : option A) (level : Z) (reason : string) : check A :=
  match o with Some a => accept a | None => reject level reason end.

(** ** Signatures *)

(** The verification of an ECDSA signature by libsecp256k1, after lax DER
    parsing and normalization. *)
Class Signatures := { secp256k1_verify : CPubKey → Z → bytes → bool }.

Section checks.
Context `{!Crypto, !Hashing, !Signatures} (garbage : bytes).

(** [CPubKey::Verify]. *)
Definition Verify (k : CPubKey) (hash : Z) (vchSig : bytes) : bool :=
  CPubKey_IsValid k && secp256k1_verify k hash vchSig.

(** [Vote::GetHash] streams the members in the order of the serialization. *)
Definition Vote_GetHash (vote : Vote) : Z := Hash256 (enc Vote_format vote).

Definition CheckVoteSignature (pubkey : CPubKey) (vote : Vote) (vote_sig : bytes) : bool :=
  Verify pubkey (Vote_GetHash vote) vote_sig.

(** ** The finalizer behind a transaction *)

Definition ExtractValidatorPubkey (tx : CTransaction) : outcome (option CPubKey) :=
  if IsVote tx then
    o ← vec_at (vout tx) 0;
    solved ← Solver (scriptPubKey o);
    match solved with
    | Some (_, vSolutions) => k ← vec_at vSolutions 0; Ok (Some (CPubKey_Set k))
    | None => Ok None
    end
  else Ok None.

(** The failures of [GetOp] on a withdrawal's [scriptSig] are ignored: the
    data is then empty. *)
Definition ExtractValidatorAddress (tx : CTransaction) : outcome (option Z) :=
  match GetType tx with
  | DEPOSIT | LOGOUT =>
      o ← vec_at (vout tx) 0;
      solved ← Solver (scriptPubKey o);
      match solved with
      | Some (typeRet, vSolutions) =>
          _ ← cpp_assert (bool_decide (typeRet = TX_COMMIT));
          k ← vec_at vSolutions 0;
          Ok (Some (GetID (CPubKey_Set k)))
      | None => Ok None
      end
  | WITHDRAW =>
      i ← vec_at (vin tx) 0;
      let '(_, pc) := GetScriptOp (scriptSig i) in
      let vData := match GetScriptOp pc with (Some (_, data), _) => data | (None, _) => [] end in
      Ok (Some (GetID (CPubKey_Set vData)))
  | _ => Ok None
  end.

(** ** Structural checks *)

Definition CheckDepositTx (tx : CTransaction) : check Z :=
  _ ←! lift (cpp_assert (IsDeposit tx));
  _ ←! require (bool_decide (vin tx ≠ []) && bool_decide (vout tx ≠ [])) 100 "bad-deposit-malformed";
  o ←! lift (vec_at (vout tx) 0);
  _ ←! require (IsFinalizerCommitScript (scriptPubKey o)) 100 "bad-deposit-vout-script";
  solved ←! lift (Solver (scriptPubKey o));
  _ ←! require_some solved 100 "bad-deposit-script-not-solvable";
  address ←! lift (ExtractValidatorAddress tx);
  require_some address 100 "bad-deposit-cannot-extract-validator-address".

Definition CheckLogoutTx (tx : CTransaction) : check Z :=
  _ ←! lift (cpp_assert (IsLogout tx));
  _ ←! require (bool_decide (length (vin tx) = 1%nat) && bool_decide (length (vout tx) = 1%nat))
         100 "bad-logout-malformed";
  o ←! lift (vec_at (vout tx) 0);
  _ ←! require (IsFinalizerCommitScript (scriptPubKey o)) 100 "bad-logout-vout-script";
  solved ←! lift (Solver (scriptPubKey o));
  _ ←! require_some solved 100 "bad-logout-script-not-solvable";
  address ←! lift (ExtractValidatorAddress tx);
  require_some address 100 "bad-logout-cannot-extract-validator-address".

Definition CheckWithdrawTx (tx : CTransaction) : check Z :=
  _ ←! lift (cpp_assert (IsWithdraw tx));
  _ ←! require (bool_decide (length (vin tx) = 1%nat) && bool_decide (length (vout tx) ≤ 3)%nat)
         100 "bad-withdraw-malformed";
  o ←! lift (vec_at (vout tx) 0);
  _ ←! require (IsPayToPublicKeyHash (scriptPubKey o)) 100 "bad-withdraw-vout-script-invalid-p2pkh";
  solved ←! lift (Solver (scriptPubKey o));
  _ ←! require_some solved 100 "bad-withdraw-script-not-solvable";
  address ←! lift (ExtractValidatorAddress tx);
  require_some address 100 "bad-withdraw-cannot-extract-validator-address".

Definition CheckVoteTx (tx : CTransaction) : check (Vote * bytes) :=
  _ ←! lift (cpp_assert (IsVote tx));
  _ ←! require (bool_decide (length (vin tx) = 1%nat) && bool_decide (length (vout tx) = 1%nat))
         100 "bad-vote-malformed";
  o ←! lift (vec_at (vout tx) 0);
  _ ←! require (IsFinalizerCommitScript (scriptPubKey o)) 100 "bad-vote-vout-script";
  i ←! lift (vec_at (vin tx) 0);
  vote ←! require_some (ExtractVoteFromVoteSignature (scriptSig i)) 100 "bad-vote-data-format";
  key ←! lift (ExtractValidatorPubkey tx);
  pubkey ←! require_some key 100 "bad-scriptpubkey-pubkey-format";
  _ ←! require (CheckVoteSignature pubkey vote.1 vote.2) 100 "bad-vote-signature";
  accept vote.

Definition CheckSlashTx (tx : CTransaction) : check (Vote * Vote) :=
  _ ←! lift (cpp_assert (IsSlash tx));
  _ ←! require (bool_decide (length (vin tx) = 1%nat) && bool_decide (length (vout tx) = 1%nat))
         100 "bad-slash-malformed";
  i ←! lift (vec_at (vin tx) 0);
  votes ←! require_some (ExtractVotesFromSlashSignature (scriptSig i)) 100 "bad-slash-data-format";
  accept (votes.1.1, votes.2.1).

(** The loop over the outputs: the number of commands. *)
Fixpoint admin_outputs_loop (outs : list CTxOut) (valid_commands : Z)
    (disable_permissioning : bool) : check Z :=
  match outs with
  | [] => accept valid_commands
  | o :: outs =>
      if negb (MatchAdminCommand (scriptPubKey o))
      then admin_outputs_loop outs valid_commands disable_permissioning
      else
        command ←! require_some (DecodeAdminCommand garbage (scriptPubKey o))
                     10 "admin-invalid-command";
        _ ←! require (negb disable_permissioning) 10 "admin-double-disable";
        admin_outputs_loop outs (valid_commands + 1)
          (disable_permissioning || bool_decide (m_command_type command = END_PERMISSIONING))
  end.

Definition CheckAdminTx (tx : CTransaction) : check (list CPubKey) :=
  _ ←! lift (cpp_assert (IsAdmin tx));
  _ ←! require (bool_decide (vin tx ≠ [])) 10 "admin-vin-empty";
  _ ←! require (bool_decide (vout tx ≠ [])) 10 "admin-vout-empty";
  valid_commands ←! admin_outputs_loop (vout tx) 0 false;
  _ ←! require (bool_decide (valid_commands ≠ 0)) 10 "admin-no-commands";
  i ←! lift (vec_at (vin tx) 0);
  _ ←! require (bool_decide (length (scriptWitness i) = ADMIN_MULTISIG_SIGNATURES + 2)%nat)
         10 "admin-invalid-witness";
  keys ←! require_some (ExtractAdminKeysFromWitness (scriptWitness i)) 10 "admin-invalid-witness";
  _ ←! require (bool_decide (length keys = ADMIN_MULTISIG_KEYS)) 10 "admin-invalid-witness";
  accept keys.

(** The transactions are checked for their own kind; the others fail the
    assertion. *)
Definition CheckFinalizerCommit (tx : CTransaction) : check unit :=
  match GetType tx with
  | REGULAR | COINBASE => Raise AssertionFailure
  | DEPOSIT => _ ←! CheckDepositTx tx; accept tt
  | VOTE => _ ←! CheckVoteTx tx; accept tt
  | LOGOUT => _ ←! CheckLogoutTx tx; accept tt
  | SLASH => _ ←! CheckSlashTx tx; accept tt
  | WITHDRAW => _ ←! CheckWithdrawTx tx; accept tt
  | ADMIN => _ ←! CheckAdminTx tx; accept tt
  end.

(** ** Contextual checks *)

Section contextual.
(** The transactions of the memory pool by their hashes, and [GetCoin] of the
    coin view. *)
Context (mempool : gmap Z CTransaction) (view : gmap COutPoint Coin) (p : Params).
Implicit Types fin_state : State.

(** The type of the transaction and the script of the output. *)
Definition FindPrevOutData (prevout : COutPoint) : outcome (option (TxType * CScript)) :=
  match mempool !! outpoint_hash prevout with
  | Some prev_tx =>
      o ← vec_at (vout prev_tx) (Z.to_nat (outpoint_n prevout));
      Ok (Some (GetType prev_tx, scriptPubKey o))
  | None =>
      Ok (prev_coin ← view !! prevout; Some (tx_type prev_coin, scriptPubKey (out prev_coin)))
  end.

Definition ContextualCheckDepositTx (tx : CTransaction) fin_state : check unit :=
  validator_address ←! CheckDepositTx tx;
  o ←! lift (vec_at (vout tx) 0);
  match ValidateDeposit p fin_state validator_address (nValue o) with
  | SUCCESS => accept tt
  | DEPOSIT_DUPLICATE => reject 0 "bad-deposit-duplicate"
  | _ => reject 100 "bad-deposit-invalid"
  end.

(** The difference of the epochs is unsigned. *)
Definition IsVoteExpired (tx : CTransaction) fin_state : outcome bool :=
  _ ← cpp_assert (IsVote tx);
  i ← vec_at (vin tx) 0;
  match ExtractVoteFromVoteSignature (scriptSig i) with
  | None => Raise AssertionFailure
  | Some (vote, _) =>
      Ok (bool_decide (m_target_epoch vote < uint32 (m_current_epoch fin_state - 1)))
  end.

Definition ContextualCheckLogoutTx (tx : CTransaction) fin_state : check unit :=
  validator_address ←! CheckLogoutTx tx;
  _ ←! match ValidateLogout p fin_state validator_address with
       | SUCCESS => accept tt
       | LOGOUT_NOT_A_VALIDATOR => reject 100 "bad-logout-not-from-validator"
       | _ => reject 0 "bad-logout-invalid"
       end;
  i ←! lift (vec_at (vin tx) 0);
  found ←! lift (FindPrevOutData (prevout i));
  prev ←! require_some found 0 "bad-logout-no-prev-tx-found";
  _ ←! require (bool_decide (prev.1 = DEPOSIT) || bool_decide (prev.1 = VOTE))
         100 "bad-logout-prev-not-deposit-or-vote";
  o ←! lift (vec_at (vout tx) 0);
  require (bool_decide (prev.2 = scriptPubKey o)) 100 "bad-logout-not-same-finalizercommit-script".

Definition ContextualCheckWithdrawTx (tx : CTransaction) fin_state : check unit :=
  validator_address ←! CheckWithdrawTx tx;
  i ←! lift (vec_at (vin tx) 0);
  found ←! lift (FindPrevOutData (prevout i));
  prev ←! require_some found 0 "bad-withdraw-no-prev-tx-found";
  _ ←! require (bool_decide (prev.1 = LOGOUT) || bool_decide (prev.1 = VOTE))
         100 "bad-withdraw-prev-not-logout-or-vote";
  solved ←! lift (Solver prev.2);
  _ ←! require_some solved 100 "bad-withdraw-script-not-solvable";
  o ←! lift (vec_at (vout tx) 0);
  res ←! lift (ValidateWithdraw p fin_state validator_address (nValue o));
  require (bool_decide (res = SUCCESS)) 100 "bad-withdraw-invalid-state".

Definition ContextualCheckVoteTx (tx : CTransaction) fin_state : check unit :=
  vote ←! CheckVoteTx tx;
  _ ←! match ValidateVote fin_state vote.1 with
       | SUCCESS => accept tt
       | VOTE_NOT_BY_VALIDATOR => reject 100 "bad-vote-not-from-validator"
       | _ => reject 0 "bad-vote-invalid"
       end;
  i ←! lift (vec_at (vin tx) 0);
  found ←! lift (FindPrevOutData (prevout i));
  prev ←! require_some found 0 "bad-vote-no-prev-tx-found";
  _ ←! require (bool_decide (prev.1 = DEPOSIT) || bool_decide (prev.1 = VOTE) ||
                bool_decide (prev.1 = LOGOUT))
         100 "bad-vote-prev-not-deposit-vote-or-logout";
  o ←! lift (vec_at (vout tx) 0);
  require (bool_decide (prev.2 = scriptPubKey o)) 100 "bad-vote-not-same-finalizercommit-script".

Definition ContextualCheckSlashTx (tx : CTransaction) fin_state : check unit :=
  votes ←! CheckSlashTx tx;
  match IsSlashable fin_state votes.1 votes.2 with
  | SUCCESS => accept tt
  | SLASH_TOO_EARLY | SLASH_ALREADY_SLASHED => reject 0 "bad-slash-not-slashable"
  | _ => reject 100 "bad-slash-not-slashable"
  end.

Definition ContextualCheckAdminTx (tx : CTransaction) fin_state : check unit :=
  _ ←! require (IsPermissioningActive fin_state) 10 "admin-disabled";
  keys ←! CheckAdminTx tx;
  require (bool_decide (ValidateAdminKeys fin_state (take ADMIN_MULTISIG_KEYS keys) = SUCCESS))
    10 "admin-not-authorized".

Definition ContextualCheckFinalizerCommit (tx : CTransaction) fin_state : check unit :=
  match GetType tx with
  | REGULAR | COINBASE => Raise AssertionFailure
  | DEPOSIT => ContextualCheckDepositTx tx fin_state
  | VOTE => ContextualCheckVoteTx tx fin_state
  | LOGOUT => ContextualCheckLogoutTx tx fin_state
  | SLASH => ContextualCheckSlashTx tx fin_state
  | WITHDRAW => ContextualCheckWithdrawTx tx fin_state
  | ADMIN => ContextualCheckAdminTx tx fin_state
  end.
End contextual.
End checks.

(** ** When checks accept *)

Lemma check_bind_Accept {A B} (m : check A) (k : A → check B) b :
  check_bind m k = Ok (Accept b) ↔ ∃ a, m = Ok (Accept a) ∧ k a = Ok (Accept b).
Proof.
  unfold check_bind. destruct m as [[a|]|]; cbn; split; try (intros (? & ? & ?)); try done; naive_solver.
Qed.

Lemma lift_Accept {A} (m : outcome A) a : lift m = Ok (Accept a) ↔ m = Ok a.
Proof. unfold lift, accept. destruct m; cbn; split; congruence. Qed.

Lemma require_Accept b level reason u : require b level reason = Ok (Accept u) ↔ b = true.
Proof. destruct b, u; cbn; split; done. Qed.

Lemma accept_Accept {A} (a b : A) : accept a = Ok (Accept b) ↔ a = b.
Proof. unfold accept. split; congruence. Qed.

(** Takes an accepted check apart. *)
Ltac accepted :=
  repeat match goal with
  | H : check_bind _ _ = Ok (Accept _) |- _ =>
      apply (proj1 (check_bind_Accept _ _ _)) in H; let H' := fresh H in destruct H as (? & H' & H)
  | H : require _ _ _ = Ok (Accept _) |- _ => apply (proj1 (require_Accept _ _ _ _)) in H
  | H : lift _ = Ok (Accept _) |- _ => apply (proj1 (lift_Accept _ _)) in H
  | H : accept _ = Ok (Accept _) |- _ => apply (proj1 (accept_Accept _ _)) in H
  end.
