(* ===== verification/Commits.v ===== *)
(** * Processing the commits of a block: src/src/esperanza/finalizationstate.cpp

    [ProcessNewCommit] takes the message of a commit transaction out of its
    scripts and applies it to the state; [ProcessNewCommits] and
    [ProcessNewTip] do so for a block, with the beginning of an epoch before
    and the new voting target after it.  A commit that passed its contextual
    check is a step of the abstract machine of [FinalizationInvariant]. *)
From stdpp Require Import strings.
From S2P Require Import Prelude Serialize Ufp64 Admin Params FinalizationData FinalizationOps.
From S2P Require Import Accounting FinalizationInvariant FinalizationEpoch FinalizationSafety.
From S2P Require Import StateFormat Script Standard Scenario.
From S2P Require Import CommitScripts Transaction Coins Checks.

#[export] Instance FinalizationState_eq_dec : EqDecision FinalizationState.
Proof. solve_decision. Defined.

Section commits.
Context `{!Crypto, !Hashing} (garbage : bytes) (p : Params).

(** The administrator commands among the outputs. *)
Fixpoint admin_commands (outs : list CTxOut) : outcome (list AdminCommand) :=
  match outs with
  | [] => Ok []
  | o :: outs =>
      if negb (MatchAdminCommand (scriptPubKey o)) then admin_commands outs
      else
        match DecodeAdminCommand garbage (scriptPubKey o) with
        | None => Raise AssertionFailure
        | Some command => commands ← admin_commands outs; Ok (command :: commands)
        end
  end.

(** [assert(ok)] after an extraction. *)
Definition assert_some {A} (o : option A) : outcome A :=
  match o with Some a => Ok a | None => Raise AssertionFailure end.

Definition ProcessNewCommit (s : State) (tx : CTransaction) : outcome State :=
  match GetType tx with
  | VOTE =>
      i ← vec_at (vin tx) 0;
      '(vote, _) ← assert_some (ExtractVoteFromVoteSignature (scriptSig i));
      s ← ProcessVote s vote;
      RegisterLastTx s (m_validator_address vote) (GetHash tx)
  | DEPOSIT =>
      address ← ExtractValidatorAddress tx;
      validatorAddress ← assert_some address;
      o ← vec_at (vout tx) 0;
      s ← ProcessDeposit s validatorAddress (nValue o);
      RegisterLastTx s validatorAddress (GetHash tx)
  | LOGOUT =>
      address ← ExtractValidatorAddress tx;
      validatorAddress ← assert_some address;
      s ← ProcessLogout p s validatorAddress;
      RegisterLastTx s validatorAddress (GetHash tx)
  | WITHDRAW =>
      address ← ExtractValidatorAddress tx;
      validatorAddress ← assert_some address;
      Ok (ProcessWithdraw s validatorAddress)
  | SLASH =>
      i ← vec_at (vin tx) 0;
      '((vote1, _), (vote2, _)) ← assert_some (ExtractVotesFromSlashSignature (scriptSig i));
      ProcessSlash s vote1 vote2
  | ADMIN =>
      commands ← admin_commands (vout tx);
      Ok (State_ProcessAdminCommands s commands)
  | COINBASE | REGULAR => Ok s
  end.

(** The loop over the transactions. *)
Fixpoint process_commits (s : State) (txes : list CTransaction) : outcome State :=
  match txes with
  | [] => Ok s
  | tx :: txes => s ← ProcessNewCommit s tx; process_commits s txes
  end.

(** The first block of an epoch; the result of [InitializeEpoch] is not
    looked at. *)
Definition begin_block (s : State) (nHeight : Z) : outcome State :=
  if IsEpochStart p nHeight then '(_, s) ← InitializeEpoch p s nHeight; Ok s else Ok s.

Definition ProcessNewCommits (fs : FinalizationState) (block_hash nHeight : Z)
    (txes : list CTransaction) : outcome FinalizationState :=
  _ ← cpp_assert (bool_decide (m_status fs = NEW));
  s ← begin_block (state_data fs) nHeight;
  s ← process_commits s txes;
  let s := if IsCheckpoint p nHeight
           then set_m_recommended_target_epoch (GetEpoch p nHeight)
                  (set_m_recommended_target_hash block_hash s)
           else s in
  Ok {| state_data := s; m_status := FROM_COMMITS |}.

Definition ProcessNewTip (fs : FinalizationState) (block_hash nHeight : Z)
    (vtx : list CTransaction) : outcome FinalizationState :=
  _ ← cpp_assert (bool_decide (m_status fs = NEW));
  fs ← ProcessNewCommits fs block_hash nHeight vtx;
  Ok {| state_data := state_data fs; m_status := COMPLETED |}.
End commits.

(** ** Accepted checks *)

Lemma require_some_Accept {A} (o : option A) level reason a :
  require_some o level reason = Ok (Accept a) ↔ o = Some a.
Proof. unfold require_some, accept, reject. destruct o; split; congruence. Qed.

(** Takes an accepted check apart, naming each part [Ha]. *)
Ltac accept_inv H :=
  lazymatch type of H with
  | check_bind _ _ = Ok (Accept _) =>
      let a := fresh "a" in let Ha := fresh "Ha" in
      apply check_bind_Accept in H as (a & Ha & H); accept_inv Ha; accept_inv H
  | lift _ = Ok (Accept _) => rewrite lift_Accept in H
  | require _ _ _ = Ok (Accept _) => rewrite require_Accept in H
  | require_some _ _ _ = Ok (Accept _) => rewrite require_some_Accept in H
  | _ => idtac
  end.

Section checked.
Context `{!Crypto, !Hashing, !Signatures} (garbage : bytes).
Context (mempool : gmap Z CTransaction) (view : gmap COutPoint Coin).
Context (p : Params) (Hp : valid_params p).
Implicit Types s : State.

Lemma CheckDepositTx_Accept tx a :
  CheckDepositTx tx = Ok (Accept a) → ExtractValidatorAddress tx = Ok (Some a).
Proof. unfold CheckDepositTx. intros Hc. accept_inv Hc. by subst. Qed.

Lemma CheckLogoutTx_Accept tx a :
  CheckLogoutTx tx = Ok (Accept a) → ExtractValidatorAddress tx = Ok (Some a).
Proof. unfold CheckLogoutTx. intros Hc. accept_inv Hc. by subst. Qed.

Lemma CheckWithdrawTx_Accept tx a :
  CheckWithdrawTx tx = Ok (Accept a) → ExtractValidatorAddress tx = Ok (Some a).
Proof. unfold CheckWithdrawTx. intros Hc. accept_inv Hc. by subst. Qed.

Lemma CheckVoteTx_Accept tx vote :
  CheckVoteTx tx = Ok (Accept vote) →
  ∃ i, vin tx !! 0%nat = Some i ∧ ExtractVoteFromVoteSignature (scriptSig i) = Some vote.
Proof.
  unfold CheckVoteTx. intros Hc. accept_inv Hc. injection Hc as <-.
  apply vec_at_Ok in Ha3. by eauto.
Qed.

Lemma CheckSlashTx_Accept tx v1 v2 :
  CheckSlashTx tx = Ok (Accept (v1, v2)) →
  ∃ i sig1 sig2, vin tx !! 0%nat = Some i ∧
    ExtractVotesFromSlashSignature (scriptSig i) = Some ((v1, sig1), (v2, sig2)).
Proof.
  unfold CheckSlashTx. intros Hc. accept_inv Hc. injection Hc as <- <-.
  apply vec_at_Ok in Ha1. destruct a2 as [[] []]. cbn in *. by eauto.
Qed.

Lemma admin_outputs_loop_Accept outs n b m :
  admin_outputs_loop garbage outs n b = Ok (Accept m) → ∃ l, admin_commands garbage outs = Ok l.
Proof.
  induction outs as [|o outs IH] in n, b |- *; cbn; [by eexists|].
  destruct (MatchAdminCommand (scriptPubKey o)); cbn; [|by apply IH]. intros Hc. accept_inv Hc.
  rewrite Ha. apply IH in Hc as [l ->]. by eexists.
Qed.

Lemma CheckAdminTx_Accept tx keys :
  CheckAdminTx garbage tx = Ok (Accept keys) → ∃ l, admin_commands garbage (vout tx) = Ok l.
Proof.
  unfold CheckAdminTx. intros Hc. accept_inv Hc. by eapply admin_outputs_loop_Accept.
Qed.

(** ** Checked commits are steps of the machine *)

Lemma registered s a h :
  reachable p s → is_Some (m_validators s !! a) →
  ∃ s', RegisterLastTx s a h = Ok s' ∧ reachable p s'.
Proof.
  intros Hr [v Hv]. unfold RegisterLastTx, map_at. rewrite Hv. eexists. split; [done|].
  eapply reach_step; [done|]. apply (step_last_tx p s a h). unfold RegisterLastTx, map_at.
  by rewrite Hv.
Qed.

Lemma ProcessVote_keeps s vote s' :
  ProcessVote s vote = Ok s' → is_Some (m_validators s' !! m_validator_address vote).
Proof.
  intros (v & cp & s1 & ct & pt & Hv & _ & Hrew & _ & _ & ->)%ProcessVote_state.
  assert (∀ b c, m_validators (vote_state s1 vote c b) = m_validators s1) as ->
    by (intros; unfold vote_state; by repeat case_match).
  unfold vote_rewarded in Hrew. case_decide; [|by subst; eexists].
  destruct Hrew as (? & _ & ->). cbn. rewrite lookup_insert_eq. by eexists.
Qed.

Lemma step_reachable s s' : reachable p s → step p s s' → reachable p s'.
Proof. apply reach_step. Qed.

(** What an accepted commit comes down to: the message in its scripts, and
    that the state accepts the message. *)
Definition commit_valid s (tx : CTransaction) : Prop :=
  match GetType tx with
  | VOTE => ∃ i vote sig, vin tx !! 0%nat = Some i ∧
      ExtractVoteFromVoteSignature (scriptSig i) = Some (vote, sig) ∧ ValidateVote s vote = SUCCESS
  | DEPOSIT => ∃ a o, ExtractValidatorAddress tx = Ok (Some a) ∧ vec_at (vout tx) 0 = Ok o ∧
      ValidateDeposit p s a (nValue o) = SUCCESS
  | LOGOUT => ∃ a, ExtractValidatorAddress tx = Ok (Some a) ∧ ValidateLogout p s a = SUCCESS
  | WITHDRAW => ∃ a amount, ExtractValidatorAddress tx = Ok (Some a) ∧
      ValidateWithdraw p s a amount = Ok SUCCESS
  | SLASH => ∃ i v1 sig1 v2 sig2, vin tx !! 0%nat = Some i ∧
      ExtractVotesFromSlashSignature (scriptSig i) = Some ((v1, sig1), (v2, sig2)) ∧
      IsSlashable s v1 v2 = SUCCESS
  | ADMIN => ∃ l, admin_commands garbage (vout tx) = Ok l
  | COINBASE | REGULAR => True
  end.

Lemma checked_valid s tx :
  ContextualCheckFinalizerCommit garbage mempool view p tx s = Ok (Accept tt) → commit_valid s tx.
Proof.
  unfold ContextualCheckFinalizerCommit, commit_valid.
  destruct (GetType tx); intros Hc; try done.
  - unfold ContextualCheckDepositTx in Hc. accept_inv Hc. apply CheckDepositTx_Accept in Ha.
    destruct (ValidateDeposit p s a (nValue a0)) eqn:Hv; by eauto.
  - unfold ContextualCheckVoteTx in Hc. accept_inv Hc. destruct a as [vote sig].
    apply CheckVoteTx_Accept in Ha as (i & Hi & Hx). cbn in Ha0.
    destruct (ValidateVote s vote) eqn:Hv; by eauto 6.
  - unfold ContextualCheckLogoutTx in Hc. accept_inv Hc. apply CheckLogoutTx_Accept in Ha.
    destruct (ValidateLogout p s a) eqn:Hv; by eauto.
  - unfold ContextualCheckSlashTx in Hc. accept_inv Hc. destruct a as [v1 v2].
    apply CheckSlashTx_Accept in Ha as (i & sig1 & sig2 & Hi & Hx). cbn in Hc.
    destruct (IsSlashable s v1 v2) eqn:Hv; by eauto 10.
  - unfold ContextualCheckWithdrawTx in Hc. accept_inv Hc.
    apply CheckWithdrawTx_Accept in Ha. apply bool_decide_eq_true in Hc as ->. by eauto.
  - unfold ContextualCheckAdminTx in Hc. accept_inv Hc. by eapply CheckAdminTx_Accept.
Qed.

Lemma valid_vote_processed s tx :
  reachable p s → GetType tx = VOTE → commit_valid s tx →
  ∃ s', ProcessNewCommit garbage p s tx = Ok s' ∧ reachable p s'.
Proof.
  intros Hr Ht Hc. unfold commit_valid in Hc. rewrite Ht in Hc.
  destruct Hc as (i & vote & sig & Hi & Hx & Hv).
  pose proof (invariant_reachable p Hp s Hr) as [Hwf _ _].
  assert (returns (ProcessVote s vote)) as [s1 Hs1].
  { pose proof Hv as (_ & v & Hvl & Hvot)%ValidateVote_SUCCESS.
    apply IsVotable_SUCCESS in Hvot as ((cp & Hcp & _) & _).
    by apply (ProcessVote_returns p); [|exists cp|exists v]. }
  unfold ProcessNewCommit, vec_at. rewrite Ht, Hi. cbn. rewrite Hx. cbn. rewrite Hs1.
  apply registered; [|by eapply ProcessVote_keeps].
  eapply step_reachable; [done|]. by eapply step_vote.
Qed.

Lemma valid_deposit_processed s tx :
  reachable p s → GetType tx = DEPOSIT → m_deposit_scale_factor s !! m_current_epoch s ≠ Some 0 →
  commit_valid s tx →
  ∃ s', ProcessNewCommit garbage p s tx = Ok s' ∧ reachable p s'.
Proof.
  intros Hr Ht Hf Hc. unfold commit_valid in Hc. rewrite Ht in Hc.
  destruct Hc as (a & o & Ha & Ho & Hv).
  pose proof (invariant_reachable p Hp s Hr) as [Hwf _ _].
  assert (returns (ProcessDeposit s a (nValue o))) as [s1 Hs1] by by apply (ProcessDeposit_returns p).
  unfold ProcessNewCommit. rewrite Ht, Ha. cbn. rewrite Ho. cbn. rewrite Hs1.
  apply registered.
  - eapply step_reachable; [done|]. by eapply step_deposit.
  - apply ValidateDeposit_SUCCESS in Hv as (_ & Hn & _). pose proof (wf_dynasty_bound p s Hwf).
    apply ProcessDeposit_state in Hs1 as (? & ? & _ & _ & ->); [|unfold is_uint32; lia|done].
    cbn. rewrite lookup_insert_eq. by eexists.
Qed.

Lemma valid_logout_processed s tx :
  reachable p s → GetType tx = LOGOUT → commit_valid s tx →
  ∃ s', ProcessNewCommit garbage p s tx = Ok s' ∧ reachable p s'.
Proof.
  intros Hr Ht Hc. unfold commit_valid in Hc. rewrite Ht in Hc. destruct Hc as (a & Ha & Hv).
  assert (returns (ProcessLogout p s a)) as [s1 Hs1].
  { apply ValidateLogout_SUCCESS in Hv as (v & Hv & _). apply ProcessLogout_returns. by exists v. }
  unfold ProcessNewCommit. rewrite Ht, Ha. cbn. rewrite Hs1.
  apply registered.
  - eapply step_reachable; [done|]. by eapply step_logout.
  - apply ProcessLogout_state in Hs1 as (v & _ & ->). cbn. rewrite lookup_insert_eq. by eexists.
Qed.

Lemma valid_slash_processed s tx :
  reachable p s → GetType tx = SLASH → commit_valid s tx →
  ∃ s', ProcessNewCommit garbage p s tx = Ok s' ∧ reachable p s'.
Proof.
  intros Hr Ht Hc. unfold commit_valid in Hc. rewrite Ht in Hc.
  destruct Hc as (i & v1 & sig1 & v2 & sig2 & Hi & Hx & Hv).
  pose proof (invariant_reachable p Hp s Hr) as [Hwf _ _].
  assert (returns (ProcessSlash s v1 v2)) as [s1 Hs1].
  { pose proof Hv as ((w & _ & Hw & _) & _)%IsSlashable_SUCCESS.
    by apply (ProcessSlash_returns p); [|exists w]. }
  unfold ProcessNewCommit, vec_at. rewrite Ht, Hi. cbn. rewrite Hx. cbn. rewrite Hs1.
  eexists. split; [done|]. eapply step_reachable; [done|]. by eapply step_slash.
Qed.

Lemma valid_commit_processed s tx :
  reachable p s → commit_valid s tx →
  (GetType tx = DEPOSIT → m_deposit_scale_factor s !! m_current_epoch s ≠ Some 0) →
  ∃ s', ProcessNewCommit garbage p s tx = Ok s' ∧ reachable p s'.
Proof.
  intros Hr Hc Hf. destruct (GetType tx) eqn:Ht;
    [| |by apply valid_deposit_processed; auto|by apply valid_vote_processed|by apply valid_logout_processed|
     by apply valid_slash_processed| |]; unfold commit_valid, ProcessNewCommit in *; rewrite Ht in *.
  - eauto.
  - eauto.
  - destruct Hc as (a & amount & Ha & Hv). rewrite Ha. eexists. split; [done|].
    eapply step_reachable; [done|]. by eapply step_withdraw.
  - destruct Hc as [l Hl]. rewrite Hl. eexists. split; [done|].
    eapply step_reachable; [done|]. apply step_admin.
Qed.

(** ** Two deposits of one finalizer in a block *)

(** A second deposit changes the table of changes, not the finalizer. *)
Lemma ProcessDeposit_again s a amount s' :
  is_uint32 (m_current_dynasty s + 2) → is_Some (m_validators s !! a) →
  ProcessDeposit s a amount = Ok s' →
  ∃ factor scaled, m_deposit_scale_factor s !! m_current_epoch s = Some factor ∧
    div_to_uint (uint64 amount) factor = Ok scaled ∧
    let start := m_current_dynasty s + 2 in
    s' = set_dynasty_delta start (int64 (recorded_delta start s + scaled)) s.
Proof.
  intros Hd [v Hv] Hpr. open ProcessDeposit in Hpr. ok_inv Hpr.
  unfold GetDepositScaleFactor in Hr. ok_inv Hr.
  exists r, r0. do 2 (split; [done|]). subst s0 startDynasty. injection E as <- <-.
  rewrite uint32_small in Hpr by done. rewrite (emplace_present a _ v) in Hpr by done.
  subst s'. destruct s. unfold set_dynasty_delta, recorded_delta; cbn. by rewrite insert_emplace.
Qed.

Lemma accepted_deposit s tx a :
  GetType tx = DEPOSIT → ExtractValidatorAddress tx = Ok (Some a) →
  ContextualCheckFinalizerCommit garbage mempool view p tx s = Ok (Accept tt) →
  ∃ o, vec_at (vout tx) 0 = Ok o ∧ CheckDepositTx tx = Ok (Accept a) ∧
    ValidateDeposit p s a (nValue o) = SUCCESS.
Proof.
  intros Ht He Hc. unfold ContextualCheckFinalizerCommit, ContextualCheckDepositTx in Hc.
  rewrite Ht in Hc. accept_inv Hc. pose proof (CheckDepositTx_Accept _ _ Ha) as He'.
  rewrite He in He'. injection He' as <-. exists a1. do 2 (split; [done|]).
  by destruct (ValidateDeposit p s a (nValue a1)).
Qed.

Lemma ProcessNewCommit_deposit s tx a o :
  GetType tx = DEPOSIT → ExtractValidatorAddress tx = Ok (Some a) → vec_at (vout tx) 0 = Ok o →
  ProcessNewCommit garbage p s tx =
    (s ← ProcessDeposit s a (nValue o); RegisterLastTx s a (GetHash tx)).
Proof. intros Ht He Ho. unfold ProcessNewCommit. rewrite Ht, He. cbn. by rewrite Ho. Qed.

(** Recording the last transaction leaves the sums alone. *)
Lemma RegisterLastTx_sums s a h s' :
  RegisterLastTx s a h = Ok s' →
  (∀ d, recorded_delta d s' = recorded_delta d s ∧ delta_total d s' = delta_total d s) ∧
  m_current_dynasty s' = m_current_dynasty s ∧
  ∃ v, m_validators s !! a = Some v ∧
    m_validators s' = <[a := set_m_last_transaction_hash h v]> (m_validators s).
Proof.
  intros Hreg. open RegisterLastTx in Hreg. ok_inv Hreg. subst s'.
  split; [|split; [done|by eauto]]. intros d. split; [done|].
  unfold delta_total. cbn. rewrite (map_sum_update _ _ _ _ _ Hr).
  change (delta_weight d (set_m_last_transaction_hash h r)) with (delta_weight d r). lia.
Qed.

Lemma first_deposit s tx a :
  reachable p s → m_deposit_scale_factor s !! m_current_epoch s ≠ Some 0 →
  GetType tx = DEPOSIT → ExtractValidatorAddress tx = Ok (Some a) →
  ContextualCheckFinalizerCommit garbage mempool view p tx s = Ok (Accept tt) →
  ∃ s1 v1, ProcessNewCommit garbage p s tx = Ok s1 ∧ reachable p s1 ∧
    m_validators s1 !! a = Some v1 ∧ m_current_dynasty s1 = m_current_dynasty s ∧
    m_deposit_scale_factor s1 !! m_current_epoch s1 ≠ Some 0 ∧ m_admin_state s1 = m_admin_state s.
Proof.
  intros Hr Hf Ht He Hc. destruct (accepted_deposit s tx a Ht He Hc) as (o & Ho & _ & Hv).
  destruct (valid_commit_processed s tx Hr (checked_valid s tx Hc) ltac:(done)) as (s1 & Hs1 & Hr1).
  pose proof (invariant_reachable p Hp s Hr) as [Hwf _ _].
  pose proof (wf_dynasty_bound p s Hwf). apply ValidateDeposit_SUCCESS in Hv as (_ & Hn & _).
  pose proof Hs1 as Hst. rewrite (ProcessNewCommit_deposit s tx a o) in Hst by done.
  apply bind_Ok in Hst as (t & Hdep & Hreg).
  apply ProcessDeposit_state in Hdep as (? & ? & _ & _ & ->); [|unfold is_uint32; lia|done].
  open RegisterLastTx in Hreg. ok_inv Hreg. subst s1. eexists _, _. split; [done|]. split; [done|].
  split; [apply lookup_insert_eq|]. done.
Qed.

Lemma second_deposit s tx a o v :
  wf p s → accounting s → m_deposit_scale_factor s !! m_current_epoch s ≠ Some 0 →
  GetType tx = DEPOSIT → ExtractValidatorAddress tx = Ok (Some a) → vec_at (vout tx) 0 = Ok o →
  m_validators s !! a = Some v →
  ∃ s' scaled, ProcessNewCommit garbage p s tx = Ok s' ∧
    m_validators s' !! a = Some (set_m_last_transaction_hash (GetHash tx) v) ∧
    (let d := m_current_dynasty s + 2 in
     recorded_delta d s' = int64 (recorded_delta d s + scaled)) ∧
    (scaled ≠ 0 → ¬ accounting s').
Proof.
  intros Hwf Hacc Hf Ht He Ho Hv. pose proof (wf_dynasty_bound p s Hwf).
  assert (returns (ProcessDeposit s a (nValue o))) as [t Hdep] by by apply (ProcessDeposit_returns p).
  pose proof Hdep as Hag. apply ProcessDeposit_again in Hag as (factor & scaled & Hfac & Hsc & Heq);
    [|unfold is_uint32; lia|by eexists].
  assert (m_validators t !! a = Some v) as Hvt by by rewrite Heq.
  assert (∃ s', RegisterLastTx t a (GetHash tx) = Ok s') as [s' Hs'].
  { unfold RegisterLastTx, map_at. rewrite Hvt. by eexists. }
  pose proof Hs' as (Hsum & Hdyn & w & Hw & Hvs)%RegisterLastTx_sums.
  rewrite Hvt in Hw. injection Hw as <-. exists s', scaled.
  split. { by rewrite (ProcessNewCommit_deposit s tx a o), Hdep by done. }
  split; [by rewrite Hvs, lookup_insert_eq|].
  destruct (Hsum (m_current_dynasty s + 2)) as [Hrec Htot]. rewrite Heq in Hrec, Htot.
  assert (recorded_delta (m_current_dynasty s + 2) s' =
    int64 (recorded_delta (m_current_dynasty s + 2) s + scaled)) as Hrec'.
  { rewrite Hrec. unfold recorded_delta at 1. cbn. by rewrite lookup_emplaced_insert, decide_True. }
  split; [done|]. intros Hne [_ _ Hd']. apply Hne.
  assert (m_current_dynasty s < m_current_dynasty s + 2 < MAX_END_DYNASTY) as Hrange
    by (unfold MAX_END_DYNASTY, MAX_UINT32; lia).
  rewrite Hdyn, Heq in Hd'. specialize (Hd' _ Hrange).
  assert (recorded_delta (m_current_dynasty s + 2) s + scaled ≡₆₄
          recorded_delta (m_current_dynasty s + 2) s) as Hcon.
  { transitivity (recorded_delta (m_current_dynasty s + 2) s');
      [rewrite Hrec'; symmetry; apply eqm64_int64|].
    transitivity (delta_total (m_current_dynasty s + 2) s'); [exact Hd'|]. rewrite Htot.
    symmetry. exact (acc_delta s Hacc _ Hrange). }
  assert (is_uint64 scaled) as Hu.
  { rewrite div_to_uint_spec in Hsc; [|apply uint64_range|congruence].
    assert (scaled = uint64 (uint64 (nValue o) * SCALE / factor)) as -> by congruence.
    apply uint64_range. }
  apply eqm64_eq_uint64; [done|done|].
  apply eqm64_alt in Hcon as [k Hk]. apply eqm64_alt. exists k. lia.
Qed.

(** A second deposit on the state of the first is a duplicate. *)
Lemma duplicate_deposit s tx a o v :
  GetType tx = DEPOSIT → CheckDepositTx tx = Ok (Accept a) → vec_at (vout tx) 0 = Ok o →
  m_validators s !! a = Some v → IsValidatorAuthorized (m_admin_state s) a = true →
  ContextualCheckFinalizerCommit garbage mempool view p tx s =
    Ok (Reject 0 "bad-deposit-duplicate").
Proof.
  intros Ht Hck Ho Hv Hau. unfold ContextualCheckFinalizerCommit, ContextualCheckDepositTx.
  rewrite Ht, Hck. cbn. rewrite Ho. cbn. unfold ValidateDeposit. by rewrite Hau, Hv.
Qed.

(** C34: checking the commits of a block against the state before the block,
    as [ConnectBlock] does, is weaker than checking them in turn.  Two
    deposits of the same finalizer pass it together; the second one would be
    rejected as a duplicate after the first.  Processing both counts the
    second amount in the coming dynasty's deposits although the finalizer is
    not credited with it: the accounting of every other history is lost. *)
Theorem two_deposits_break_accounting s tx1 tx2 a :
  reachable p s → m_deposit_scale_factor s !! m_current_epoch s ≠ Some 0 →
  GetType tx1 = DEPOSIT → GetType tx2 = DEPOSIT →
  ExtractValidatorAddress tx1 = Ok (Some a) → ExtractValidatorAddress tx2 = Ok (Some a) →
  ContextualCheckFinalizerCommit garbage mempool view p tx1 s = Ok (Accept tt) →
  ContextualCheckFinalizerCommit garbage mempool view p tx2 s = Ok (Accept tt) →
  ∃ s1 s2 v1 v2 scaled, ProcessNewCommit garbage p s tx1 = Ok s1 ∧
    ContextualCheckFinalizerCommit garbage mempool view p tx2 s1 =
      Ok (Reject 0 "bad-deposit-duplicate") ∧
    ProcessNewCommit garbage p s1 tx2 = Ok s2 ∧
    m_validators s1 !! a = Some v1 ∧ m_validators s2 !! a = Some v2 ∧
    m_deposit v2 = m_deposit v1 ∧
    (let d := m_current_dynasty s + 2 in
     recorded_delta d s2 = int64 (recorded_delta d s1 + scaled)) ∧
    (scaled ≠ 0 → ¬ accounting s2).
Proof.
  intros Hr Hf Ht1 Ht2 He1 He2 Hc1 Hc2.
  destruct (first_deposit s tx1 a) as (s1 & v1 & Hs1 & Hr1 & Hv1 & Hd1 & Hf1 & Had); [done..|].
  destruct (accepted_deposit s tx2 a Ht2 He2 Hc2) as (o2 & Ho2 & Hck2 & Hv2).
  apply ValidateDeposit_SUCCESS in Hv2 as (Hau & _).
  pose proof (invariant_reachable p Hp s1 Hr1) as [Hwf1 Hacc1 _].
  destruct (second_deposit s1 tx2 a o2 v1) as (s2 & scaled & Hs2 & Hl2 & Hrec & Hbad); [done..|].
  eexists s1, s2, v1, _, scaled. split; [done|]. rewrite <- Had in Hau.
  split; [by apply (duplicate_deposit s1 tx2 a o2 v1)|]. do 3 (split; [done|]). split; [done|].
  rewrite <- Hd1. by split.
Qed.

(** ** Votes in another finalizer's name *)

(** C33: what the check of a vote transaction verifies: that the key in the
    output script signed the vote, that the state accepts the vote of the
    finalizer it names, and that the transaction continues a deposit, vote or
    logout with the same script.  Nothing ties the signing key to the named
    finalizer, so a finalizer can spend its own deposit on a vote in the name
    of any other one. *)
Theorem vote_check_leaves_signer_open s tx i o vote sig :
  GetType tx = VOTE → vin tx = [i] → vout tx = [o] →
  IsFinalizerCommitScript (scriptPubKey o) = true →
  ExtractVoteFromVoteSignature (scriptSig i) = Some (vote, sig) →
  let key := CPubKey_Set (slice (scriptPubKey o) 1 34) in
  ContextualCheckFinalizerCommit garbage mempool view p tx s = Ok (Accept tt) ↔
  CheckVoteSignature key vote sig = true ∧ ValidateVote s vote = SUCCESS ∧
  ∃ t, FindPrevOutData mempool view (prevout i) = Ok (Some (t, scriptPubKey o)) ∧
       (t = DEPOSIT ∨ t = VOTE ∨ t = LOGOUT).
Proof.
  intros Ht Hi Ho Hcs Hx key.
  unfold ContextualCheckFinalizerCommit, ContextualCheckVoteTx. rewrite Ht.
  assert (CheckVoteTx tx = (_ ←! require (CheckVoteSignature key vote sig) 100 "bad-vote-signature";
    accept (vote, sig))) as ->.
  { unfold CheckVoteTx, ExtractValidatorPubkey.
    assert (IsVote tx = true) as -> by by apply bool_decide_eq_true.
    rewrite Hi, Ho. cbn. rewrite Hcs. cbn. rewrite Hx. cbn. by rewrite Solver_commit. }
  rewrite Hi, Ho. split.
  - intros Hc. accept_inv Hc. injection Ha as <-. cbn in *.
    split; [done|]. destruct (ValidateVote s vote); try done. split; [done|].
    injection Ha2 as <-. injection Ha6 as <-. apply bool_decide_eq_true in Hc.
    destruct a4 as [t script]. cbn in *. exists t. split; [by rewrite Ha3, Ha4, Hc|].
    rewrite !orb_true_iff, !bool_decide_eq_true in Ha5. tauto.
  - intros (Hs & Hv & t & Hf & Ht'). rewrite Hs. cbn. rewrite Hv. cbn. rewrite Hf. cbn.
    unfold require. rewrite (bool_decide_eq_true_2 (_ = scriptPubKey o)) by done.
    by destruct Ht' as [->|[->| ->]].
Qed.
End checked.

(** ** Witnesses *)

#[local] Instance commit_hashing : Hashing := {| Hash256 := foldl (λ h b, uint256 (h * 31 + b)) 7 |}.

(** A signature is the signed hash followed by the key. *)
#[local] Instance commit_signatures : Signatures :=
  {| secp256k1_verify := λ k h sig, bool_decide (sig = be_bytes 32 h ++ k) |}.

Definition demo_key : CPubKey := 2 :: replicate 32 7.

Definition demo_input (n : Z) (sig : CScript) : CTxIn :=
  CTxIn_new {| outpoint_hash := 99; outpoint_n := n |} sig SEQUENCE_FINAL.

Definition demo_output (amount : Z) : CTxOut :=
  {| nValue := amount; scriptPubKey := CreateFinalizerCommitScript demo_key |}.

Definition demo_commit (t : TxType) (n amount : Z) (sig : CScript) : CTransaction :=
  SetType t {| vin := [demo_input n sig]; vout := [demo_output amount];
               nVersion := CURRENT_VERSION; nLockTime := 0 |}.

Definition demo_deposit_tx (n : Z) : CTransaction := demo_commit DEPOSIT n (2000 * UNIT) [].

(** The key of [demo_key] votes as finalizer 9. *)
Definition demo_vote_script : CScript :=
  match EncodeVote (demo_vote 9 3 4) (be_bytes 32 (Vote_GetHash (demo_vote 9 3 4)) ++ demo_key) with
  | Ok script => push_data [1] ++ push_data script | Raise _ => [] end.
Definition demo_vote_tx : CTransaction := demo_commit VOTE 0 UNIT demo_vote_script.
Definition demo_view : gmap COutPoint Coin :=
  {[ {| outpoint_hash := 99; outpoint_n := 0 |} := Coin_new (demo_output (2000 * UNIT)) 3 DEPOSIT ]}.

Lemma two_deposits_break_accounting_witness :
  ∃ s1 s2, ProcessNewCommit [] demo_params demo_finalized_state (demo_deposit_tx 1) = Ok s1 ∧
    ContextualCheckFinalizerCommit [] ∅ ∅ demo_params (demo_deposit_tx 2) demo_finalized_state =
      Ok (Accept tt) ∧
    ContextualCheckFinalizerCommit [] ∅ ∅ demo_params (demo_deposit_tx 2) s1 =
      Ok (Reject 0 "bad-deposit-duplicate") ∧
    ProcessNewCommit [] demo_params s1 (demo_deposit_tx 2) = Ok s2 ∧ ¬ accounting s2.
Proof.
  assert (ContextualCheckFinalizerCommit [] ∅ ∅ demo_params (demo_deposit_tx 2)
    demo_finalized_state = Ok (Accept tt)) as Hc2 by by vm_compute.
  destruct (two_deposits_break_accounting [] ∅ ∅ demo_params demo_params_valid
    demo_finalized_state (demo_deposit_tx 1) (demo_deposit_tx 2) (GetID demo_key))
    as (s1 & s2 & v1 & v2 & scaled & Hs1 & Hrej & Hs2 & _ & _ & _ & Hrec & Hbad).
  - exact demo_finalized_reachable.
  - by vm_compute.
  - reflexivity.
  - reflexivity.
  - by vm_compute.
  - by vm_compute.
  - by vm_compute.
  - exact Hc2.
  - exists s1, s2. split; [exact Hs1|]. split; [exact Hc2|]. split; [exact Hrej|].
    split; [exact Hs2|]. apply Hbad. intros ->.
    destruct (outcome_check (ProcessNewCommit [] demo_params demo_finalized_state (demo_deposit_tx 1))
      (λ s1, match ProcessNewCommit [] demo_params s1 (demo_deposit_tx 2) with
             | Ok s2 => negb (bool_decide (
                 recorded_delta (m_current_dynasty demo_finalized_state + 2) s2 =
                 int64 (recorded_delta (m_current_dynasty demo_finalized_state + 2) s1 + 0)))
             | Raise _ => false end)) as (s1' & Hs1' & Hneq); [by vm_compute|].
    rewrite Hs1 in Hs1'. injection Hs1' as <-. rewrite Hs2 in Hneq.
    apply negb_true_iff, bool_decide_eq_false in Hneq. exact (Hneq Hrec).
Defined.

Lemma vote_check_leaves_signer_open_witness :
  GetID demo_key ≠ m_validator_address (demo_vote 9 3 4) ∧
  ContextualCheckFinalizerCommit [] ∅ demo_view demo_params demo_vote_tx demo_finalized_state =
    Ok (Accept tt).
Proof.
  split; [by vm_compute|].
  apply (vote_check_leaves_signer_open [] ∅ demo_view demo_params demo_finalized_state demo_vote_tx
    (demo_input 0 demo_vote_script) (demo_output UNIT) (demo_vote 9 3 4)
    (be_bytes 32 (Vote_GetHash (demo_vote 9 3 4)) ++ demo_key)).
  - reflexivity.
  - reflexivity.
  - reflexivity.
  - by vm_compute.
  - by vm_compute.
  - split; [by vm_compute|]. split; [by vm_compute|]. exists DEPOSIT. split; [by vm_compute|by left].
Defined.
