(* ===== verification/VoteRecorder.v ===== *)
(** * The vote recorder: src/src/finalization/vote_recorder.h, vote_recorder.cpp,
    src/src/validation.cpp

    The node keeps the first vote it sees of every finalizer for every target
    epoch, in memory and in a database, and reports pairs of votes a finalizer
    can be slashed for.  Votes are recorded when their transactions are
    checked, before they are known to be valid. *)
From stdpp Require Import strings.
From S2P Require Import Prelude Serialize Admin Params FinalizationData FinalizationOps Accounting.
From S2P Require Import FinalizationInvariant Scenario StateFormat Script Standard.
From S2P Require Import CommitScripts Transaction Coins Checks Commits.

Record VoteRecord := {
  vote : Vote;
  sig : bytes;
}.

#[export] Instance VoteRecord_eq_dec : EqDecision VoteRecord.
Proof. solve_decision. Defined.

(** [m_db] is the content of the database, by address and target epoch. *)
Record VoteRecorder := {
  voteRecords : gmap Z (gmap Z VoteRecord);
  voteCache : gmap Z VoteRecord;
  m_db : gmap (Z * Z) VoteRecord;
}.

Definition VoteRecorder_new : VoteRecorder :=
  {| voteRecords := ∅; voteCache := ∅; m_db := ∅ |}.

(** [LoadFromDB], when every entry can be read. *)
Definition load_entry (records : gmap Z (gmap Z VoteRecord)) (entry : Z * Z * VoteRecord) :
  gmap Z (gmap Z VoteRecord) :=
  let '((address, epoch), record) := entry in
  <[address := emplace epoch record (default ∅ (records !! address))]> records.

Definition LoadFromDB (r : VoteRecorder) : VoteRecorder :=
  {| voteRecords := foldl load_entry ∅ (map_to_list (m_db r)); voteCache := ∅; m_db := m_db r |}.

Definition SaveVoteToDB (record : VoteRecord) (r : VoteRecorder) : VoteRecorder :=
  let key := (m_validator_address (vote record), m_target_epoch (vote record)) in
  {| voteRecords := voteRecords r; voteCache := voteCache r; m_db := <[key := record]> (m_db r) |}.

(** The two ways in which the votes [a] (recorded) and [b] form a surrounding
    pair, as the loop tests them. *)
Definition surrounds (a b : Vote) : bool :=
  (bool_decide (m_source_epoch b < m_source_epoch a) &&
   bool_decide (m_target_epoch a < m_target_epoch b)) ||
  (bool_decide (m_source_epoch a < m_source_epoch b) &&
   bool_decide (m_target_epoch b < m_target_epoch a)).

(** The loop over the recorded votes. *)
Fixpoint find_surrounding (v : Vote) (records : list (Z * VoteRecord)) : option VoteRecord :=
  match records with
  | [] => None
  | (_, record) :: records =>
      if decide (m_source_epoch (vote record) < m_target_epoch v) then
        if surrounds (vote record) v then Some record else find_surrounding v records
      else find_surrounding v records
  end.

(** The records from [lower_bound(epoch)] on, in the order of the map. *)
Definition from_epoch (epoch : Z) (voteMap : gmap Z VoteRecord) : list (Z * VoteRecord) :=
  filter (λ kv, epoch ≤ kv.1) (map_entries voteMap).

Definition find_in_map (v : Vote) (voteMap : gmap Z VoteRecord) : option VoteRecord :=
  let surrounding := find_surrounding v (from_epoch (m_source_epoch v) voteMap) in
  match voteMap !! m_target_epoch v with
  | Some record =>
      if decide (m_target_hash (vote record) ≠ m_target_hash v) then Some record else surrounding
  | None => surrounding
  end.

Definition FindOffendingVote (r : VoteRecorder) (v : Vote) : option VoteRecord :=
  let cached :=
    match voteCache r !! m_validator_address v with
    | Some record => bool_decide (vote record = v)
    | None => false
    end in
  if cached then None
  else
    match voteRecords r !! m_validator_address v with
    | Some voteMap => find_in_map v voteMap
    | None => None
    end.

Definition GetVote (r : VoteRecorder) (validatorAddress epoch : Z) : option VoteRecord :=
  voteMap ← voteRecords r !! validatorAddress; voteMap !! epoch.

(** [VoteRecorder::RecordVote]: the recorder and the pair of votes signalled
    to the wallet. *)
Definition RecordVote (r : VoteRecorder) (v : Vote) (voteSig : bytes) (fin_state : State) :
  outcome (VoteRecorder * option (VoteRecord * VoteRecord)) :=
  match GetValidator fin_state (m_validator_address v) with
  | None => Ok (r, None)
  | Some _ =>
      let offendingVote := FindOffendingVote r v in
      let voteRecord := {| vote := v; sig := voteSig |} in
      let voteMap := default ∅ (voteRecords r !! m_validator_address v) in
      let saved_in_memory := bool_decide (voteMap !! m_target_epoch v = None) in
      let r := {| voteRecords := <[m_validator_address v :=
                    emplace (m_target_epoch v) voteRecord voteMap]> (voteRecords r);
                  voteCache := voteCache r; m_db := m_db r |} in
      let r := if saved_in_memory then SaveVoteToDB voteRecord r else r in
      match offendingVote with
      | None => Ok (r, None)
      | Some offending =>
          if decide (IsSlashable fin_state v (vote offending) = SUCCESS)
          then Ok (r, Some (voteRecord, offending))
          else Raise AssertionFailure
      end
  end.

(** ** Recording while checking transactions *)

(** [finalization::RecordVote]. *)
Definition RecordVoteTx (r : VoteRecorder) (tx : CTransaction) (fin_state : State) :
  check VoteRecorder :=
  _ ←! lift (cpp_assert (IsVote tx));
  i ←! lift (vec_at (vin tx) 0);
  v ←! require_some (ExtractVoteFromVoteSignature (scriptSig i)) 10 "bad-vote-data-format";
  let res := ValidateVote fin_state v.1 in
  if bool_decide (res ≠ ADMIN_BLACKLISTED) && bool_decide (res ≠ VOTE_NOT_BY_VALIDATOR) then
    '(r, _) ← RecordVote r v.1 v.2 fin_state; accept r
  else accept r.

Section checks.
Context `{!Crypto, !Hashing, !Signatures} (garbage : bytes).
Context (mempool : gmap Z CTransaction) (view : gmap COutPoint Coin) (p : Params).

(** [ContextualCheckFinalizerCommit] of validation.cpp. *)
Definition CheckAndRecordCommit (r : VoteRecorder) (tx : CTransaction)
    (fin_state tip_fin_state : State) : check VoteRecorder :=
  r ←! (if IsVote tx then _ ←! CheckVoteTx tx; RecordVoteTx r tx tip_fin_state else accept r);
  _ ←! ContextualCheckFinalizerCommit garbage mempool view p tx fin_state;
  accept r.

(** Every commit is checked against the state before the block. *)
Fixpoint ContextualCheckBlockFinalizerCommits (r : VoteRecorder) (vtx : list CTransaction)
    (fin_state tip_fin_state : State) : check VoteRecorder :=
  match vtx with
  | [] => accept r
  | tx :: vtx =>
      r ←! (if IsFinalizerCommit tx then CheckAndRecordCommit r tx fin_state tip_fin_state
            else accept r);
      ContextualCheckBlockFinalizerCommits r vtx fin_state tip_fin_state
  end.
End checks.

(** ** The recorders that arise *)

Inductive recording : VoteRecorder → Prop :=
  | recording_new : recording VoteRecorder_new
  | recording_step r v voteSig fin_state r' pair :
      recording r → RecordVote r v voteSig fin_state = Ok (r', pair) → recording r'
  | recording_load r : recording r → recording (LoadFromDB r).

(** Records are filed under their finalizer and target epoch, the database
    holds the same ones, and the cache is never written. *)
Record recorder_ok (r : VoteRecorder) : Prop := {
  rk_cache : voteCache r = ∅;
  rk_filed : ∀ a e record, GetVote r a e = Some record →
    m_validator_address (vote record) = a ∧ m_target_epoch (vote record) = e;
  rk_db : ∀ a e, m_db r !! (a, e) = GetVote r a e;
}.

(** Two votes of one finalizer that break a slashing condition. *)
Definition conflicting_votes (a b : Vote) : Prop :=
  (m_target_epoch a = m_target_epoch b ∧ m_target_hash a ≠ m_target_hash b) ∨
  surrounds a b = true.

(** What recording a vote leaves in memory. *)
Definition recorded (r : VoteRecorder) (record : VoteRecord) (a e : Z) : option VoteRecord :=
  let v := vote record in
  if decide (a = m_validator_address v ∧ e = m_target_epoch v)
  then Some (default record (GetVote r a e)) else GetVote r a e.

Lemma RecordVote_recorded r v voteSig fin_state r' pair :
  RecordVote r v voteSig fin_state = Ok (r', pair) →
  (GetValidator fin_state (m_validator_address v) = None ∧ r' = r) ∨
  is_Some (GetValidator fin_state (m_validator_address v)) ∧ voteCache r' = voteCache r ∧
  (∀ a e, GetVote r' a e = recorded r {| vote := v; sig := voteSig |} a e) ∧
  m_db r' = (if decide (GetVote r (m_validator_address v) (m_target_epoch v) = None)
             then <[(m_validator_address v, m_target_epoch v) := {| vote := v; sig := voteSig |}]>
                    (m_db r) else m_db r).
Proof.
  unfold RecordVote. destruct (GetValidator fin_state (m_validator_address v)); [|by intros [= <- <-]; left].
  set (m := default ∅ _). set (r1 := {| voteRecords := _ |}). set (r2 := if bool_decide _ then _ else r1).
  intros Hr. right. split; [by eexists|].
  assert (r' = r2) as ->.
  { destruct (FindOffendingVote r v); [|congruence]. case_decide; congruence. }
  assert (∀ e, m !! e = GetVote r (m_validator_address v) e) as Hm.
  { intros e. subst m. unfold GetVote. by destruct (voteRecords r !! m_validator_address v). }
  assert (voteRecords r2 = voteRecords r1 ∧ voteCache r2 = voteCache r) as [Hr2 Hc]
    by (subst r2; by destruct (bool_decide _)).
  split; [done|]. split.
  - intros a e. unfold GetVote at 1. rewrite Hr2. cbn. unfold recorded. cbn.
    destruct (decide (a = m_validator_address v)) as [->|Hne].
    + rewrite lookup_insert_eq. cbn. destruct (decide (e = m_target_epoch v)) as [->|He].
      * rewrite lookup_emplace, decide_True by done. unfold emplaced. by rewrite Hm.
      * rewrite decide_False by naive_solver. by rewrite <- Hm, lookup_emplace_ne.
    + rewrite lookup_insert_ne, decide_False by naive_solver. done.
  - subst r2. rewrite Hm. case_decide; [by rewrite bool_decide_eq_true_2|by rewrite bool_decide_eq_false_2].
Qed.

Lemma load_entries l r0 a e :
  NoDup l.*1 →
  (voteMap ← foldl load_entry r0 l !! a; voteMap !! e) =
  match voteMap ← r0 !! a; voteMap !! e with
  | Some record => Some record
  | None => (list_to_map l : gmap (Z * Z) VoteRecord) !! (a, e)
  end.
Proof.
  induction l as [|[[a' e'] record] l IH] in r0 |- *; cbn [foldl]; intros Hnd.
  { cbn. rewrite lookup_empty. by destruct (r0 !! a ≫= _). }
  apply NoDup_cons in Hnd as [Hni Hnd]. rewrite IH by done. cbn [load_entry list_to_map foldr].
  destruct (decide (a = a')) as [->|Hne].
  - rewrite lookup_insert_eq. cbn [mbind option_bind].
    destruct (decide (e = e')) as [->|He].
    + rewrite lookup_emplace. unfold emplaced.
      destruct (r0 !! a') as [m|]; cbn; [|rewrite lookup_empty, lookup_insert_eq; done].
      destruct (m !! e'); cbn; [done|by rewrite lookup_insert_eq].
    + rewrite (lookup_insert_ne _ (a', e')) by congruence.
      rewrite lookup_emplace_ne by done.
      destruct (r0 !! a') as [m|]; cbn; [done|by rewrite lookup_empty].
  - rewrite lookup_insert_ne by done. by rewrite (lookup_insert_ne _ (a', e')) by congruence.
Qed.

Lemma GetVote_LoadFromDB r a e : GetVote (LoadFromDB r) a e = m_db r !! (a, e).
Proof.
  unfold GetVote, LoadFromDB. cbn [voteRecords]. rewrite load_entries by apply NoDup_fst_map_to_list.
  rewrite lookup_empty. cbn. by rewrite list_to_map_to_list.
Qed.

Lemma recording_ok r : recording r → recorder_ok r.
Proof.
  induction 1 as [|r v voteSig s r' pair Hr IH Hrec|r Hr IH].
  - split; [done|..]; intros a e; unfold GetVote; cbn; by rewrite lookup_empty.
  - apply RecordVote_recorded in Hrec as [[_ ->]|(_ & Hc & Hg & Hdb)]; [done|].
    destruct IH as [IHc IHf IHd]. split; [by rewrite Hc| |].
    + intros a e record. rewrite Hg. unfold recorded. cbn.
      destruct (decide (a = m_validator_address v ∧ e = m_target_epoch v)) as [[-> ->]|Hd]; [|apply IHf].
      destruct (GetVote r _ _) eqn:Hgv; cbn; intros [= <-]; [by apply IHf|done].
    + intros a e. rewrite Hg, Hdb. unfold recorded. cbn.
      destruct (GetVote r (m_validator_address v) (m_target_epoch v)) eqn:Hgv;
        [rewrite decide_False by done|rewrite decide_True by done].
      * destruct (decide (a = m_validator_address v ∧ e = m_target_epoch v)) as [[-> ->]|Hd]; [|apply IHd].
        by rewrite IHd, Hgv.
      * destruct (decide (a = m_validator_address v ∧ e = m_target_epoch v)) as [[-> ->]|Hd];
          [by rewrite lookup_insert_eq, Hgv|].
        rewrite lookup_insert_ne by naive_solver. apply IHd.
  - destruct IH as [_ IHf IHd]. split; [done|..]; intros a e; rewrite GetVote_LoadFromDB.
    + rewrite IHd. apply IHf.
    + done.
Qed.

(** ** Finding offending votes *)

Lemma surrounds_epochs a b :
  surrounds a b = true → m_target_epoch a ≠ m_target_epoch b ∧
  (bool_decide (m_target_epoch a < m_target_epoch b) && bool_decide (m_source_epoch b < m_source_epoch a) ||
   bool_decide (m_target_epoch b < m_target_epoch a) && bool_decide (m_source_epoch a < m_source_epoch b))
  = true.
Proof.
  unfold surrounds. rewrite !orb_true_iff, !andb_true_iff, !bool_decide_eq_true. lia.
Qed.

(** The part of the records in which the search finds a conflict: the target
    epoch itself, and the targets from the new source on, of votes whose
    source is before the new target. *)
Definition in_reach (recorded v : Vote) : Prop :=
  m_target_epoch recorded = m_target_epoch v ∨
  m_source_epoch v ≤ m_target_epoch recorded ∧ m_source_epoch recorded < m_target_epoch v.

#[export] Instance in_reach_dec a v : Decision (in_reach a v).
Proof. unfold in_reach. apply _. Defined.

Lemma find_surrounding_sound v l record :
  find_surrounding v l = Some record → ∃ e, (e, record) ∈ l ∧ surrounds (vote record) v = true ∧
    m_source_epoch (vote record) < m_target_epoch v.
Proof.
  induction l as [|[e rec] l IH]; cbn [find_surrounding]; [done|]. intros Hf.
  destruct (decide (m_source_epoch (vote rec) < m_target_epoch v));
    [destruct (surrounds (vote rec) v) eqn:Hs|].
  - injection Hf as <-. exists e. by split; [left|].
  - apply IH in Hf as (e' & ? & ? & ?). exists e'. by split; [right|].
  - apply IH in Hf as (e' & ? & ? & ?). exists e'. by split; [right|].
Qed.

Lemma find_surrounding_complete v l e record :
  (e, record) ∈ l → m_source_epoch (vote record) < m_target_epoch v →
  surrounds (vote record) v = true → is_Some (find_surrounding v l).
Proof.
  induction l as [|[e' rec] l IH]; cbn [find_surrounding]; intros Hin Hlt Hs; [by apply elem_of_nil in Hin|].
  apply elem_of_cons in Hin as [Heq|Hin].
  - injection Heq as <- <-. rewrite decide_True, Hs by done. by eexists.
  - destruct (decide (m_source_epoch (vote rec) < m_target_epoch v));
      [destruct (surrounds (vote rec) v)|]; [by eexists|by apply IH..].
Qed.

Lemma FindOffendingVote_eq r v :
  recorder_ok r →
  FindOffendingVote r v = voteMap ← voteRecords r !! m_validator_address v; find_in_map v voteMap.
Proof. intros [Hc _ _]. unfold FindOffendingVote. by rewrite Hc, lookup_empty. Qed.

Lemma FindOffendingVote_sound r v record :
  recorder_ok r → FindOffendingVote r v = Some record →
  GetVote r (m_validator_address v) (m_target_epoch (vote record)) = Some record ∧
  m_validator_address (vote record) = m_validator_address v ∧ conflicting_votes (vote record) v ∧
  in_reach (vote record) v.
Proof.
  intros Hok Hf. rewrite FindOffendingVote_eq in Hf by done. pose proof (rk_filed r Hok) as Hfile.
  unfold GetVote in *. destruct (voteRecords r !! m_validator_address v) as [m|] eqn:Hm; [|done].
  cbn in Hf. assert (∀ e rec, m !! e = Some rec →
    m_validator_address (vote rec) = m_validator_address v ∧ m_target_epoch (vote rec) = e) as Hfile'.
  { intros e rec Hrec. apply Hfile. by rewrite Hm. }
  cbn. unfold find_in_map in Hf.
  assert (find_surrounding v (from_epoch (m_source_epoch v) m) = Some record →
    m !! m_target_epoch (vote record) = Some record ∧
    m_validator_address (vote record) = m_validator_address v ∧ conflicting_votes (vote record) v ∧
    in_reach (vote record) v) as Hsur.
  { intros (e & [Hle Hin%elem_of_map_entries]%list_elem_of_filter & Hs & Hlt)%find_surrounding_sound.
    destruct (Hfile' e record Hin) as [? He]. unfold in_reach. cbn in Hle. rewrite He.
    split; [done|]. split; [done|]. split; by right. }
  destruct (m !! m_target_epoch v) as [rec|] eqn:Hrec; [|by apply Hsur].
  destruct (decide (m_target_hash (vote rec) ≠ m_target_hash v)) as [Hne|]; [|by apply Hsur].
  injection Hf as <-. destruct (Hfile' _ _ Hrec) as [? He]. rewrite He.
  split; [done|]. split; [done|]. split; by left.
Qed.

Lemma FindOffendingVote_complete r v e record :
  recorder_ok r → GetVote r (m_validator_address v) e = Some record → conflicting_votes (vote record) v →
  in_reach (vote record) v → is_Some (FindOffendingVote r v).
Proof.
  intros Hok Hg Hconf Hreach. destruct (rk_filed r Hok _ _ _ Hg) as [_ He].
  rewrite FindOffendingVote_eq by done.
  unfold GetVote in Hg. destruct (voteRecords r !! m_validator_address v) as [m|]; [|done].
  cbn in *. unfold find_in_map.
  assert (surrounds (vote record) v = true → is_Some
    (find_surrounding v (from_epoch (m_source_epoch v) m))) as Hsur.
  { intros Hs. pose proof (proj1 (surrounds_epochs _ _ Hs)). unfold in_reach in Hreach.
    apply (find_surrounding_complete v _ e record); [|lia|done].
    apply list_elem_of_filter. split; [cbn; lia|by apply elem_of_map_entries]. }
  destruct (m !! m_target_epoch v) as [rec|] eqn:Hrec.
  - destruct (decide (m_target_hash (vote rec) ≠ m_target_hash v)) as [|Hsame]; [by eexists|].
    destruct Hconf as [[Heq Hne]|Hs]; [|by apply Hsur]. exfalso. apply Hsame.
    rewrite <- Heq, He, Hg in Hrec. by injection Hrec as <-.
  - destruct Hconf as [[Heq _]|Hs]; [|by apply Hsur]. rewrite <- Heq, He, Hg in Hrec. done.
Qed.

(** C36: which pairs of votes that break a slashing condition the recorder
    finds.  What it reports is a recorded vote of the same finalizer that
    conflicts with the new one.  It reports one exactly when there is a
    recorded vote that conflicts with the new one and is in reach of the
    search: it names the same target epoch, or its target is not before the
    new vote's source and its source is before the new vote's target.  So a
    conflict is missed only when one of the two votes has its source after
    its target; nothing is assumed of the votes otherwise. *)
Theorem offending_votes_are_found r v :
  recording r →
  (∀ record, FindOffendingVote r v = Some record →
     GetVote r (m_validator_address v) (m_target_epoch (vote record)) = Some record ∧
     conflicting_votes (vote record) v) ∧
  (is_Some (FindOffendingVote r v) ↔
   ∃ e record, GetVote r (m_validator_address v) e = Some record ∧
     conflicting_votes (vote record) v ∧ in_reach (vote record) v) ∧
  (∀ e record, GetVote r (m_validator_address v) e = Some record →
     conflicting_votes (vote record) v → FindOffendingVote r v = None →
     m_target_epoch v < m_source_epoch v ∨
     m_target_epoch (vote record) < m_source_epoch (vote record)).
Proof.
  intros Hok%recording_ok. split; [|split].
  - intros record Hf. apply FindOffendingVote_sound in Hf as (? & _ & ? & _); done.
  - split; [|intros (e & record & Hg & Hc & Hr); by eapply FindOffendingVote_complete].
    intros [record (? & _ & ? & ?)%FindOffendingVote_sound]; eauto.
  - intros e record Hg Hc Hn. destruct (decide (in_reach (vote record) v)) as [Hr|Hr].
    + destruct (FindOffendingVote_complete r v e record Hok Hg Hc Hr) as [? Hf]. by rewrite Hf in Hn.
    + destruct Hc as [[? _]|Hs]; unfold in_reach in Hr; [tauto|]. unfold surrounds in Hs.
      rewrite orb_true_iff, !andb_true_iff, !bool_decide_eq_true in Hs. lia.
Qed.

(** Restarting the node loses no recorded vote, and recording never
    replaces one: the first vote of a finalizer for a target epoch stays. *)
Theorem records_survive_restart r v voteSig fin_state r' pair a e :
  recording r → RecordVote r v voteSig fin_state = Ok (r', pair) →
  GetVote (LoadFromDB r') a e = GetVote r' a e ∧
  (∀ record, GetVote r a e = Some record → GetVote r' a e = Some record) ∧
  (is_Some (GetValidator fin_state (m_validator_address v)) →
   is_Some (GetVote r' (m_validator_address v) (m_target_epoch v))).
Proof.
  intros Hr Hrec. pose proof (recording_ok r' (recording_step _ _ _ _ _ _ Hr Hrec)) as Hok.
  split; [rewrite GetVote_LoadFromDB; apply Hok|].
  pose proof Hrec as [[Hn ->]|(_ & _ & Hg & _)]%RecordVote_recorded.
  - split; [done|]. rewrite Hn. by intros [].
  - rewrite Hg. split.
    + intros record Hgv. unfold recorded. rewrite Hgv. by case_decide.
    + intros _. rewrite Hg. unfold recorded. rewrite decide_True by done. by eexists.
Qed.

(** ** The assertion in [RecordVote] *)

(** C35: the recorder stops the node when the conflicting votes it has found
    cannot be slashed.  That is so exactly when the finalizer is already
    slashed, is not yet in its first dynasty, or when the two votes surround
    each other and name the same target hash; votes are recorded and compared
    before their validity is established. *)
Theorem recorder_stops_the_node r v voteSig fin_state w record :
  recording r → GetValidator fin_state (m_validator_address v) = Some w →
  FindOffendingVote r v = Some record →
  RecordVote r v voteSig fin_state = Raise AssertionFailure ↔
  m_current_dynasty fin_state < m_start_dynasty w ∨ m_is_slashed w = true ∨
  m_target_hash v = m_target_hash (vote record).
Proof.
  intros Hok%recording_ok Hw Hf.
  destruct (FindOffendingVote_sound r v record Hok Hf) as (_ & Haddr & Hconf & _).
  unfold RecordVote. rewrite Hw, Hf.
  assert (IsSlashable fin_state v (vote record) = SUCCESS ↔
    ¬ (m_current_dynasty fin_state < m_start_dynasty w ∨ m_is_slashed w = true ∨
       m_target_hash v = m_target_hash (vote record))) as Hiff.
  { unfold IsSlashable. rewrite Haddr. unfold GetValidator in Hw. rewrite Hw.
    rewrite decide_False by (intros Hc; by apply Hc).
    destruct (decide (m_current_dynasty fin_state < m_start_dynasty w)); [naive_solver|].
    destruct (m_is_slashed w); [naive_solver|].
    destruct (decide (m_target_hash v = m_target_hash (vote record))); [naive_solver|].
    split; [naive_solver|]. intros _. destruct Hconf as [[He _]|[_ Hs]%surrounds_epochs].
    - by rewrite bool_decide_eq_true_2 by done.
    - rewrite Hs. by rewrite orb_true_r. }
  destruct (decide (IsSlashable fin_state v (vote record) = SUCCESS)) as [Hs|Hs].
  - split; [done|]. intros Hbad. by apply Hiff in Hs.
  - split; [|done]. intros _. rewrite Hiff in Hs.
    destruct (decide (m_current_dynasty fin_state < m_start_dynasty w)); [by left|].
    destruct (m_is_slashed w); [by right; left|].
    destruct (decide (m_target_hash v = m_target_hash (vote record))); [by right; right|].
    exfalso. apply Hs. naive_solver.
Qed.

(** ** Witnesses *)

#[local] Existing Instances commit_hashing commit_signatures.

Definition demo_recorder_of (o : outcome (VoteRecorder * option (VoteRecord * VoteRecord))) :
  VoteRecorder :=
  match o with Ok (r, _) => r | Raise _ => VoteRecorder_new end.

Definition demo_recorder : VoteRecorder :=
  demo_recorder_of (RecordVote VoteRecorder_new (demo_vote 9 3 4) [1] demo_finalized_state).

Lemma demo_recorder_recording : recording demo_recorder.
Proof.
  destruct (outcome_check (RecordVote VoteRecorder_new (demo_vote 9 3 4) [1] demo_finalized_state)
    (λ _, true)) as ([r pair] & Hr & _); [by vm_compute|].
  unfold demo_recorder, demo_recorder_of. rewrite Hr.
  exact (recording_step _ _ _ _ _ _ recording_new Hr).
Qed.

Lemma offending_votes_are_found_witness :
  is_Some (FindOffendingVote demo_recorder (demo_conflicting_vote 9 3 4)).
Proof.
  destruct (offending_votes_are_found demo_recorder (demo_conflicting_vote 9 3 4)
    demo_recorder_recording) as (_ & Hiff & _).
  apply Hiff. exists 4, {| vote := demo_vote 9 3 4; sig := [1] |}.
  split; [by vm_compute|]. split; [by left|by left].
Defined.

Lemma records_survive_restart_witness :
  GetVote (LoadFromDB demo_recorder) 9 4 = Some {| vote := demo_vote 9 3 4; sig := [1] |}.
Proof.
  destruct (records_survive_restart VoteRecorder_new (demo_vote 9 3 4) [1] demo_finalized_state
    demo_recorder None 9 4 recording_new) as (Hl & _); [by vm_compute|].
  rewrite Hl. by vm_compute.
Defined.

(** Two votes for the same hash, one around the other. *)
Definition demo_outer_vote : Vote :=
  {| m_validator_address := 9; m_target_hash := 300; m_source_epoch := 1; m_target_epoch := 6 |}.
Definition demo_inner_vote : Vote :=
  {| m_validator_address := 9; m_target_hash := 300; m_source_epoch := 2; m_target_epoch := 5 |}.

Definition demo_signed_vote_tx (v : Vote) : CTransaction :=
  demo_commit VOTE 0 UNIT
    (match EncodeVote v (be_bytes 32 (Vote_GetHash v) ++ demo_key) with
     | Ok script => push_data [1] ++ push_data script | Raise _ => [] end).

Definition demo_outer_recorder : VoteRecorder :=
  demo_recorder_of (RecordVote VoteRecorder_new demo_outer_vote [1] demo_finalized_state).

(** Transactions with these votes, signed with a key of nobody, stop a node
    that checks the second of them. *)
Lemma recorder_stops_the_node_witness :
  RecordVote demo_outer_recorder demo_inner_vote [2] demo_finalized_state = Raise AssertionFailure ∧
  ContextualCheckBlockFinalizerCommits [] ∅ demo_view demo_params demo_outer_recorder
    [demo_signed_vote_tx demo_inner_vote] demo_finalized_state demo_finalized_state =
    Raise AssertionFailure.
Proof.
  split; [|by vm_compute].
  destruct (outcome_check (RecordVote VoteRecorder_new demo_outer_vote [1] demo_finalized_state)
    (λ _, true)) as ([r pair] & Hr & _); [by vm_compute|].
  destruct (lookup_check (m_validators demo_finalized_state) 9 (λ _, true))
    as (w & Hw & _); [by vm_compute|].
  apply (recorder_stops_the_node demo_outer_recorder demo_inner_vote [2] demo_finalized_state w
    {| vote := demo_outer_vote; sig := [1] |}).
  - unfold demo_outer_recorder, demo_recorder_of. rewrite Hr.
    exact (recording_step _ _ _ _ _ _ recording_new Hr).
  - exact Hw.
  - by vm_compute.
  - by right; right.
Defined.
