(* ===== verification/Chain.v ===== *)
(** * Block indexes and the active chain: src/src/chain.h, src/src/chain.cpp,
    src/src/staking/active_chain.cpp

    Block indexes form a tree of pointers to parents, with a second pointer
    per block that skips back over many ancestors.  A pointer is a number and
    the heap of block indexes a map from pointers; following a null pointer
    is undefined behaviour, [Raise OutOfBounds].  Of the members of
    [CBlockIndex] the ones the modelled code reads are kept. *)
From S2P Require Import Prelude Serialize ArithUint256 Params Script Transaction Block.

Record CBlockIndex := {
  phashBlock : Z;
  pprev : option Z;
  pskip : option Z;
  nHeight : Z;
  nChainWork : base_uint;
  nStatus : Z;
  index_nVersion : Z;
  index_hashMerkleRoot : Z;
  index_hash_witness_merkle_root : Z;
  index_hash_finalizer_commits_merkle_root : Z;
  nTime : Z;
  index_nBits : Z;
  nTimeMax : Z;
  stake_modifier : Z;
  commits : option (list CTransaction);
}.

(** [SetNull], and the constructor from a header; the hash is set when the
    index is added to the map. *)
Definition CBlockIndex_new (block : CBlockHeader) : CBlockIndex := {|
  phashBlock := 0; pprev := None; pskip := None; nHeight := 0; nChainWork := base_uint_zero; nStatus := 0;
  index_nVersion := block_nVersion block; index_hashMerkleRoot := hashMerkleRoot block;
  index_hash_witness_merkle_root := hash_witness_merkle_root block;
  index_hash_finalizer_commits_merkle_root := hash_finalizer_commits_merkle_root block;
  nTime := block_nTime block; index_nBits := nBits block; nTimeMax := 0; stake_modifier := 0;
  commits := None |}.

(** Where the index stands in the tree. *)
Definition set_position (hash : Z) (prev : option Z) (height : Z) (b : CBlockIndex) : CBlockIndex := {|
  phashBlock := hash; pprev := prev; pskip := pskip b; nHeight := height; nChainWork := nChainWork b;
  nStatus := nStatus b; index_nVersion := index_nVersion b; index_hashMerkleRoot := index_hashMerkleRoot b;
  index_hash_witness_merkle_root := index_hash_witness_merkle_root b;
  index_hash_finalizer_commits_merkle_root := index_hash_finalizer_commits_merkle_root b;
  nTime := nTime b; index_nBits := index_nBits b; nTimeMax := nTimeMax b; stake_modifier := stake_modifier b;
  commits := commits b |}.

Definition set_pskip (q : option Z) (b : CBlockIndex) : CBlockIndex := {|
  phashBlock := phashBlock b; pprev := pprev b; pskip := q; nHeight := nHeight b; nChainWork := nChainWork b;
  nStatus := nStatus b; index_nVersion := index_nVersion b; index_hashMerkleRoot := index_hashMerkleRoot b;
  index_hash_witness_merkle_root := index_hash_witness_merkle_root b;
  index_hash_finalizer_commits_merkle_root := index_hash_finalizer_commits_merkle_root b;
  nTime := nTime b; index_nBits := index_nBits b; nTimeMax := nTimeMax b; stake_modifier := stake_modifier b;
  commits := commits b |}.

(** What is summed up along the chain, and the validity. *)
Definition set_totals (work : base_uint) (time_max status : Z) (b : CBlockIndex) : CBlockIndex := {|
  phashBlock := phashBlock b; pprev := pprev b; pskip := pskip b; nHeight := nHeight b; nChainWork := work;
  nStatus := status; index_nVersion := index_nVersion b; index_hashMerkleRoot := index_hashMerkleRoot b;
  index_hash_witness_merkle_root := index_hash_witness_merkle_root b;
  index_hash_finalizer_commits_merkle_root := index_hash_finalizer_commits_merkle_root b;
  nTime := nTime b; index_nBits := index_nBits b; nTimeMax := time_max; stake_modifier := stake_modifier b;
  commits := commits b |}.

Definition set_commits (c : option (list CTransaction)) (b : CBlockIndex) : CBlockIndex := {|
  phashBlock := phashBlock b; pprev := pprev b; pskip := pskip b; nHeight := nHeight b;
  nChainWork := nChainWork b; nStatus := nStatus b;
  index_nVersion := index_nVersion b; index_hashMerkleRoot := index_hashMerkleRoot b;
  index_hash_witness_merkle_root := index_hash_witness_merkle_root b;
  index_hash_finalizer_commits_merkle_root := index_hash_finalizer_commits_merkle_root b;
  nTime := nTime b; index_nBits := index_nBits b; nTimeMax := nTimeMax b; stake_modifier := stake_modifier b;
  commits := c |}.

Definition set_stake_modifier (h : Z) (b : CBlockIndex) : CBlockIndex := {|
  phashBlock := phashBlock b; pprev := pprev b; pskip := pskip b; nHeight := nHeight b;
  nChainWork := nChainWork b; nStatus := nStatus b;
  index_nVersion := index_nVersion b; index_hashMerkleRoot := index_hashMerkleRoot b;
  index_hash_witness_merkle_root := index_hash_witness_merkle_root b;
  index_hash_finalizer_commits_merkle_root := index_hash_finalizer_commits_merkle_root b;
  nTime := nTime b; index_nBits := index_nBits b; nTimeMax := nTimeMax b; stake_modifier := h;
  commits := commits b |}.

(** *** Validity *)

Definition BLOCK_VALID_TREE : Z := 2.
Definition BLOCK_VALID_SCRIPTS : Z := 5.
(** All of [BLOCK_VALID_HEADER] = 1 to [BLOCK_VALID_SCRIPTS] = 5. *)
Definition BLOCK_VALID_MASK : Z := Z.lor (Z.lor (Z.lor (Z.lor 1 BLOCK_VALID_TREE) 3) 4) BLOCK_VALID_SCRIPTS.
Definition BLOCK_FAILED_VALID : Z := 32.
Definition BLOCK_FAILED_CHILD : Z := 64.
Definition BLOCK_FAILED_MASK : Z := Z.lor BLOCK_FAILED_VALID BLOCK_FAILED_CHILD.

Definition IsValid (nUpTo : Z) (b : CBlockIndex) : outcome bool :=
  _ ← cpp_assert (bool_decide (Z.ldiff nUpTo BLOCK_VALID_MASK = 0));
  Ok (bool_decide (Z.land (nStatus b) BLOCK_FAILED_MASK = 0) &&
      bool_decide (nUpTo ≤ Z.land (nStatus b) BLOCK_VALID_MASK)).

(** Whether the validity was changed. *)
Definition RaiseValidity (nUpTo : Z) (b : CBlockIndex) : outcome (bool * CBlockIndex) :=
  _ ← cpp_assert (bool_decide (Z.ldiff nUpTo BLOCK_VALID_MASK = 0));
  if decide (Z.land (nStatus b) BLOCK_FAILED_MASK ≠ 0) then Ok (false, b)
  else if decide (Z.land (nStatus b) BLOCK_VALID_MASK < nUpTo) then
    Ok (true, set_totals (nChainWork b) (nTimeMax b) (Z.lor (Z.ldiff (nStatus b) BLOCK_VALID_MASK) nUpTo) b)
  else Ok (false, b).

(** *** Proof of work *)

Definition GetBlockProof (block : CBlockIndex) : outcome base_uint :=
  let '(bnTarget, fNegative, fOverflow) := SetCompact (index_nBits block) in
  if fNegative || fOverflow || EqualTo bnTarget 0 then Ok base_uint_zero
  else
    q ← op_div (op_not bnTarget) (op_add bnTarget (base_uint_new 1));
    Ok (op_add q (base_uint_new 1)).

(** The low bits are multiplied with the sign as unsigned numbers. *)
Definition GetBlockProofEquivalentTime (to from tip : CBlockIndex) (nPowTargetSpacing : Z) : outcome Z :=
  let '(r, sign) :=
    if decide (0 < CompareTo (nChainWork to) (nChainWork from))
    then (op_sub (nChainWork to) (nChainWork from), 1)
    else (op_sub (nChainWork from) (nChainWork to), -1) in
  proof ← GetBlockProof tip;
  r ← op_div (op_mul r (base_uint_new (uint64 nPowTargetSpacing))) proof;
  if decide (63 < bits r) then Ok (sign * (2 ^ 63 - 1)) else Ok (int64 (uint64 (sign * GetLow64 r))).

Abbreviation BlockMap := (gmap Z CBlockIndex).

(** ** Skipping back *)

Definition InvertLowestOne (n : Z) : Z := Z.land n (n - 1).

Definition GetSkipHeight (height : Z) : Z :=
  if decide (height < 2) then 0
  else if decide (Z.land height 1 ≠ 0) then InvertLowestOne (InvertLowestOne (height - 1)) + 1
  else InvertLowestOne height.

Section heap.
Context (m : BlockMap).

(** [*p]. *)
Definition deref (p : Z) : outcome CBlockIndex :=
  match m !! p with Some b => Ok b | None => Raise OutOfBounds end.

(** The [while] loop of [GetAncestor]; every round goes down, so the height
    is enough fuel. *)
Fixpoint GetAncestor_loop (fuel : nat) (height pindexWalk heightWalk : Z) : outcome Z :=
  if decide (heightWalk ≤ height) then Ok pindexWalk
  else
    match fuel with
    | O => Raise OutOfBounds
    | S fuel =>
        walk ← deref pindexWalk;
        let heightSkip := GetSkipHeight heightWalk in
        let heightSkipPrev := GetSkipHeight (heightWalk - 1) in
        let follow :=
          bool_decide (heightSkip = height) ||
          (bool_decide (height < heightSkip) &&
           negb (bool_decide (heightSkipPrev < heightSkip - 2) &&
                 bool_decide (height ≤ heightSkipPrev))) in
        match pskip walk with
        | Some skip =>
            if follow then GetAncestor_loop fuel height skip heightSkip
            else
              match pprev walk with
              | Some prev => GetAncestor_loop fuel height prev (heightWalk - 1)
              | None => Raise AssertionFailure
              end
        | None =>
            match pprev walk with
            | Some prev => GetAncestor_loop fuel height prev (heightWalk - 1)
            | None => Raise AssertionFailure
            end
        end
    end.

Definition GetAncestor (this height : Z) : outcome (option Z) :=
  b ← deref this;
  if decide (nHeight b < height ∨ height < 0) then Ok None
  else Some <$> GetAncestor_loop (Z.to_nat (nHeight b)) height this (nHeight b).

(** The value [BuildSkip] assigns to [pskip]. *)
Definition BuildSkip (b : CBlockIndex) : outcome (option Z) :=
  match pprev b with
  | Some prev => GetAncestor prev (GetSkipHeight (nHeight b))
  | None => Ok (pskip b)
  end.

(** The simultaneous walk of [LastCommonAncestor]; null is [None]. *)
Fixpoint common_walk (fuel : nat) (pa pb : option Z) : outcome (option Z) :=
  if decide (pa = pb) then Ok pa
  else
    match fuel, pa, pb with
    | S fuel, Some a, Some b =>
        ia ← deref a; ib ← deref b; common_walk fuel (pprev ia) (pprev ib)
    | _, _, _ => Raise AssertionFailure
    end.

Definition LastCommonAncestor (pa pb : Z) : outcome (option Z) :=
  a ← deref pa; b ← deref pb;
  pa' ← (if decide (nHeight b < nHeight a) then GetAncestor pa (nHeight b) else Ok (Some pa));
  pb' ← (if decide (nHeight a < nHeight b) then GetAncestor pb (nHeight a) else Ok (Some pb));
  common_walk (S (Z.to_nat (Z.min (nHeight a) (nHeight b)))) pa' pb'.

(** ** The median time *)

Definition nMedianTimeSpan : nat := 11.

(** The times of the last blocks, the latest first. *)
Fixpoint last_times (n : nat) (pindex : option Z) : outcome (list Z) :=
  match n, pindex with
  | S n, Some p => b ← deref p; ts ← last_times n (pprev b); Ok (nTime b :: ts)
  | _, _ => Ok []
  end.

Definition GetMedianTimePast (this : Z) : outcome Z :=
  ts ← last_times nMedianTimeSpan (Some this);
  let sorted := merge_sort Z.le ts in
  vec_at sorted (length sorted / 2).

(** ** The active chain *)

(** [vChain]; an entry that was never set is null. *)
Abbreviation CChain := (list (option Z)).

Definition Tip (c : CChain) : option Z := match last c with Some (Some p) => Some p | _ => None end.

Definition at_height (c : CChain) (height : Z) : option Z :=
  if decide (height < 0 ∨ Z.of_nat (length c) ≤ height) then None
  else match c !! Z.to_nat height with Some (Some p) => Some p | _ => None end.

Definition Contains (c : CChain) (p : Z) : outcome bool :=
  b ← deref p; Ok (bool_decide (at_height c (nHeight b) = Some p)).

Definition Height (c : CChain) : Z := Z.of_nat (length c) - 1.

Definition Next (c : CChain) (p : Z) : outcome (option Z) :=
  b ← deref p;
  contains ← Contains c p;
  Ok (if (contains : bool) then at_height c (nHeight b + 1) else None).

(** [vChain.resize(n)]. *)
Definition resize (n : nat) (c : CChain) : CChain := take n c ++ replicate (n - length c) None.

Fixpoint SetTip_loop (fuel : nat) (c : CChain) (pindex : option Z) : outcome CChain :=
  match pindex with
  | None => Ok c
  | Some p =>
      b ← deref p;
      entry ← vec_at c (Z.to_nat (nHeight b));
      if decide (entry = Some p) then Ok c
      else
        match fuel with
        | O => Raise OutOfBounds
        | S fuel => SetTip_loop fuel (<[Z.to_nat (nHeight b) := Some p]> c) (pprev b)
        end
  end.

Definition SetTip (c : CChain) (pindex : option Z) : outcome CChain :=
  match pindex with
  | None => Ok []
  | Some p =>
      b ← deref p;
      SetTip_loop (Z.to_nat (nHeight b + 1)) (resize (Z.to_nat (nHeight b + 1)) c) pindex
  end.

Fixpoint FindFork_loop (fuel : nat) (c : CChain) (pindex : option Z) : outcome (option Z) :=
  match pindex with
  | None => Ok None
  | Some p =>
      contains ← Contains c p;
      if (contains : bool) then Ok (Some p)
      else
        match fuel with
        | O => Raise OutOfBounds
        | S fuel => b ← deref p; FindFork_loop fuel c (pprev b)
        end
  end.

Definition FindFork (c : CChain) (p : Z) : outcome (option Z) :=
  b ← deref p;
  start ← (if decide (Height c < nHeight b) then GetAncestor p (Height c) else Ok (Some p));
  FindFork_loop (S (Z.to_nat (nHeight b))) c start.
End heap.

(** ** Trees of block indexes *)

(** [n] parents back. *)
Fixpoint ancestor (m : BlockMap) (p : Z) (n : nat) : option Z :=
  match n with
  | O => Some p
  | S n => b ← m !! p; q ← pprev b; ancestor m q n
  end.

(** Heights count the ancestors, and the skip pointers lead to ancestors at
    the heights computed for them. *)
Record wf_block (m : BlockMap) (p : Z) (b : CBlockIndex) : Prop := {
  wb_height : 0 ≤ nHeight b;
  wb_root : pprev b = None → nHeight b = 0;
  wb_prev : ∀ q, pprev b = Some q → ∃ c, m !! q = Some c ∧ nHeight c = nHeight b - 1;
  wb_skip : ∀ q, pskip b = Some q →
    0 < nHeight b ∧ ancestor m p (Z.to_nat (nHeight b - GetSkipHeight (nHeight b))) = Some q;
}.

Definition wf_tree (m : BlockMap) : Prop := map_Forall (wf_block m) m.

Lemma land_le_r a b : 0 ≤ b → Z.land a b ≤ b.
Proof.
  intros Hb. assert (Z.land a b + Z.ldiff b a = b) as Heq.
  { rewrite Z.add_nocarry_lxor.
    - rewrite Z.lxor_lor; [rewrite Z.lor_comm, (Z.land_comm a); apply Z.lor_ldiff_and|].
      apply Z.bits_inj'. intros i Hi. rewrite !Z.land_spec, Z.ldiff_spec, Z.bits_0.
      by destruct (Z.testbit a i), (Z.testbit b i).
    - apply Z.bits_inj'. intros i Hi. rewrite !Z.land_spec, Z.ldiff_spec, Z.bits_0.
      by destruct (Z.testbit a i), (Z.testbit b i). }
  assert (0 ≤ Z.ldiff b a) by (apply Z.ldiff_nonneg; by left). lia.
Qed.

Lemma InvertLowestOne_bounds n : 0 < n → 0 ≤ InvertLowestOne n < n.
Proof.
  intros Hn. unfold InvertLowestOne. split; [apply Z.land_nonneg; left; lia|].
  pose proof (land_le_r n (n - 1)). lia.
Qed.

(** A skip goes strictly down. *)
Lemma GetSkipHeight_bounds h : 0 < h → 0 ≤ GetSkipHeight h < h.
Proof.
  intros Hh. unfold GetSkipHeight. case_decide; [lia|]. case_decide as Hodd.
  - pose proof (InvertLowestOne_bounds (h - 1) ltac:(lia)) as H1.
    destruct (decide (InvertLowestOne (h - 1) = 0)) as [->|]; [change (InvertLowestOne 0) with 0; lia|].
    pose proof (InvertLowestOne_bounds (InvertLowestOne (h - 1)) ltac:(lia)). lia.
  - apply InvertLowestOne_bounds. lia.
Qed.

Section tree.
Context (m : BlockMap) (Hm : wf_tree m).

Lemma ancestor_add p n k q :
  ancestor m p n = Some q → ancestor m p (n + k) = ancestor m q k.
Proof.
  induction n as [|n IH] in p |- *; cbn; [by intros [= ->]|].
  destruct (m !! p) as [b|]; cbn; [|done]. destruct (pprev b); cbn; [|done]. apply IH.
Qed.

(** Every height below a block is reached. *)
Lemma ancestor_some p b (n : nat) :
  m !! p = Some b → Z.of_nat n ≤ nHeight b →
  ∃ q c, ancestor m p n = Some q ∧ m !! q = Some c ∧ nHeight c = nHeight b - Z.of_nat n.
Proof.
  induction n as [|n IH] in p, b |- *; intros Hp Hn; [by exists p, b; cbn; rewrite Z.sub_0_r|].
  pose proof (Hm p b Hp) as [_ Hroot Hprev _]. cbn. rewrite Hp. cbn.
  destruct (pprev b) as [q|]; [|specialize (Hroot eq_refl); lia].
  destruct (Hprev q eq_refl) as (c & Hq & Hh). cbn.
  destruct (IH q c Hq ltac:(lia)) as (q' & c' & ? & ? & ?). exists q', c'.
  split; [done|]. split; [done|]. lia.
Qed.

Lemma GetAncestor_loop_spec fuel height p b :
  m !! p = Some b → 0 ≤ height ≤ nHeight b → (Z.to_nat (nHeight b) ≤ fuel)%nat →
  ∃ q, GetAncestor_loop m fuel height p (nHeight b) = Ok q ∧
    ancestor m p (Z.to_nat (nHeight b - height)) = Some q.
Proof.
  induction fuel as [|fuel IH] in p, b |- *; intros Hp Hh Hf; cbn [GetAncestor_loop].
  { rewrite decide_True by lia. exists p. split; [done|]. by replace (nHeight b - height) with 0 by lia. }
  destruct (decide (nHeight b ≤ height)).
  { exists p. split; [done|]. by replace (nHeight b - height) with 0 by lia. }
  unfold deref. rewrite Hp. cbn [mbind outcome_bind].
  pose proof (Hm p b Hp) as [Hnn Hroot Hprev Hskip].
  assert (∃ q, match pprev b with
               | Some prev => GetAncestor_loop m fuel height prev (nHeight b - 1)
               | None => Raise AssertionFailure end = Ok q ∧
    ancestor m p (Z.to_nat (nHeight b - height)) = Some q) as Hstep.
  { destruct (pprev b) as [q|] eqn:Hpp; [|specialize (Hroot eq_refl); lia].
    destruct (Hprev q eq_refl) as (c & Hq & Hc). rewrite <- Hc.
    destruct (IH q c Hq ltac:(lia) ltac:(lia)) as (q' & Hl & Ha). exists q'. split; [done|].
    replace (Z.to_nat (nHeight b - height)) with (S (Z.to_nat (nHeight c - height))) by lia.
    cbn. rewrite Hp. cbn. by rewrite Hpp. }
  destruct (pskip b) as [q|]; [|done].
  destruct (bool_decide _ || _) eqn:Hfollow; [|done]. clear Hstep.
  destruct (Hskip q eq_refl) as [Hpos Hanc].
  pose proof (GetSkipHeight_bounds (nHeight b) Hpos) as Hb.
  assert (height ≤ GetSkipHeight (nHeight b)) as Hle.
  { apply orb_true_iff in Hfollow as [?%bool_decide_eq_true|Hx]; [lia|].
    apply andb_true_iff in Hx as [?%bool_decide_eq_true _]. lia. }
  destruct (ancestor_some p b (Z.to_nat (nHeight b - GetSkipHeight (nHeight b))) Hp ltac:(lia))
    as (q' & c & Hq' & Hqc & Hc). rewrite Hanc in Hq'. injection Hq' as <-.
  assert (nHeight c = GetSkipHeight (nHeight b)) as Hc' by lia. rewrite <- Hc'.
  destruct (IH q c Hqc ltac:(lia) ltac:(lia)) as (q' & Hl & Ha). exists q'. split; [done|].
  rewrite <- Ha, <- (ancestor_add p _ _ q Hanc). f_equal. lia.
Qed.

Lemma GetAncestor_spec p b height :
  m !! p = Some b →
  GetAncestor m p height =
    Ok (if decide (0 ≤ height ≤ nHeight b)
        then ancestor m p (Z.to_nat (nHeight b - height)) else None).
Proof.
  intros Hp. unfold GetAncestor, deref. rewrite Hp. cbn [mbind outcome_bind].
  destruct (decide (0 ≤ height ≤ nHeight b)); [rewrite decide_False by lia|by rewrite decide_True by lia].
  destruct (GetAncestor_loop_spec (Z.to_nat (nHeight b)) height p b) as (q & -> & ->); [done|lia|lia|done].
Qed.

(** A block that is not in the heap does not change the others' ancestors. *)
Lemma ancestor_insert p b q c n :
  m !! p = None → m !! q = Some c → ancestor (<[p := b]> m) q n = ancestor m q n.
Proof.
  intros Hp. induction n as [|n IH] in q, c |- *; cbn; [done|]. intros Hq.
  rewrite lookup_insert_ne by congruence. rewrite Hq. cbn.
  destruct (pprev c) as [q'|] eqn:Hpp; cbn; [|done].
  destruct (wb_prev m q c (Hm q c Hq) q' Hpp) as (c' & Hq' & _). by apply (IH q' c').
Qed.

(** The ancestors of a block are in the heap. *)
Lemma ancestor_lookup p b n q :
  m !! p = Some b → ancestor m p n = Some q →
  ∃ c, m !! q = Some c ∧ nHeight c = nHeight b - Z.of_nat n.
Proof.
  intros Hp Ha. destruct (decide (Z.of_nat n ≤ nHeight b)) as [Hle|Hgt].
  - destruct (ancestor_some p b n Hp Hle) as (q' & c & Hq & Hc & Hh).
    exists c. rewrite Ha in Hq. injection Hq as <-. done.
  - exfalso. destruct (ancestor_some p b (Z.to_nat (nHeight b)) Hp) as (q' & c & Hq & Hc & Hh).
    { pose proof (wb_height m p b (Hm p b Hp)). lia. }
    replace n with (Z.to_nat (nHeight b) + S (n - Z.to_nat (nHeight b) - 1))%nat in Ha.
    2: { pose proof (wb_height m p b (Hm p b Hp)). lia. }
    rewrite (ancestor_add p _ _ _ Hq) in Ha. cbn in Ha. rewrite Hc in Ha. cbn in Ha.
    pose proof (wb_height m p b (Hm p b Hp)).
    destruct (pprev c) as [q''|] eqn:Hpp; [|done].
    destruct (wb_prev m q' c (Hm q' c Hc) q'' Hpp) as (c' & Hc' & Hh').
    pose proof (wb_height m q'' c' (Hm q'' c' Hc')). lia.
Qed.

(** Taking up a block with the skip pointer [BuildSkip] computes. *)
Lemma add_block_wf p b skip :
  m !! p = None → BuildSkip m b = Ok skip → pskip b = None →
  match pprev b with
  | None => nHeight b = 0
  | Some q => ∃ c, m !! q = Some c ∧ nHeight b = nHeight c + 1
  end →
  wf_tree (<[p := set_pskip skip b]> m).
Proof.
  intros Hp Hskip Hno Hprev. set (b' := set_pskip skip b). intros p1 b1.
  destruct (decide (p1 = p)) as [->|Hne].
  - rewrite lookup_insert_eq. intros [= <-]. unfold BuildSkip in Hskip.
    destruct (pprev b) as [q|] eqn:Hpp.
    + destruct Hprev as (c & Hq & Hh). pose proof (wb_height m q c (Hm q c Hq)).
      split; cbn; rewrite ?Hpp; [lia|done|..].
      * intros q1 [= <-]. exists c. rewrite lookup_insert_ne by congruence. split; [done|lia].
      * intros q1 ->. rewrite (GetAncestor_spec q c _ Hq) in Hskip.
        pose proof (GetSkipHeight_bounds (nHeight b) ltac:(lia)) as Hb. split; [lia|].
        rewrite decide_True in Hskip by lia. injection Hskip as Hskip.
        replace (Z.to_nat (nHeight b - GetSkipHeight (nHeight b)))
          with (S (Z.to_nat (nHeight c - GetSkipHeight (nHeight b)))) by lia.
        cbn. rewrite lookup_insert_eq. cbn. rewrite Hpp. cbn. by rewrite (ancestor_insert p _ q c).
    + injection Hskip as <-. split; cbn; rewrite ?Hpp, ?Hno; [lia|done..].
  - rewrite lookup_insert_ne by done. intros H1. pose proof (Hm p1 b1 H1) as [? ? Hpr Hsk].
    split; [done..| |].
    + intros q Hq. destruct (Hpr q Hq) as (c & Hc & ?). exists c.
      rewrite lookup_insert_ne by congruence. done.
    + intros q Hq. rewrite (ancestor_insert p _ p1 b1) by done. by apply Hsk.
Qed.
End tree.

(** ** The active chain *)

(** The chain with tip [tip] lists the ancestors of the tip by their heights. *)
Definition chain_of (m : BlockMap) (tip : Z) (c : list (option Z)) : Prop :=
  ∃ b, m !! tip = Some b ∧ Z.of_nat (length c) = nHeight b + 1 ∧
    ∀ i : nat, Z.of_nat i ≤ nHeight b →
      c !! i = Some (ancestor m tip (Z.to_nat (nHeight b - Z.of_nat i))).

(** A block the chain holds at the block's height. *)
Definition on_chain (m : BlockMap) (c : list (option Z)) (p : Z) : Prop :=
  ∃ b, m !! p = Some b ∧ c !! Z.to_nat (nHeight b) = Some (Some p).

Section chain.
Context (m : BlockMap) (Hm : wf_tree m).

Lemma lookup_resize n (c : list (option Z)) i :
  (i < n)%nat → resize n c !! i = Some (default None (c !! i)).
Proof.
  intros Hi. unfold resize. destruct (decide (i < length c)%nat) as [Hlt|Hge].
  - destruct (lookup_lt_is_Some_2 c i Hlt) as [x Hx].
    rewrite lookup_app_l by (rewrite length_take; lia). rewrite lookup_take_lt by done. by rewrite Hx.
  - rewrite lookup_app_r by (rewrite length_take; lia). rewrite length_take, (lookup_ge_None_2 c i) by lia.
    rewrite lookup_replicate_2 by lia. done.
Qed.

Lemma length_resize n (c : list (option Z)) : length (resize n c) = n.
Proof. unfold resize. rewrite length_app, length_take, length_replicate. lia. Qed.

(** Where two chains meet they agree downwards. *)
Lemma ancestors_agree p b q c (i : nat) x :
  m !! p = Some b → m !! q = Some c → Z.of_nat i ≤ nHeight b → Z.of_nat i ≤ nHeight c →
  ancestor m p (Z.to_nat (nHeight b - Z.of_nat i)) = Some x →
  ancestor m q (Z.to_nat (nHeight c - Z.of_nat i)) = Some x →
  ∀ j : nat, (j ≤ i)%nat → ancestor m p (Z.to_nat (nHeight b - Z.of_nat j)) =
                           ancestor m q (Z.to_nat (nHeight c - Z.of_nat j)).
Proof.
  intros Hp Hq Hi Hi' Hx Hx' j Hj.
  replace (Z.to_nat (nHeight b - Z.of_nat j)) with (Z.to_nat (nHeight b - Z.of_nat i) + (i - j))%nat by lia.
  replace (Z.to_nat (nHeight c - Z.of_nat j)) with (Z.to_nat (nHeight c - Z.of_nat i) + (i - j))%nat by lia.
  by rewrite (ancestor_add m p _ _ x), (ancestor_add m q _ _ x).
Qed.

(** The loop has set the entries above height [h]; the others are the old
    chain's. *)
Lemma SetTip_loop_spec old tip bt fuel c p b :
  (old = [] ∨ ∃ t, chain_of m t old) → m !! tip = Some bt → m !! p = Some b →
  ancestor m tip (Z.to_nat (nHeight bt - nHeight b)) = Some p → nHeight b ≤ nHeight bt →
  Z.of_nat (length c) = nHeight bt + 1 →
  (∀ i : nat, nHeight b < Z.of_nat i ≤ nHeight bt →
     c !! i = Some (ancestor m tip (Z.to_nat (nHeight bt - Z.of_nat i)))) →
  (∀ i : nat, Z.of_nat i ≤ nHeight b → c !! i = Some (default None (old !! i))) →
  (Z.to_nat (nHeight b) < fuel)%nat →
  ∃ c', SetTip_loop m fuel c (Some p) = Ok c' ∧ chain_of m tip c'.
Proof.
  intros Hold Ht. induction fuel as [|fuel IH] in c, p, b |- *; [lia|].
  intros Hp Ha Hle Hlen Hhi Hlo Hf. pose proof (Hm p b Hp) as [Hnn Hroot Hprev _].
  cbn [SetTip_loop]. unfold deref, vec_at. rewrite Hp. cbn [mbind outcome_bind].
  rewrite (Hlo (Z.to_nat (nHeight b))) by lia. cbn [mbind outcome_bind].
  destruct (decide (default None (old !! Z.to_nat (nHeight b)) = Some p)) as [Hmeet|Hne].
  - exists c. split; [done|]. exists bt. do 2 (split; [done|]). intros i Hi.
    destruct (decide (nHeight b < Z.of_nat i)) as [Hgt|Hle']; [by apply Hhi; lia|].
    rewrite Hlo by lia. f_equal.
    destruct Hold as [->|(t & ct & Hct & Hlt & Hall)]; [done|].
    assert (Z.of_nat (Z.to_nat (nHeight b)) ≤ nHeight ct) as Hb.
    { destruct (old !! Z.to_nat (nHeight b)) as [x|] eqn:Hx; [|done].
      apply lookup_lt_Some in Hx. lia. }
    rewrite (Hall (Z.to_nat (nHeight b)) Hb) in Hmeet. cbn in Hmeet.
    rewrite (Hall i) by lia. cbn. symmetry.
    apply (ancestors_agree tip bt t ct (Z.to_nat (nHeight b)) p); try done; [lia| |lia].
    by rewrite Z2Nat.id.
  - assert (∀ i : nat, nHeight b ≤ Z.of_nat i ≤ nHeight bt →
      <[Z.to_nat (nHeight b) := Some p]> c !! i =
        Some (ancestor m tip (Z.to_nat (nHeight bt - Z.of_nat i)))) as Hhi'.
    { intros i Hi. destruct (decide (i = Z.to_nat (nHeight b))) as [->|].
      - rewrite list_lookup_insert_eq by lia. rewrite Z2Nat.id by done. by rewrite Ha.
      - rewrite list_lookup_insert_ne by done. apply Hhi. lia. }
    destruct (pprev b) as [q|] eqn:Hpp.
    + destruct (Hprev q eq_refl) as (cq & Hq & Hh).
      pose proof (wb_height m q cq (Hm q cq Hq)).
      apply (IH _ q cq); [done| |lia|by rewrite length_insert| | |lia].
      * replace (Z.to_nat (nHeight bt - nHeight cq)) with (Z.to_nat (nHeight bt - nHeight b) + 1)%nat by lia.
        rewrite (ancestor_add m tip _ _ p Ha). cbn. rewrite Hp. cbn. by rewrite Hpp.
      * intros i Hi. apply Hhi'. lia.
      * intros i Hi. rewrite list_lookup_insert_ne by lia. apply Hlo. lia.
    + eexists. split; [by destruct fuel|]. exists bt. split; [done|]. rewrite length_insert.
      split; [done|]. intros i Hi. apply Hhi'. specialize (Hroot eq_refl). lia.
Qed.

Lemma SetTip_spec old tip :
  (old = [] ∨ ∃ t, chain_of m t old) → is_Some (m !! tip) →
  ∃ c', SetTip m old (Some tip) = Ok c' ∧ chain_of m tip c'.
Proof.
  intros Hold [bt Ht]. unfold SetTip, deref. rewrite Ht. cbn [mbind outcome_bind].
  pose proof (wb_height m tip bt (Hm tip bt Ht)).
  apply (SetTip_loop_spec old tip bt _ _ tip bt); try done.
  - by rewrite Z.sub_diag.
  - rewrite length_resize. lia.
  - lia.
  - intros i Hi. apply lookup_resize. lia.
  - lia.
Qed.

Lemma Contains_spec c p b :
  m !! p = Some b → ∃ r, Contains m c p = Ok r ∧ (r = true ↔ on_chain m c p).
Proof.
  intros Hp. pose proof (wb_height m p b (Hm p b Hp)). unfold Contains, deref. rewrite Hp.
  cbn [mbind outcome_bind]. eexists. split; [done|]. rewrite bool_decide_eq_true. unfold at_height, on_chain.
  destruct (decide (nHeight b < 0 ∨ Z.of_nat (length c) ≤ nHeight b)) as [Hout|Hin].
  - split; [done|]. intros (b' & Hb' & Hc). rewrite Hp in Hb'. injection Hb' as <-.
    apply lookup_lt_Some in Hc. lia.
  - split.
    + intros Hc. exists b. split; [done|]. destruct (c !! Z.to_nat (nHeight b)) as [[x|]|]; congruence.
    + intros (b' & Hb' & Hc). rewrite Hp in Hb'. injection Hb' as <-. by rewrite Hc.
Qed.

(** The closest ancestor of [p] on the chain, if there is one. *)
Definition fork_point c p (r : option Z) : Prop :=
  match r with
  | Some f => ∃ n, ancestor m p n = Some f ∧ on_chain m c f ∧
      ∀ k g, (k < n)%nat → ancestor m p k = Some g → ¬ on_chain m c g
  | None => ∀ k g, ancestor m p k = Some g → ¬ on_chain m c g
  end.

Lemma fork_point_prev c p b q r :
  m !! p = Some b → pprev b = Some q → ¬ on_chain m c p → fork_point c q r → fork_point c p r.
Proof.
  intros Hp Hq Hno Hr.
  assert (∀ n, ancestor m p (S n) = ancestor m q n) as Hs.
  { intros n. cbn. rewrite Hp. cbn. by rewrite Hq. }
  destruct r as [f|]; cbn [fork_point] in *.
  - destruct Hr as (n & Ha & Hon & Hmin). exists (S n). rewrite Hs. do 2 (split; [done|]).
    intros [|k] g Hk Hg; [by injection Hg as <-|]. rewrite Hs in Hg. apply (Hmin k g); [lia|done].
  - intros [|k] g Hg; [by injection Hg as <-|]. rewrite Hs in Hg. by apply (Hr k g).
Qed.

Lemma FindFork_loop_spec fuel c p b :
  m !! p = Some b → (Z.to_nat (nHeight b) < fuel)%nat →
  ∃ r, FindFork_loop m fuel c (Some p) = Ok r ∧ fork_point c p r.
Proof.
  induction fuel as [|fuel IH] in p, b |- *; [lia|]. intros Hp Hf. cbn [FindFork_loop].
  destruct (Contains_spec c p b Hp) as (r & -> & Hr). cbn [mbind outcome_bind]. destruct r.
  - exists (Some p). split; [done|]. exists 0%nat. split; [done|]. split; [by apply Hr|]. lia.
  - assert (¬ on_chain m c p) as Hno by (intros Hc; by apply Hr in Hc).
    unfold deref. rewrite Hp. cbn [mbind outcome_bind].
    pose proof (Hm p b Hp) as [Hnn Hroot Hprev _]. destruct (pprev b) as [q|] eqn:Hpp.
    + destruct (Hprev q eq_refl) as (cq & Hq & Hh). pose proof (wb_height m q cq (Hm q cq Hq)).
      destruct (IH q cq Hq ltac:(lia)) as (r & Hl & Hfp). exists r. split; [done|].
      by apply (fork_point_prev c p b q).
    + exists None. split; [by destruct fuel|]. intros [|k] g Hg; [by injection Hg as <-|].
      cbn in Hg. rewrite Hp in Hg. cbn in Hg. by rewrite Hpp in Hg.
Qed.

(** Blocks above the chain are not on it. *)
Lemma above_chain c p b : m !! p = Some b → Height c < nHeight b → ¬ on_chain m c p.
Proof.
  unfold Height. intros Hp Hh (b' & Hb' & Hc). rewrite Hp in Hb'. injection Hb' as <-.
  apply lookup_lt_Some in Hc. pose proof (wb_height m p b (Hm p b Hp)). lia.
Qed.

Lemma fork_point_down c p b n q r :
  m !! p = Some b → ancestor m p n = Some q →
  (∀ k g, (k < n)%nat → ancestor m p k = Some g → ¬ on_chain m c g) →
  fork_point c q r → fork_point c p r.
Proof.
  intros Hp Ha Hno Hr. destruct r as [f|]; cbn [fork_point] in *.
  - destruct Hr as (k & Hk & Hon & Hmin). exists (n + k)%nat. rewrite (ancestor_add m p n k q Ha).
    do 2 (split; [done|]). intros j g Hj Hg. destruct (decide (j < n)%nat) as [|Hge]; [by eauto|].
    replace j with (n + (j - n))%nat in Hg by lia. rewrite (ancestor_add m p n _ q Ha) in Hg.
    apply (Hmin (j - n)%nat g); [lia|done].
  - intros j g Hg. destruct (decide (j < n)%nat) as [|Hge]; [by eauto|].
    replace j with (n + (j - n))%nat in Hg by lia. rewrite (ancestor_add m p n _ q Ha) in Hg.
    by eauto.
Qed.

Lemma FindFork_spec c p :
  is_Some (m !! p) → ∃ r, FindFork m c p = Ok r ∧ fork_point c p r.
Proof.
  intros [b Hp]. unfold FindFork, deref. rewrite Hp. cbn [mbind outcome_bind].
  pose proof (wb_height m p b (Hm p b Hp)) as Hnn.
  destruct (decide (Height c < nHeight b)) as [Hlt|]; [|apply (FindFork_loop_spec _ c p b); [done|lia]].
  rewrite (GetAncestor_spec m Hm p b _ Hp). unfold Height in *.
  destruct (decide (0 ≤ Z.of_nat (length c) - 1 ≤ nHeight b)) as [Hin|Hout].
  - set (n := Z.to_nat (nHeight b - (Z.of_nat (length c) - 1))).
    destruct (ancestor_some m Hm p b n Hp ltac:(lia)) as (q & cq & Ha & Hq & Hh).
    rewrite Ha. cbn [mbind outcome_bind].
    destruct (FindFork_loop_spec (S (Z.to_nat (nHeight b))) c q cq Hq ltac:(lia)) as (r & Hl & Hr).
    exists r. split; [done|]. apply (fork_point_down c p b n q r Hp Ha); [|done].
    intros k g Hk Hg. destruct (ancestor_lookup m Hm p b k g Hp Hg) as (cg & Hcg & Hhg).
    apply (above_chain c g cg Hcg). unfold Height. lia.
  - exists None. split; [done|]. intros k g Hg.
    destruct (ancestor_lookup m Hm p b k g Hp Hg) as (cg & Hcg & Hhg).
    pose proof (wb_height m g cg (Hm g cg Hcg)). apply (above_chain c g cg Hcg). unfold Height. lia.
Qed.

(** Where two walks from the same height meet. *)
Definition meets x y (r : option Z) : Prop :=
  match r with
  | Some q => ∃ n, ancestor m x n = Some q ∧ ancestor m y n = Some q ∧
      ∀ k g, (k < n)%nat → ancestor m x k = Some g → ancestor m y k ≠ Some g
  | None => ∀ k g, ancestor m x k = Some g → ancestor m y k ≠ Some g
  end.

Lemma common_walk_spec fuel x y bx b2 :
  m !! x = Some bx → m !! y = Some b2 → nHeight bx = nHeight b2 →
  (Z.to_nat (nHeight bx) < fuel)%nat →
  ∃ r, common_walk m fuel (Some x) (Some y) = Ok r ∧ meets x y r.
Proof.
  induction fuel as [|fuel IH] in x, y, bx, b2 |- *; [lia|]. intros Hx Hy Hh Hf.
  cbn [common_walk]. destruct (decide (Some x = Some y)) as [Heq|Hne].
  { injection Heq as <-. exists (Some x). split; [done|]. exists 0%nat. do 2 (split; [done|]). lia. }
  unfold deref. rewrite Hx, Hy. cbn [mbind outcome_bind].
  pose proof (Hm x bx Hx) as [Hnn Hroot Hprev _]. pose proof (Hm y b2 Hy) as [_ Hroot' Hprev' _].
  assert (∀ k, ancestor m x (S k) = q ← pprev bx; ancestor m q k) as Hxs by (intros; cbn; by rewrite Hx).
  assert (∀ k, ancestor m y (S k) = q ← pprev b2; ancestor m q k) as Hys by (intros; cbn; by rewrite Hy).
  destruct (pprev bx) as [x'|] eqn:Hpx, (pprev b2) as [y'|] eqn:Hpy.
  - destruct (Hprev x' eq_refl) as (cx & Hcx & ?), (Hprev' y' eq_refl) as (cy & Hcy & ?).
    pose proof (wb_height m x' cx (Hm x' cx Hcx)).
    destruct (IH x' y' cx cy Hcx Hcy ltac:(lia) ltac:(lia)) as (r & Hw & Hr). exists r. split; [done|].
    assert (∀ k g, ancestor m x k = Some g → ancestor m y k = Some g →
      ∃ k', k = S k' ∧ ancestor m x' k' = Some g ∧ ancestor m y' k' = Some g) as Hk.
    { intros [|k] g Hg Hg'; [cbn in *; congruence|]. rewrite Hxs in Hg. rewrite Hys in Hg'. by exists k. }
    destruct r as [q|]; cbn [meets] in *.
    + destruct Hr as (n & Hn & Hn' & Hmin). exists (S n). rewrite Hxs, Hys. do 2 (split; [done|]).
      intros k g Hlt Hg Hg'. destruct (Hk k g Hg Hg') as (k' & -> & ? & ?). apply (Hmin k' g); [lia|done|done].
    + intros k g Hg Hg'. destruct (Hk k g Hg Hg') as (k' & -> & ? & ?). by apply (Hr k' g).
  - specialize (Hroot' eq_refl). destruct (Hprev x' eq_refl) as (cx & Hcx & ?).
    pose proof (wb_height m x' cx (Hm x' cx Hcx)). lia.
  - specialize (Hroot eq_refl). destruct (Hprev' y' eq_refl) as (cy & Hcy & ?).
    pose proof (wb_height m y' cy (Hm y' cy Hcy)). lia.
  - exists None. split; [by destruct fuel|]. intros [|k] g Hg; [cbn in *; congruence|]. by rewrite Hxs in Hg.
Qed.

Definition common_ancestor pa pb g : Prop :=
  ∃ i j, ancestor m pa i = Some g ∧ ancestor m pb j = Some g.

(** The common ancestor with the greatest height. *)
Definition last_common pa pb (r : option Z) : Prop :=
  match r with
  | Some q => common_ancestor pa pb q ∧
      ∀ g bg bq, common_ancestor pa pb g → m !! g = Some bg → m !! q = Some bq →
        nHeight bg ≤ nHeight bq
  | None => ∀ g, ¬ common_ancestor pa pb g
  end.

(** The starting points of the walk. *)
Lemma lower_start pa a h :
  m !! pa = Some a → 0 ≤ h →
  ∃ x bx, (if decide (h < nHeight a) then GetAncestor m pa h else Ok (Some pa)) = Ok (Some x) ∧
    m !! x = Some bx ∧ nHeight bx = Z.min (nHeight a) h ∧
    ancestor m pa (Z.to_nat (nHeight a - Z.min (nHeight a) h)) = Some x.
Proof.
  intros Ha Hh. destruct (decide (h < nHeight a)) as [Hlt|Hge].
  - rewrite (GetAncestor_spec m Hm pa a h Ha), decide_True by lia.
    destruct (ancestor_some m Hm pa a (Z.to_nat (nHeight a - h)) Ha ltac:(lia)) as (x & bx & Hx & Hbx & Hhx).
    rewrite Hx. exists x, bx. split; [done|]. split; [done|]. split; [lia|].
    by rewrite Z.min_r by lia.
  - exists pa, a. split; [done|]. split; [done|]. split; [lia|]. by rewrite Z.min_l, Z.sub_diag by lia.
Qed.

Lemma LastCommonAncestor_spec pa pb :
  is_Some (m !! pa) → is_Some (m !! pb) →
  ∃ r, LastCommonAncestor m pa pb = Ok r ∧ last_common pa pb r.
Proof.
  intros [a Ha] [b Hb]. pose proof (wb_height m pa a (Hm pa a Ha)). pose proof (wb_height m pb b (Hm pb b Hb)).
  unfold LastCommonAncestor. unfold deref at 1 2. rewrite Ha, Hb. cbn [mbind outcome_bind].
  destruct (lower_start pa a (nHeight b) Ha) as (x & bx & -> & Hx & Hhx & Hax); [done|].
  destruct (lower_start pb b (nHeight a) Hb) as (y & b2 & -> & Hy & Hhy & Hay); [done|].
  cbn [mbind outcome_bind]. rewrite (Z.min_comm (nHeight b)) in Hhy, Hay.
  destruct (common_walk_spec (S (Z.to_nat (Z.min (nHeight a) (nHeight b)))) x y bx b2 Hx Hy)
    as (r & -> & Hr); [lia|lia|]. exists r. split; [done|].
  set (h := Z.min (nHeight a) (nHeight b)) in *.
  assert (∀ i j g, ancestor m pa i = Some g → ancestor m pb j = Some g →
    ∃ k bg, ancestor m x k = Some g ∧ ancestor m y k = Some g ∧ m !! g = Some bg ∧
      nHeight bg = h - Z.of_nat k) as Hk.
  { intros i j g Hi Hj. destruct (ancestor_lookup m Hm pa a i g Ha Hi) as (bg & Hg & Hhg).
    destruct (ancestor_lookup m Hm pb b j g Hb Hj) as (bg' & Hg' & Hhg'). rewrite Hg in Hg'.
    injection Hg' as <-. exists (Z.to_nat (h - nHeight bg)), bg.
    rewrite <- (ancestor_add m pa _ _ x Hax), <- (ancestor_add m pb _ _ y Hay), <- Hi, Hi.
    split; [rewrite <- Hi; f_equal; lia|]. split; [rewrite <- Hj; f_equal; lia|]. split; [done|lia]. }
  destruct r as [q|]; cbn [meets last_common] in *.
  - destruct Hr as (n & Hn & Hn' & Hmin). split.
    + eexists _, _. by rewrite <- (ancestor_add m pa _ _ x Hax) in Hn;
        rewrite <- (ancestor_add m pb _ _ y Hay) in Hn'.
    + intros g bg bq (i & j & Hi & Hj) Hg Hq. destruct (Hk i j g Hi Hj) as (k & bg' & Hgx & Hgy & Hg' & Hhg).
      rewrite Hg in Hg'. injection Hg' as <-.
      destruct (ancestor_lookup m Hm x bx n q Hx Hn) as (bq' & Hq' & Hhq). rewrite Hq in Hq'.
      injection Hq' as <-. destruct (decide (k < n)%nat) as [Hlt|]; [|lia].
      exfalso. by apply (Hmin k g Hlt Hgx).
  - intros g (i & j & Hi & Hj). destruct (Hk i j g Hi Hj) as (k & bg & Hgx & Hgy & _). by apply (Hr k g).
Qed.
End chain.

(** ** What the chain structures guarantee *)

(** C14: the skip list implements the walk over the parents.  On a tree of
    block indexes [GetAncestor] returns the ancestor a walk over [pprev]
    reaches, null outside of the heights up to the block's own, and never
    fails its assertion; taking up a block with the skip pointer of
    [BuildSkip] keeps the tree one on which this holds. *)
Theorem skip_list_finds_ancestors m p b height :
  wf_tree m → m !! p = Some b →
  GetAncestor m p height =
    Ok (if decide (0 ≤ height ≤ nHeight b)
        then ancestor m p (Z.to_nat (nHeight b - height)) else None) ∧
  ∀ q c skip, m !! q = None → pprev c = Some p → pskip c = None → nHeight c = nHeight b + 1 →
    BuildSkip m c = Ok skip → wf_tree (<[q := set_pskip skip c]> m).
Proof.
  intros Hm Hp. split; [by apply GetAncestor_spec|]. intros q c skip Hq Hpp Hno Hh Hskip.
  apply add_block_wf; try done. rewrite Hpp. eauto.
Qed.

(** [SetTip] turns the active chain into the list of the new tip's
    ancestors by height, although it stops at the first block the old chain
    already holds; [FindFork] then returns the closest ancestor of a block
    that is on the chain, or null when there is none. *)
Theorem set_tip_and_find_fork m old tip p :
  wf_tree m → (old = [] ∨ ∃ t, chain_of m t old) → is_Some (m !! tip) → is_Some (m !! p) →
  ∃ c r, SetTip m old (Some tip) = Ok c ∧ chain_of m tip c ∧
    FindFork m c p = Ok r ∧ fork_point m c p r.
Proof.
  intros Hm Hold Ht Hp. destruct (SetTip_spec m Hm old tip Hold Ht) as (c & Hc & Hch).
  destruct (FindFork_spec m Hm c p Hp) as (r & Hr & Hf). by exists c, r.
Qed.

(** [LastCommonAncestor] returns the common ancestor of the greatest
    height, and null when the blocks have none; its assertion holds. *)
Theorem last_common_ancestor_correct m pa pb :
  wf_tree m → is_Some (m !! pa) → is_Some (m !! pb) →
  ∃ r, LastCommonAncestor m pa pb = Ok r ∧ last_common m pa pb r.
Proof. intros. by apply LastCommonAncestor_spec. Qed.

(** ** Witnesses *)

Definition demo_block (prev : option Z) (height : Z) : CBlockIndex :=
  set_position (1000 + height) prev height
    (CBlockIndex_new {| block_nVersion := 1; hashPrevBlock := 0; hashMerkleRoot := 0; hash_witness_merkle_root := 0;
       hash_finalizer_commits_merkle_root := 0; block_nTime := 50 * height; nBits := 0x207fffff |}).

Definition demo_add (m : BlockMap) (p : Z) (b : CBlockIndex) : BlockMap :=
  match BuildSkip m b with Ok skip => <[p := set_pskip skip b]> m | Raise _ => m end.

(** Five blocks in a row, and a fork of two blocks from the second one. *)
Definition demo_tree : BlockMap :=
  foldl (λ m '(p, prev, h), demo_add m p (demo_block prev h)) ∅
    [(10, None, 0); (11, Some 10, 1); (12, Some 11, 2); (13, Some 12, 3); (14, Some 13, 4);
     (22, Some 11, 2); (23, Some 22, 3)].

Lemma demo_add_wf m p prev h :
  wf_tree m → m !! p = None →
  match prev with
  | None => h = 0
  | Some q => ∃ c, m !! q = Some c ∧ h = nHeight c + 1
  end → wf_tree (demo_add m p (demo_block prev h)).
Proof.
  intros Hm Hp Hprev. unfold demo_add.
  destruct (BuildSkip m (demo_block prev h)) as [skip|] eqn:Hs; [|done].
  by apply add_block_wf.
Qed.

Lemma demo_tree_wf : wf_tree demo_tree.
Proof.
  unfold demo_tree. cbn [foldl].
  repeat (apply demo_add_wf; [|by vm_compute|first [done | eexists; split; [by vm_compute|done]]]).
  apply map_Forall_empty.
Qed.

Lemma skip_list_finds_ancestors_witness : GetAncestor demo_tree 14 1 = Ok (Some 11).
Proof.
  destruct (demo_tree !! 14) as [b|] eqn:Hb; [|by vm_compute in Hb].
  destruct (skip_list_finds_ancestors demo_tree 14 b 1 demo_tree_wf Hb) as [-> _].
  assert (nHeight b = 4) as -> by (vm_compute in Hb; by injection Hb as <-).
  by vm_compute.
Defined.

Lemma set_tip_and_find_fork_witness :
  ∃ c r, SetTip demo_tree [Some 10; Some 11; Some 22; Some 23] (Some 14) = Ok c ∧
    chain_of demo_tree 14 c ∧ FindFork demo_tree c 23 = Ok r ∧ r = Some 11.
Proof.
  destruct (set_tip_and_find_fork demo_tree [Some 10; Some 11; Some 22; Some 23] 14 23 demo_tree_wf)
    as (c & r & Hc & Hch & Hr & _).
  - right. exists 23. destruct (demo_tree !! 23) as [b|] eqn:Hb; [|by vm_compute in Hb].
    exists b. split; [done|]. assert (nHeight b = 3) as -> by (vm_compute in Hb; by injection Hb as <-).
    split; [done|]. intros [|[|[|[|i]]]] Hi; try by vm_compute. lia.
  - eexists. by vm_compute.
  - eexists. by vm_compute.
  - exists c, r. do 3 (split; [done|]). vm_compute in Hc. injection Hc as <-.
    vm_compute in Hr. by injection Hr as <-.
Defined.

Lemma last_common_ancestor_correct_witness :
  LastCommonAncestor demo_tree 14 23 = Ok (Some 11) ∧ last_common demo_tree 14 23 (Some 11).
Proof.
  destruct (last_common_ancestor_correct demo_tree 14 23 demo_tree_wf) as (r & Hr & Hl);
    [eexists; by vm_compute|eexists; by vm_compute|].
  assert (r = Some 11) as -> by (vm_compute in Hr; by injection Hr as <-). by split.
Defined.
