(* ===== verification/Repository.v ===== *)
(** * The finalization states of the blocks:
    src/src/finalization/state_repository.cpp, state_processor.cpp, state_db.cpp

    The repository holds a finalization state per block index; the processor
    computes the state of a block from its parent's, from the full block or
    first from its commits alone; the database keeps the states over
    restarts.  A method that hands out a pointer to a state returns the state
    here, and the caller writes its changes back.  The snapshots the processor
    triggers, and logging, are left out.  [ReadBlock] stands for the block
    files on disk. *)
From S2P Require Import Prelude Serialize Ufp64 Admin Params FinalizationData FinalizationOps.
From S2P Require Import Scenario Script Transaction Checks Commits Chain.

Abbreviation StateMap := (gmap Z FinalizationState).

(** [m_db] of the database maps block hashes to states. *)
Record RepositoryImpl := {
  m_states : StateMap;
  m_genesis_state : FinalizationState;
  state_db : gmap Z FinalizationState;
}.

Definition set_m_states (x : StateMap) (r : RepositoryImpl) : RepositoryImpl :=
  {| m_states := x; m_genesis_state := m_genesis_state r; state_db := state_db r |}.

(** The constructor, over the database of an earlier run. *)
Definition RepositoryImpl_new `{!Crypto} (p : Params) (db : gmap Z FinalizationState) :
  outcome RepositoryImpl :=
  s ← FinalizationState_new p;
  Ok {| m_states := ∅; m_genesis_state := {| state_data := s; m_status := NEW |}; state_db := db |}.

Section repository.
Context `{!Crypto, !Hashing} (garbage : bytes) (p : Params).
(** The block indexes, the map from hashes to them, and the active chain. *)
Context (heap : BlockMap) (index_map : gmap Z Z) (active_chain : list (option Z)).
Implicit Types r : RepositoryImpl.

(** ** The database *)

(** [StateDBImpl::Save]. *)
Fixpoint save_loop (states : list (Z * FinalizationState)) (db : gmap Z FinalizationState) :
  outcome (gmap Z FinalizationState) :=
  match states with
  | [] => Ok db
  | (index, state) :: states =>
      b ← deref heap index; save_loop states (<[phashBlock b := state]> db)
  end.

(** [StateDBImpl::Load]: whether every entry has a block index; the entries
    read before a missing one stay in the map. *)
Fixpoint load_loop (entries : list (Z * FinalizationState)) (states : StateMap) :
  outcome (bool * StateMap) :=
  match entries with
  | [] => Ok (true, states)
  | (key, state) :: entries =>
      match index_map !! key with
      | None => Ok (false, states)
      | Some index =>
          _ ← cpp_assert (bool_decide (states !! index = None));
          load_loop entries (<[index := state]> states)
      end
  end.

Definition StateDB_Load (db : gmap Z FinalizationState) : outcome (bool * StateMap) :=
  load_loop (map_entries db) ∅.

(** Loading a single state. *)
Definition StateDB_Load_one (index : Z) (db : gmap Z FinalizationState) (states : StateMap) :
  outcome (bool * StateMap) :=
  b ← deref heap index;
  Ok (match db !! phashBlock b with
      | Some state => (true, emplace index state states)
      | None => (false, states)
      end).

Definition StateDB_Erase (index : Z) (db : gmap Z FinalizationState) :
  outcome (gmap Z FinalizationState) :=
  b ← deref heap index; Ok (delete (phashBlock b) db).

(** The state nearest to the tip; the walk over the parents ends below the
    height of the tip. *)
Fixpoint FindLastFinalizedEpoch_loop (fuel : nat) (walk : option Z) (db : gmap Z FinalizationState) :
  outcome (option Z) :=
  match fuel, walk with
  | S fuel, Some index =>
      b ← deref heap index;
      match db !! phashBlock b with
      | Some state => Ok (Some (m_last_finalized_epoch (state_data state)))
      | None => FindLastFinalizedEpoch_loop fuel (pprev b) db
      end
  | _, _ => Ok None
  end.

Definition FindLastFinalizedEpoch (db : gmap Z FinalizationState) : outcome (option Z) :=
  FindLastFinalizedEpoch_loop (S (Z.to_nat (Height active_chain))) (Tip active_chain) db.

Fixpoint load_higher_loop (height : Z) (indexes : list (Z * Z)) (db : gmap Z FinalizationState)
    (states : StateMap) : outcome StateMap :=
  match indexes with
  | [] => Ok states
  | (block_hash, index) :: indexes =>
      origin ← FindFork heap active_chain index;
      higher ← match origin with
               | Some origin => b ← deref heap origin; Ok (bool_decide (height < uint32 (nHeight b)))
               | None => Ok false
               end;
      let states :=
        match db !! block_hash with
        | Some state => if (higher : bool) then emplace index state states else states
        | None => states
        end in
      load_higher_loop height indexes db states
  end.

Definition LoadStatesHigherThan (height : Z) (db : gmap Z FinalizationState) : outcome StateMap :=
  load_higher_loop height (map_entries index_map) db ∅.

(** ** The repository *)

Definition Find (index : Z) r : outcome (option FinalizationState) :=
  b ← deref heap index;
  Ok (if decide (nHeight b = 0) then Some (m_genesis_state r) else m_states r !! index).

(** Writing through the pointer [Find] returns. *)
Definition update_state (index : Z) (st : FinalizationState) r : outcome RepositoryImpl :=
  b ← deref heap index;
  Ok (if decide (nHeight b = 0)
      then {| m_states := m_states r; m_genesis_state := st; state_db := state_db r |}
      else set_m_states (<[index := st]> (m_states r)) r).

Definition GetTipState r : outcome (option FinalizationState) :=
  match Tip active_chain with None => Ok None | Some tip => Find tip r end.

(** The parent is the genesis state exactly when its height is zero. *)
Definition Create (index : Z) (required_parent_status : InitStatus) r :
  outcome (option FinalizationState * RepositoryImpl) :=
  b ← deref heap index;
  match pprev b with
  | None => Ok (None, r)
  | Some prev =>
      parent_state ← Find prev r;
      parent ← deref heap prev;
      match parent_state with
      | None => Ok (None, r)
      | Some parent_state =>
          if bool_decide (nHeight parent ≠ 0) &&
             bool_decide (InitStatus_value (m_status parent_state) <
                          InitStatus_value required_parent_status)
          then Ok (None, r)
          else
            let states := emplace index (FinalizationState_copy parent_state NEW) (m_states r) in
            Ok (states !! index, set_m_states states r)
      end
  end.

Definition FindOrCreate (index : Z) (required_parent_status : InitStatus) r :
  outcome (option FinalizationState * RepositoryImpl) :=
  found ← Find index r;
  match found with
  | Some state => Ok (Some state, r)
  | None => Create index required_parent_status r
  end.

(** Whether the loop of [TrimUntilHeight] erases the state of [index]. *)
Definition trimmed (height index : Z) : outcome bool :=
  contains ← Contains heap active_chain index;
  origin ← (if (contains : bool) then Ok (Some index) else FindFork heap active_chain index);
  match origin with
  | None => Raise AssertionFailure
  | Some origin => b ← deref heap origin; Ok (bool_decide (uint32 (nHeight b) < height))
  end.

Fixpoint trim_loop (height : Z) (indexes : list Z) r : outcome RepositoryImpl :=
  match indexes with
  | [] => Ok r
  | index :: indexes =>
      erase ← trimmed height index;
      if (erase : bool) then
        db ← StateDB_Erase index (state_db r);
        trim_loop height indexes
          {| m_states := delete index (m_states r); m_genesis_state := m_genesis_state r;
             state_db := db |}
      else trim_loop height indexes r
  end.

Definition TrimUntilHeight (height : Z) r : outcome RepositoryImpl :=
  trim_loop height (map_entries (m_states r)).*1 r.

(** Whether the new state is the one known from the commits. *)
Definition Confirm (index : Z) (new_state : FinalizationState) r : outcome (bool * RepositoryImpl) :=
  _ ← cpp_assert (bool_decide (m_status new_state = COMPLETED));
  old_state ← map_find_assert (m_states r) index;
  _ ← cpp_assert (bool_decide (m_status old_state = FROM_COMMITS));
  let result := FinalizationState_eqb old_state new_state in
  Ok (result, set_m_states (<[index := new_state]> (m_states r)) r).

(** ** The processor *)

Definition ProcessNewTipWorker (index : Z) (vtx : list CTransaction) r :
  outcome (bool * RepositoryImpl) :=
  b ← deref heap index;
  '(state, r) ← FindOrCreate index FROM_COMMITS r;
  match state with
  | None => Ok (false, r)
  | Some state =>
      match m_status state with
      | NEW =>
          state ← ProcessNewTip garbage p state (phashBlock b) (nHeight b) vtx;
          r ← update_state index state r;
          Ok (true, r)
      | FROM_COMMITS =>
          match pprev b with
          | None => Raise AssertionFailure
          | Some prev =>
              found ← Find prev r;
              ancestor_state ← assert_some found;
              new_state ← ProcessNewTip garbage p (FinalizationState_copy ancestor_state NEW)
                            (phashBlock b) (nHeight b) vtx;
              '(_, r) ← Confirm index new_state r;
              Ok (true, r)
          end
      | COMPLETED => Ok (true, r)
      end
  end.

Definition FinalizationHappened (index : Z) r : outcome bool :=
  b ← deref heap index;
  match pprev b with
  | None => Ok false
  | Some prev =>
      prev_state ← Find prev r;
      new_state ← Find index r;
      match prev_state, new_state with
      | Some prev_state, Some new_state =>
          let prev_fin_epoch := m_last_finalized_epoch (state_data prev_state) in
          let new_fin_epoch := m_last_finalized_epoch (state_data new_state) in
          if decide (prev_fin_epoch = new_fin_epoch) then Ok false
          else _ ← cpp_assert (bool_decide (prev_fin_epoch < new_fin_epoch)); Ok true
      | _, _ => Ok false
      end
  end.

Definition Processor_ProcessNewTip (index : Z) (vtx : list CTransaction) r :
  outcome (bool * RepositoryImpl) :=
  '(ok, r) ← ProcessNewTipWorker index vtx r;
  if negb ok then Ok (false, r)
  else
    happened ← FinalizationHappened index r;
    if (happened : bool) then
      found ← Find index r;
      state ← assert_some found;
      let checkpoint_height :=
        GetEpochCheckpointHeight p (m_last_finalized_epoch (state_data state)) in
      r ← TrimUntilHeight checkpoint_height r;
      Ok (true, r)
    else Ok (true, r).

Definition ProcessNewTipCandidate := ProcessNewTipWorker.

Definition Processor_ProcessNewCommits (index : Z) (txes : list CTransaction) r :
  outcome (bool * RepositoryImpl) :=
  b ← deref heap index;
  '(state, r) ← FindOrCreate index FROM_COMMITS r;
  match state with
  | None => Ok (false, r)
  | Some state =>
      match m_status state with
      | NEW =>
          state ← ProcessNewCommits garbage p state (phashBlock b) (nHeight b) txes;
          r ← update_state index state r;
          Ok (true, r)
      | FROM_COMMITS | COMPLETED => Ok (true, r)
      end
  end.

(** ** Saving and restoring *)

Definition SaveToDisk r : outcome RepositoryImpl :=
  db ← save_loop (map_entries (m_states r)) (state_db r);
  Ok {| m_states := m_states r; m_genesis_state := m_genesis_state r; state_db := db |}.

Definition LoadStatesFromDB r : outcome (bool * RepositoryImpl) :=
  last_finalized_epoch ← FindLastFinalizedEpoch (state_db r);
  recent ← match last_finalized_epoch with
           | Some epoch =>
               if decide (0 < epoch)
               then LoadStatesHigherThan (GetEpochCheckpointHeight p epoch) (state_db r)
               else Ok ∅
           | None => Ok ∅
           end;
  if decide (recent ≠ ∅) then Ok (true, set_m_states recent r)
  else
    '(loaded, states) ← StateDB_Load (state_db r);
    Ok (loaded, set_m_states states r).

Fixpoint FindBestState_loop (fuel : nat) (walk : option Z) r : outcome (option FinalizationState) :=
  match fuel, walk with
  | S fuel, Some index =>
      found ← Find index r;
      match found with
      | Some state => Ok (Some state)
      | None => b ← deref heap index; FindBestState_loop fuel (pprev b) r
      end
  | _, _ => Ok None
  end.

Definition FindBestState r : outcome (option FinalizationState) :=
  FindBestState_loop (S (Z.to_nat (Height active_chain))) (Tip active_chain) r.

Definition BLOCK_HAVE_DATA : Z := 8.
Context (ReadBlock : Z → option (list CTransaction)).

(** The first inner loop: the ancestors without a state, the oldest first. *)
Fixpoint missed_walk (fuel : nat) (walk : option Z) (missed : list Z) r :
  outcome (list Z * RepositoryImpl) :=
  match fuel, walk with
  | S fuel, Some index =>
      found ← Find index r;
      match found with
      | Some _ => Ok (missed, r)
      | None =>
          '(loaded, states) ← StateDB_Load_one index (state_db r) (m_states r);
          let r := set_m_states states r in
          if (loaded : bool) then
            found ← Find index r; _ ← assert_some found; Ok (missed, r)
          else b ← deref heap index; missed_walk fuel (pprev b) (index :: missed) r
      end
  | _, _ => Ok (missed, r)
  end.

Definition find_missed (index : Z) r : outcome (list Z * RepositoryImpl) :=
  b ← deref heap index;
  missed_walk (S (Z.to_nat (nHeight b))) (Some index) [] r.

(** The second inner loop: the unrecoverable indexes among the missed ones. *)
Fixpoint recover_missed (missed : list Z) (unrecoverable : gset Z) r :
  outcome (gset Z * RepositoryImpl) :=
  match missed with
  | [] => Ok (unrecoverable, r)
  | index :: missed =>
      b ← deref heap index;
      '(done, r) ← match commits b with
                   | Some txes => Processor_ProcessNewCommits index txes r
                   | None => Ok (false, r)
                   end;
      if (done : bool) then recover_missed missed unrecoverable r
      else if decide (Z.land (nStatus b) BLOCK_HAVE_DATA ≠ 0) then
        match ReadBlock index with
        | None => Raise RuntimeError
        | Some vtx =>
            '(_, r) ← ProcessNewTipCandidate index vtx r; recover_missed missed unrecoverable r
        end
      else recover_missed missed ({[index]} ∪ unrecoverable) r
  end.

(** The callback of [ForEach] over the block indexes. *)
Fixpoint recover_loop (height : Z) (indexes : list Z) (unrecoverable : gset Z) r :
  outcome (gset Z * RepositoryImpl) :=
  match indexes with
  | [] => Ok (unrecoverable, r)
  | index :: indexes =>
      if decide (index ∈ unrecoverable) then recover_loop height indexes unrecoverable r
      else
        origin ← FindFork heap active_chain index;
        skip ← match origin with
               | None => Ok true
               | Some origin => b ← deref heap origin; Ok (bool_decide (uint32 (nHeight b) ≤ height))
               end;
        if (skip : bool) then recover_loop height indexes unrecoverable r
        else
          '(missed, r) ← find_missed index r;
          '(unrecoverable, r) ← recover_missed missed unrecoverable r;
          recover_loop height indexes unrecoverable r
  end.

Fixpoint any_contained (indexes : list Z) : outcome bool :=
  match indexes with
  | [] => Ok false
  | index :: indexes =>
      contains ← Contains heap active_chain index;
      if (contains : bool) then Ok true else any_contained indexes
  end.

Definition CheckAndRecover r : outcome RepositoryImpl :=
  best ← FindBestState r;
  match best with
  | None => Ok r
  | Some state =>
      let height := GetEpochCheckpointHeight p (m_last_finalized_epoch (state_data state)) in
      '(unrecoverable, r) ← recover_loop height (map_entries index_map).*2 ∅ r;
      lost ← any_contained (elements unrecoverable);
      if (lost : bool) then Raise RuntimeError else TrimUntilHeight height r
  end.

Definition RestoreFromDisk r : outcome (bool * RepositoryImpl) :=
  '(loaded, r) ← LoadStatesFromDB r;
  if negb loaded then Ok (false, r) else r ← CheckAndRecover r; Ok (true, r).
End repository.

(** ** States of blocks *)

Abbreviation commits_of := (filter (λ tx, IsFinalizerCommit tx = true)).

Section states.
Context `{!Crypto, !Hashing} (garbage : bytes) (p : Params).
(** All block indexes there are, the map from hashes to them, the transactions
    of the blocks and the block files. *)
Context (heap : BlockMap) (index_map : gmap Z Z) (content : Z → list CTransaction).
Context (ReadBlock : Z → option (list CTransaction)).
Implicit Types r : RepositoryImpl.

(** The states blocks have: every block is processed on a copy of its
    parent's state.  The genesis state is found unprocessed, too: it is not
    stored, so after a restart it is the initial one. *)
Inductive block_state : Z → State → Prop :=
  | block_state_initial i b s :
      heap !! i = Some b → nHeight b = 0 → FinalizationState_new p = Ok s → block_state i s
  | block_state_genesis i b s fs :
      heap !! i = Some b → nHeight b = 0 → FinalizationState_new p = Ok s →
      ProcessNewTip garbage p {| state_data := s; m_status := NEW |}
        (phashBlock b) (nHeight b) (content i) = Ok fs →
      block_state i (state_data fs)
  | block_state_next i b j s fs :
      heap !! i = Some b → pprev b = Some j → block_state j s →
      ProcessNewTip garbage p {| state_data := s; m_status := NEW |}
        (phashBlock b) (nHeight b) (content i) = Ok fs →
      block_state i (state_data fs).

Record blocks_ok : Prop := {
  bo_tree : wf_tree heap;
  bo_genesis : map_Forall (λ i bi, map_Forall (λ j bj,
    nHeight bi = 0 → nHeight bj = 0 → i = j) heap) heap;
  bo_hash : map_Forall (λ h i, phashBlock <$> heap !! i = Some h) index_map;
  bo_lookup : map_Forall (λ i b, index_map !! phashBlock b = Some i) heap;
  bo_commits : ∀ i b txes, heap !! i = Some b → commits b = Some txes → txes = commits_of (content i);
  bo_disk : ∀ i vtx, ReadBlock i = Some vtx → vtx = content i;
}.

(** A stored state is processed, and is a state of its block. *)
Definition state_ok (i : Z) (st : FinalizationState) : Prop :=
  m_status st ≠ NEW ∧ block_state i (state_data st).

Definition genesis_ok (st : FinalizationState) : Prop :=
  (m_status st = NEW → FinalizationState_new p = Ok (state_data st)) ∧
  ∀ i b, heap !! i = Some b → nHeight b = 0 → block_state i (state_data st).

Record repo_ok r : Prop := {
  ro_states : map_Forall state_ok (m_states r);
  ro_genesis : genesis_ok (m_genesis_state r);
  ro_db : ∀ h st, state_db r !! h = Some st →
    ∃ i b, heap !! i = Some b ∧ phashBlock b = h ∧ state_ok i st;
}.

(** What the node does with its repository.  The active chain is any. *)
Inductive repo_step r : RepositoryImpl → Prop :=
  | repo_step_commits i ok r' :
      Processor_ProcessNewCommits garbage p heap i (commits_of (content i)) r = Ok (ok, r') →
      repo_step r r'
  | repo_step_candidate i ok r' :
      ProcessNewTipCandidate garbage p heap i (content i) r = Ok (ok, r') → repo_step r r'
  | repo_step_tip chain i ok r' :
      Processor_ProcessNewTip garbage p heap chain i (content i) r = Ok (ok, r') → repo_step r r'
  | repo_step_save r' : SaveToDisk heap r = Ok r' → repo_step r r'
  | repo_step_restart chain fresh ok r' :
      RepositoryImpl_new p (state_db r) = Ok fresh →
      RestoreFromDisk garbage p heap index_map chain ReadBlock fresh = Ok (ok, r') →
      repo_step r r'.

Inductive repo_reachable : RepositoryImpl → Prop :=
  | repo_init r : RepositoryImpl_new p ∅ = Ok r → repo_reachable r
  | repo_next r r' : repo_reachable r → repo_step r r' → repo_reachable r'.

(** ** Commits determine the state *)

Lemma process_commits_filter s txes :
  process_commits garbage p s (commits_of txes) = process_commits garbage p s txes.
Proof.
  induction txes as [|tx txes IH] in s |- *; [done|]. rewrite filter_cons.
  destruct (decide (IsFinalizerCommit tx = true)) as [Hc|Hc]; cbn.
  - destruct (ProcessNewCommit garbage p s tx); cbn; [apply IH|done].
  - rewrite IH. unfold ProcessNewCommit, IsFinalizerCommit in *. by destruct (GetType tx).
Qed.

Lemma ProcessNewCommits_filter fs block_hash height vtx fs1 :
  ProcessNewCommits garbage p fs block_hash height (commits_of vtx) = Ok fs1 ↔
  ∃ fs2, ProcessNewTip garbage p fs block_hash height vtx = Ok fs2 ∧
    fs1 = FinalizationState_copy fs2 FROM_COMMITS.
Proof.
  unfold ProcessNewTip, ProcessNewCommits.
  destruct (bool_decide (m_status fs = NEW)); cbn; [|naive_solver].
  destruct (begin_block p (state_data fs) height) as [s|]; cbn; [|naive_solver].
  rewrite process_commits_filter.
  destruct (process_commits garbage p s vtx); cbn; [|naive_solver].
  split; [intros [= <-]; eauto|intros (? & [= <-] & ->); done].
Qed.

Lemma ProcessNewTip_status fs block_hash height vtx fs' :
  ProcessNewTip garbage p fs block_hash height vtx = Ok fs' → m_status fs' = COMPLETED.
Proof. unfold ProcessNewTip. intros Hp. ok_inv Hp. by subst. Qed.

(** ** The operations keep the invariant *)

Context (Hb : blocks_ok).

Lemma bo_index h i : index_map !! h = Some i ↔ ∃ b, heap !! i = Some b ∧ phashBlock b = h.
Proof.
  split; [|intros (b & Hi & <-); by apply (bo_lookup Hb)].
  intros Hi. apply (bo_hash Hb), fmap_Some in Hi as (b & Hi & ->). by eauto.
Qed.

Lemma deref_Ok i b : deref heap i = Ok b ↔ heap !! i = Some b.
Proof. unfold deref. destruct (heap !! i); naive_solver. Qed.

Lemma Find_ok r i st :
  repo_ok r → Find heap i r = Ok (Some st) →
  ∃ b, heap !! i = Some b ∧ block_state i (state_data st) ∧
    (m_status st = NEW → nHeight b = 0 ∧ FinalizationState_new p = Ok (state_data st)).
Proof.
  intros [Hs [Hg1 Hg2] _] Hf. unfold Find in Hf. ok_inv Hf. apply deref_Ok in Hr. exists r0.
  split; [done|]. destruct (decide (nHeight r0 = 0)) as [Hh|Hh].
  - injection Hf as <-. naive_solver.
  - apply Hs in Hf as [Hn Hst]. by split.
Qed.

(** A state found or created: in the second case it is the parent's. *)
Lemma FindOrCreate_ok r i st r' :
  repo_ok r → FindOrCreate heap i FROM_COMMITS r = Ok (Some st, r') →
  r' = r ∧ Find heap i r = Ok (Some st) ∨
  ∃ b j s, heap !! i = Some b ∧ nHeight b ≠ 0 ∧ pprev b = Some j ∧ block_state j s ∧
    st = {| state_data := s; m_status := NEW |} ∧
    r' = set_m_states (<[i := st]> (m_states r)) r.
Proof.
  intros Hok Hf. unfold FindOrCreate in Hf. ok_inv Hf. destruct r0 as [st'|].
  { injection Hf as -> ->. by left. }
  right. unfold Create in Hf. ok_inv Hf. apply deref_Ok in Hr0.
  unfold Find in Hr. ok_inv Hr. apply deref_Ok in Hr1. simplify_eq.
  destruct (decide (nHeight r0 = 0)) as [|Hh]; [done|].
  destruct (pprev r0) as [j|] eqn:Hj; [|done]. ok_inv Hf. destruct r1 as [ps|]; [|done].
  destruct (bool_decide (nHeight r2 ≠ 0) && _); [done|].
  rewrite emplace_fresh, lookup_insert_eq in Hf by done. injection Hf as <- <-.
  eapply Find_ok in Hr1 as (c & _ & Hbs & _); [|done].
  exists r0, j, (state_data ps). by eauto 10.
Qed.

Lemma update_state_ok r i b st r' :
  heap !! i = Some b → map_Forall (λ j st, j = i ∧ nHeight b ≠ 0 ∨ state_ok j st) (m_states r) →
  genesis_ok (m_genesis_state r) →
  (∀ h st, state_db r !! h = Some st → ∃ i b, heap !! i = Some b ∧ phashBlock b = h ∧ state_ok i st) →
  state_ok i st → update_state heap i st r = Ok r' → repo_ok r' ∧ Find heap i r' = Ok (Some st).
Proof.
  intros Hi Hs Hg Hdb [Hn Hst] Hu. unfold update_state in Hu. ok_inv Hu. apply deref_Ok in Hr.
  simplify_eq. unfold Find. rewrite (proj2 (deref_Ok i b) Hi). cbn.
  destruct (decide (nHeight b = 0)) as [Hh|Hh]; split; cbn; try by rewrite ?lookup_insert_eq.
  - split; cbn; [|split; [done|]|done].
    + intros j st' Hj. by destruct (Hs j st' Hj) as [[]|].
    + intros j bj Hj Hj0. by rewrite (bo_genesis Hb j bj Hj i b).
  - split; cbn; [|done|done]. intros j st' [[<- <-]|[Hne Hj]]%lookup_insert_Some; [by split|].
    destruct (Hs j st' Hj) as [[]|]; done.
Qed.

(** Loading from the database. *)
Lemma db_state_ok r i b st :
  repo_ok r → heap !! i = Some b → state_db r !! phashBlock b = Some st → state_ok i st.
Proof.
  intros Hok Hi Hst. apply (ro_db r Hok) in Hst as (j & c & Hj & Hh & Hst).
  assert (index_map !! phashBlock b = Some i) as Hx by (apply bo_index; eauto).
  assert (index_map !! phashBlock b = Some j) as Hy by (apply bo_index; eauto). by simplify_eq.
Qed.

Lemma set_m_states_ok r states :
  repo_ok r → map_Forall state_ok states → repo_ok (set_m_states states r).
Proof. by intros [] Hs; split. Qed.

Lemma created_ok r r' i b s :
  repo_ok r → heap !! i = Some b → nHeight b ≠ 0 →
  r' = set_m_states (<[i := {| state_data := s; m_status := NEW |}]> (m_states r)) r →
  map_Forall (λ j st, j = i ∧ nHeight b ≠ 0 ∨ state_ok j st) (m_states r').
Proof.
  intros Hok Hi Hh -> j' st Hj. cbn in Hj.
  apply lookup_insert_Some in Hj as [[<- <-]|[Hne Hj]]; [by left|right].
  by apply (ro_states r Hok).
Qed.

(** Processing a state found or created as new. *)
Lemma process_new_ok r r' r'' i b st fs' :
  repo_ok r → heap !! i = Some b →
  FindOrCreate heap i FROM_COMMITS r = Ok (Some st, r') → m_status st = NEW →
  m_status fs' ≠ NEW →
  (∃ fs, ProcessNewTip garbage p st (phashBlock b) (nHeight b) (content i) = Ok fs ∧
         state_data fs' = state_data fs) →
  update_state heap i fs' r' = Ok r'' → repo_ok r'' ∧ Find heap i r'' = Ok (Some fs').
Proof.
  intros Hok Hi Hf Hn Hn' (fs & Hp & Hfs) Hu. destruct st as [s stat]. cbn in Hn. subst stat.
  destruct (FindOrCreate_ok r i _ r' Hok Hf)
    as [[-> Hf']|(c & j & s' & Hc & Hh & Hj & Hs' & [= ->] & ->)].
  - eapply Find_ok in Hf' as (c & Hc & _ & Hg); [|done]. simplify_eq. destruct (Hg eq_refl) as [Hh Hg'].
    refine (update_state_ok _ i _ fs' r'' Hi _ _ _ _ Hu); [|apply Hok|apply Hok|split; [done|]].
    + intros j st Hj. right. by apply (ro_states r Hok).
    + rewrite Hfs. by eapply block_state_genesis.
  - simplify_eq. refine (update_state_ok _ i _ fs' r'' Hi _ _ _ _ Hu); [|apply Hok|apply Hok|split; [done|]].
    + by eapply created_ok.
    + rewrite Hfs. by eapply block_state_next.
Qed.

Lemma FindOrCreate_None r i r' :
  FindOrCreate heap i FROM_COMMITS r = Ok (None, r') → r' = r.
Proof.
  unfold FindOrCreate. intros Hf. ok_inv Hf. destruct r0; [done|]. unfold Create in Hf. ok_inv Hf.
  destruct (pprev r0); [|by injection Hf]. ok_inv Hf. destruct r1; [|by injection Hf].
  destruct (_ && _); [by injection Hf|]. by rewrite lookup_emplace in Hf.
Qed.
Lemma child_height i b j : heap !! i = Some b → pprev b = Some j → nHeight b ≠ 0.
Proof.
  intros Hi Hj. destruct (wb_prev heap i b (bo_tree Hb i b Hi) j Hj) as (c & Hc & Hh).
  pose proof (wb_height heap j c (bo_tree Hb j c Hc)). lia.
Qed.

(** Confirming replaces the state. *)
Lemma Confirm_ok r i b j fs ok r' :
  repo_ok r → heap !! i = Some b → pprev b = Some j → state_ok i fs →
  Confirm i fs r = Ok (ok, r') → repo_ok r' ∧ Find heap i r' = Ok (Some fs).
Proof.
  intros Hok Hi Hj Hfs Hc. unfold Confirm in Hc. ok_inv Hc. subst. split.
  - apply set_m_states_ok; [done|]. apply map_Forall_insert_2; [done|apply Hok].
  - unfold Find. rewrite (proj2 (deref_Ok i b) Hi). cbn.
    rewrite decide_False by (by eapply child_height). by rewrite lookup_insert_eq.
Qed.

Lemma worker_ok r i ok r' :
  repo_ok r → ProcessNewTipWorker garbage p heap i (content i) r = Ok (ok, r') →
  repo_ok r' ∧
  (ok = true → ∃ st, Find heap i r' = Ok (Some st) ∧ m_status st = COMPLETED ∧
                     block_state i (state_data st)).
Proof.
  intros Hok Hw. unfold ProcessNewTipWorker in Hw. ok_inv Hw. apply deref_Ok in Hr. subst r1.
  destruct o as [st|]; [|injection Hw as <- <-; apply FindOrCreate_None in Hr0 as ->; by split].
  assert (m_status st ≠ NEW → r2 = r ∧ Find heap i r = Ok (Some st)) as Hold.
  { intros Hn. by destruct (FindOrCreate_ok r i _ r2 Hok Hr0) as [|(?&?&?&_&_&_&_&->&_)]. }
  destruct (m_status st) eqn:Hst.
  - ok_inv Hw. subst. pose proof (ProcessNewTip_status _ _ _ _ _ Hr1) as Hc.
    destruct (process_new_ok r r2 r' i r0 st r1) as [Hok' Hf]; [done..|by rewrite Hc|eauto|done|].
    split; [done|]. intros _. eapply Find_ok in Hok' as Hbs; [|done]. naive_solver.
  - destruct Hold as [-> Hf]; [done|]. destruct (pprev r0) as [j|] eqn:Hj; [|done]. ok_inv Hw. subst.
    destruct r1 as [ps|]; [|done]. injection Hr2 as <-.
    eapply Find_ok in Hr1 as (c & _ & Hps & _); [|done].
    pose proof (ProcessNewTip_status _ _ _ _ _ Hr3) as Hc.
    assert (state_ok i r3) as Hbs by (split; [by rewrite Hc|by eapply block_state_next]).
    eapply Confirm_ok in Hr4 as [Hok' Hf']; [|done..]. split; [done|]. intros _. exists r3.
    by split; [|split; [|apply Hbs]].
  - destruct Hold as [-> Hf]; [done|]. injection Hw as <- <-. split; [done|]. intros _.
    eapply Find_ok in Hok as Hbs; [|done]. naive_solver.
Qed.

Lemma new_commits_ok r i ok r' :
  repo_ok r → Processor_ProcessNewCommits garbage p heap i (commits_of (content i)) r = Ok (ok, r') →
  repo_ok r'.
Proof.
  intros Hok Hw. unfold Processor_ProcessNewCommits in Hw. ok_inv Hw. apply deref_Ok in Hr. subst r1.
  destruct o as [st|]; [|injection Hw as <- <-; by apply FindOrCreate_None in Hr0 as ->].
  assert (m_status st ≠ NEW → r2 = r) as Hold.
  { intros Hn. by destruct (FindOrCreate_ok r i _ r2 Hok Hr0) as [[]|(?&?&?&_&_&_&_&->&_)]. }
  destruct (m_status st) eqn:Hst; [|injection Hw as <- <-; by rewrite Hold..].
  ok_inv Hw. subst. apply ProcessNewCommits_filter in Hr1 as (fs & Hp & ->).
  eapply process_new_ok in Hr2 as [Hok' _]; eauto; done.
Qed.

(** Trimming only removes states. *)
Lemma trim_loop_ok chain height indexes r r' :
  repo_ok r → trim_loop heap chain height indexes r = Ok r' → repo_ok r'.
Proof.
  induction indexes as [|i indexes IH] in r |- *; cbn; intros Hok Ht; [by injection Ht as <-|].
  ok_inv Ht. destruct r0; [|by eapply IH]. ok_inv Ht. unfold StateDB_Erase in Hr0. ok_inv Hr0.
  eapply IH, Ht. subst. destruct Hok as [Hs Hg Hdb]. split; cbn; [by apply map_Forall_delete|done|].
  intros h st [_ Hst]%lookup_delete_Some. by apply Hdb.
Qed.

Lemma process_tip_ok chain r i ok r' :
  repo_ok r → Processor_ProcessNewTip garbage p heap chain i (content i) r = Ok (ok, r') → repo_ok r'.
Proof.
  intros Hok Ht. unfold Processor_ProcessNewTip in Ht. ok_inv Ht. subst.
  apply worker_ok in Hr as [Hok' _]; [|done]. destruct b; cbn in Ht; [|by injection Ht as <- <-].
  ok_inv Ht. destruct r0; [|by injection Ht as <- <-]. ok_inv Ht. subst.
  by eapply trim_loop_ok.
Qed.

Lemma save_ok r r' : repo_ok r → SaveToDisk heap r = Ok r' → repo_ok r'.
Proof.
  intros Hok Hs. unfold SaveToDisk in Hs. ok_inv Hs. subst r'. destruct Hok as [Hst Hg Hdb].
  split; cbn; [done|done|]. clear Hg.
  assert (∀ x, x ∈ map_entries (m_states r) → state_ok x.1 x.2) as Hl.
  { intros [i st] Hx. apply elem_of_map_entries in Hx. by apply Hst. }
  revert Hr Hdb. generalize (state_db r). clear Hst.
  induction (map_entries (m_states r)) as [|[i st] l IH]; cbn; intros db Hr Hdb.
  { by injection Hr as <-. }
  ok_inv Hr. apply deref_Ok in Hr0. eapply IH; [|done|].
  { intros x Hx. apply Hl. by right. }
  intros h st' [[<- <-]|[Hne Hh]]%lookup_insert_Some; [|by apply Hdb].
  exists i, r1. split; [done|]. split; [done|]. apply (Hl (i, st)). by left.
Qed.
(** ** Restoring keeps the invariant *)

Lemma emplace_state_ok states i st :
  map_Forall state_ok states → state_ok i st → map_Forall state_ok (emplace i st states).
Proof.
  intros Hs Hst. unfold emplace. destruct (states !! i); [done|]. by apply map_Forall_insert_2.
Qed.

Lemma load_loop_ok r entries states ok states' :
  repo_ok r → (∀ h st, (h, st) ∈ entries → state_db r !! h = Some st) →
  map_Forall state_ok states → load_loop index_map entries states = Ok (ok, states') →
  map_Forall state_ok states'.
Proof.
  intros Hok. induction entries as [|[h st] entries IH] in states |- *; cbn; intros Hin Hs Hl.
  { by injection Hl as _ <-. }
  destruct (index_map !! h) as [i|] eqn:Hi; [|by injection Hl as _ <-]. ok_inv Hl.
  eapply IH; [| |exact Hl].
  - intros. apply Hin. by right.
  - apply map_Forall_insert_2; [|done]. apply bo_index in Hi as (b & Hi & <-). eapply db_state_ok; [done..|]. apply Hin. by left.
Qed.

Lemma load_higher_loop_ok r chain height indexes states states' :
  repo_ok r → (∀ h i, (h, i) ∈ indexes → index_map !! h = Some i) →
  map_Forall state_ok states →
  load_higher_loop heap chain height indexes (state_db r) states = Ok states' →
  map_Forall state_ok states'.
Proof.
  intros Hok. induction indexes as [|[h i] indexes IH] in states |- *; cbn; intros Hin Hs Hl.
  { by injection Hl as <-. }
  ok_inv Hl. eapply IH; [| |exact Hl]; [intros; apply Hin; by right|]. subst.
  destruct (state_db r !! h) as [st|] eqn:Hst; [|done]. destruct r1; [|done].
  apply emplace_state_ok; [done|].
  assert (index_map !! h = Some i) as Hi by (apply Hin; by left).
  apply bo_index in Hi as (b & Hi & <-). by eapply db_state_ok.
Qed.

Lemma load_states_ok r chain ok r' :
  repo_ok r → LoadStatesFromDB p heap index_map chain r = Ok (ok, r') → repo_ok r'.
Proof.
  intros Hok Hl. unfold LoadStatesFromDB in Hl. ok_inv Hl.
  assert (map_Forall state_ok r1) as Hs.
  { destruct r0 as [epoch|]; [destruct (decide (0 < epoch))|];
      [|injection Hr0 as <-; apply map_Forall_empty..].
    eapply load_higher_loop_ok; [exact Hok| |apply map_Forall_empty|exact Hr0].
    intros h i. by rewrite elem_of_map_entries. }
  destruct (decide (r1 ≠ ∅)); [injection Hl as <- <-; by apply set_m_states_ok|].
  ok_inv Hl. subst. apply set_m_states_ok; [done|].
  eapply load_loop_ok; [exact Hok| |apply map_Forall_empty|done].
  intros h st. by rewrite elem_of_map_entries.
Qed.

Lemma missed_walk_ok fuel walk missed r missed' r' :
  repo_ok r → missed_walk heap fuel walk missed r = Ok (missed', r') → repo_ok r'.
Proof.
  intros Hok. induction fuel as [|fuel IH] in walk, missed |- *; cbn; intros Hm.
  { by injection Hm as _ <-. }
  destruct walk as [i|]; [|by injection Hm as _ <-]. ok_inv Hm.
  destruct r0; [by injection Hm as _ <-|]. ok_inv Hm. subst. unfold StateDB_Load_one in Hr0.
  ok_inv Hr0. apply deref_Ok in Hr1. destruct (state_db r !! phashBlock r0) as [st|] eqn:Hst.
  - injection Hr0 as <- <-. ok_inv Hm. subst. apply set_m_states_ok; [done|].
    apply emplace_state_ok; [apply Hok|by eapply db_state_ok].
  - injection Hr0 as <- <-. ok_inv Hm. destruct r as [states genesis db]. by eapply IH.
Qed.

Lemma find_missed_ok i r missed r' :
  repo_ok r → find_missed heap i r = Ok (missed, r') → repo_ok r'.
Proof.
  unfold find_missed. intros Hok (b & _ & Hm)%bind_Ok. by eapply missed_walk_ok.
Qed.

Lemma recover_missed_ok missed bad r bad' r' :
  repo_ok r → recover_missed garbage p heap ReadBlock missed bad r = Ok (bad', r') → repo_ok r'.
Proof.
  induction missed as [|i missed IH] in bad, r |- *; cbn; intros Hok Hm; [by injection Hm as _ <-|].
  ok_inv Hm. subst. apply deref_Ok in Hr.
  assert (repo_ok r2) as Hok2.
  { destruct (commits r0) as [txes|] eqn:Hc; [|by injection Hr0 as _ <-].
    rewrite (bo_commits Hb i r0 txes) in Hr0 by done. by eapply new_commits_ok. }
  destruct b; [by eapply IH|]. destruct (decide _); [|by eapply IH].
  destruct (ReadBlock i) as [vtx|] eqn:Hd; [|done]. ok_inv Hm. subst.
  rewrite (bo_disk Hb i vtx) in Hr1 by done. apply worker_ok in Hr1 as [Hok3 _]; [|done].
  by eapply IH.
Qed.

Lemma recover_loop_ok chain height indexes bad r bad' r' :
  repo_ok r → recover_loop garbage p heap chain ReadBlock height indexes bad r = Ok (bad', r') →
  repo_ok r'.
Proof.
  induction indexes as [|i indexes IH] in bad, r |- *; cbn; intros Hok Hm; [by injection Hm as _ <-|].
  destruct (decide (i ∈ bad)); [by eapply IH|]. ok_inv Hm. destruct r1; [by eapply IH|]. ok_inv Hm.
  subst. eapply IH; [|done]. eapply recover_missed_ok; [|done]. by eapply find_missed_ok.
Qed.

Lemma restore_ok chain r ok r' :
  repo_ok r → RestoreFromDisk garbage p heap index_map chain ReadBlock r = Ok (ok, r') → repo_ok r'.
Proof.
  intros Hok Hr. unfold RestoreFromDisk in Hr. ok_inv Hr. subst.
  apply load_states_ok in Hr0 as Hok1; [|done]. destruct b; cbn in Hr; [|by injection Hr as _ <-].
  ok_inv Hr. subst. unfold CheckAndRecover in Hr1. ok_inv Hr1.
  destruct r2; [|by injection Hr1 as <-]. ok_inv Hr1. subst.
  match type of Hr1 with (if ?lost then _ else _) = _ => destruct lost; [done|] end.
  eapply trim_loop_ok; [|done]. by eapply recover_loop_ok.
Qed.

Lemma RepositoryImpl_new_ok db r :
  RepositoryImpl_new p db = Ok r →
  (∀ h st, db !! h = Some st → ∃ i b, heap !! i = Some b ∧ phashBlock b = h ∧ state_ok i st) →
  repo_ok r.
Proof.
  intros Hn Hdb. unfold RepositoryImpl_new in Hn. ok_inv Hn. subst.
  split; cbn; [apply map_Forall_empty| |done]. split; [done|]. intros. by eapply block_state_initial.
Qed.

Lemma repo_reachable_ok r : repo_reachable r → repo_ok r.
Proof.
  induction 1 as [r Hn|r r' _ IH Hs]; [by eapply RepositoryImpl_new_ok; [done|]|].
  destruct Hs.
  - by eapply new_commits_ok.
  - eapply worker_ok; [done|]. done.
  - by eapply process_tip_ok.
  - by eapply save_ok.
  - eapply restore_ok; [|done]. eapply RepositoryImpl_new_ok; [done|apply IH].
Qed.

(** ** The theorems *)

(** C9: the repository holds states of the chain.  Whatever the node has
    done (processed commits, candidates and tips on any active chain, saved,
    restarted and recovered), the state found for a block is the one that
    processing the blocks from the genesis block gives, and it is unprocessed
    only for the genesis block; a block processed as candidate has a complete
    state afterwards. *)
Theorem repository_stores_chain_states r :
  repo_reachable r →
  (∀ i st, Find heap i r = Ok (Some st) →
     block_state i (state_data st) ∧
     (m_status st = NEW → nHeight <$> heap !! i = Some 0)) ∧
  (∀ i r', ProcessNewTipCandidate garbage p heap i (content i) r = Ok (true, r') →
     ∃ st, Find heap i r' = Ok (Some st) ∧ m_status st = COMPLETED ∧
           block_state i (state_data st)).
Proof.
  intros Hr. apply repo_reachable_ok in Hr as Hok. split.
  - intros i st Hf. eapply Find_ok in Hf as (b & Hi & Hst & Hn); [|done]. split; [done|].
    intros Hnew. rewrite Hi. cbn. f_equal. by apply Hn.
  - intros i r' Hw. apply worker_ok in Hw as [_ Hw]; [|done]. by apply Hw.
Qed.

Lemma Find_other i j c st r :
  heap !! j = Some c → i ≠ j →
  Find heap j (set_m_states (<[i := st]> (m_states r)) r) = Find heap j r.
Proof.
  intros Hj Hne. unfold Find, deref. rewrite Hj. cbn. by rewrite lookup_insert_ne.
Qed.

Lemma Find_stored i b st r :
  heap !! i = Some b → nHeight b ≠ 0 →
  Find heap i (set_m_states (<[i := st]> (m_states r)) r) = Ok (Some st).
Proof.
  intros Hi Hh. unfold Find, deref. rewrite Hi. cbn. rewrite decide_False by done.
  by rewrite lookup_insert_eq.
Qed.

(** How the commits of an unknown block are processed. *)
Lemma new_commits_inv r i b r1 :
  heap !! i = Some b → nHeight b ≠ 0 → m_states r !! i = None →
  Processor_ProcessNewCommits garbage p heap i (commits_of (content i)) r = Ok (true, r1) →
  ∃ j c ps fs, pprev b = Some j ∧ i ≠ j ∧ heap !! j = Some c ∧ Find heap j r = Ok (Some ps) ∧
    ProcessNewTip garbage p (FinalizationState_copy ps NEW) (phashBlock b) (nHeight b) (content i) =
      Ok fs ∧
    r1 = set_m_states (<[i := FinalizationState_copy fs FROM_COMMITS]> (m_states r)) r.
Proof.
  intros Hi Hh Hnew Hc. unfold Processor_ProcessNewCommits, FindOrCreate, Find at 1, Create, deref in Hc.
  rewrite Hi in Hc. cbn in Hc. rewrite decide_False, Hnew in Hc by done. ok_inv Hc.
  destruct (pprev b) as [j|] eqn:Hj; [|by ok_inv Hr; simplify_eq]. ok_inv Hr.
  destruct r3 as [ps|]; [|by simplify_eq].
  destruct (wb_prev heap i b (bo_tree Hb i b Hi) j Hj) as (c & Hc' & Hhc).
  destruct (bool_decide _ && _) in Hr; [by simplify_eq|].
  rewrite emplace_fresh, lookup_insert_eq in Hr by done. simplify_eq. cbn in Hc. ok_inv Hc.
  apply ProcessNewCommits_filter in Hr as (fs & Hp & ->).
  unfold update_state, deref in Hr2. rewrite Hi in Hr2. cbn in Hr2.
  rewrite decide_False in Hr2 by done. simplify_eq. exists j, c, ps, fs.
  split_and!; try done; [intros <-; simplify_eq; lia|]. unfold set_m_states. cbn.
  by rewrite insert_insert_eq.
Qed.

(** Commits first, block later.  When the state of an unknown block has
    been computed from its commits alone, processing the full block confirms
    it: no assertion fails, the data stay the same, and the state is
    complete. *)
Theorem commits_then_block r i b r1 :
  heap !! i = Some b → nHeight b ≠ 0 → m_states r !! i = None →
  Processor_ProcessNewCommits garbage p heap i (commits_of (content i)) r = Ok (true, r1) →
  ∃ st r2, Find heap i r1 = Ok (Some st) ∧ m_status st = FROM_COMMITS ∧
    ProcessNewTipCandidate garbage p heap i (content i) r1 = Ok (true, r2) ∧
    Find heap i r2 = Ok (Some (FinalizationState_copy st COMPLETED)).
Proof.
  intros Hi Hh Hnew Hc.
  destruct (new_commits_inv r i b r1) as (j & c & ps & fs & Hj & Hne & Hjc & Hf & Hp & ->); [done..|].
  pose proof (ProcessNewTip_status _ _ _ _ _ Hp) as Hst.
  eexists _, _. split; [by apply (Find_stored i b)|]. split; [done|].
  unfold ProcessNewTipCandidate, ProcessNewTipWorker, FindOrCreate.
  rewrite (proj2 (deref_Ok i b) Hi). cbn [mbind outcome_bind]. rewrite (Find_stored i b) by done.
  cbn [mbind outcome_bind FinalizationState_copy m_status]. rewrite Hj.
  rewrite (Find_other i j c) by done. rewrite Hf. cbn [mbind outcome_bind assert_some].
  rewrite Hp. unfold Confirm, map_find_assert. cbn. rewrite Hst, lookup_insert_eq. cbn.
  split; [done|]. destruct fs as [s stat]. cbn in *. subst stat.
  unfold Find, deref. rewrite Hi. cbn. rewrite decide_False by done. by rewrite lookup_insert_eq.
Qed.
End states.

(** ** Witnesses *)

#[local] Existing Instance commit_hashing.

(** Three blocks, the last one with a deposit. *)
Definition demo_heap : BlockMap :=
  foldl (λ m '(i, prev, h), demo_add m i (demo_block prev h)) ∅
    [(10, None, 0); (11, Some 10, 1); (12, Some 11, 2)].
Definition demo_index_map : gmap Z Z := {[ 1000 := 10; 1001 := 11; 1002 := 12 ]}.
Definition demo_content (i : Z) : list CTransaction :=
  if decide (i = 12) then [demo_deposit_tx 1] else [].

Lemma demo_blocks_ok : blocks_ok demo_heap demo_index_map demo_content (λ _, None).
Proof.
  split; [|by apply (bool_decide_unpack _); vm_compute..| |done].
  - unfold demo_heap. cbn [foldl].
    repeat (apply demo_add_wf; [|by vm_compute|first [done | eexists; split; [by vm_compute|done]]]).
    apply map_Forall_empty.
  - intros i b txes Hi Hc.
    assert (map_Forall (λ _ b, negb (bool_decide (is_Some (commits b))) = true) demo_heap) as Hn
      by (by apply (bool_decide_unpack _); vm_compute).
    apply Hn, negb_true_iff, bool_decide_eq_false in Hi. destruct Hi. by rewrite Hc.
Qed.

(** The first two blocks as tips. *)
Definition demo_repository : outcome RepositoryImpl :=
  r ← RepositoryImpl_new demo_params ∅;
  '(_, r) ← Processor_ProcessNewTip [] demo_params demo_heap [Some 10] 10 (demo_content 10) r;
  '(_, r) ← Processor_ProcessNewTip [] demo_params demo_heap [Some 10; Some 11] 11 (demo_content 11) r;
  Ok r.

Lemma demo_repository_reachable r :
  demo_repository = Ok r →
  repo_reachable [] demo_params demo_heap demo_index_map demo_content (λ _, None) r.
Proof.
  unfold demo_repository. intros Hr. apply bind_Ok in Hr as (r0 & H0 & Hr).
  apply bind_Ok in Hr as ([ok1 r1] & H1 & Hr). apply bind_Ok in Hr as ([ok2 r2] & H2 & [= <-]).
  eapply repo_next; [|by eapply repo_step_tip]. eapply repo_next; [|by eapply repo_step_tip].
  by apply repo_init.
Qed.

Lemma repository_stores_chain_states_witness :
  ∃ r st, demo_repository = Ok r ∧ Find demo_heap 11 r = Ok (Some st) ∧
    block_state [] demo_params demo_heap demo_content 11 (state_data st).
Proof.
  destruct (outcome_check demo_repository (λ r, bool_decide (is_Some (m_states r !! 11))))
    as (r & Hr & Hs); [by vm_compute|].
  apply bool_decide_eq_true in Hs as [st Hst]. exists r, st.
  assert (Find demo_heap 11 r = Ok (Some st)) as Hf.
  { unfold Find. destruct (deref demo_heap 11) as [b|] eqn:Hd; [|by vm_compute in Hd]. cbn.
    rewrite decide_False; [by rewrite Hst|]. vm_compute in Hd. by injection Hd as <-. }
  do 2 (split; [done|]).
  by apply (proj1 (repository_stores_chain_states [] demo_params demo_heap demo_index_map demo_content
    (λ _, None) demo_blocks_ok r (demo_repository_reachable r Hr))).
Defined.

Lemma commits_then_block_witness :
  ∃ r r1 r2 st, demo_repository = Ok r ∧
    Processor_ProcessNewCommits [] demo_params demo_heap 12 [demo_deposit_tx 1] r = Ok (true, r1) ∧
    Find demo_heap 12 r1 = Ok (Some st) ∧ m_status st = FROM_COMMITS ∧
    ProcessNewTipCandidate [] demo_params demo_heap 12 [demo_deposit_tx 1] r1 = Ok (true, r2).
Proof.
  destruct (outcome_check demo_repository (λ r, bool_decide (m_states r !! 12 = None) &&
    match Processor_ProcessNewCommits [] demo_params demo_heap 12
            (commits_of (demo_content 12)) r with
    | Ok (ok, _) => ok | Raise _ => false end)) as (r & Hr & [Hs Hok]%andb_true_iff);
    [by vm_compute|].
  apply bool_decide_eq_true in Hs.
  destruct (Processor_ProcessNewCommits [] demo_params demo_heap 12 (commits_of (demo_content 12)) r)
    as [[ok r1]|] eqn:Hc; [subst ok|done].
  destruct (demo_heap !! 12) as [b|] eqn:Hb; [|by vm_compute in Hb].
  destruct (commits_then_block [] demo_params demo_heap demo_index_map demo_content (λ _, None)
    demo_blocks_ok r 12 b r1 Hb) as (st & r2 & Hf & Hst & Hp & _); [|done..|].
  - vm_compute in Hb. by injection Hb as <-.
  - exists r, r1, r2, st. by repeat split.
Defined.
