(* ===== verification/Interpreter.v ===== *)
(** * The script interpreter: src/src/script/interpreter.cpp, interpreter.h,
    script_error.h

    Scripts are evaluated on a stack of byte vectors.  The stack is kept with
    its top first, so [stacktop(-i)] is the element of index [i - 1]; the same
    holds for the alternative stack and the stack of conditions.  A step ends
    with a new state, with a [ScriptError], or by an exception, which
    [EvalScript] turns into [SCRIPT_ERR_UNKNOWN_ERROR]; a failed assertion or
    an access outside of a vector is [Raise].  What a signature signs is asked
    of a [BaseSignatureChecker]. *)
From S2P Require Import Prelude Serialize Admin Params FinalizationData FinalizationOps.
From S2P Require Import StateFormat Script CommitScripts Transaction Coins Checks.

(** ** Errors *)

Inductive ScriptError :=
  | SCRIPT_ERR_UNKNOWN_ERROR
  | SCRIPT_ERR_EVAL_FALSE
  | SCRIPT_ERR_OP_RETURN
  | SCRIPT_ERR_SCRIPT_SIZE
  | SCRIPT_ERR_PUSH_SIZE
  | SCRIPT_ERR_OP_COUNT
  | SCRIPT_ERR_STACK_SIZE
  | SCRIPT_ERR_SIG_COUNT
  | SCRIPT_ERR_PUBKEY_COUNT
  | SCRIPT_ERR_VERIFY
  | SCRIPT_ERR_EQUALVERIFY
  | SCRIPT_ERR_CHECKMULTISIGVERIFY
  | SCRIPT_ERR_CHECKSIGVERIFY
  | SCRIPT_ERR_NUMEQUALVERIFY
  | SCRIPT_ERR_BAD_OPCODE
  | SCRIPT_ERR_DISABLED_OPCODE
  | SCRIPT_ERR_INVALID_STACK_OPERATION
  | SCRIPT_ERR_INVALID_ALTSTACK_OPERATION
  | SCRIPT_ERR_UNBALANCED_CONDITIONAL
  | SCRIPT_ERR_NEGATIVE_LOCKTIME
  | SCRIPT_ERR_UNSATISFIED_LOCKTIME
  | SCRIPT_ERR_INVALID_VOTE_SCRIPT
  | SCRIPT_ERR_INVALID_VOTE_SIG
  | SCRIPT_ERR_INVALID_LOGOUT_SCRIPT
  | SCRIPT_ERR_INVALID_SLASH_NOT_SAME_VALIDATOR
  | SCRIPT_ERR_INVALID_SLASH_NOT_SLASHABLE
  | SCRIPT_ERR_SIG_HASHTYPE
  | SCRIPT_ERR_SIG_DER
  | SCRIPT_ERR_MINIMALDATA
  | SCRIPT_ERR_SIG_PUSHONLY
  | SCRIPT_ERR_SIG_HIGH_S
  | SCRIPT_ERR_SIG_NULLDUMMY
  | SCRIPT_ERR_PUBKEYTYPE
  | SCRIPT_ERR_CLEANSTACK
  | SCRIPT_ERR_MINIMALIF
  | SCRIPT_ERR_SIG_NULLFAIL
  | SCRIPT_ERR_DISCOURAGE_UPGRADABLE_NOPS
  | SCRIPT_ERR_DISCOURAGE_UPGRADABLE_WITNESS_PROGRAM
  | SCRIPT_ERR_WITNESS_PROGRAM_WRONG_LENGTH
  | SCRIPT_ERR_WITNESS_PROGRAM_WITNESS_EMPTY
  | SCRIPT_ERR_WITNESS_PROGRAM_MISMATCH
  | SCRIPT_ERR_WITNESS_MALLEATED
  | SCRIPT_ERR_WITNESS_MALLEATED_P2SH
  | SCRIPT_ERR_WITNESS_UNEXPECTED
  | SCRIPT_ERR_WITNESS_PUBKEYTYPE
  | SCRIPT_ERR_OP_CODESEPARATOR
  | SCRIPT_ERR_SIG_FINDANDDELETE.

#[export] Instance ScriptError_eq_dec : EqDecision ScriptError.
Proof. solve_decision. Defined.

(** [return set_error(serror, e)] leaves the evaluation with [Fail e]. *)
Inductive result (A : Type) :=
  | Done (a : A)
  | Fail (e : ScriptError).
Arguments Done {A} _.
Arguments Fail {A} _.

Abbreviation evaluation A := (outcome (result A)).

Definition script_bind {A B} (m : evaluation A) (k : A → evaluation B) : evaluation B :=
  v ← m; match v with Done a => k a | Fail e => Ok (Fail e) end.

Notation "x ←? m ; k" := (script_bind m (λ x, k))
  (at level 20, m at level 100, k at level 200, right associativity).

Notation "' x ←? m ; k" := (script_bind m (λ x : _, k))
  (at level 20, x pattern, m at level 100, k at level 200, right associativity).

Definition done_ {A} (a : A) : evaluation A := Ok (Done a).
Definition fail_ {A} (e : ScriptError) : evaluation A := Ok (Fail e).
Definition lift_ {A} (m : outcome A) : evaluation A := a ← m; done_ a.

(** [if (b) return set_error(serror, e)]. *)
Definition fail_if (b : bool) (e : ScriptError) : evaluation unit :=
  if b then fail_ e else done_ tt.

(** ** Flags *)

Definition SIGHASH_ALL : Z := 1.
Definition SIGHASH_NONE : Z := 2.
Definition SIGHASH_SINGLE : Z := 3.
Definition SIGHASH_ANYONECANPAY : Z := 0x80.

(** The bits of the flags. *)
Inductive verify_flag :=
  | SCRIPT_VERIFY_P2SH
  | SCRIPT_VERIFY_STRICTENC
  | SCRIPT_VERIFY_DERSIG
  | SCRIPT_VERIFY_LOW_S
  | SCRIPT_VERIFY_NULLDUMMY
  | SCRIPT_VERIFY_SIGPUSHONLY
  | SCRIPT_VERIFY_MINIMALDATA
  | SCRIPT_VERIFY_DISCOURAGE_UPGRADABLE_NOPS
  | SCRIPT_VERIFY_CLEANSTACK
  | SCRIPT_VERIFY_CHECKLOCKTIMEVERIFY
  | SCRIPT_VERIFY_CHECKSEQUENCEVERIFY
  | SCRIPT_VERIFY_WITNESS
  | SCRIPT_VERIFY_DISCOURAGE_UPGRADABLE_WITNESS_PROGRAM
  | SCRIPT_VERIFY_MINIMALIF
  | SCRIPT_VERIFY_NULLFAIL
  | SCRIPT_VERIFY_WITNESS_PUBKEYTYPE
  | SCRIPT_VERIFY_CONST_SCRIPTCODE.

Definition verify_flag_value (f : verify_flag) : Z :=
  match f with
  | SCRIPT_VERIFY_P2SH => Z.shiftl 1 0
  | SCRIPT_VERIFY_STRICTENC => Z.shiftl 1 1
  | SCRIPT_VERIFY_DERSIG => Z.shiftl 1 2
  | SCRIPT_VERIFY_LOW_S => Z.shiftl 1 3
  | SCRIPT_VERIFY_NULLDUMMY => Z.shiftl 1 4
  | SCRIPT_VERIFY_SIGPUSHONLY => Z.shiftl 1 5
  | SCRIPT_VERIFY_MINIMALDATA => Z.shiftl 1 6
  | SCRIPT_VERIFY_DISCOURAGE_UPGRADABLE_NOPS => Z.shiftl 1 7
  | SCRIPT_VERIFY_CLEANSTACK => Z.shiftl 1 8
  | SCRIPT_VERIFY_CHECKLOCKTIMEVERIFY => Z.shiftl 1 9
  | SCRIPT_VERIFY_CHECKSEQUENCEVERIFY => Z.shiftl 1 10
  | SCRIPT_VERIFY_WITNESS => Z.shiftl 1 11
  | SCRIPT_VERIFY_DISCOURAGE_UPGRADABLE_WITNESS_PROGRAM => Z.shiftl 1 12
  | SCRIPT_VERIFY_MINIMALIF => Z.shiftl 1 13
  | SCRIPT_VERIFY_NULLFAIL => Z.shiftl 1 14
  | SCRIPT_VERIFY_WITNESS_PUBKEYTYPE => Z.shiftl 1 15
  | SCRIPT_VERIFY_CONST_SCRIPTCODE => Z.shiftl 1 16
  end.

Coercion verify_flag_value : verify_flag >-> Z.

Definition MANDATORY_SCRIPT_VERIFY_FLAGS : Z := SCRIPT_VERIFY_P2SH.

Definition STANDARD_SCRIPT_VERIFY_FLAGS : Z :=
  foldr (λ (f : verify_flag) flags, Z.lor f flags) MANDATORY_SCRIPT_VERIFY_FLAGS
    [SCRIPT_VERIFY_DERSIG; SCRIPT_VERIFY_STRICTENC; SCRIPT_VERIFY_MINIMALDATA;
     SCRIPT_VERIFY_NULLDUMMY; SCRIPT_VERIFY_DISCOURAGE_UPGRADABLE_NOPS; SCRIPT_VERIFY_CLEANSTACK;
     SCRIPT_VERIFY_MINIMALIF; SCRIPT_VERIFY_NULLFAIL; SCRIPT_VERIFY_CHECKLOCKTIMEVERIFY;
     SCRIPT_VERIFY_CHECKSEQUENCEVERIFY; SCRIPT_VERIFY_LOW_S; SCRIPT_VERIFY_WITNESS;
     SCRIPT_VERIFY_DISCOURAGE_UPGRADABLE_WITNESS_PROGRAM; SCRIPT_VERIFY_WITNESS_PUBKEYTYPE;
     SCRIPT_VERIFY_CONST_SCRIPTCODE].

(** [csv_active]: whether [DEPLOYMENT_CSV] is active at the block. *)
Definition GetBlockScriptFlags (csv_active : bool) : Z :=
  let flags := 0 in
  let flags := Z.lor flags SCRIPT_VERIFY_P2SH in
  let flags := Z.lor flags SCRIPT_VERIFY_DERSIG in
  let flags := Z.lor flags SCRIPT_VERIFY_CHECKLOCKTIMEVERIFY in
  let flags := Z.lor flags SCRIPT_VERIFY_WITNESS in
  let flags := Z.lor flags SCRIPT_VERIFY_NULLDUMMY in
  if csv_active then Z.lor flags SCRIPT_VERIFY_CHECKSEQUENCEVERIFY else flags.

(** [flags & flag]. *)
Definition has (flags flag : Z) : bool := bool_decide (Z.land flags flag ≠ 0).

Definition MAX_OPS_PER_SCRIPT : Z := 201.
Definition MAX_STACK_SIZE : Z := 1000.
Definition LOCKTIME_THRESHOLD : Z := 500000000.

Inductive SigVersion := BASE | WITNESS_V0.

#[export] Instance SigVersion_eq_dec : EqDecision SigVersion.
Proof. solve_decision. Defined.

(** ** Operations *)

(** The cases of the [switch] of [EvalScript]; the opcodes that push a small
    number share one, and so do the disabled ones. *)
Inductive instruction :=
  | I_NUMBER | I_NOP | I_IF | I_NOTIF | I_ELSE | I_ENDIF | I_VERIFY | I_RETURN
  | I_TOALTSTACK | I_FROMALTSTACK | I_2DROP | I_2DUP | I_3DUP | I_2OVER | I_2ROT | I_2SWAP
  | I_IFDUP | I_DEPTH | I_DROP | I_DUP | I_NIP | I_OVER | I_PICK | I_ROLL | I_ROT | I_SWAP | I_TUCK
  | I_SIZE | I_EQUAL | I_EQUALVERIFY
  | I_1ADD | I_1SUB | I_NEGATE | I_ABS | I_NOT | I_0NOTEQUAL
  | I_ADD | I_SUB | I_BOOLAND | I_BOOLOR | I_NUMEQUAL | I_NUMEQUALVERIFY | I_NUMNOTEQUAL
  | I_LESSTHAN | I_GREATERTHAN | I_LESSTHANOREQUAL | I_GREATERTHANOREQUAL | I_MIN | I_MAX | I_WITHIN
  | I_RIPEMD160 | I_SHA1 | I_SHA256 | I_HASH160 | I_HASH256 | I_CODESEPARATOR
  | I_CHECKSIG | I_CHECKSIGVERIFY | I_CHECKMULTISIG | I_CHECKMULTISIGVERIFY
  | I_CHECKLOCKTIMEVERIFY | I_CHECKSEQUENCEVERIFY | I_CHECKCOMMIT | I_PUSH_TX_TYPE
  | I_UPGRADABLE_NOP | I_DISABLED | I_BAD.

#[export] Instance instruction_eq_dec : EqDecision instruction.
Proof. solve_decision. Defined.

Definition decode (opcode : Z) : instruction :=
  match opcode with
  | 0x4f => I_NUMBER
  | 0x51 | 0x52 | 0x53 | 0x54 | 0x55 | 0x56 | 0x57 | 0x58
  | 0x59 | 0x5a | 0x5b | 0x5c | 0x5d | 0x5e | 0x5f | 0x60 => I_NUMBER
  | 0x61 => I_NOP
  | 0x63 => I_IF | 0x64 => I_NOTIF | 0x67 => I_ELSE | 0x68 => I_ENDIF
  | 0x69 => I_VERIFY | 0x6a => I_RETURN
  | 0x6b => I_TOALTSTACK | 0x6c => I_FROMALTSTACK
  | 0x6d => I_2DROP | 0x6e => I_2DUP | 0x6f => I_3DUP
  | 0x70 => I_2OVER | 0x71 => I_2ROT | 0x72 => I_2SWAP
  | 0x73 => I_IFDUP | 0x74 => I_DEPTH | 0x75 => I_DROP | 0x76 => I_DUP
  | 0x77 => I_NIP | 0x78 => I_OVER | 0x79 => I_PICK | 0x7a => I_ROLL
  | 0x7b => I_ROT | 0x7c => I_SWAP | 0x7d => I_TUCK
  | 0x7e | 0x7f | 0x80 | 0x81 => I_DISABLED
  | 0x82 => I_SIZE
  | 0x83 | 0x84 | 0x85 | 0x86 => I_DISABLED
  | 0x87 => I_EQUAL | 0x88 => I_EQUALVERIFY
  | 0x8b => I_1ADD | 0x8c => I_1SUB
  | 0x8d | 0x8e => I_DISABLED
  | 0x8f => I_NEGATE | 0x90 => I_ABS | 0x91 => I_NOT | 0x92 => I_0NOTEQUAL
  | 0x93 => I_ADD | 0x94 => I_SUB
  | 0x95 | 0x96 | 0x97 | 0x98 | 0x99 => I_DISABLED
  | 0x9a => I_BOOLAND | 0x9b => I_BOOLOR
  | 0x9c => I_NUMEQUAL | 0x9d => I_NUMEQUALVERIFY | 0x9e => I_NUMNOTEQUAL
  | 0x9f => I_LESSTHAN | 0xa0 => I_GREATERTHAN
  | 0xa1 => I_LESSTHANOREQUAL | 0xa2 => I_GREATERTHANOREQUAL
  | 0xa3 => I_MIN | 0xa4 => I_MAX | 0xa5 => I_WITHIN
  | 0xa6 => I_RIPEMD160 | 0xa7 => I_SHA1 | 0xa8 => I_SHA256
  | 0xa9 => I_HASH160 | 0xaa => I_HASH256 | 0xab => I_CODESEPARATOR
  | 0xac => I_CHECKSIG | 0xad => I_CHECKSIGVERIFY
  | 0xae => I_CHECKMULTISIG | 0xaf => I_CHECKMULTISIGVERIFY
  | 0xb0 => I_UPGRADABLE_NOP
  | 0xb1 => I_CHECKLOCKTIMEVERIFY | 0xb2 => I_CHECKSEQUENCEVERIFY | 0xb3 => I_CHECKCOMMIT
  | 0xb5 | 0xb6 | 0xb7 => I_UPGRADABLE_NOP
  | 0xb8 => I_PUSH_TX_TYPE
  | 0xb9 => I_UPGRADABLE_NOP
  | _ => I_BAD
  end.

(** ** Stacks *)

Abbreviation valtype := bytes.
Abbreviation Stack := (list valtype).

Fixpoint CastToBool (vch : valtype) : bool :=
  match vch with
  | [] => false
  | b :: rest =>
      if decide (b ≠ 0) then negb (bool_decide (rest = []) && bool_decide (b = 0x80))
      else CastToBool rest
  end.

Definition vchFalse : valtype := [].
Definition vchTrue : valtype := [1].
Definition bool_value (b : bool) : valtype := if b then vchTrue else vchFalse.

(** [stacktop(-i)]: [at] throws when there are fewer elements. *)
Definition stacktop (i : Z) (stack : Stack) : outcome valtype :=
  if decide (i ≤ 0) then Raise OutOfRange
  else match stack !! Z.to_nat (i - 1) with Some v => Ok v | None => Raise OutOfRange end.

Definition popstack (stack : Stack) : outcome Stack :=
  match stack with [] => Raise RuntimeError | _ :: stack => Ok stack end.

Fixpoint pops (n : nat) (stack : Stack) : outcome Stack :=
  match n with O => Ok stack | S n => stack ← popstack stack; pops n stack end.

(** [if (stack.size() < n) return set_error(serror, e)]. *)
Definition need (n : Z) (stack : Stack) : evaluation unit :=
  fail_if (bool_decide (Z.of_nat (length stack) < n)) SCRIPT_ERR_INVALID_STACK_OPERATION.

(** [swap(stacktop(-i), stacktop(-j))]. *)
Definition swap (i j : Z) (stack : Stack) : outcome Stack :=
  a ← stacktop i stack; b ← stacktop j stack;
  Ok (<[Z.to_nat (i - 1) := b]> (<[Z.to_nat (j - 1) := a]> stack)).

(** [stack.erase(stack.end() - i)]. *)
Definition erase (i : Z) (stack : Stack) : outcome Stack :=
  if decide (1 ≤ i ≤ Z.of_nat (length stack)) then Ok (delete (Z.to_nat (i - 1)) stack)
  else Raise OutOfBounds.

(** A [CScriptNum] of at most [n] bytes; its error is a [runtime_error]. *)
Definition script_num (vch : valtype) (fRequireMinimal : bool) (n : nat) : outcome Z :=
  match CScriptNum_new vch fRequireMinimal n with Some v => Ok v | None => Raise RuntimeError end.

Definition nDefaultMaxNumSize : nat := 4.

(** ** Encodings of keys and signatures *)

Definition IsCompressedOrUncompressedPubKey (k : valtype) : outcome bool :=
  if decide (length k < COMPRESSED_PUBLIC_KEY_SIZE)%nat then Ok false
  else
    b ← vec_at k 0;
    if decide (b = 0x04) then Ok (bool_decide (length k = PUBLIC_KEY_SIZE))
    else if decide (b = 0x02 ∨ b = 0x03) then Ok (bool_decide (length k = COMPRESSED_PUBLIC_KEY_SIZE))
    else Ok false.

Definition IsCompressedPubKey (k : valtype) : outcome bool :=
  if decide (length k ≠ COMPRESSED_PUBLIC_KEY_SIZE) then Ok false
  else b ← vec_at k 0; Ok (bool_decide (b = 0x02 ∨ b = 0x03)).

(** [sig[i]] for an index computed in unsigned arithmetic. *)
Definition IsValidSignatureEncoding (sig : valtype) : outcome bool :=
  let size := Z.of_nat (length sig) in
  let get (i : Z) := vec_at sig (Z.to_nat i) in
  if decide (size < 9) then Ok false
  else if decide (73 < size) then Ok false
  else
    s0 ← get 0;
    if decide (s0 ≠ 0x30) then Ok false else
    s1 ← get 1;
    if decide (s1 ≠ size - 3) then Ok false
    else
      lenR ← get 3;
      if decide (size ≤ 5 + lenR) then Ok false
      else
        lenS ← get (5 + lenR);
        if decide (lenR + lenS + 7 ≠ size) then Ok false
        else
          s2 ← get 2;
          if decide (s2 ≠ 0x02) then Ok false
          else if decide (lenR = 0) then Ok false
          else
            s4 ← get 4;
            if decide (Z.land s4 0x80 ≠ 0) then Ok false
            else
              paddedR ← (if decide (1 < lenR ∧ s4 = 0x00)
                         then s5 ← get 5; Ok (bool_decide (Z.land s5 0x80 = 0)) else Ok false);
              if (paddedR : bool) then Ok false
              else
                tagS ← get (lenR + 4);
                if decide (tagS ≠ 0x02) then Ok false
                else if decide (lenS = 0) then Ok false
                else
                  s6 ← get (lenR + 6);
                  if decide (Z.land s6 0x80 ≠ 0) then Ok false
                  else
                    paddedS ← (if decide (1 < lenS ∧ s6 = 0x00)
                               then s7 ← get (lenR + 7); Ok (bool_decide (Z.land s7 0x80 = 0))
                               else Ok false);
                    Ok (negb paddedS).

(** Whether the [S] of a signature is in the lower half: libsecp256k1's part
    of [CPubKey::CheckLowS]. *)
Class SignatureForms := { CheckLowS : valtype → bool }.

(** The hash functions of the crypto opcodes, by the values of their results. *)
Class OpHashes := {
  RIPEMD160 : valtype → Z;
  SHA1 : valtype → Z;
  SHA256 : valtype → Z;
}.

Section encodings.
Context `{!SignatureForms}.

Definition IsLowDERSignature (vchSig : valtype) : evaluation unit :=
  valid ← IsValidSignatureEncoding vchSig;
  if negb valid then fail_ SCRIPT_ERR_SIG_DER
  else fail_if (negb (CheckLowS (take (length vchSig - 1) vchSig))) SCRIPT_ERR_SIG_HIGH_S.

Definition IsDefinedHashtypeSignature (vchSig : valtype) : bool :=
  match vchSig with
  | [] => false
  | _ =>
      let nHashType := Z.land (back vchSig) (uint8 (Z.lnot SIGHASH_ANYONECANPAY)) in
      bool_decide (SIGHASH_ALL ≤ nHashType ≤ SIGHASH_SINGLE)
  end.

Definition CheckSignatureEncoding (vchSig : valtype) (flags : Z) : evaluation unit :=
  match vchSig with
  | [] => done_ tt
  | _ =>
      invalid ← (if has flags (Z.lor (Z.lor SCRIPT_VERIFY_DERSIG SCRIPT_VERIFY_LOW_S)
                                 SCRIPT_VERIFY_STRICTENC)
                 then valid ← IsValidSignatureEncoding vchSig; Ok (negb valid) else Ok false);
      if (invalid : bool) then fail_ SCRIPT_ERR_SIG_DER
      else
        _ ←? (if has flags SCRIPT_VERIFY_LOW_S then IsLowDERSignature vchSig else done_ tt);
        fail_if (has flags SCRIPT_VERIFY_STRICTENC && negb (IsDefinedHashtypeSignature vchSig))
          SCRIPT_ERR_SIG_HASHTYPE
  end.

Definition CheckPubKeyEncoding (vchPubKey : valtype) (flags : Z) (sigversion : SigVersion) :
  evaluation unit :=
  bad ← (if has flags SCRIPT_VERIFY_STRICTENC
         then ok ← IsCompressedOrUncompressedPubKey vchPubKey; Ok (negb ok) else Ok false);
  if (bad : bool) then fail_ SCRIPT_ERR_PUBKEYTYPE
  else
    bad ← (if has flags SCRIPT_VERIFY_WITNESS_PUBKEYTYPE && bool_decide (sigversion = WITNESS_V0)
           then ok ← IsCompressedPubKey vchPubKey; Ok (negb ok) else Ok false);
    fail_if bad SCRIPT_ERR_WITNESS_PUBKEYTYPE.

(** Both, as the signature opcodes check them. *)
Definition CheckEncodings (vchSig vchPubKey : valtype) (flags : Z) (sigversion : SigVersion) :
  evaluation unit :=
  _ ←? CheckSignatureEncoding vchSig flags; CheckPubKeyEncoding vchPubKey flags sigversion.
End encodings.

Definition CheckMinimalPush (data : valtype) (opcode : Z) : outcome bool :=
  _ ← cpp_assert (bool_decide (0 ≤ opcode ≤ OP_PUSHDATA4));
  let size := Z.of_nat (length data) in
  if decide (size = 0) then Ok (bool_decide (opcode = OP_0))
  else if decide (size = 1 ∧ 1 ≤ at_ data 0 ≤ 16) then Ok false
  else if decide (size = 1 ∧ at_ data 0 = 0x81) then Ok false
  else if decide (size ≤ 75) then Ok (bool_decide (opcode = size))
  else if decide (size ≤ 255) then Ok (bool_decide (opcode = OP_PUSHDATA1))
  else if decide (size ≤ 65535) then Ok (bool_decide (opcode = OP_PUSHDATA2))
  else Ok true.

(** ** Deleting a signature from a script *)

(** The inner [while]: the matches of [b] at [pc] are skipped and counted. *)
Fixpoint skip_matches (fuel : nat) (b pc : CScript) (nFound : Z) : CScript * Z :=
  match fuel with
  | O => (pc, nFound)
  | S fuel =>
      if decide (length b ≤ length pc ∧ take (length b) pc = b)%nat
      then skip_matches fuel b (drop (length b) pc) (nFound + 1)
      else (pc, nFound)
  end.

(** The [do ... while (script.GetOp(pc, opcode))]: the bytes kept, the rest
    of the script from [pc2] on, and the number of matches. *)
Fixpoint FindAndDelete_loop (fuel : nat) (b pc pc2 result : CScript) (nFound : Z) :
  CScript * CScript * Z :=
  match fuel with
  | O => (result, pc2, nFound)
  | S fuel =>
      let result := result ++ take (length pc2 - length pc) pc2 in
      let '(pc, nFound) := skip_matches (length pc) b pc nFound in
      match GetScriptOp pc with
      | (None, _) => (result, pc, nFound)
      | (Some _, pc') => FindAndDelete_loop fuel b pc' pc result nFound
      end
  end.

Definition FindAndDelete (script b : CScript) : Z * CScript :=
  if decide (b = []) then (0, script)
  else
    let '(result, pc2, nFound) := FindAndDelete_loop (S (length script)) b script script [] 0 in
    (nFound, if decide (0 < nFound) then result ++ pc2 else script).

(** ** Arithmetic *)

Definition CScriptNum_add_assign (m_value rhs : Z) : outcome Z :=
  _ ← cpp_assert (bool_decide (rhs = 0 ∨ (0 < rhs ∧ m_value ≤ (2 ^ 63 - 1) - rhs) ∨
                               (rhs < 0 ∧ - 2 ^ 63 - rhs ≤ m_value)));
  Ok (int64 (m_value + rhs)).

Definition CScriptNum_sub_assign (m_value rhs : Z) : outcome Z :=
  _ ← cpp_assert (bool_decide (rhs = 0 ∨ (0 < rhs ∧ - 2 ^ 63 + rhs ≤ m_value) ∨
                               (rhs < 0 ∧ m_value ≤ (2 ^ 63 - 1) + rhs)));
  Ok (int64 (m_value - rhs)).

Definition CScriptNum_neg (m_value : Z) : outcome Z :=
  _ ← cpp_assert (bool_decide (m_value ≠ - 2 ^ 63));
  Ok (int64 (- m_value)).

(** [bn = b] for a [bool]. *)
Definition of_bool (b : bool) : Z := if b then 1 else 0.

Definition unary_value (op : instruction) (bn : Z) : outcome Z :=
  match op with
  | I_1ADD => CScriptNum_add_assign bn 1
  | I_1SUB => CScriptNum_sub_assign bn 1
  | I_NEGATE => CScriptNum_neg bn
  | I_ABS => if decide (bn < 0) then CScriptNum_neg bn else Ok bn
  | I_NOT => Ok (of_bool (bool_decide (bn = 0)))
  | I_0NOTEQUAL => Ok (of_bool (bool_decide (bn ≠ 0)))
  | _ => Raise AssertionFailure
  end.

Definition unary_op (op : instruction) (fRequireMinimal : bool) (stack : Stack) : evaluation Stack :=
  _ ←? need 1 stack;
  top ← stacktop 1 stack;
  bn ← script_num top fRequireMinimal nDefaultMaxNumSize;
  bn ← unary_value op bn;
  stack ← popstack stack;
  done_ (CScriptNum_serialize bn :: stack).

Definition binary_value (op : instruction) (bn1 bn2 : Z) : outcome Z :=
  match op with
  | I_ADD => Ok (int64 (bn1 + bn2))
  | I_SUB => Ok (int64 (bn1 - bn2))
  | I_BOOLAND => Ok (of_bool (bool_decide (bn1 ≠ 0) && bool_decide (bn2 ≠ 0)))
  | I_BOOLOR => Ok (of_bool (bool_decide (bn1 ≠ 0) || bool_decide (bn2 ≠ 0)))
  | I_NUMEQUAL => Ok (of_bool (bool_decide (bn1 = bn2)))
  | I_NUMEQUALVERIFY => Ok (of_bool (bool_decide (bn1 = bn2)))
  | I_NUMNOTEQUAL => Ok (of_bool (bool_decide (bn1 ≠ bn2)))
  | I_LESSTHAN => Ok (of_bool (bool_decide (bn1 < bn2)))
  | I_GREATERTHAN => Ok (of_bool (bool_decide (bn1 > bn2)))
  | I_LESSTHANOREQUAL => Ok (of_bool (bool_decide (bn1 ≤ bn2)))
  | I_GREATERTHANOREQUAL => Ok (of_bool (bool_decide (bn1 >= bn2)))
  | I_MIN => Ok (if decide (bn1 < bn2) then bn1 else bn2)
  | I_MAX => Ok (if decide (bn1 > bn2) then bn1 else bn2)
  | _ => Raise AssertionFailure
  end.

Definition binary_op (op : instruction) (fRequireMinimal : bool) (stack : Stack) : evaluation Stack :=
  _ ←? need 2 stack;
  v1 ← stacktop 2 stack;
  bn1 ← script_num v1 fRequireMinimal nDefaultMaxNumSize;
  v2 ← stacktop 1 stack;
  bn2 ← script_num v2 fRequireMinimal nDefaultMaxNumSize;
  bn ← binary_value op bn1 bn2;
  stack ← pops 2 stack;
  let stack := CScriptNum_serialize bn :: stack in
  if decide (op = I_NUMEQUALVERIFY) then
    top ← stacktop 1 stack;
    if CastToBool top then lift_ (popstack stack) else fail_ SCRIPT_ERR_NUMEQUALVERIFY
  else done_ stack.

Definition within_op (fRequireMinimal : bool) (stack : Stack) : evaluation Stack :=
  _ ←? need 3 stack;
  v1 ← stacktop 3 stack;
  bn1 ← script_num v1 fRequireMinimal nDefaultMaxNumSize;
  v2 ← stacktop 2 stack;
  bn2 ← script_num v2 fRequireMinimal nDefaultMaxNumSize;
  v3 ← stacktop 1 stack;
  bn3 ← script_num v3 fRequireMinimal nDefaultMaxNumSize;
  let fValue := bool_decide (bn2 ≤ bn1) && bool_decide (bn1 < bn3) in
  stack ← pops 3 stack;
  done_ (bool_value fValue :: stack).

(** ** Operations on the stack *)

Definition pick_roll_op (op : instruction) (fRequireMinimal : bool) (stack : Stack) : evaluation Stack :=
  _ ←? need 2 stack;
  top ← stacktop 1 stack;
  bn ← script_num top fRequireMinimal nDefaultMaxNumSize;
  let n := getint bn in
  stack ← popstack stack;
  if decide (n < 0 ∨ Z.of_nat (length stack) ≤ n) then fail_ SCRIPT_ERR_INVALID_STACK_OPERATION
  else
    vch ← stacktop (n + 1) stack;
    stack ← (if decide (op = I_ROLL) then erase (n + 1) stack else Ok stack);
    done_ (vch :: stack).

Definition equal_op (op : instruction) (stack : Stack) : evaluation Stack :=
  _ ←? need 2 stack;
  vch1 ← stacktop 2 stack; vch2 ← stacktop 1 stack;
  let fEqual := bool_decide (vch1 = vch2) in
  stack ← pops 2 stack;
  let stack := bool_value fEqual :: stack in
  if decide (op = I_EQUALVERIFY) then
    if fEqual then lift_ (popstack stack) else fail_ SCRIPT_ERR_EQUALVERIFY
  else done_ stack.

Definition verify_op (stack : Stack) : evaluation Stack :=
  _ ←? need 1 stack;
  top ← stacktop 1 stack;
  if CastToBool top then lift_ (popstack stack) else fail_ SCRIPT_ERR_VERIFY.

(** The cases from [OP_2DROP] to [OP_OVER]. *)
Definition stack_op (op : instruction) (stack : Stack) : evaluation Stack :=
  match op with
  | I_2DROP => _ ←? need 2 stack; lift_ (pops 2 stack)
  | I_2DUP =>
      _ ←? need 2 stack; vch1 ← stacktop 2 stack; vch2 ← stacktop 1 stack;
      done_ (vch2 :: vch1 :: stack)
  | I_3DUP =>
      _ ←? need 3 stack; vch1 ← stacktop 3 stack; vch2 ← stacktop 2 stack; vch3 ← stacktop 1 stack;
      done_ (vch3 :: vch2 :: vch1 :: stack)
  | I_2OVER =>
      _ ←? need 4 stack; vch1 ← stacktop 4 stack; vch2 ← stacktop 3 stack;
      done_ (vch2 :: vch1 :: stack)
  | I_2ROT =>
      _ ←? need 6 stack; vch1 ← stacktop 6 stack; vch2 ← stacktop 5 stack;
      stack ← erase 6 stack; stack ← erase 5 stack;
      done_ (vch2 :: vch1 :: stack)
  | I_2SWAP => _ ←? need 4 stack; stack ← swap 4 2 stack; lift_ (swap 3 1 stack)
  | I_IFDUP =>
      _ ←? need 1 stack; vch ← stacktop 1 stack;
      done_ (if CastToBool vch then vch :: stack else stack)
  | I_DEPTH => done_ (CScriptNum_serialize (Z.of_nat (length stack)) :: stack)
  | I_DROP => _ ←? need 1 stack; lift_ (popstack stack)
  | I_DUP => _ ←? need 1 stack; vch ← stacktop 1 stack; done_ (vch :: stack)
  | I_NIP => _ ←? need 2 stack; lift_ (erase 2 stack)
  | I_OVER => _ ←? need 2 stack; vch ← stacktop 2 stack; done_ (vch :: stack)
  | _ => fail_ SCRIPT_ERR_BAD_OPCODE
  end.

(** The cases from [OP_ROT] to [OP_SIZE]. *)
Definition order_op (op : instruction) (stack : Stack) : evaluation Stack :=
  match op with
  | I_ROT => _ ←? need 3 stack; stack ← swap 3 2 stack; lift_ (swap 2 1 stack)
  | I_SWAP => _ ←? need 2 stack; lift_ (swap 2 1 stack)
  | I_TUCK => _ ←? need 2 stack; vch ← stacktop 1 stack; done_ (take 2 stack ++ vch :: drop 2 stack)
  | I_SIZE =>
      _ ←? need 1 stack; top ← stacktop 1 stack;
      done_ (CScriptNum_serialize (Z.of_nat (length top)) :: stack)
  | _ => fail_ SCRIPT_ERR_BAD_OPCODE
  end.

(** ** What is asked about the transaction *)

(** The virtual functions of [BaseSignatureChecker]. *)
Record BaseSignatureChecker := {
  CheckSig : valtype → valtype → CScript → SigVersion → outcome bool;
  CheckLockTime : Z → outcome bool;
  CheckSequence : Z → outcome bool;
  GetTxType : TxType;
}.

(** The class itself. *)
Definition BaseSignatureChecker_default : BaseSignatureChecker := {|
  CheckSig := λ _ _ _ _, Ok false;
  CheckLockTime := λ _, Ok false;
  CheckSequence := λ _, Ok false;
  GetTxType := REGULAR;
|}.

(** The local variables of [EvalScript] that its loop changes; the iterator
    [pbegincodehash] is the rest of the script from there on. *)
Record machine := {
  i_stack : Stack;
  i_altstack : Stack;
  i_vfExec : list bool;
  i_nOpCount : Z;
  i_pbegincodehash : CScript;
}.

Definition set_stack (x : Stack) (m : machine) : machine :=
  {| i_stack := x; i_altstack := i_altstack m; i_vfExec := i_vfExec m; i_nOpCount := i_nOpCount m;
     i_pbegincodehash := i_pbegincodehash m |}.
Definition set_altstack (x : Stack) (m : machine) : machine :=
  {| i_stack := i_stack m; i_altstack := x; i_vfExec := i_vfExec m; i_nOpCount := i_nOpCount m;
     i_pbegincodehash := i_pbegincodehash m |}.
Definition set_vfExec (x : list bool) (m : machine) : machine :=
  {| i_stack := i_stack m; i_altstack := i_altstack m; i_vfExec := x; i_nOpCount := i_nOpCount m;
     i_pbegincodehash := i_pbegincodehash m |}.
Definition set_nOpCount (x : Z) (m : machine) : machine :=
  {| i_stack := i_stack m; i_altstack := i_altstack m; i_vfExec := i_vfExec m; i_nOpCount := x;
     i_pbegincodehash := i_pbegincodehash m |}.
Definition set_pbegincodehash (x : CScript) (m : machine) : machine :=
  {| i_stack := i_stack m; i_altstack := i_altstack m; i_vfExec := i_vfExec m;
     i_nOpCount := i_nOpCount m; i_pbegincodehash := x |}.

Definition OP_SHA256 : Z := 0xa8.

(** ** The instructions *)

Section eval.
Context `{!Crypto, !Hashing, !Signatures, !SignatureForms, !OpHashes}.

Definition hash_op (op : instruction) (stack : Stack) : evaluation Stack :=
  _ ←? need 1 stack;
  vch ← stacktop 1 stack;
  let vchHash :=
    match op with
    | I_RIPEMD160 => be_bytes 20 (RIPEMD160 vch)
    | I_SHA1 => be_bytes 20 (SHA1 vch)
    | I_SHA256 => be_bytes 32 (SHA256 vch)
    | I_HASH160 => be_bytes 20 (Hash160 vch)
    | _ => be_bytes 32 (Hash256 vch)
    end in
  stack ← popstack stack;
  done_ (vchHash :: stack).

Section with_checker.
Context (flags : Z) (checker : BaseSignatureChecker) (sigversion : SigVersion).

Let fRequireMinimal : bool := has flags SCRIPT_VERIFY_MINIMALDATA.

(** [if (!fSuccess && (flags & SCRIPT_VERIFY_NULLFAIL) && vchSig.size())]. *)
Definition null_fail (fSuccess : bool) (vchSig : valtype) : evaluation unit :=
  fail_if (negb fSuccess && has flags SCRIPT_VERIFY_NULLFAIL && bool_decide (vchSig ≠ []))
    SCRIPT_ERR_SIG_NULLFAIL.

(** The cases of [OP_CHECKCOMMIT]; [scriptCode] is the script from
    [pbegincodehash] on. *)
Definition checkcommit_vote (scriptCode : CScript) (stack : Stack) : evaluation Stack :=
  if decide (length stack ≠ 3%nat) then fail_ SCRIPT_ERR_INVALID_VOTE_SCRIPT
  else
    vchPubKey ← stacktop 1 stack; vchVote ← stacktop 2 stack; vchSig ← stacktop 3 stack;
    match DecodeVote vchVote with
    | None => fail_ SCRIPT_ERR_INVALID_VOTE_SCRIPT
    | Some (vote, voteSig) =>
        if negb (Verify (CPubKey_Set vchPubKey) (Vote_GetHash vote) voteSig)
        then fail_ SCRIPT_ERR_INVALID_VOTE_SIG
        else
          _ ←? CheckEncodings vchSig vchPubKey flags BASE;
          fSuccess ← CheckSig checker vchSig vchPubKey scriptCode sigversion;
          _ ←? null_fail fSuccess vchSig;
          stack ← popstack stack; stack ← popstack stack;
          if (fSuccess : bool) then
            stack ← popstack stack;
            done_ (CScriptNum_serialize OP_TRUE :: stack)
          else fail_ SCRIPT_ERR_CHECKSIGVERIFY
    end.

Definition checkcommit_logout (scriptCode : CScript) (stack : Stack) : evaluation Stack :=
  if decide (length stack ≠ 2%nat) then fail_ SCRIPT_ERR_INVALID_LOGOUT_SCRIPT
  else
    vchPubKey ← stacktop 1 stack; vchSig ← stacktop 2 stack;
    _ ←? CheckEncodings vchSig vchPubKey flags BASE;
    fSuccess ← CheckSig checker vchSig vchPubKey scriptCode sigversion;
    _ ←? null_fail fSuccess vchSig;
    stack ← popstack stack;
    if (fSuccess : bool) then
      stack ← popstack stack;
      done_ (CScriptNum_serialize OP_TRUE :: stack)
    else fail_ SCRIPT_ERR_CHECKSIGVERIFY.

Definition votes_slashable (vote1 vote2 : Vote) : bool :=
  let isDoubleVote :=
    bool_decide (m_target_epoch vote1 = m_target_epoch vote2) &&
    bool_decide (m_target_hash vote1 ≠ m_target_hash vote2) in
  let isSurroundVote :=
    (bool_decide (m_target_epoch vote2 < m_target_epoch vote1) &&
     bool_decide (m_source_epoch vote1 < m_source_epoch vote2)) ||
    (bool_decide (m_target_epoch vote1 < m_target_epoch vote2) &&
     bool_decide (m_source_epoch vote2 < m_source_epoch vote1)) in
  isDoubleVote || isSurroundVote.

Definition checkcommit_slash (stack : Stack) : evaluation Stack :=
  if decide (length stack ≠ 3%nat) then fail_ SCRIPT_ERR_INVALID_VOTE_SCRIPT
  else
    vchPubKey ← stacktop 1 stack; vchVote1 ← stacktop 2 stack; vchVote2 ← stacktop 3 stack;
    match DecodeVote vchVote1 with
    | None => fail_ SCRIPT_ERR_INVALID_VOTE_SCRIPT
    | Some (vote1, voteSig1) =>
        match DecodeVote vchVote2 with
        | None => fail_ SCRIPT_ERR_INVALID_VOTE_SCRIPT
        | Some (vote2, voteSig2) =>
            let pubkey := CPubKey_Set vchPubKey in
            _ ←? fail_if (bool_decide (Vote_GetHash vote1 = Vote_GetHash vote2))
                   SCRIPT_ERR_INVALID_VOTE_SCRIPT;
            _ ←? fail_if (negb (Verify pubkey (Vote_GetHash vote1) voteSig1))
                   SCRIPT_ERR_INVALID_VOTE_SIG;
            _ ←? fail_if (negb (Verify pubkey (Vote_GetHash vote2) voteSig2))
                   SCRIPT_ERR_INVALID_VOTE_SIG;
            _ ←? fail_if (bool_decide (m_validator_address vote1 ≠ m_validator_address vote2))
                   SCRIPT_ERR_INVALID_SLASH_NOT_SAME_VALIDATOR;
            _ ←? fail_if (negb (votes_slashable vote1 vote2)) SCRIPT_ERR_INVALID_SLASH_NOT_SLASHABLE;
            stack ← pops 3 stack;
            done_ (CScriptNum_serialize OP_TRUE :: stack)
        end
    end.

Definition checkcommit (scriptCode : CScript) (stack : Stack) : evaluation Stack :=
  match GetTxType checker with
  | VOTE => checkcommit_vote scriptCode stack
  | LOGOUT => checkcommit_logout scriptCode stack
  | SLASH => checkcommit_slash stack
  | _ => stack ← popstack stack; done_ (CScriptNum_serialize OP_0 :: stack)
  end.

Definition checklocktime (stack : Stack) : evaluation unit :=
  if negb (has flags SCRIPT_VERIFY_CHECKLOCKTIMEVERIFY) then done_ tt
  else
    _ ←? need 1 stack;
    top ← stacktop 1 stack;
    nLockTime ← script_num top fRequireMinimal 5;
    _ ←? fail_if (bool_decide (nLockTime < 0)) SCRIPT_ERR_NEGATIVE_LOCKTIME;
    ok ← CheckLockTime checker nLockTime;
    fail_if (negb ok) SCRIPT_ERR_UNSATISFIED_LOCKTIME.

Definition checksequence (stack : Stack) : evaluation unit :=
  if negb (has flags SCRIPT_VERIFY_CHECKSEQUENCEVERIFY) then done_ tt
  else
    _ ←? need 1 stack;
    top ← stacktop 1 stack;
    nSequence ← script_num top fRequireMinimal 5;
    _ ←? fail_if (bool_decide (nSequence < 0)) SCRIPT_ERR_NEGATIVE_LOCKTIME;
    if decide (Z.land nSequence SEQUENCE_LOCKTIME_DISABLE_FLAG ≠ 0) then done_ tt
    else
      ok ← CheckSequence checker nSequence;
      fail_if (negb ok) SCRIPT_ERR_UNSATISFIED_LOCKTIME.

(** Before segregated witness the signature is dropped from the script. *)
Definition drop_signature (scriptCode : CScript) (vchSig : valtype) : evaluation CScript :=
  if decide (sigversion = BASE) then
    let '(found, scriptCode) := FindAndDelete scriptCode (push_data vchSig) in
    _ ←? fail_if (bool_decide (0 < found) && has flags SCRIPT_VERIFY_CONST_SCRIPTCODE)
           SCRIPT_ERR_SIG_FINDANDDELETE;
    done_ scriptCode
  else done_ scriptCode.

Definition checksig (op : instruction) (scriptCode : CScript) (stack : Stack) : evaluation Stack :=
  _ ←? need 2 stack;
  vchSig ← stacktop 2 stack; vchPubKey ← stacktop 1 stack;
  scriptCode ←? drop_signature scriptCode vchSig;
  _ ←? CheckEncodings vchSig vchPubKey flags sigversion;
  fSuccess ← CheckSig checker vchSig vchPubKey scriptCode sigversion;
  _ ←? null_fail fSuccess vchSig;
  stack ← pops 2 stack;
  let stack := bool_value fSuccess :: stack in
  if decide (op = I_CHECKSIGVERIFY) then
    if (fSuccess : bool) then lift_ (popstack stack) else fail_ SCRIPT_ERR_CHECKSIGVERIFY
  else done_ stack.

(** [for (int k = 0; k < nSigsCount; k++)], from the signature [i] on. *)
Fixpoint drop_signatures (n : nat) (i : Z) (stack : Stack) (scriptCode : CScript) : evaluation CScript :=
  match n with
  | O => done_ scriptCode
  | S n =>
      vchSig ← stacktop i stack;
      scriptCode ←? drop_signature scriptCode vchSig;
      drop_signatures n (i + 1) stack scriptCode
  end.

(** [while (fSuccess && nSigsCount > 0)]: every round uses up a key. *)
Fixpoint match_signatures (fuel : nat) (stack : Stack) (scriptCode : CScript)
    (isig ikey nSigsCount nKeysCount : Z) : evaluation bool :=
  if decide (nSigsCount ≤ 0) then done_ true
  else
    match fuel with
    | O => Raise AssertionFailure
    | S fuel =>
        vchSig ← stacktop isig stack; vchPubKey ← stacktop ikey stack;
        _ ←? CheckEncodings vchSig vchPubKey flags sigversion;
        fOk ← CheckSig checker vchSig vchPubKey scriptCode sigversion;
        let isig := if (fOk : bool) then isig + 1 else isig in
        let nSigsCount := if (fOk : bool) then nSigsCount - 1 else nSigsCount in
        let ikey := ikey + 1 in
        let nKeysCount := nKeysCount - 1 in
        if decide (nKeysCount < nSigsCount) then done_ false
        else match_signatures fuel stack scriptCode isig ikey nSigsCount nKeysCount
    end.

(** [while (i-- > 1)], [n] rounds of it. *)
Fixpoint clean_arguments (n : nat) (fSuccess : bool) (ikey2 : Z) (stack : Stack) : evaluation Stack :=
  match n with
  | O => done_ stack
  | S n =>
      nonempty ← (if negb fSuccess && has flags SCRIPT_VERIFY_NULLFAIL && bool_decide (ikey2 = 0)
                  then top ← stacktop 1 stack; Ok (bool_decide (top ≠ [])) else Ok false);
      _ ←? fail_if nonempty SCRIPT_ERR_SIG_NULLFAIL;
      let ikey2 := if decide (0 < ikey2) then ikey2 - 1 else ikey2 in
      stack ← popstack stack;
      clean_arguments n fSuccess ikey2 stack
  end.

(** The new stack and the new [nOpCount]. *)
Definition checkmultisig (op : instruction) (scriptCode : CScript) (nOpCount : Z) (stack : Stack) :
  evaluation (Stack * Z) :=
  let i := 1 in
  _ ←? need i stack;
  top ← stacktop i stack;
  bn ← script_num top fRequireMinimal nDefaultMaxNumSize;
  let nKeysCount := getint bn in
  if decide (nKeysCount < 0 ∨ MAX_PUBKEYS_PER_MULTISIG < nKeysCount)
  then fail_ SCRIPT_ERR_PUBKEY_COUNT
  else
    let nOpCount := nOpCount + nKeysCount in
    if decide (MAX_OPS_PER_SCRIPT < nOpCount) then fail_ SCRIPT_ERR_OP_COUNT
    else
      let i := i + 1 in
      let ikey := i in
      let ikey2 := nKeysCount + 2 in
      let i := i + nKeysCount in
      _ ←? need i stack;
      top ← stacktop i stack;
      bn ← script_num top fRequireMinimal nDefaultMaxNumSize;
      let nSigsCount := getint bn in
      if decide (nSigsCount < 0 ∨ nKeysCount < nSigsCount) then fail_ SCRIPT_ERR_SIG_COUNT
      else
        let i := i + 1 in
        let isig := i in
        let i := i + nSigsCount in
        _ ←? need i stack;
        scriptCode ←? drop_signatures (Z.to_nat nSigsCount) isig stack scriptCode;
        fSuccess ←? match_signatures (Z.to_nat nKeysCount) stack scriptCode isig ikey
                      nSigsCount nKeysCount;
        stack ←? clean_arguments (Z.to_nat (i - 1)) fSuccess ikey2 stack;
        _ ←? need 1 stack;
        top ← stacktop 1 stack;
        _ ←? fail_if (has flags SCRIPT_VERIFY_NULLDUMMY && bool_decide (top ≠ []))
               SCRIPT_ERR_SIG_NULLDUMMY;
        stack ← popstack stack;
        let stack := bool_value fSuccess :: stack in
        if decide (op = I_CHECKMULTISIGVERIFY) then
          if (fSuccess : bool) then stack ← popstack stack; done_ (stack, nOpCount)
          else fail_ SCRIPT_ERR_CHECKMULTISIGVERIFY
        else done_ (stack, nOpCount).

(** [OP_IF] and [OP_NOTIF]. *)
Definition if_op (op : instruction) (fExec : bool) (m : machine) : evaluation machine :=
  if fExec then
    if decide (length (i_stack m) < 1)%nat then fail_ SCRIPT_ERR_UNBALANCED_CONDITIONAL
    else
      vch ← stacktop 1 (i_stack m);
      _ ←? (if bool_decide (sigversion = WITNESS_V0) && has flags SCRIPT_VERIFY_MINIMALIF then
              fail_if (bool_decide (1 < length vch)%nat ||
                       (bool_decide (length vch = 1%nat) && bool_decide (at_ vch 0 ≠ 1)))
                SCRIPT_ERR_MINIMALIF
            else done_ tt);
      let fValue := CastToBool vch in
      let fValue := if decide (op = I_NOTIF) then negb fValue else fValue in
      stack ← popstack (i_stack m);
      done_ (set_vfExec (fValue :: i_vfExec m) (set_stack stack m))
  else done_ (set_vfExec (false :: i_vfExec m) m).

(** An operation that only changes the stack. *)
Definition on_stack (f : Stack → evaluation Stack) (m : machine) : evaluation machine :=
  stack ←? f (i_stack m); done_ (set_stack stack m).

(** The [switch (opcode)]; [pc] is the position after the operation. *)
Definition exec_op (opcode : Z) (fExec : bool) (pc : CScript) (m : machine) : evaluation machine :=
  let op := decode opcode in
  match op with
  | I_NUMBER => done_ (set_stack (CScriptNum_serialize (opcode - (OP_1 - 1)) :: i_stack m) m)
  | I_NOP => done_ m
  | I_CHECKLOCKTIMEVERIFY => _ ←? checklocktime (i_stack m); done_ m
  | I_CHECKSEQUENCEVERIFY => _ ←? checksequence (i_stack m); done_ m
  | I_CHECKCOMMIT => on_stack (checkcommit (i_pbegincodehash m)) m
  | I_PUSH_TX_TYPE =>
      done_ (set_stack (CScriptNum_serialize (TxType_value (GetTxType checker)) :: i_stack m) m)
  | I_UPGRADABLE_NOP =>
      _ ←? fail_if (has flags SCRIPT_VERIFY_DISCOURAGE_UPGRADABLE_NOPS)
             SCRIPT_ERR_DISCOURAGE_UPGRADABLE_NOPS;
      done_ m
  | I_IF | I_NOTIF => if_op op fExec m
  | I_ELSE =>
      match i_vfExec m with
      | [] => fail_ SCRIPT_ERR_UNBALANCED_CONDITIONAL
      | b :: vfExec => done_ (set_vfExec (negb b :: vfExec) m)
      end
  | I_ENDIF =>
      match i_vfExec m with
      | [] => fail_ SCRIPT_ERR_UNBALANCED_CONDITIONAL
      | _ :: vfExec => done_ (set_vfExec vfExec m)
      end
  | I_RETURN => fail_ SCRIPT_ERR_OP_RETURN
  | I_TOALTSTACK =>
      _ ←? need 1 (i_stack m);
      top ← stacktop 1 (i_stack m);
      stack ← popstack (i_stack m);
      done_ (set_stack stack (set_altstack (top :: i_altstack m) m))
  | I_FROMALTSTACK =>
      _ ←? fail_if (bool_decide (length (i_altstack m) < 1)%nat) SCRIPT_ERR_INVALID_ALTSTACK_OPERATION;
      top ← stacktop 1 (i_altstack m);
      altstack ← popstack (i_altstack m);
      done_ (set_altstack altstack (set_stack (top :: i_stack m) m))
  | I_VERIFY => on_stack verify_op m
  | I_2DROP | I_2DUP | I_3DUP | I_2OVER | I_2ROT | I_2SWAP | I_IFDUP | I_DEPTH | I_DROP
  | I_DUP | I_NIP | I_OVER => on_stack (stack_op op) m
  | I_PICK | I_ROLL => on_stack (pick_roll_op op fRequireMinimal) m
  | I_ROT | I_SWAP | I_TUCK | I_SIZE => on_stack (order_op op) m
  | I_EQUAL | I_EQUALVERIFY => on_stack (equal_op op) m
  | I_1ADD | I_1SUB | I_NEGATE | I_ABS | I_NOT | I_0NOTEQUAL =>
      on_stack (unary_op op fRequireMinimal) m
  | I_ADD | I_SUB | I_BOOLAND | I_BOOLOR | I_NUMEQUAL | I_NUMEQUALVERIFY | I_NUMNOTEQUAL
  | I_LESSTHAN | I_GREATERTHAN | I_LESSTHANOREQUAL | I_GREATERTHANOREQUAL | I_MIN | I_MAX =>
      on_stack (binary_op op fRequireMinimal) m
  | I_WITHIN => on_stack (within_op fRequireMinimal) m
  | I_RIPEMD160 | I_SHA1 | I_SHA256 | I_HASH160 | I_HASH256 => on_stack (hash_op op) m
  | I_CODESEPARATOR => done_ (set_pbegincodehash pc m)
  | I_CHECKSIG | I_CHECKSIGVERIFY => on_stack (checksig op (i_pbegincodehash m)) m
  | I_CHECKMULTISIG | I_CHECKMULTISIGVERIFY =>
      '(stack, nOpCount) ←? checkmultisig op (i_pbegincodehash m) (i_nOpCount m) (i_stack m);
      done_ (set_nOpCount nOpCount (set_stack stack m))
  | I_DISABLED | I_BAD => fail_ SCRIPT_ERR_BAD_OPCODE
  end.

(** One round of the loop. *)
Definition eval_step (pc : CScript) (m : machine) : evaluation (CScript * machine) :=
  let fExec := forallb id (i_vfExec m) in
  match GetScriptOp pc with
  | (None, _) => fail_ SCRIPT_ERR_BAD_OPCODE
  | (Some (opcode, vchPushValue), pc) =>
      _ ←? fail_if (bool_decide (MAX_SCRIPT_ELEMENT_SIZE < Z.of_nat (length vchPushValue)))
             SCRIPT_ERR_PUSH_SIZE;
      let m := if decide (OP_16 < opcode) then set_nOpCount (i_nOpCount m + 1) m else m in
      _ ←? fail_if (bool_decide (OP_16 < opcode) && bool_decide (MAX_OPS_PER_SCRIPT < i_nOpCount m))
             SCRIPT_ERR_OP_COUNT;
      _ ←? fail_if (bool_decide (decode opcode = I_DISABLED)) SCRIPT_ERR_DISABLED_OPCODE;
      _ ←? fail_if (bool_decide (decode opcode = I_CODESEPARATOR) && bool_decide (sigversion = BASE) &&
                    has flags SCRIPT_VERIFY_CONST_SCRIPTCODE) SCRIPT_ERR_OP_CODESEPARATOR;
      m ←? (if fExec && bool_decide (0 ≤ opcode ≤ OP_PUSHDATA4) then
              bad ← (if fRequireMinimal
                     then minimal ← CheckMinimalPush vchPushValue opcode; Ok (negb minimal)
                     else Ok false);
              _ ←? fail_if bad SCRIPT_ERR_MINIMALDATA;
              done_ (set_stack (vchPushValue :: i_stack m) m)
            else if fExec || bool_decide (OP_IF ≤ opcode ≤ OP_ENDIF) then exec_op opcode fExec pc m
            else done_ m);
      _ ←? fail_if (bool_decide (MAX_STACK_SIZE < Z.of_nat (length (i_stack m) + length (i_altstack m))))
             SCRIPT_ERR_STACK_SIZE;
      done_ (pc, m)
  end.

(** [while (pc < pend)]: every round reads at least one byte. *)
Fixpoint eval_loop (fuel : nat) (pc : CScript) (m : machine) : evaluation machine :=
  match pc with
  | [] => done_ m
  | _ =>
      match fuel with
      | O => Raise AssertionFailure
      | S fuel => '(pc, m) ←? eval_step pc m; eval_loop fuel pc m
      end
  end.

(** [catch (...)]: an assertion and an access out of bounds are no exceptions. *)
Definition catch_all {A} (c : evaluation A) : evaluation A :=
  match c with
  | Raise AssertionFailure => Raise AssertionFailure
  | Raise OutOfBounds => Raise OutOfBounds
  | Raise _ => fail_ SCRIPT_ERR_UNKNOWN_ERROR
  | Ok r => Ok r
  end.

Definition machine_new (stack : Stack) (script : CScript) : machine :=
  {| i_stack := stack; i_altstack := []; i_vfExec := []; i_nOpCount := 0; i_pbegincodehash := script |}.

(** The new stack of an evaluation that succeeds. *)
Definition EvalScript (stack : Stack) (script : CScript) : evaluation Stack :=
  if decide (MAX_SCRIPT_SIZE < Z.of_nat (length script)) then fail_ SCRIPT_ERR_SCRIPT_SIZE
  else
    m ←? catch_all (eval_loop (length script) script (machine_new stack script));
    _ ←? fail_if (bool_decide (i_vfExec m ≠ [])) SCRIPT_ERR_UNBALANCED_CONDITIONAL;
    done_ (i_stack m).
End with_checker.

(** ** Scripts of an input *)

(** The last element of the witness is a script of the given hash: it is
    evaluated on the others. *)
Definition witness_by_script (witness : list bytes) (hash : bytes) :
  evaluation (option (Stack * CScript)) :=
  match last witness with
  | None => fail_ SCRIPT_ERR_WITNESS_PROGRAM_WITNESS_EMPTY
  | Some scriptPubKey =>
      let stack := rev (take (length witness - 1) witness) in
      if decide (be_bytes 32 (SHA256 scriptPubKey) ≠ hash)
      then fail_ SCRIPT_ERR_WITNESS_PROGRAM_MISMATCH
      else done_ (Some (stack, scriptPubKey))
  end.

(** The witness is a signature and a key of the given hash. *)
Definition witness_by_key (witness : list bytes) (hash_opcode : Z) (hash : bytes) :
  evaluation (option (Stack * CScript)) :=
  if decide (length witness ≠ 2%nat) then fail_ SCRIPT_ERR_WITNESS_PROGRAM_MISMATCH
  else
    done_ (Some (rev witness,
                 [OP_DUP; hash_opcode] ++ push_data hash ++ [OP_EQUALVERIFY; OP_CHECKSIG])).

(** The script a witness program stands for and the stack it starts with;
    [None] for a version left to the future. *)
Definition witness_script (witness : list bytes) (witnessProgram : WitnessProgram) (flags : Z)
    (checker : BaseSignatureChecker) : evaluation (option (Stack * CScript)) :=
  if decide (version witnessProgram = 0) then
    if WP_IsPayToScriptHash witnessProgram then
      p0 ← vec_at (program witnessProgram) 0; witness_by_script witness p0
    else if WP_IsPayToPubkeyHash witnessProgram then
      p0 ← vec_at (program witnessProgram) 0; witness_by_key witness OP_HASH160 p0
    else fail_ SCRIPT_ERR_WITNESS_PROGRAM_WRONG_LENGTH
  else if decide (version witnessProgram = 1) then
    if IsRemoteStakingP2WPKH witnessProgram then
      if decide (GetTxType checker = COINBASE)
      then p0 ← vec_at (program witnessProgram) 0; witness_by_key witness OP_HASH160 p0
      else p1 ← vec_at (program witnessProgram) 1; witness_by_key witness OP_SHA256 p1
    else fail_ SCRIPT_ERR_WITNESS_PROGRAM_WRONG_LENGTH
  else if decide (version witnessProgram = 2) then
    if IsRemoteStakingP2WSH witnessProgram then
      if decide (GetTxType checker = COINBASE)
      then p0 ← vec_at (program witnessProgram) 0; witness_by_key witness OP_HASH160 p0
      else p1 ← vec_at (program witnessProgram) 1; witness_by_script witness p1
    else fail_ SCRIPT_ERR_WITNESS_PROGRAM_WRONG_LENGTH
  else if has flags SCRIPT_VERIFY_DISCOURAGE_UPGRADABLE_WITNESS_PROGRAM
  then fail_ SCRIPT_ERR_DISCOURAGE_UPGRADABLE_WITNESS_PROGRAM
  else done_ None.

Definition VerifyWitnessProgram (witness : list bytes) (witnessProgram : WitnessProgram) (flags : Z)
    (checker : BaseSignatureChecker) : evaluation unit :=
  chosen ←? witness_script witness witnessProgram flags checker;
  match chosen with
  | None => done_ tt
  | Some (stack, scriptPubKey) =>
      _ ←? fail_if (existsb (λ v, bool_decide (MAX_SCRIPT_ELEMENT_SIZE < Z.of_nat (length v))) stack)
             SCRIPT_ERR_PUSH_SIZE;
      stack ←? EvalScript flags checker WITNESS_V0 stack scriptPubKey;
      match stack with
      | [top] => fail_if (negb (CastToBool top)) SCRIPT_ERR_EVAL_FALSE
      | _ => fail_ SCRIPT_ERR_CLEANSTACK
      end
  end.

(** [if (stack.empty()) ...; if (!CastToBool(stack.back())) ...]. *)
Definition top_is_true (stack : Stack) : evaluation unit :=
  match stack with
  | [] => fail_ SCRIPT_ERR_EVAL_FALSE
  | top :: _ => fail_if (negb (CastToBool top)) SCRIPT_ERR_EVAL_FALSE
  end.

(** [stack.resize(1)]. *)
Definition resize_1 (stack : Stack) : Stack := [default [] (last stack)].

(** The program of [script], when there is one and witnesses are verified. *)
Definition verify_program (malleated : bool) (error : ScriptError) (witness : list bytes)
    (script : CScript) (flags : Z) (checker : BaseSignatureChecker) (stack : Stack)
    (hadWitness : bool) : evaluation (Stack * bool) :=
  if has flags SCRIPT_VERIFY_WITNESS then
    p ← ExtractWitnessProgram script;
    match p with
    | None => done_ (stack, hadWitness)
    | Some witnessProgram =>
        if malleated then fail_ error
        else
          _ ←? VerifyWitnessProgram witness witnessProgram flags checker;
          done_ (resize_1 stack, true)
    end
  else done_ (stack, hadWitness).

(** [witness] is empty for the null pointer. *)
Definition VerifyScript (scriptSig scriptPubKey : CScript) (witness : list bytes) (flags : Z)
    (checker : BaseSignatureChecker) : evaluation unit :=
  if has flags SCRIPT_VERIFY_SIGPUSHONLY && negb (IsPushOnly scriptSig)
  then fail_ SCRIPT_ERR_SIG_PUSHONLY
  else
    stack ←? EvalScript flags checker BASE [] scriptSig;
    let stackCopy := if has flags SCRIPT_VERIFY_P2SH then stack else [] in
    stack ←? EvalScript flags checker BASE stack scriptPubKey;
    _ ←? top_is_true stack;
    '(stack, hadWitness) ←?
      verify_program (bool_decide (scriptSig ≠ [])) SCRIPT_ERR_WITNESS_MALLEATED
        witness scriptPubKey flags checker stack false;
    '(stack, hadWitness) ←?
      (if has flags SCRIPT_VERIFY_P2SH && IsPayToScriptHash scriptPubKey then
         if negb (IsPushOnly scriptSig) then fail_ SCRIPT_ERR_SIG_PUSHONLY
         else
           match stackCopy with
           | [] => Raise AssertionFailure
           | pubKey2 :: stack =>
               stack ←? EvalScript flags checker BASE stack pubKey2;
               _ ←? top_is_true stack;
               verify_program (bool_decide (scriptSig ≠ push_data pubKey2))
                 SCRIPT_ERR_WITNESS_MALLEATED_P2SH witness pubKey2 flags checker stack hadWitness
           end
       else done_ (stack, hadWitness));
    _ ←? (if has flags SCRIPT_VERIFY_CLEANSTACK then
            _ ← cpp_assert (has flags SCRIPT_VERIFY_P2SH);
            _ ← cpp_assert (has flags SCRIPT_VERIFY_WITNESS);
            fail_if (bool_decide (length stack ≠ 1%nat)) SCRIPT_ERR_CLEANSTACK
          else done_ tt);
    if has flags SCRIPT_VERIFY_WITNESS then
      _ ← cpp_assert (has flags SCRIPT_VERIFY_P2SH);
      fail_if (negb hadWitness && bool_decide (witness ≠ [])) SCRIPT_ERR_WITNESS_UNEXPECTED
    else done_ tt.
End eval.

(** ** Signature operations of a witness *)

Definition WitnessSigOps (witprogram : WitnessProgram) (witness : list bytes) (type : TxType) :
  outcome Z :=
  let is_staking_rsp2wsh := bool_decide (type = COINBASE) && IsRemoteStakingP2WSH witprogram in
  if WP_IsPayToPubkeyHash witprogram || IsRemoteStakingP2WPKH witprogram || is_staking_rsp2wsh
  then Ok 1
  else if WP_IsPayToScriptHash witprogram || IsRemoteStakingP2WSH witprogram then
    match last witness with
    | Some subscript => GetSigOpCount subscript true
    | None => Ok 0
    end
  else Ok 0.

(** The data of the last operation; a failed [GetOp] clears it. *)
Fixpoint last_data (fuel : nat) (pc : CScript) (data : bytes) : bytes :=
  match pc, fuel with
  | [], _ | _, O => data
  | _, S fuel =>
      let '(op, pc) := GetScriptOp pc in
      last_data fuel pc (match op with Some (_, data) => data | None => [] end)
  end.

Definition CountWitnessSigOps (scriptSig scriptPubKey : CScript) (witness : list bytes) (flags : Z)
    (type : TxType) : outcome Z :=
  if negb (has flags SCRIPT_VERIFY_WITNESS) then Ok 0
  else
    _ ← cpp_assert (has flags SCRIPT_VERIFY_P2SH);
    p ← ExtractWitnessProgram scriptPubKey;
    match p with
    | Some witnessProgram => WitnessSigOps witnessProgram witness type
    | None =>
        if IsPayToScriptHash scriptPubKey && IsPushOnly scriptSig then
          p ← ExtractWitnessProgram (last_data (length scriptSig) scriptSig []);
          match p with
          | Some witnessProgram => WitnessSigOps witnessProgram witness type
          | None => Ok 0
          end
        else Ok 0
    end.
