(* ===== verification/Sighash.v ===== *)
(** * What a signature signs: src/src/script/interpreter.cpp

    The hash of the parts of a transaction that a signature covers, before and
    with segregated witness, and the [TransactionSignatureChecker] the
    interpreter asks.  The older definition of the hash, by editing a copy of
    the transaction, is kept by src/src/test/sighash_tests.cpp; the two agree.
    The index [nIn] and the bytes of a script are as in the code; the hash
    function is a parameter. *)
From S2P Require Import Prelude Serialize Admin Params FinalizationData FinalizationOps.
From S2P Require Import StateFormat Script ScriptProofs CommitScripts Transaction Coins Checks.
From S2P Require Import Interpreter.

Definition OP_CODESEPARATOR : Z := 0xab.

(** [nHashType & 0x1f] compared with a type. *)
Definition hash_is (nHashType type : Z) : bool := bool_decide (Z.land nHashType 0x1f = type).
Definition anyone_can_pay (nHashType : Z) : bool := has nHashType SIGHASH_ANYONECANPAY.

(** ** The serialization of the parts that are signed *)

(** [while (scriptCode.GetOp(it, opcode))], counting. *)
Fixpoint count_separators (fuel : nat) (it : CScript) (nCodeSeparators : Z) : Z :=
  match fuel with
  | O => nCodeSeparators
  | S fuel =>
      match GetScriptOp it with
      | (None, _) => nCodeSeparators
      | (Some (opcode, _), it) =>
          count_separators fuel it
            (if decide (opcode = OP_CODESEPARATOR) then nCodeSeparators + 1 else nCodeSeparators)
      end
  end.

(** The second loop and the [write] after it; a failed [GetOp] moves [it]. *)
Fixpoint write_pieces (fuel : nat) (it itBegin : CScript) : bytes :=
  match fuel with
  | O => []
  | S fuel =>
      match GetScriptOp it with
      | (None, it) =>
          if decide (itBegin ≠ []) then take (length itBegin - length it) itBegin else []
      | (Some (opcode, _), it) =>
          if decide (opcode = OP_CODESEPARATOR)
          then take (length itBegin - length it - 1) itBegin ++ write_pieces fuel it it
          else write_pieces fuel it itBegin
      end
  end.

Definition SerializeScriptCode (scriptCode : CScript) : bytes :=
  let fuel := S (length scriptCode) in
  WriteCompactSize (Z.of_nat (length scriptCode) - count_separators fuel scriptCode 0) ++
  write_pieces fuel scriptCode scriptCode.

Section serializer.
(** The members of [CTransactionSignatureSerializer]. *)
Context (txTo : CTransaction) (scriptCode : CScript) (nIn nHashType : Z).

Let fAnyoneCanPay := anyone_can_pay nHashType.
Let fHashSingle := hash_is nHashType SIGHASH_SINGLE.
Let fHashNone := hash_is nHashType SIGHASH_NONE.

Definition SerializeInput (nInput : Z) : outcome bytes :=
  let nInput := if fAnyoneCanPay then nIn else nInput in
  txin ← vec_at (vin txTo) (Z.to_nat nInput);
  Ok (enc COutPoint_format (prevout txin) ++
      (if decide (nInput ≠ nIn) then enc CScript_format [] else SerializeScriptCode scriptCode) ++
      (if bool_decide (nInput ≠ nIn) && (fHashSingle || fHashNone) then enc uint32_format 0
       else enc uint32_format (nSequence txin))).

Definition SerializeOutput (nOutput : Z) : outcome bytes :=
  if fHashSingle && bool_decide (nOutput ≠ nIn) then Ok (enc CTxOut_format CTxOut_null)
  else txout ← vec_at (vout txTo) (Z.to_nat nOutput); Ok (enc CTxOut_format txout).

(** [for (i = k; i < k + n; i++)], what each round writes. *)
Fixpoint serialize_each (f : Z → outcome bytes) (n : nat) (k : Z) : outcome bytes :=
  match n with
  | O => Ok []
  | S n => a ← f k; b ← serialize_each f n (k + 1); Ok (a ++ b)
  end.

Definition SerializeForSignature : outcome bytes :=
  let nInputs := if fAnyoneCanPay then 1 else Z.of_nat (length (vin txTo)) in
  inputs ← serialize_each SerializeInput (Z.to_nat nInputs) 0;
  let nOutputs :=
    if fHashNone then 0
    else if fHashSingle then uint32 (nIn + 1) else Z.of_nat (length (vout txTo)) in
  outputs ← serialize_each SerializeOutput (Z.to_nat nOutputs) 0;
  Ok (enc uint32_format (nVersion txTo) ++
      WriteCompactSize nInputs ++ inputs ++
      WriteCompactSize nOutputs ++ outputs ++
      enc uint32_format (nLockTime txTo)).
End serializer.

Section sighash.
Context `{!Hashing}.

(** ** The hashes of a witness signature *)

Definition GetPrevoutHash (txTo : CTransaction) : Z :=
  Hash256 (concat ((λ txin, enc COutPoint_format (prevout txin)) <$> vin txTo)).

Definition GetSequenceHash (txTo : CTransaction) : Z :=
  Hash256 (concat ((λ txin, enc uint32_format (nSequence txin)) <$> vin txTo)).

Definition GetOutputsHash (txTo : CTransaction) : Z :=
  Hash256 (concat (enc CTxOut_format <$> vout txTo)).

Record PrecomputedTransactionData := {
  hashPrevouts : Z;
  hashSequence : Z;
  hashOutputs : Z;
  ready : bool;
}.

(** The constructor; the hashes of a transaction without a witness are left
    null. *)
Definition PrecomputedTransactionData_new (txTo : CTransaction) : PrecomputedTransactionData :=
  if HasWitness txTo then
    {| hashPrevouts := GetPrevoutHash txTo; hashSequence := GetSequenceHash txTo;
       hashOutputs := GetOutputsHash txTo; ready := true |}
  else {| hashPrevouts := 0; hashSequence := 0; hashOutputs := 0; ready := false |}.

(** [uint256S("00...01")]: the first byte in memory is one. *)
Definition uint256_one : Z := 2 ^ 248.

(** The three digests of the [WITNESS_V0] branch. *)
Definition witness_digests (txTo : CTransaction) (nIn nHashType : Z)
    (cache : option PrecomputedTransactionData) : outcome (Z * Z * Z) :=
  let cached (f : PrecomputedTransactionData → Z) (compute : Z) : Z :=
    match cache with Some c => if ready c then f c else compute | None => compute end in
  let single := hash_is nHashType SIGHASH_SINGLE in
  let none := hash_is nHashType SIGHASH_NONE in
  let prevouts :=
    if negb (anyone_can_pay nHashType) then cached hashPrevouts (GetPrevoutHash txTo) else 0 in
  let sequence :=
    if negb (anyone_can_pay nHashType) && negb single && negb none
    then cached hashSequence (GetSequenceHash txTo) else 0 in
  outputs ←
    (if negb single && negb none then Ok (cached hashOutputs (GetOutputsHash txTo))
     else if single && bool_decide (nIn < Z.of_nat (length (vout txTo))) then
       txout ← vec_at (vout txTo) (Z.to_nat nIn); Ok (Hash256 (enc CTxOut_format txout))
     else Ok 0);
  Ok (prevouts, sequence, outputs).

Definition SignatureHash (scriptCode : CScript) (txTo : CTransaction) (nIn nHashType amount : Z)
    (sigversion : SigVersion) (cache : option PrecomputedTransactionData) : outcome Z :=
  _ ← cpp_assert (bool_decide (nIn < Z.of_nat (length (vin txTo))));
  script ← (if IsVote txTo then txin ← vec_at (vin txTo) 0; Ok (scriptSig txin) else Ok scriptCode);
  if decide (sigversion = WITNESS_V0) then
    '(prevouts, sequence, outputs) ← witness_digests txTo nIn nHashType cache;
    txin ← vec_at (vin txTo) (Z.to_nat nIn);
    Ok (Hash256 (enc uint32_format (nVersion txTo) ++
                 enc uint256_format prevouts ++ enc uint256_format sequence ++
                 enc COutPoint_format (prevout txin) ++ enc CScript_format script ++
                 enc int64_format amount ++ enc uint32_format (nSequence txin) ++
                 enc uint256_format outputs ++ enc uint32_format (nLockTime txTo) ++
                 enc uint32_format nHashType))
  else if hash_is nHashType SIGHASH_SINGLE && bool_decide (Z.of_nat (length (vout txTo)) ≤ nIn)
  then Ok uint256_one
  else
    txTmp ← SerializeForSignature txTo scriptCode nIn nHashType;
    Ok (Hash256 (txTmp ++ enc uint32_format nHashType)).

(** ** The checker of a transaction *)

Section checker.
Context `{!Crypto, !Signatures}.
Context (txTo : CTransaction) (nIn amount : Z) (txdata : option PrecomputedTransactionData).

Definition transaction_CheckSig (vchSigIn vchPubKey : valtype) (scriptCode : CScript)
    (sigversion : SigVersion) : outcome bool :=
  let pubkey := CPubKey_Set vchPubKey in
  if negb (CPubKey_IsValid pubkey) then Ok false
  else if decide (vchSigIn = []) then Ok false
  else
    let nHashType := back vchSigIn in
    let vchSig := take (length vchSigIn - 1) vchSigIn in
    sighash ← SignatureHash scriptCode txTo nIn nHashType amount sigversion txdata;
    Ok (Verify pubkey sighash vchSig).

Definition transaction_CheckLockTime (lockTime : Z) : outcome bool :=
  if negb ((bool_decide (nLockTime txTo < LOCKTIME_THRESHOLD) &&
            bool_decide (lockTime < LOCKTIME_THRESHOLD)) ||
           (bool_decide (LOCKTIME_THRESHOLD ≤ nLockTime txTo) &&
            bool_decide (LOCKTIME_THRESHOLD ≤ lockTime)))
  then Ok false
  else if decide (nLockTime txTo < lockTime) then Ok false
  else
    txin ← vec_at (vin txTo) (Z.to_nat nIn);
    Ok (negb (bool_decide (SEQUENCE_FINAL = nSequence txin))).

(** The version that is compared is the whole field, the type included. *)
Definition transaction_CheckSequence (sequence : Z) : outcome bool :=
  txin ← vec_at (vin txTo) (Z.to_nat nIn);
  let txToSequence := nSequence txin in
  if decide (nVersion txTo < 2) then Ok false
  else if decide (Z.land txToSequence SEQUENCE_LOCKTIME_DISABLE_FLAG ≠ 0) then Ok false
  else
    let nLockTimeMask := Z.lor SEQUENCE_LOCKTIME_TYPE_FLAG SEQUENCE_LOCKTIME_MASK in
    let txToSequenceMasked := Z.land txToSequence nLockTimeMask in
    let nSequenceMasked := Z.land sequence nLockTimeMask in
    if negb ((bool_decide (txToSequenceMasked < SEQUENCE_LOCKTIME_TYPE_FLAG) &&
              bool_decide (nSequenceMasked < SEQUENCE_LOCKTIME_TYPE_FLAG)) ||
             (bool_decide (SEQUENCE_LOCKTIME_TYPE_FLAG ≤ txToSequenceMasked) &&
              bool_decide (SEQUENCE_LOCKTIME_TYPE_FLAG ≤ nSequenceMasked)))
    then Ok false
    else Ok (negb (bool_decide (txToSequenceMasked < nSequenceMasked))).

Definition TransactionSignatureChecker : BaseSignatureChecker := {|
  CheckSig := transaction_CheckSig;
  CheckLockTime := transaction_CheckLockTime;
  CheckSequence := transaction_CheckSequence;
  GetTxType := GetType txTo;
|}.
End checker.

(** ** The older definition *)

Definition set_scriptSig (s : CScript) (i : CTxIn) : CTxIn :=
  {| prevout := prevout i; scriptSig := s; nSequence := nSequence i; scriptWitness := scriptWitness i |}.
Definition set_nSequence (q : Z) (i : CTxIn) : CTxIn :=
  {| prevout := prevout i; scriptSig := scriptSig i; nSequence := q; scriptWitness := scriptWitness i |}.

(** [for (i = 0; i < vin.size(); i++) if (i != nIn) vin[i].nSequence = 0]. *)
Definition zero_sequences (nIn : nat) (vin : list CTxIn) : list CTxIn :=
  imap (λ i txin, if decide (i ≠ nIn) then set_nSequence 0 txin else txin) vin.

Definition SignatureHashOld (scriptCode : CScript) (txTo : CTransaction) (nIn nHashType : Z) :
  outcome Z :=
  if decide (Z.of_nat (length (vin txTo)) ≤ nIn) then Ok uint256_one
  else
    let n := Z.to_nat nIn in
    let scriptCode := (FindAndDelete scriptCode [OP_CODESEPARATOR]).2 in
    let ins := alter (set_scriptSig scriptCode) n (set_scriptSig [] <$> vin txTo) in
    let finish (ins : list CTxIn) (outs : list CTxOut) : outcome Z :=
      ins ← (if anyone_can_pay nHashType then txin ← vec_at ins n; Ok [txin] else Ok ins);
      Ok (Hash256 (SerializeTransaction false
                     {| vin := ins; vout := outs; nVersion := nVersion txTo;
                        nLockTime := nLockTime txTo |} ++ enc uint32_format nHashType)) in
    if hash_is nHashType SIGHASH_NONE then finish (zero_sequences n ins) []
    else if hash_is nHashType SIGHASH_SINGLE then
      if decide (Z.of_nat (length (vout txTo)) ≤ nIn) then Ok uint256_one
      else
        let outs := take (n + 1) (vout txTo) in
        let outs := imap (λ i txout, if decide (i < n)%nat then CTxOut_null else txout) outs in
        finish (zero_sequences n ins) outs
    else finish ins (vout txTo).
End sighash.
