(* ===== verification/InterpreterProofs.v ===== *)
(** * Safety of the script interpreter

    Whatever the script, the stack it starts with and the flags, an evaluation
    ends within as many rounds as the script has bytes, with a stack or with a
    [ScriptError]: no assertion fails, nothing is read outside of a vector,
    and the limits on the stack hold. *)
From S2P Require Import Prelude Serialize Admin Params FinalizationData FinalizationOps.
From S2P Require Import StateFormat Script ScriptProofs CommitScripts Transaction Coins Checks.
From S2P Require Import Interpreter Sighash.

(** ** Evaluations that are safe *)

(** [m] does not stop the node, and what it returns satisfies [P]; an
    exception that is caught is safe. *)
Definition sound {A} (P : A → Prop) (m : outcome A) : Prop :=
  match m with
  | Ok a => P a
  | Raise AssertionFailure | Raise OutOfBounds => False
  | Raise _ => True
  end.

Definition result_sat {A} (P : A → Prop) (r : result A) : Prop :=
  match r with Done a => P a | Fail _ => True end.

Abbreviation safe P := (sound (result_sat P)).

Lemma sound_mono {A} (P Q : A → Prop) m : (∀ a, P a → Q a) → sound P m → sound Q m.
Proof. destruct m as [a|[]]; cbn; auto. Qed.

Lemma safe_mono {A} (P Q : A → Prop) (c : evaluation A) : (∀ a, P a → Q a) → safe P c → safe Q c.
Proof. intros Hpq. apply sound_mono. by intros []; cbn; auto. Qed.

Lemma sound_bind {A B} (P : A → Prop) (Q : B → Prop) m (k : A → outcome B) :
  sound P m → (∀ a, P a → sound Q (k a)) → sound Q (m ≫= k).
Proof. destruct m as [a|[]]; cbn; auto. Qed.

Lemma safe_bind {A B} (P : A → Prop) (Q : B → Prop) (c : evaluation A) (k : A → evaluation B) :
  safe P c → (∀ a, P a → safe Q (k a)) → safe Q (script_bind c k).
Proof. destruct c as [[a|e]|[]]; cbn; auto. Qed.

Lemma safe_lift {A} (P : A → Prop) (m : outcome A) : sound P m → safe P (lift_ m).
Proof. by destruct m as [a|[]]. Qed.

Lemma safe_fail_if b e : safe (λ _, b = false) (fail_if b e).
Proof. by destruct b. Qed.

Lemma safe_fail_if_any b e : safe (λ _, True) (fail_if b e).
Proof. by destruct b. Qed.

Lemma sound_assert b : b = true → sound (λ _, b = true) (cpp_assert b).
Proof. by intros ->. Qed.

Lemma sound_vec_at {A} (v : list A) i a : v !! i = Some a → sound (λ x, x = a) (vec_at v i).
Proof. unfold vec_at. by intros ->. Qed.

(** Only what is returned matters. *)
Lemma sound_Ok {A} (P : A → Prop) m a : sound P m → m = Ok a → P a.
Proof. by intros Hs ->. Qed.

Create HintDb evals.
#[export] Hint Resolve safe_fail_if safe_lift sound_assert : evals.

(** [safely] goes through an evaluation; the calls are found in [evals]. *)
Ltac safely_intro :=
  let a := fresh "a" in let Ha := fresh "Ha" in
  intros a Ha; cbn beta in Ha; destruct_and?; cbn beta iota.
Ltac safely :=
  repeat (cbn beta iota;
  lazymatch goal with
  | |- sound _ (Ok _) => cbn [sound]
  | |- safe _ (done_ _) => cbn [sound result_sat done_]
  | |- safe _ (fail_ _) => exact I
  | |- safe _ (lift_ _) => apply safe_lift
  | |- safe _ (script_bind _ _) => eapply safe_bind; [solve [eauto with evals]|safely_intro]
  | |- sound _ (mbind _ _) => eapply sound_bind; [solve [eauto with evals]|safely_intro]
  | |- sound _ (let x := ?e in _) => cbv zeta
  | |- sound _ (if decide _ then _ else _) => case_decide
  | |- sound _ (if ?b then _ else _) => let E := fresh "E" in destruct b eqn:E
  end).

(** ** Stacks *)

(** An element of a stack: bytes, and not too many. *)
Record elem_ok (v : valtype) : Prop := {
  eo_bytes : Forall is_byte v;
  eo_size : Z.of_nat (length v) ≤ MAX_SCRIPT_ELEMENT_SIZE;
}.

Abbreviation stack_ok := (Forall elem_ok).

Lemma elem_ok_short v : Forall is_byte v → (length v ≤ 32)%nat → elem_ok v.
Proof. intros Hb Hl. split; [done|]. unfold MAX_SCRIPT_ELEMENT_SIZE. lia. Qed.

Lemma elem_ok_be n z : (n ≤ 32)%nat → elem_ok (be_bytes n z).
Proof.
  intros Hn. apply elem_ok_short; [apply be_bytes_bytes|by rewrite be_bytes_length].
Qed.

Lemma elem_ok_bool b : elem_ok (bool_value b).
Proof.
  destruct b; (apply elem_ok_short; [|cbn; lia]); [|done]. apply Forall_singleton. unfold is_byte. lia.
Qed.

Lemma stacktop_sound i stack : stack_ok stack → sound elem_ok (stacktop i stack).
Proof.
  intros Hs. unfold stacktop. case_decide; [done|].
  destruct (stack !! Z.to_nat (i - 1)) eqn:E; [|done]. exact (Forall_lookup_1 _ _ _ _ Hs E).
Qed.

Lemma popstack_sound stack : stack_ok stack → sound stack_ok (popstack stack).
Proof. destruct stack; cbn; [done|]. by intros [_ ?]%Forall_cons_1. Qed.

Lemma pops_sound n stack : stack_ok stack → sound stack_ok (pops n stack).
Proof.
  revert stack. induction n as [|n IH]; intros stack Hs; cbn; [done|].
  eapply sound_bind; [by apply popstack_sound|exact IH].
Qed.

Lemma need_safe n stack : safe (λ _, n ≤ Z.of_nat (length stack)) (need n stack).
Proof. unfold need. case_bool_decide; cbn; lia || done. Qed.

Lemma swap_sound i j stack : stack_ok stack → sound stack_ok (swap i j stack).
Proof.
  intros Hs. unfold swap. eapply sound_bind; [by apply stacktop_sound|intros a Ha; cbn].
  eapply sound_bind; [by apply stacktop_sound|intros b Hb; cbn].
  by apply Forall_insert; [apply Forall_insert|].
Qed.

Lemma erase_sound i stack :
  stack_ok stack → 1 ≤ i ≤ Z.of_nat (length stack) →
  sound (λ s, stack_ok s ∧ Z.of_nat (length s) = Z.of_nat (length stack) - 1) (erase i stack).
Proof.
  intros Hs Hi. unfold erase. rewrite decide_True by done. cbn. split; [by apply Forall_delete|].
  rewrite length_delete; [lia|]. apply lookup_lt_is_Some. lia.
Qed.

(** ** Numbers *)

Lemma set_vch_range n vch :
  Forall is_byte vch → (length vch ≤ n)%nat → (1 ≤ n ≤ 7)%nat →
  - 2 ^ (8 * Z.of_nat n) < set_vch vch < 2 ^ (8 * Z.of_nat n).
Proof.
  intros Hb Hl Hn. destruct vch as [|t init _] using rev_ind.
  { cbn. pose proof (Z.pow_pos_nonneg 2 (8 * Z.of_nat n)). lia. }
  apply Forall_app in Hb as [Hi [Ht _]%Forall_cons_1]. rewrite length_app in Hl. cbn in Hl.
  rewrite set_vch_snoc by (done || lia). pose proof (magnitude_range init t Hi).
  assert (2 ^ (8 * Z.of_nat (length init) + 7) ≤ 2 ^ (8 * Z.of_nat n)) by (apply Z.pow_le_mono_r; lia).
  case_decide; lia.
Qed.

(** A number read from a stack is far from the limits of [int64_t]. *)
Definition small (v : Z) : Prop := - 2 ^ 40 < v < 2 ^ 40.

Lemma script_num_sound v b n :
  elem_ok v → (1 ≤ n ≤ 5)%nat → sound small (script_num v b n).
Proof.
  intros [Hb _] Hn. unfold script_num, CScriptNum_new. case_decide; [done|].
  destruct (_ && _); [done|]. cbn. pose proof (set_vch_range n v Hb ltac:(lia) ltac:(lia)).
  assert (2 ^ (8 * Z.of_nat n) ≤ 2 ^ 40) by (apply Z.pow_le_mono_r; lia). unfold small. lia.
Qed.

Lemma script_num_sound_4 v b : elem_ok v → sound small (script_num v b nDefaultMaxNumSize).
Proof. intros. apply script_num_sound; [done|unfold nDefaultMaxNumSize; lia]. Qed.

Lemma script_num_sound_5 v b : elem_ok v → sound small (script_num v b 5).
Proof. intros. apply script_num_sound; [done|lia]. Qed.

Lemma elem_ok_num v : is_int64 v → elem_ok (CScriptNum_serialize v).
Proof.
  intros Hv. destruct (decide (v = 0)) as [->|Hnz].
  { apply (elem_ok_short []); [constructor|cbn; lia]. } unfold is_int64 in Hv.
  destruct (abs_bytes_last 8 (Z.abs v)) as (init & t & E & Hval & Hb & Ht & Hl); [lia|].
  apply Forall_app in Hb as [Hi [Hbt _]%Forall_cons_1].
  rewrite (CScriptNum_serialize_spec v init t) by done. unfold is_byte in Hbt.
  destruct (decide (2 ^ 7 ≤ t)).
  - apply elem_ok_short; [|rewrite !length_app; cbn; lia]. rewrite !Forall_app, !Forall_singleton.
    unfold is_byte. split_and!; [done|lia|lia|case_decide; lia|case_decide; lia].
  - apply elem_ok_short; [|rewrite !length_app; cbn; lia]. rewrite Forall_app, Forall_singleton.
    unfold is_byte. split; [done|]. case_decide; lia.
Qed.

Lemma elem_ok_small v : small v → elem_ok (CScriptNum_serialize v).
Proof. intros. apply elem_ok_num. unfold small, is_int64 in *. lia. Qed.

#[export] Hint Resolve stacktop_sound popstack_sound pops_sound need_safe swap_sound
  script_num_sound_4 script_num_sound_5 elem_ok_bool : evals.
#[export] Hint Resolve Forall_cons_2 : evals.

(** ** Instructions that only use the stack *)

Definition is_unary (op : instruction) : bool :=
  match op with I_1ADD | I_1SUB | I_NEGATE | I_ABS | I_NOT | I_0NOTEQUAL => true | _ => false end.

Definition is_binary (op : instruction) : bool :=
  match op with
  | I_ADD | I_SUB | I_BOOLAND | I_BOOLOR | I_NUMEQUAL | I_NUMEQUALVERIFY | I_NUMNOTEQUAL
  | I_LESSTHAN | I_GREATERTHAN | I_LESSTHANOREQUAL | I_GREATERTHANOREQUAL | I_MIN | I_MAX => true
  | _ => false
  end.

Lemma is_int64_bool b : is_int64 (of_bool b).
Proof. destruct b; unfold is_int64; cbn; lia. Qed.

Lemma is_int64_small v : small v → is_int64 v.
Proof. unfold small, is_int64. lia. Qed.

#[local] Hint Resolve is_int64_bool is_int64_small int64_range : evals.

Lemma unary_value_sound op bn : is_unary op = true → small bn → sound is_int64 (unary_value op bn).
Proof.
  intros Hop Hbn. assert (is_int64 bn) by auto with evals. unfold small in Hbn.
  destruct op; try discriminate Hop; cbn; unfold CScriptNum_add_assign, CScriptNum_sub_assign,
    CScriptNum_neg; try case_decide; safely; auto with evals;
    rewrite bool_decide_eq_true_2 by lia; apply int64_range.
Qed.

Lemma unary_op_safe op b stack :
  is_unary op = true → stack_ok stack → safe stack_ok (unary_op op b stack).
Proof.
  intros Hop Hs. unfold unary_op. safely.
  eapply sound_bind; [by apply unary_value_sound|]. safely_intro. safely.
  auto using elem_ok_num with evals.
Qed.

Lemma binary_value_sound op a b :
  is_binary op = true → small a → small b → sound is_int64 (binary_value op a b).
Proof.
  intros Hop Ha Hb. destruct op; try discriminate Hop; cbn; repeat case_decide; auto with evals.
Qed.

Lemma binary_op_safe op b stack :
  is_binary op = true → stack_ok stack → safe stack_ok (binary_op op b stack).
Proof.
  intros Hop Hs. unfold binary_op. safely. eapply sound_bind; [by apply binary_value_sound|].
  safely_intro. eapply sound_bind; [by apply pops_sound|]. safely_intro. cbv zeta.
  assert (stack_ok (CScriptNum_serialize a4 :: a5)) by auto using elem_ok_num with evals.
  case_decide; [|done]. safely. by apply popstack_sound.
Qed.

Lemma within_op_safe b stack : stack_ok stack → safe stack_ok (within_op b stack).
Proof. intros Hs. unfold within_op. safely. auto with evals. Qed.

Lemma getint_small v : small v → small (getint v).
Proof. unfold small, getint. repeat case_decide; lia. Qed.

Lemma pick_roll_op_safe op b stack : stack_ok stack → safe stack_ok (pick_roll_op op b stack).
Proof.
  intros Hs. unfold pick_roll_op. safely.
  eapply (sound_bind stack_ok); [|safely_intro; safely; auto with evals].
  case_decide; [|done]. eapply sound_mono; [|apply erase_sound; [done|lia]]. by intros ? [].
Qed.

Lemma equal_op_safe op stack : stack_ok stack → safe stack_ok (equal_op op stack).
Proof. intros Hs. unfold equal_op. safely; auto with evals. Qed.

Lemma verify_op_safe stack : stack_ok stack → safe stack_ok (verify_op stack).
Proof. intros Hs. unfold verify_op. safely. auto with evals. Qed.

(** A stack is never so large that its size is no [int64_t]. *)
Lemma stack_op_safe op stack :
  stack_ok stack → Z.of_nat (length stack) < 2 ^ 62 → safe stack_ok (stack_op op stack).
Proof.
  intros Hs Hl. destruct op; cbn [stack_op]; try exact I; safely; try (by auto with evals).
  - eapply sound_bind; [apply erase_sound; [done|lia]|]. safely_intro.
    eapply sound_bind; [apply erase_sound; [done|lia]|]. safely_intro. safely. auto with evals.
  - destruct (CastToBool _); auto with evals.
  - apply Forall_cons_2; [|done]. apply elem_ok_num. unfold is_int64. lia.
  - eapply sound_mono; [|apply erase_sound; [done|lia]]. by intros ? [].
Qed.

Lemma order_op_safe op stack : stack_ok stack → safe stack_ok (order_op op stack).
Proof.
  intros Hs. destruct op; cbn [order_op]; try exact I; safely; try (by auto with evals).
  - apply Forall_app. split; [by apply Forall_take|]. apply Forall_cons_2; [done|by apply Forall_drop].
  - apply Forall_cons_2; [|done]. apply elem_ok_num. destruct Ha0.
    unfold is_int64, MAX_SCRIPT_ELEMENT_SIZE in *. lia.
Qed.

Lemma hash_op_safe `{!Crypto, !Hashing, !OpHashes} op stack :
  stack_ok stack → safe stack_ok (hash_op op stack).
Proof.
  intros Hs. unfold hash_op. safely. apply Forall_cons_2; [|done].
  destruct op; apply elem_ok_be; lia.
Qed.

(** ** Encodings of signatures *)

(** A positive integer without superfluous zeros in front. *)
Definition der_integer (v : bytes) : Prop :=
  match v with
  | [] => False
  | [b] => b < 0x80
  | b :: b' :: _ => b < 0x80 ∧ (b = 0 → 0x80 ≤ b')
  end.

(** The signature of [r] and [s] with the hash type [h]. *)
Definition der_signature (r s : bytes) (h : Z) : bytes :=
  [0x30; Z.of_nat (length r + length s) + 4; 0x02; Z.of_nat (length r)] ++ r ++
  [0x02; Z.of_nat (length s)] ++ s ++ [h].

Lemma high_bit b : is_byte b → Z.land b 0x80 = 0 ↔ b < 0x80.
Proof. intros Hb. pose proof (sign_bit b Hb). lia. Qed.

Lemma der_integer_spec v :
  Forall is_byte v →
  der_integer v ↔
  ∃ b, v !! 0%nat = Some b ∧ Z.land b 0x80 = 0 ∧
    ¬ (1 < Z.of_nat (length v) ∧ b = 0 ∧ ∃ b', v !! 1%nat = Some b' ∧ Z.land b' 0x80 = 0).
Proof.
  intros Hv. destruct v as [|b [|b' v]]; cbn.
  - split; [done|]. by intros (?&?&?).
  - apply Forall_cons_1 in Hv as [Hb _]. pose proof (high_bit b Hb). split; [|naive_solver].
    intros ?. exists b. split_and!; [done|tauto|lia].
  - apply Forall_cons_1 in Hv as [Hb [Hb' _]%Forall_cons_1].
    pose proof (high_bit b Hb). pose proof (high_bit b' Hb'). split.
    + intros [? Hz]. exists b. split_and!; [done|tauto|]. intros (_ & -> & ? & [= <-] & Hc).
      specialize (Hz eq_refl). lia.
    + intros (? & [= <-] & ? & Hn). split; [lia|]. intros ->.
      destruct (decide (0x80 ≤ b')); [done|]. destruct Hn. split_and!; [lia|done|].
      exists b'. split; [done|lia].
Qed.

(** The reads of the encoding check, in range. *)
Lemma byte_at (sig : bytes) i :
  Forall is_byte sig → 0 ≤ i < Z.of_nat (length sig) →
  ∃ b, vec_at sig (Z.to_nat i) = Ok b ∧ sig !! Z.to_nat i = Some b ∧ is_byte b.
Proof.
  intros Hs Hi. destruct (lookup_lt_is_Some_2 sig (Z.to_nat i)) as [b Hb]; [lia|].
  exists b. split; [by apply vec_at_Ok|]. split; [done|]. exact (Forall_lookup_1 _ _ _ _ Hs Hb).
Qed.

(** The conditions of the encoding check, by the positions it reads. *)
Record encoding_at (sig : bytes) (lenR lenS : Z) : Prop := {
  ea_size : 9 ≤ Z.of_nat (length sig) ≤ 73;
  ea_compound : sig !! Z.to_nat 0 = Some 0x30;
  ea_total : sig !! Z.to_nat 1 = Some (Z.of_nat (length sig) - 3);
  ea_tagR : sig !! Z.to_nat 2 = Some 0x02;
  ea_lenR : sig !! Z.to_nat 3 = Some lenR;
  ea_lenS : sig !! Z.to_nat (5 + lenR) = Some lenS;
  ea_sum : lenR + lenS + 7 = Z.of_nat (length sig);
  ea_nonzero : 0 < lenR ∧ 0 < lenS;
  ea_tagS : sig !! Z.to_nat (lenR + 4) = Some 0x02;
  ea_R : ∃ b, sig !! Z.to_nat 4 = Some b ∧ Z.land b 0x80 = 0 ∧
    ¬ (1 < lenR ∧ b = 0 ∧ ∃ b', sig !! Z.to_nat 5 = Some b' ∧ Z.land b' 0x80 = 0);
  ea_S : ∃ b, sig !! Z.to_nat (lenR + 6) = Some b ∧ Z.land b 0x80 = 0 ∧
    ¬ (1 < lenS ∧ b = 0 ∧ ∃ b', sig !! Z.to_nat (lenR + 7) = Some b' ∧ Z.land b' 0x80 = 0);
}.

Ltac destruct_exists :=
  repeat match goal with H : ∃ _, _ |- _ => destruct H; destruct_and? end.

(** A branch of the check that returns [false]. *)
Ltac rejected :=
  exists false; split; [reflexivity|]; split; [discriminate|];
  let R := fresh "lenR" in let S := fresh "lenS" in
  intros (R & S & []); destruct_and?; destruct_exists; simplify_eq; naive_solver lia.

(** Reads a byte of the signature, leaving it in [b]. *)
Tactic Notation "read" ident(b) "at" constr(i) "of" hyp(Hs) "as" ident(E) :=
  let Hv := fresh in let Hb := fresh "H" b in
  destruct (byte_at _ i Hs ltac:(lia)) as (b & Hv & E & Hb); rewrite Hv; clear Hv;
  cbn [mbind outcome_bind]; unfold is_byte in Hb.

(** The optional read of the byte after a zero. *)
Lemma padded_read (sig : bytes) (i : Z) (c : Prop) `{!Decision c} :
  Forall is_byte sig → (c → 0 ≤ i < Z.of_nat (length sig)) →
  ∃ p, (if decide c then b ← vec_at sig (Z.to_nat i); Ok (bool_decide (Z.land b 0x80 = 0))
        else Ok false) = Ok p ∧
    (p = true ↔ c ∧ ∃ b, sig !! Z.to_nat i = Some b ∧ Z.land b 0x80 = 0).
Proof.
  intros Hs Hi. destruct (decide c) as [Hc|Hc]; [|exists false; naive_solver].
  destruct (byte_at sig i Hs (Hi Hc)) as (b & -> & E & _). eexists. split; [reflexivity|].
  rewrite bool_decide_eq_true. naive_solver.
Qed.

Lemma IsValidSignatureEncoding_at sig :
  Forall is_byte sig →
  ∃ b, IsValidSignatureEncoding sig = Ok b ∧ (b = true ↔ ∃ lenR lenS, encoding_at sig lenR lenS).
Proof.
  intros Hs. unfold IsValidSignatureEncoding. cbv zeta.
  case_decide; [rejected|]. case_decide; [rejected|].
  read s0 at 0 of Hs as E0. case_decide; [rejected|].
  read s1 at 1 of Hs as E1. case_decide; [rejected|].
  read lenR at 3 of Hs as E3. case_decide; [rejected|].
  read lenS at (5 + lenR) of Hs as E5. case_decide; [rejected|].
  read s2 at 2 of Hs as E2. case_decide; [rejected|]. case_decide; [rejected|].
  read s4 at 4 of Hs as E4. case_decide; [rejected|].
  destruct (padded_read sig 5 (1 < lenR ∧ s4 = 0) Hs) as (p & -> & Hp); [lia|].
  cbn [mbind outcome_bind]. destruct p; [rejected|].
  read t at (lenR + 4) of Hs as Et. case_decide; [rejected|]. case_decide; [rejected|].
  read s6 at (lenR + 6) of Hs as E6. case_decide; [rejected|].
  destruct (padded_read sig (lenR + 7) (1 < lenS ∧ s6 = 0) Hs) as (p & -> & Hp'); [lia|].
  cbn [mbind outcome_bind]. destruct p; [rejected|].
  exists true. split; [done|]. split; [intros _|done]. exists lenR, lenS.
  split; try done || lia.
  - rewrite E0. f_equal. lia.
  - rewrite E1. f_equal. lia.
  - rewrite E2. f_equal. lia.
  - rewrite Et. f_equal. lia.
  - exists s4. naive_solver lia.
  - exists s6. naive_solver lia.
Qed.

Lemma der_lookup_r r s h k :
  (k < length r)%nat → der_signature r s h !! (4 + k)%nat = r !! k.
Proof.
  intros Hk. unfold der_signature. rewrite lookup_app_r by (cbn; lia). cbn [length].
  by rewrite Nat.add_comm, Nat.add_sub, lookup_app_l.
Qed.

Lemma der_lookup_rest r s h k :
  der_signature r s h !! (4 + length r + k)%nat = ([0x02; Z.of_nat (length s)] ++ s ++ [h]) !! k.
Proof.
  unfold der_signature. rewrite lookup_app_r by (cbn; lia). cbn [length].
  rewrite lookup_app_r by lia. f_equal. lia.
Qed.

Lemma der_lookup_s r s h k :
  (k < length s)%nat → der_signature r s h !! (6 + length r + k)%nat = s !! k.
Proof.
  intros Hk. replace (6 + length r + k)%nat with (4 + length r + (2 + k))%nat by lia.
  rewrite der_lookup_rest, lookup_app_r by (cbn; lia). cbn [length].
  by rewrite Nat.add_comm, Nat.add_sub, lookup_app_l.
Qed.

Lemma length_der r s h : length (der_signature r s h) = (length r + length s + 7)%nat.
Proof. unfold der_signature. rewrite !length_app. cbn. lia. Qed.

(** An integer inside of a signature, by the positions of its bytes. *)
Lemma der_integer_at (sig v : bytes) (i j : Z) :
  Forall is_byte v → 0 ≤ i → j = i + 1 →
  (∀ k, (k < length v)%nat → sig !! (Z.to_nat i + k)%nat = v !! k) →
  der_integer v ↔
  0 < Z.of_nat (length v) ∧ ∃ b, sig !! Z.to_nat i = Some b ∧ Z.land b 0x80 = 0 ∧
    ¬ (1 < Z.of_nat (length v) ∧ b = 0 ∧ ∃ b', sig !! Z.to_nat j = Some b' ∧ Z.land b' 0x80 = 0).
Proof.
  intros Hv Hi -> Hat. rewrite der_integer_spec by done. destruct v as [|c v].
  { split; [by intros (?&?&?)|by intros [? _]]. }
  rewrite <- (Nat.add_0_r (Z.to_nat i)), Hat by (cbn; lia).
  assert (1 < Z.of_nat (length (c :: v)) →
    sig !! Z.to_nat (i + 1) = (c :: v) !! 1%nat) as E.
  { intros. replace (Z.to_nat (i + 1)) with (Z.to_nat i + 1)%nat by lia. apply Hat. lia. }
  split.
  - intros (b & Hb & ? & Hn). split; [cbn; lia|]. exists b. split; [done|]. split; [done|].
    intros (Hl & ? & Hc). apply Hn. by rewrite <- E.
  - intros (_ & b & Hb & ? & Hn). exists b. split; [done|]. split; [done|].
    intros (Hl & ? & Hc). apply Hn. by rewrite E.
Qed.

Lemma encoding_at_der r s h :
  Forall is_byte r → Forall is_byte s →
  encoding_at (der_signature r s h) (Z.of_nat (length r)) (Z.of_nat (length s)) ↔
  der_integer r ∧ der_integer s ∧ (length r + length s ≤ 66)%nat.
Proof.
  intros Hr Hs. pose proof (length_der r s h) as Hl.
  rewrite (der_integer_at (der_signature r s h) r 4 5), (der_integer_at (der_signature r s h) s
    (Z.of_nat (length r) + 6) (Z.of_nat (length r) + 7)); try done || lia.
  - split; [intros []; split_and!; done || lia|]. intros ((? & HR) & (? & HS) & ?).
    split; rewrite ?Hl; try done || lia.
    + apply (f_equal Some). lia.
    + replace (Z.to_nat _) with (4 + length r + 1)%nat by lia. by rewrite der_lookup_rest.
    + replace (Z.to_nat _) with (4 + length r + 0)%nat by lia. by rewrite der_lookup_rest.
  - intros k Hk. rewrite <- (der_lookup_s r s h k Hk). f_equal. lia.
  - intros k Hk. exact (der_lookup_r r s h k Hk).
Qed.

(** The parts of a signature that passes. *)
Lemma encoding_at_split sig lenR lenS :
  encoding_at sig lenR lenS →
  ∃ r s h, sig = der_signature r s h ∧ lenR = Z.of_nat (length r) ∧ lenS = Z.of_nat (length s).
Proof.
  intros []. set (nR := Z.to_nat lenR). set (nS := Z.to_nat lenS).
  assert (Z.to_nat (lenR + 4) = 4 + nR ∧ Z.to_nat (5 + lenR) = S (4 + nR))%nat as [Et El] by lia.
  rewrite Et in ea_tagS0. rewrite El in ea_lenS0.
  assert (length (drop (S (S (4 + nR)) + nS) sig) = 1%nat) as Hh by (rewrite length_drop; lia).
  destruct (drop (S (S (4 + nR)) + nS) sig) as [|h [|]] eqn:Eh; try discriminate Hh.
  exists (take nR (drop 4 sig)), (take nS (drop (S (S (4 + nR))) sig)), h.
  rewrite !length_take, !length_drop. replace (nR `min` _)%nat with nR by lia.
  replace (nS `min` _)%nat with nS by lia. split; [|lia].
  unfold der_signature. rewrite !length_take, !length_drop. replace (nR `min` _)%nat with nR by lia.
  replace (nS `min` _)%nat with nS by lia.
  rewrite <- Eh, <- drop_drop, take_drop.
  replace [2; Z.of_nat nS] with [2; lenS] by (repeat f_equal; lia). cbn [app].
  rewrite <- (drop_S _ _ _ ea_lenS0), <- (drop_S _ _ _ ea_tagS0), <- drop_drop, take_drop.
  replace (Z.of_nat (nR + nS) + 4) with (Z.of_nat (length sig) - 3) by lia.
  replace (Z.of_nat nR) with lenR by lia.
  by rewrite <- (drop_S sig _ 3 ea_lenR0), <- (drop_S sig _ 2 ea_tagR0), <- (drop_S sig _ 1 ea_total0),
    <- (drop_S sig _ 0 ea_compound0).
Qed.

(** For any bytes, the check of a signature's encoding returns; and it
    accepts exactly the strict DER encodings of two positive integers without
    superfluous zeros, followed by a hash type, of at most 73 bytes. *)
Theorem valid_encodings_are_der sig :
  Forall is_byte sig →
  ∃ b, IsValidSignatureEncoding sig = Ok b ∧
    (b = true ↔ ∃ r s h, sig = der_signature r s h ∧ der_integer r ∧ der_integer s ∧
                         (length r + length s ≤ 66)%nat).
Proof.
  intros Hs. destruct (IsValidSignatureEncoding_at sig Hs) as (b & -> & Hb).
  exists b. split; [done|]. rewrite Hb. split.
  - intros (lenR & lenS & He). pose proof He as (r & s & h & -> & -> & ->)%encoding_at_split.
    exists r, s, h. split; [done|]. apply (encoding_at_der r s h); [..|done];
      unfold der_signature in Hs; repeat (rewrite Forall_app in Hs); tauto.
  - intros (r & s & h & -> & Hd). eexists _, _. apply encoding_at_der; [..|done];
      unfold der_signature in Hs; repeat (rewrite Forall_app in Hs); tauto.
Qed.

Lemma valid_encodings_are_der_witness :
  ∃ b, IsValidSignatureEncoding (der_signature [1] [2] 1) = Ok b ∧
    (b = true ↔ ∃ r s h, der_signature [1] [2] 1 = der_signature r s h ∧ der_integer r ∧
                         der_integer s ∧ (length r + length s ≤ 66)%nat).
Proof.
  apply valid_encodings_are_der. repeat (apply Forall_cons_2; [unfold is_byte; cbn; lia|]).
  apply Forall_nil_2.
Defined.

Lemma IsValidSignatureEncoding_sound sig :
  Forall is_byte sig → sound (λ _, True) (IsValidSignatureEncoding sig).
Proof. intros Hs. by destruct (IsValidSignatureEncoding_at sig Hs) as (b & -> & _). Qed.

Lemma CheckMinimalPush_sound data opcode :
  0 ≤ opcode ≤ OP_PUSHDATA4 → sound (λ _, True) (CheckMinimalPush data opcode).
Proof.
  intros Ho. unfold CheckMinimalPush.
  eapply sound_bind; [by apply sound_assert, bool_decide_eq_true_2|]. safely_intro. safely; done.
Qed.

Lemma first_byte_sound {A} (v : list A) : (0 < length v)%nat → sound (λ _, True) (vec_at v 0).
Proof. by destruct v; cbn; [lia|]. Qed.

Lemma IsCompressedOrUncompressedPubKey_sound k :
  sound (λ _, True) (IsCompressedOrUncompressedPubKey k).
Proof.
  unfold IsCompressedOrUncompressedPubKey, COMPRESSED_PUBLIC_KEY_SIZE. case_decide; [done|].
  eapply sound_bind; [apply first_byte_sound; lia|]. safely_intro. safely; done.
Qed.

Lemma IsCompressedPubKey_sound k : sound (λ _, True) (IsCompressedPubKey k).
Proof.
  unfold IsCompressedPubKey, COMPRESSED_PUBLIC_KEY_SIZE. case_decide; [done|].
  eapply sound_bind; [apply first_byte_sound; lia|]. safely_intro. safely; done.
Qed.

(** [a && !b]: the second is only evaluated when the first holds. *)
Lemma sound_guarded (c : bool) (m : outcome bool) :
  sound (λ _, True) m → sound (λ _, True) (if c then b ← m; Ok (negb b) else Ok false).
Proof. intros Hm. destruct c; [|done]. by eapply sound_bind. Qed.

#[export] Hint Resolve IsValidSignatureEncoding_sound IsCompressedOrUncompressedPubKey_sound
  IsCompressedPubKey_sound sound_guarded eo_bytes : evals.

(** What is read from a script of bytes is bytes. *)
Lemma GetScriptOp_bytes pc opcode data pc' :
  Forall is_byte pc → GetScriptOp pc = (Some (opcode, data), pc') →
  is_byte opcode ∧ Forall is_byte data ∧ Forall is_byte pc'.
Proof.
  destruct pc as [|op pc]; cbn; [done|]. intros [Hop Hpc]%Forall_cons_1.
  case_decide; [|by intros [= <- <- <-]].
  match goal with |- context [match ?r with Some _ => _ | None => _ end] =>
    destruct r as [[n pc1]|] eqn:E end; [|done].
  assert (Forall is_byte pc1) as Hpc1.
  { repeat case_decide; simplify_eq; [done|..];
      unfold ser_readdata8, ser_readdata16, ser_readdata32 in E;
      match type of E with (_ ← read_bytes ?k pc; _) = _ =>
        destruct (read_bytes k pc) as [[]|] eqn:R; [|done] end;
      cbn in E; simplify_eq; apply read_bytes_Some in R as [-> _];
      by apply Forall_app in Hpc as [_ ?]. }
  destruct (decide (Z.of_nat (length pc1) < n)); [done|]. intros [= <- <- <-].
  split; [done|]. split; [by apply Forall_take|by apply Forall_drop].
Qed.

Section checked.
Context `{!Crypto, !Hashing, !Signatures, !SignatureForms, !OpHashes}.

Lemma CheckSignatureEncoding_safe vchSig flags :
  elem_ok vchSig → safe (λ _, True) (CheckSignatureEncoding vchSig flags).
Proof.
  intros Hs. unfold CheckSignatureEncoding. destruct vchSig as [|x sig] eqn:E; [done|].
  rewrite <- E in *. clear E x sig.
  eapply sound_bind; [auto with evals|]. safely_intro. destruct a; [done|].
  eapply (safe_bind (λ _, True)); [|intros; by destruct (_ && _)].
  destruct (has _ _); [|done]. unfold IsLowDERSignature.
  eapply sound_bind; [auto with evals|]. safely_intro. destruct (negb _); [done|]. by destruct (negb _).
Qed.

Lemma CheckPubKeyEncoding_safe k flags sigversion :
  safe (λ _, True) (CheckPubKeyEncoding k flags sigversion).
Proof.
  unfold CheckPubKeyEncoding.
  eapply sound_bind; [auto with evals|]. safely_intro. destruct a; [done|].
  eapply sound_bind; [auto with evals|]. safely_intro. by destruct a.
Qed.

Lemma CheckEncodings_safe vchSig k flags sigversion :
  elem_ok vchSig → safe (λ _, True) (CheckEncodings vchSig k flags sigversion).
Proof.
  intros Hs. unfold CheckEncodings. eapply safe_bind; [by apply CheckSignatureEncoding_safe|].
  intros. apply CheckPubKeyEncoding_safe.
Qed.

(** ** Instructions that ask the checker *)

(** What is asked of a checker: it answers. *)
Record checker_ok (checker : BaseSignatureChecker) : Prop := {
  co_sig vchSig k scriptCode sigversion :
    sound (λ _, True) (CheckSig checker vchSig k scriptCode sigversion);
  co_locktime n : sound (λ _, True) (CheckLockTime checker n);
  co_sequence n : sound (λ _, True) (CheckSequence checker n);
}.

#[local] Hint Resolve CheckEncodings_safe co_sig co_locktime co_sequence : evals.

Context (flags : Z) (checker : BaseSignatureChecker) (sigversion : SigVersion).
Hypothesis Hchecker : checker_ok checker.

Lemma null_fail_safe b vchSig : safe (λ _, True) (null_fail flags b vchSig).
Proof. unfold null_fail. by destruct (_ && _). Qed.

Lemma elem_ok_true : elem_ok (CScriptNum_serialize OP_TRUE).
Proof. apply elem_ok_small. unfold small, OP_TRUE, OP_1. lia. Qed.

Lemma elem_ok_false : elem_ok (CScriptNum_serialize OP_0).
Proof. apply elem_ok_small. unfold small, OP_0. lia. Qed.

#[local] Hint Resolve null_fail_safe elem_ok_true elem_ok_false : evals.

Lemma checkcommit_safe scriptCode stack :
  stack_ok stack → safe stack_ok (checkcommit flags checker sigversion scriptCode stack).
Proof.
  intros Hs. unfold checkcommit. destruct (GetTxType checker);
    try (safely; auto with evals; fail).
  - unfold checkcommit_vote. safely. destruct (DecodeVote a0) as [[vote voteSig]|]; [|done].
    safely. auto with evals.
  - unfold checkcommit_logout. safely. auto with evals.
  - unfold checkcommit_slash. safely. destruct (DecodeVote a0) as [[vote1 voteSig1]|]; [|done].
    destruct (DecodeVote a1) as [[vote2 voteSig2]|]; [|done]. safely. auto with evals.
Qed.

Lemma checklocktime_safe stack : stack_ok stack → safe (λ _, True) (checklocktime flags checker stack).
Proof. intros Hs. unfold checklocktime. safely; [done|]. apply safe_fail_if_any. Qed.

Lemma checksequence_safe stack : stack_ok stack → safe (λ _, True) (checksequence flags checker stack).
Proof. intros Hs. unfold checksequence. safely; [done..|]. apply safe_fail_if_any. Qed.

Lemma drop_signature_safe scriptCode vchSig :
  safe (λ _, True) (drop_signature flags sigversion scriptCode vchSig).
Proof.
  unfold drop_signature. case_decide; [|done]. destruct (FindAndDelete _ _). by safely.
Qed.

#[local] Hint Resolve drop_signature_safe : evals.

Lemma checksig_safe op scriptCode stack :
  stack_ok stack → safe stack_ok (checksig flags checker sigversion op scriptCode stack).
Proof. intros Hs. unfold checksig. safely; auto with evals. Qed.

Lemma drop_signatures_safe n i stack scriptCode :
  stack_ok stack → safe (λ _, True) (drop_signatures flags sigversion n i stack scriptCode).
Proof.
  intros Hs. revert i scriptCode. induction n as [|n IH]; intros i scriptCode; cbn; [done|].
  safely. apply IH.
Qed.

(** Every round uses up a key, and there are enough of them. *)
Lemma match_signatures_safe fuel stack scriptCode isig ikey nSigs nKeys :
  stack_ok stack → nSigs ≤ nKeys → nKeys ≤ Z.of_nat fuel →
  safe (λ _, True) (match_signatures flags checker sigversion fuel stack scriptCode
                      isig ikey nSigs nKeys).
Proof.
  intros Hs. revert isig ikey nSigs nKeys. induction fuel as [|fuel IH];
    intros isig ikey nSigs nKeys Hle Hf; cbn; (case_decide; [done|]); [lia|].
  safely; [done|]. apply IH; lia.
Qed.

Lemma clean_arguments_safe n b ikey2 stack :
  stack_ok stack → safe stack_ok (clean_arguments flags n b ikey2 stack).
Proof.
  revert ikey2 stack. induction n as [|n IH]; intros ikey2 stack Hs; cbn; [done|].
  eapply (sound_bind (λ _, True)).
  { destruct (_ && _); [|done]. by safely. }
  safely_intro. safely. by apply IH.
Qed.

Lemma checkmultisig_safe op scriptCode nOpCount stack :
  stack_ok stack →
  safe (λ r, stack_ok r.1) (checkmultisig flags checker sigversion op scriptCode nOpCount stack).
Proof.
  intros Hs. unfold checkmultisig. cbv zeta. safely.
  eapply safe_bind; [by apply drop_signatures_safe|]. safely_intro.
  eapply safe_bind; [apply match_signatures_safe; [done|lia|lia]|]. safely_intro.
  eapply safe_bind; [by apply clean_arguments_safe|]. safely_intro. safely; cbn [fst]; auto with evals.
Qed.

(** ** The loop *)

Record machine_ok (m : machine) : Prop := {
  mo_stack : stack_ok (i_stack m);
  mo_altstack : stack_ok (i_altstack m);
  mo_size : Z.of_nat (length (i_stack m) + length (i_altstack m)) < 2 ^ 62;
}.

(** What every operation keeps; the size is checked afterwards. *)
Definition elements_ok (m : machine) : Prop := stack_ok (i_stack m) ∧ stack_ok (i_altstack m).

Lemma on_stack_safe f m :
  machine_ok m → (stack_ok (i_stack m) → safe stack_ok (f (i_stack m))) →
  safe elements_ok (on_stack f m).
Proof.
  intros [Hs Ha _] Hf. unfold on_stack. eapply safe_bind; [by apply Hf|]. safely_intro. by split.
Qed.

Lemma if_op_safe op fExec m : machine_ok m → safe elements_ok (if_op flags sigversion op fExec m).
Proof.
  intros [Hs Ha _]. unfold if_op. destruct fExec; [|by split]. safely.
  eapply (safe_bind (λ _, True)); [destruct (_ && _); [apply safe_fail_if_any|done]|].
  safely_intro. safely. by split.
Qed.

#[local] Hint Resolve checkcommit_safe verify_op_safe stack_op_safe pick_roll_op_safe order_op_safe equal_op_safe unary_op_safe binary_op_safe
  within_op_safe hash_op_safe checksig_safe checklocktime_safe checksequence_safe : evals.

Lemma exec_op_safe opcode fExec pc m :
  is_byte opcode → machine_ok m → safe elements_ok (exec_op flags checker sigversion opcode fExec pc m).
Proof.
  intros Ho Hm. pose proof Hm as [Hs Ha Hl]. unfold exec_op. cbv zeta.
  assert (Z.of_nat (length (i_stack m)) < 2 ^ 62) by lia.
  destruct (decode opcode) eqn:Eop; try (by split); try exact I;
    try (apply on_stack_safe; [done|by auto with evals]); try (by apply if_op_safe); safely;
    try (by split); try (by destruct (i_vfExec m); [|split]).
  - split; [apply Forall_cons_2; [|done]|done]. apply elem_ok_small. unfold small, is_byte, OP_1 in *. lia.
  - split; [done|]. by apply Forall_cons_2.
  - split; [|done]. by apply Forall_cons_2.
  - eapply safe_bind; [by apply checkmultisig_safe|]. intros [stack n] Hst. by split.
  - eapply safe_bind; [by apply checkmultisig_safe|]. intros [stack n] Hst. by split.
  - split; [apply Forall_cons_2; [|done]|done]. apply elem_ok_small.
    unfold small. destruct (GetTxType checker); cbn; lia.
Qed.

(** Every round reads a byte at least and leaves at most a thousand elements. *)
Lemma eval_step_safe pc m :
  Forall is_byte pc → machine_ok m →
  safe (λ r, Forall is_byte r.1 ∧ (length r.1 < length pc)%nat ∧ elements_ok r.2 ∧
             Z.of_nat (length (i_stack r.2) + length (i_altstack r.2)) ≤ MAX_STACK_SIZE)
    (eval_step flags checker sigversion pc m).
Proof.
  intros Hpc Hm. unfold eval_step. cbv zeta.
  destruct (GetScriptOp pc) as [[[opcode data]|] pc'] eqn:E; [|done].
  destruct (GetScriptOp_bytes _ _ _ _ Hpc E) as (Hop & Hdata & Hpc'). apply GetScriptOp_shrinks in E.
  set (m' := if decide (OP_16 < opcode) then _ else m).
  assert (machine_ok m') as Hm' by (subst m'; destruct Hm; case_decide; by split). clearbody m'.
  safely. apply bool_decide_eq_false in Ha. clear Ha0 Ha1 Ha2.
  eapply (safe_bind elements_ok).
  - destruct (forallb id (i_vfExec m)); cbn [andb orb].
    + case_bool_decide; [|by apply exec_op_safe].
      eapply sound_bind; [apply sound_guarded, CheckMinimalPush_sound; done|]. safely_intro. safely.
      destruct Hm'. split; [|done]. apply Forall_cons_2; [|done]. split; [done|lia].
    + case_bool_decide; [by apply exec_op_safe|]. destruct Hm'. by split.
  - intros m2 Hm2. cbn beta. eapply safe_bind; [apply safe_fail_if|].
    intros _ Hsize%bool_decide_eq_false. cbn. split_and!; [done|done|done|lia].
Qed.

Lemma eval_loop_safe fuel pc m :
  (length pc ≤ fuel)%nat → Forall is_byte pc → machine_ok m →
  safe (λ m', stack_ok (i_stack m') ∧
          (pc = [] ∧ m' = m ∨ Z.of_nat (length (i_stack m')) ≤ MAX_STACK_SIZE))
    (eval_loop flags checker sigversion fuel pc m).
Proof.
  revert pc m. induction fuel as [|fuel IH]; intros pc m Hf Hpc Hm;
    (destruct pc as [|b pc]; [destruct Hm; split; [done|by left]|]); [cbn in Hf; lia|].
  change (safe (λ m', stack_ok (i_stack m') ∧
    (b :: pc = [] ∧ m' = m ∨ Z.of_nat (length (i_stack m')) ≤ MAX_STACK_SIZE))
    ('(pc, m) ←? eval_step flags checker sigversion (b :: pc) m;
     eval_loop flags checker sigversion fuel pc m)).
  eapply safe_bind; [by apply eval_step_safe|]. intros [pc' m'] (Hb & Hl & Hel & Hsz).
  cbn [fst snd] in *. eapply safe_mono; [|apply IH; [cbn in *; lia|done|]].
  - cbn beta. intros m2 [Hs [[_ ->]|?]]; (split; [done|right]); lia.
  - destruct Hel. split; [done|done|]. unfold MAX_STACK_SIZE in Hsz. lia.
Qed.

(** An evaluation returns. *)
Lemma EvalScript_safe stack script :
  Forall is_byte script → stack_ok stack → Z.of_nat (length stack) < 2 ^ 62 →
  ∃ r, EvalScript flags checker sigversion stack script = Ok r ∧
    result_sat (λ stack', stack_ok stack' ∧
      (script = [] ∧ stack' = stack ∨ Z.of_nat (length stack') ≤ MAX_STACK_SIZE)) r.
Proof.
  intros Hscript Hs Hl. unfold EvalScript. case_decide; [by eexists|].
  assert (machine_ok (machine_new stack script)) as Hm.
  { split; cbn; [done|by apply Forall_nil_2|lia]. }
  pose proof (eval_loop_safe (length script) script _ (le_n _) Hscript Hm) as Hloop.
  destruct (eval_loop _ _ _ _ _ _) as [[m'|e]|[]]; try done; cbn; try by eexists.
  case_bool_decide; cbn; [by eexists|]. eexists. split; [done|]. cbn in *.
  destruct Hloop as [? [[-> ->]|?]]; auto.
Qed.
End checked.
