(* ===== verification/ScriptVerification.v ===== *)
(** * Verifying the scripts of an input

    [VerifyScript] with the checker of a transaction always answers: it
    accepts or returns an error, on every input the types allow. *)
From S2P Require Import Prelude Serialize Admin Params FinalizationData FinalizationOps.
From S2P Require Import StateFormat Script ScriptProofs Standard CommitScripts Transaction Coins.
From S2P Require Import Checks Interpreter Sighash InterpreterProofs.

(** ** The checker of a transaction answers *)

Lemma serialize_each_returns f n k :
  (∀ i, k ≤ i < k + Z.of_nat n → returns (f i)) → returns (serialize_each f n k).
Proof.
  revert k. induction n as [|n IH]; intros k Hf; cbn; [by eexists|].
  apply returns_bind; [apply Hf; lia|]. intros a _.
  apply returns_bind; [apply IH; intros; apply Hf; lia|]. intros b _. by eexists.
Qed.

Lemma vec_at_returns {A} (v : list A) i : 0 ≤ i < Z.of_nat (length v) → returns (vec_at v (Z.to_nat i)).
Proof.
  intros Hi. destruct (lookup_lt_is_Some_2 v (Z.to_nat i)) as [a Ha]; [lia|].
  exists a. by apply vec_at_Ok.
Qed.

Lemma SerializeForSignature_returns txTo scriptCode nIn nHashType :
  0 ≤ nIn < Z.of_nat (length (vin txTo)) →
  (hash_is nHashType SIGHASH_SINGLE = true → nIn < Z.of_nat (length (vout txTo))) →
  returns (SerializeForSignature txTo scriptCode nIn nHashType).
Proof.
  intros Hin Hsingle. unfold SerializeForSignature. cbv zeta.
  apply returns_bind; [apply serialize_each_returns|intros ins _;
    apply returns_bind; [apply serialize_each_returns|intros outs _; by eexists]].
  - intros i Hi. unfold SerializeInput. cbv zeta.
    apply returns_bind; [|intros txin _; by eexists]. apply vec_at_returns.
    destruct (anyone_can_pay nHashType); lia.
  - intros i Hi. unfold SerializeOutput. destruct (hash_is nHashType SIGHASH_SINGLE) eqn:E; cbn [andb].
    + case_bool_decide; [by eexists|]. apply returns_bind; [|intros ? _; by eexists].
      apply vec_at_returns. lia.
    + apply returns_bind; [|intros ? _; by eexists]. apply vec_at_returns.
      destruct (hash_is nHashType SIGHASH_NONE); lia.
Qed.

Section verify.
Context `{!Crypto, !Hashing, !Signatures, !SignatureForms, !OpHashes}.

(** The hash exists exactly for the inputs of the transaction. *)
Lemma SignatureHash_returns scriptCode txTo nIn nHashType amount sigversion cache :
  0 ≤ nIn → nIn < Z.of_nat (length (vin txTo)) ↔
  returns (SignatureHash scriptCode txTo nIn nHashType amount sigversion cache).
Proof.
  intros H0'. unfold SignatureHash. split.
  2: { intros [h Hh]. ok_inv Hh. by apply bool_decide_eq_true in Hr. }
  intros Hin. apply returns_bind; [by apply returns_assert, bool_decide_eq_true_2|]. intros _ _.
  apply returns_bind.
  { destruct (IsVote txTo); [|by eexists]. apply returns_bind; [|intros ? _; by eexists].
    apply (vec_at_returns _ 0). lia. }
  intros script _. case_decide.
  - apply returns_bind.
    + unfold witness_digests. cbv zeta. apply returns_bind; [|intros ? _; by eexists].
      destruct (_ && _); [by eexists|]. destruct (_ && _) eqn:E; [|by eexists].
      apply andb_true_iff in E as [_ E]. apply bool_decide_eq_true in E.
      apply returns_bind; [|intros ? _; by eexists]. apply vec_at_returns. lia.
    + intros [[? ?] ?] _. apply returns_bind; [by apply vec_at_returns|]. intros ? _. by eexists.
  - destruct (_ && _) eqn:E; [by eexists|].
    apply returns_bind; [apply SerializeForSignature_returns; [lia|]|intros ? _; by eexists].
    intros Hs. rewrite Hs in E. cbn in E. apply bool_decide_eq_false in E. lia.
Qed.

Lemma returns_sound {A} (m : outcome A) : returns m → sound (λ _, True) m.
Proof. by intros [a ->]. Qed.

Lemma transaction_checker_ok txTo nIn amount txdata :
  0 ≤ nIn < Z.of_nat (length (vin txTo)) →
  checker_ok (TransactionSignatureChecker txTo nIn amount txdata).
Proof.
  intros Hin. split; intros; apply returns_sound; cbn.
  - unfold transaction_CheckSig. cbv zeta. destruct (negb _); [by eexists|]. case_decide; [by eexists|].
    apply returns_bind; [|intros; by eexists].
    apply (SignatureHash_returns _ _ _ _ _ _ _ (proj1 Hin)), Hin.
  - unfold transaction_CheckLockTime. destruct (negb _); [by eexists|]. case_decide; [by eexists|].
    apply returns_bind; [by apply vec_at_returns|intros; by eexists].
  - unfold transaction_CheckSequence. apply returns_bind; [by apply vec_at_returns|]. intros txin _.
    cbv zeta. case_decide; [by eexists|]. case_decide; [by eexists|].
    destruct (negb _); by eexists.
Qed.

(** ** [VerifyScript] returns *)

(** An evaluation that ends with a result or a [ScriptError]. *)
Definition answers {A} (P : A → Prop) (c : evaluation A) : Prop := ∃ r, c = Ok r ∧ result_sat P r.

Lemma answers_done {A} (P : A → Prop) a : P a → answers P (done_ a).
Proof. intros. by exists (Done a). Qed.

Lemma answers_fail {A} (P : A → Prop) e : answers P (fail_ e).
Proof. by exists (Fail e). Qed.

Lemma answers_bind {A B} (P : A → Prop) (Q : B → Prop) (c : evaluation A) (k : A → evaluation B) :
  answers P c → (∀ a, P a → answers Q (k a)) → answers Q (script_bind c k).
Proof. intros ([a|e] & -> & Hr) Hk; cbn; [by apply Hk|by exists (Fail e)]. Qed.

Lemma answers_fail_if b e : answers (λ _, b = false) (fail_if b e).
Proof. destruct b; [by exists (Fail e)|by exists (Done tt)]. Qed.

Lemma answers_fail_if_any b e : answers (λ _, True) (fail_if b e).
Proof. destruct b; [by exists (Fail e)|by exists (Done tt)]. Qed.

#[local] Hint Resolve answers_done answers_fail answers_fail_if_any : core.

(** The implications between flags that [VerifyScript] asserts. *)
Record flags_ok (flags : Z) : Prop := {
  fo_cleanstack : has flags SCRIPT_VERIFY_CLEANSTACK = true → has flags SCRIPT_VERIFY_WITNESS = true;
  fo_witness : has flags SCRIPT_VERIFY_WITNESS = true → has flags SCRIPT_VERIFY_P2SH = true;
}.

(** A witness whose elements are bytes, and fewer than memory can hold. *)
Definition witness_ok (witness : list bytes) : Prop :=
  Forall (Forall is_byte) witness ∧ Z.of_nat (length witness) < 2 ^ 62.

Lemma keyhash_bytes hash_op hash :
  is_byte hash_op → Forall is_byte hash → (length hash < 76)%nat →
  Forall is_byte ([OP_DUP; hash_op] ++ push_data hash ++ [OP_EQUALVERIFY; OP_CHECKSIG]).
Proof.
  intros Ho Hh Hl. unfold push_data, OP_PUSHDATA1. rewrite decide_True by lia.
  assert (∀ z, 0 ≤ z < 256 → is_byte z) as Hb by (unfold is_byte; lia).
  rewrite !Forall_app, !Forall_cons. unfold OP_DUP, OP_EQUALVERIFY, OP_CHECKSIG.
  split_and!; try apply Hb; try apply Forall_nil_2; done || lia.
Qed.

(** The hashes of a program are bytes of the script. *)
Lemma witness_pushes_bytes fuel pc progs :
  Forall is_byte pc → witness_pushes fuel pc = Some progs → Forall (Forall is_byte) progs.
Proof.
  revert pc progs. induction fuel as [|fuel IH]; intros pc progs Hpc; cbn; [done|].
  destruct (GetScriptOp pc) as [[[opcode data]|] pc'] eqn:E; [|done].
  destruct (GetScriptOp_bytes _ _ _ _ Hpc E) as (_ & Hd & Hpc').
  destruct pc' as [|b pc'].
  { intros [= <-]. by apply Forall_singleton. }
  destruct (witness_pushes fuel (b :: pc')) as [rest|] eqn:Er; [|done]. intros [= <-].
  apply Forall_cons_2; [done|]. by eapply IH.
Qed.

Lemma ExtractWitnessProgram_bytes script w :
  Forall is_byte script → ExtractWitnessProgram script = Ok (Some w) →
  Forall (Forall is_byte) (program w).
Proof.
  intros Hs. unfold ExtractWitnessProgram. destruct (negb _); [done|].
  destruct (GetScriptOp script) as [[[opcode data]|] pc] eqn:E; [|done].
  destruct (GetScriptOp_bytes _ _ _ _ Hs E) as (_ & _ & Hpc). intros Hw. ok_inv Hw.
  destruct (witness_pushes _ _) as [progs|] eqn:Ep; [|done]. injection Hw as <-.
  by eapply witness_pushes_bytes.
Qed.

(** What a witness program is evaluated with. *)
Definition chosen_ok (o : option (Stack * CScript)) : Prop :=
  match o with
  | Some (stack, script) =>
      Forall is_byte script ∧ Forall (Forall is_byte) stack ∧ Z.of_nat (length stack) < 2 ^ 62
  | None => True
  end.

Lemma witness_by_script_safe witness hash :
  witness_ok witness → answers chosen_ok (witness_by_script witness hash).
Proof.
  intros [Hw Hl]. unfold witness_by_script. destruct (last witness) as [spk|] eqn:E; [|done].
  cbv zeta. case_decide; [done|]. rewrite last_lookup in E. apply answers_done.
  split; [exact (Forall_lookup_1 _ _ _ _ Hw E)|].
  split; [by apply Forall_rev, Forall_take|]. rewrite length_rev, length_take. lia.
Qed.

Lemma witness_by_key_safe witness op hash :
  witness_ok witness → is_byte op → Forall is_byte hash → (length hash < 76)%nat →
  answers chosen_ok (witness_by_key witness op hash).
Proof.
  intros [Hw Hl] Ho Hh Hn. unfold witness_by_key. case_decide; [done|]. apply answers_done.
  split; [by apply keyhash_bytes|]. split; [by apply Forall_rev|]. by rewrite length_rev.
Qed.

(** Reading a hash of a program of a known kind. *)
Lemma read_hash {A} w i n m (Q : A → Prop) (k : bytes → evaluation A) :
  Forall (Forall is_byte) (program w) → length (program w) = n → (i < n)%nat → program_size w i = m →
  (∀ p, Forall is_byte p → length p = m → answers Q (k p)) →
  answers Q (p ← vec_at (program w) i; k p).
Proof.
  intros Hp Hn Hi Hm Hk. destruct (lookup_lt_is_Some_2 (program w) i) as [p Ep]; [lia|].
  unfold vec_at, program_size in *. rewrite Ep in *. apply Hk; [|done].
  exact (Forall_lookup_1 _ _ _ _ Hp Ep).
Qed.

Lemma witness_script_safe witness w flags checker :
  witness_ok witness → Forall (Forall is_byte) (program w) →
  answers chosen_ok (witness_script witness w flags checker).
Proof.
  intros Hw Hp. unfold witness_script.
  assert (is_byte OP_HASH160 ∧ is_byte OP_SHA256) as [? ?] by (unfold is_byte, OP_HASH160, OP_SHA256; lia).
  destruct (decide (version w = 0)); [|destruct (decide (version w = 1));
    [|destruct (decide (version w = 2)); [|destruct (has _ _); [done|by apply answers_done]]]].
  - destruct (WP_IsPayToScriptHash w) eqn:E; [|destruct (WP_IsPayToPubkeyHash w) eqn:E'; [|done]].
    + unfold WP_IsPayToScriptHash in E. split_andb.
      eapply read_hash; [done..|lia|done|]. intros. by apply witness_by_script_safe.
    + unfold WP_IsPayToPubkeyHash in E'. split_andb.
      eapply read_hash; [done..|lia|done|]. intros. apply witness_by_key_safe; done || lia.
  - destruct (IsRemoteStakingP2WPKH w) eqn:E; [|done]. unfold IsRemoteStakingP2WPKH in E. split_andb.
    case_decide; (eapply read_hash; [done..|lia|done|]); intros; apply witness_by_key_safe; done || lia.
  - destruct (IsRemoteStakingP2WSH w) eqn:E; [|done]. unfold IsRemoteStakingP2WSH in E. split_andb.
    case_decide; (eapply read_hash; [done..|lia|done|]); intros;
      [apply witness_by_key_safe; done || lia|by apply witness_by_script_safe].
Qed.

Section with_checker.
Context (flags : Z) (checker : BaseSignatureChecker).
Hypothesis Hchecker : checker_ok checker.

Lemma EvalScript_total sigversion stack script :
  Forall is_byte script → stack_ok stack → Z.of_nat (length stack) < 2 ^ 62 →
  answers (λ s, stack_ok s ∧ Z.of_nat (length s) < 2 ^ 62) (EvalScript flags checker sigversion stack script).
Proof.
  intros Hb Hs Hl. destruct (EvalScript_safe flags checker sigversion Hchecker stack script Hb Hs Hl)
    as ([s|e] & -> & Hr); [|apply answers_fail]. apply answers_done. cbn in Hr. unfold MAX_STACK_SIZE in Hr.
  destruct Hr as [? [[_ ->]|?]]; split; done || lia.
Qed.

Lemma VerifyWitnessProgram_safe witness w :
  witness_ok witness → Forall (Forall is_byte) (program w) →
  answers (λ _, True) (VerifyWitnessProgram witness w flags checker).
Proof.
  intros Hw Hp. unfold VerifyWitnessProgram.
  eapply answers_bind; [by apply witness_script_safe|]. intros [[stack script]|] Hc; [|by apply answers_done].
  destruct Hc as (Hscript & Hstack & Hl). eapply answers_bind; [apply answers_fail_if|]. intros ? Hsz. cbn beta in Hsz.
  eapply answers_bind; [apply EvalScript_total; [done| |done]|].
  - rewrite Forall_forall in Hstack |- *. intros v Hv. split; [by apply Hstack|].
    destruct (decide (Z.of_nat (length v) ≤ MAX_SCRIPT_ELEMENT_SIZE)); [done|].
    rewrite <- not_true_iff_false in Hsz. destruct Hsz. apply existsb_exists. exists v.
    split; [by apply list_elem_of_In|]. apply bool_decide_eq_true_2. lia.
  - intros [|top [|]] _; [done| |done]. apply answers_fail_if_any.
Qed.

Lemma top_is_true_answers stack : answers (λ _, stack ≠ []) (top_is_true stack).
Proof.
  destruct stack; cbn; [done|]. destruct (negb _); [apply answers_fail|by apply answers_done].
Qed.

Lemma verify_program_answers malleated error witness script stack hadWitness :
  witness_ok witness → Forall is_byte script →
  answers (λ _, True) (verify_program malleated error witness script flags checker stack hadWitness).
Proof.
  intros Hw Hs. unfold verify_program. destruct (has _ _); [|by auto].
  destruct (ExtractWitnessProgram_returns script) as [[w|] Ew]; rewrite Ew; cbn [mbind outcome_bind];
    [|by auto]. destruct malleated; [by auto|].
  eapply answers_bind; [|by auto]. apply VerifyWitnessProgram_safe; [done|].
  by eapply ExtractWitnessProgram_bytes.
Qed.

(** A script hash needs an element to hash. *)
Lemma script_hash_of_nothing sigversion script :
  IsPayToScriptHash script = true →
  EvalScript flags checker sigversion [] script = Ok (Fail SCRIPT_ERR_INVALID_STACK_OPERATION).
Proof.
  intros Hp. unfold IsPayToScriptHash in Hp. split_andb. destruct script as [|op script]; [done|].
  cbn in *. subst op. unfold EvalScript. rewrite decide_False by (unfold MAX_SCRIPT_SIZE; cbn; lia).
  cbn [length eval_loop]. unfold eval_step. rewrite GetScriptOp_opcode by done. reflexivity.
Qed.

Lemma VerifyScript_answers scriptSig scriptPubKey witness :
  flags_ok flags → Forall is_byte scriptSig → Forall is_byte scriptPubKey → witness_ok witness →
  answers (λ _, True) (VerifyScript scriptSig scriptPubKey witness flags checker).
Proof.
  intros [Hclean Hwit] Hsig Hpub Hw. unfold VerifyScript. destruct (_ && _); [by auto|].
  eapply answers_bind; [apply EvalScript_total; [done|by apply Forall_nil_2|cbn; lia]|].
  intros stack [Hs Hl]. cbv zeta.
  eapply (answers_bind (λ s, has flags SCRIPT_VERIFY_P2SH = true →
                             IsPayToScriptHash scriptPubKey = true → stack ≠ [])).
  { destruct (EvalScript_total BASE stack scriptPubKey Hpub Hs Hl) as ([s|e] & E & _); rewrite E;
      [|apply answers_fail].
    apply answers_done. intros _ Hp ->. by rewrite script_hash_of_nothing in E. }
  intros stack2 Hne. eapply answers_bind; [apply top_is_true_answers|]. intros _ _.
  eapply answers_bind; [by apply verify_program_answers|]. intros [stack3 had] _.
  eapply (answers_bind (λ _, True)).
  { destruct (has flags SCRIPT_VERIFY_P2SH) eqn:Ep; [|by apply answers_done].
    destruct (IsPayToScriptHash scriptPubKey) eqn:Eh; [|by apply answers_done]. cbn [andb].
    destruct (negb _); [done|]. specialize (Hne eq_refl eq_refl).
    destruct stack as [|pubKey2 stack]; [done|]. apply Forall_cons_1 in Hs as [[Hk _] Hs].
    eapply answers_bind; [apply EvalScript_total; [done|done|cbn in Hl; lia]|]. intros stack4 _.
    eapply answers_bind; [apply top_is_true_answers|]. intros _ _. by apply verify_program_answers. }
  intros [stack4 had'] _. eapply (answers_bind (λ _, True)).
  { destruct (has flags SCRIPT_VERIFY_CLEANSTACK); [|by apply answers_done].
    rewrite Hwit, Hclean by auto. apply answers_fail_if_any. }
  intros _ _. destruct (has flags SCRIPT_VERIFY_WITNESS); [|by apply answers_done].
  rewrite Hwit by done. apply answers_fail_if_any.
Qed.
End with_checker.

Lemma flags_ok_standard : flags_ok STANDARD_SCRIPT_VERIFY_FLAGS.
Proof. by split; vm_compute. Qed.

Lemma flags_ok_block csv_active : flags_ok (GetBlockScriptFlags csv_active).
Proof. by destruct csv_active; split; vm_compute. Qed.

(** C6: Verifying an input always answers.  For every transaction and every
    index of an input, all scripts and witnesses of bytes, and all flags of
    which the asserted implications hold, [VerifyScript] returns success or a
    [ScriptError]: no assertion fails, nothing is read outside of a vector,
    no exception leaves it and the rounds of its loops are bounded by the sizes
    of the scripts.  The implications hold of the flags for transactions that
    are relayed and of those for blocks. *)
Theorem verification_always_answers :
  (∀ txTo nIn amount txdata flags scriptSig scriptPubKey witness,
    0 ≤ nIn < Z.of_nat (length (vin txTo)) → flags_ok flags →
    Forall is_byte scriptSig → Forall is_byte scriptPubKey → witness_ok witness →
    ∃ r, VerifyScript scriptSig scriptPubKey witness flags
           (TransactionSignatureChecker txTo nIn amount txdata) = Ok r) ∧
  flags_ok STANDARD_SCRIPT_VERIFY_FLAGS ∧ ∀ csv_active, flags_ok (GetBlockScriptFlags csv_active).
Proof.
  split; [|split; [apply flags_ok_standard|apply flags_ok_block]]. intros.
  destruct (VerifyScript_answers flags (TransactionSignatureChecker txTo nIn amount txdata)
    (transaction_checker_ok txTo nIn amount txdata ltac:(done)) scriptSig scriptPubKey witness)
    as (r & E & _); [done..|]. by exists r.
Qed.
End verify.

(** ** Witnesses *)

#[local] Instance toy_crypto : Crypto := {|
  Hash160 := foldl (λ h b, (h * 31 + b) mod 2 ^ 160) 7;
  IsFullyValid := λ k, bool_decide (length k = 33%nat);
|}.
#[local] Instance toy_hashing : Hashing := {| Hash256 := foldl (λ h b, uint256 (h * 31 + b)) 7 |}.
#[local] Instance toy_signatures : Signatures :=
  {| secp256k1_verify := λ k h sig, bool_decide (sig = be_bytes 32 h ++ k) |}.
#[local] Instance toy_forms : SignatureForms := {| CheckLowS := λ _, true |}.
#[local] Instance toy_op_hashes : OpHashes := {|
  RIPEMD160 := foldl (λ h b, (h * 37 + b) mod 2 ^ 160) 7;
  SHA1 := foldl (λ h b, (h * 41 + b) mod 2 ^ 160) 7;
  SHA256 := foldl (λ h b, (h * 43 + b) mod 2 ^ 256) 7;
|}.

Definition toy_input : CTxIn := CTxIn_new {| outpoint_hash := 99; outpoint_n := 0 |} [] SEQUENCE_FINAL.
Definition toy_tx : CTransaction :=
  {| vin := [toy_input]; vout := [{| nValue := 5; scriptPubKey := [OP_TRUE] |}]; nVersion := 2; nLockTime := 0 |}.

Lemma verification_always_answers_witness :
  ∃ r, VerifyScript [] [OP_TRUE] [] STANDARD_SCRIPT_VERIFY_FLAGS
         (TransactionSignatureChecker toy_tx 0 5 None) = Ok r.
Proof.
  destruct verification_always_answers as (Hv & Hstd & _). apply Hv; [cbn; lia|exact Hstd|..].
  - apply Forall_nil_2.
  - apply Forall_cons_2; [unfold is_byte, OP_TRUE, OP_1; lia|apply Forall_nil_2].
  - split; [apply Forall_nil_2|cbn; lia].
Defined.
