(* ===== verification/Spending.v ===== *)
(** * What the output scripts of this chain accept

    The evaluation of a script is unfolded one operation at a time.  Shown for
    all stacks and flags: who can spend the output of a finalizer commit, by
    the type of the spending transaction; and whose key a remote staking
    output asks for. *)
From S2P Require Import Prelude Serialize Admin Params FinalizationData FinalizationOps.
From S2P Require Import StateFormat Script ScriptProofs Standard CommitScripts Transaction Coins.
From S2P Require Import Checks Interpreter Sighash InterpreterProofs ScriptVerification.

(** Performs the binds of an evaluation that are known to go on. *)
Lemma done_bind {A B} (a : A) (k : A → evaluation B) : script_bind (done_ a) k = k a.
Proof. done. Qed.

Lemma fail_bind {A B} e (k : A → evaluation B) : script_bind (fail_ e) k = fail_ e.
Proof. done. Qed.

Lemma script_bind_Done {A B} (c : evaluation A) (k : A → evaluation B) b :
  script_bind c k = Ok (Done b) ↔ ∃ a, c = Ok (Done a) ∧ k a = Ok (Done b).
Proof.
  destruct c as [[a|e]|f]; cbn; split; try done; try (by intros (?&?&?)); [eauto|].
  by intros (?&[= ->]&?).
Qed.

Lemma fail_if_Done b e u : fail_if b e = Ok (Done u) ↔ b = false.
Proof. by destruct b, u. Qed.

Lemma need_true n stack : n ≤ Z.of_nat (length stack) → need n stack = done_ tt.
Proof. intros. unfold need. by rewrite bool_decide_eq_false_2 by lia. Qed.

Lemma stacktop_1 a stack : stacktop 1 (a :: stack) = Ok a.
Proof. done. Qed.

Lemma stacktop_2 a b stack : stacktop 2 (a :: b :: stack) = Ok b.
Proof. done. Qed.

Lemma stacktop_3 a b c stack : stacktop 3 (a :: b :: c :: stack) = Ok c.
Proof. done. Qed.

(** Takes an evaluation that succeeded apart. *)
Ltac done_inv H :=
  cbn beta iota zeta in H;
  lazymatch type of H with
  | script_bind _ _ = Ok (Done _) =>
      let a := fresh "a" in let Ha := fresh "Ha" in
      apply script_bind_Done in H as (a & Ha & H); done_inv Ha; done_inv H
  | mbind _ _ = Ok (Done _) =>
      let a := fresh "a" in let Ha := fresh "Ha" in
      apply bind_Ok in H as (a & Ha & H); done_inv H
  | fail_if _ _ = Ok (Done _) => apply fail_if_Done in H
  | (if ?c then _ else _) = Ok (Done _) => let E := fresh "E" in destruct c eqn:E; done_inv H
  | done_ _ = Ok (Done _) => unfold done_ in H; injection H as H
  | fail_ _ = Ok (Done _) => discriminate H
  | _ => idtac
  end.

Ltac go_on :=
  cbn [andb orb negb];
  repeat first [ progress change (fail_if false ?e) with (done_ tt)
               | rewrite done_bind | rewrite fail_bind | progress cbn beta iota ].

(** The opcodes of a push are no cases of the [switch]. *)
Lemma decode_push n : 0 ≤ n ≤ OP_PUSHDATA4 → decode n = I_BAD.
Proof.
  intros Hn. assert (is_byte n) as Hb by (unfold is_byte, OP_PUSHDATA4 in *; lia). revert Hn.
  apply (bool_decide_eq_true_1 _). revert n Hb.
  apply (forall_bytes (λ n, bool_decide (0 ≤ n ≤ OP_PUSHDATA4 → decode n = I_BAD))).
  by vm_compute.
Qed.

(** The side conditions of [eval_rest_op] below. *)
Ltac opcode_side :=
  solve [ assumption | vm_compute; reflexivity | vm_compute; discriminate
        | unfold MAX_OPS_PER_SCRIPT; cbn; lia ].

Section spending.
Context `{!Crypto, !Hashing, !Signatures, !SignatureForms, !OpHashes}.
Context (flags : Z) (checker : BaseSignatureChecker) (sigversion : SigVersion).

(** ** The evaluation, one operation at a time *)

Lemma script_bind_ext {A B} (c : evaluation A) (k k' : A → evaluation B) :
  (∀ a, c = Ok (Done a) → k a = k' a) → script_bind c k = script_bind c k'.
Proof. intros Hk. destruct c as [[a|]|]; cbn; [by apply Hk|done..]. Qed.

Lemma script_bind_assoc {A B C} (c : evaluation A) (f : A → evaluation B) (g : B → evaluation C) :
  script_bind (script_bind c f) g = script_bind c (λ a, script_bind (f a) g).
Proof. by destruct c as [[a|]|]. Qed.

Lemma eval_step_shrinks pc m pc' m' :
  eval_step flags checker sigversion pc m = Ok (Done (pc', m')) → (length pc' < length pc)%nat.
Proof.
  unfold eval_step. destruct (GetScriptOp pc) as [[[opcode data]|] rest] eqn:E; [|done].
  apply GetScriptOp_shrinks in E. cbv zeta. intros Hs.
  repeat match type of Hs with
  | script_bind ?c _ = _ => destruct c as [[?|?]|?]; cbn [script_bind mbind outcome_bind] in Hs; try done
  end. by injection Hs as <- <-.
Qed.

(** More rounds than the script has bytes change nothing. *)
Lemma eval_loop_fuel fuel pc m :
  (length pc ≤ fuel)%nat →
  eval_loop flags checker sigversion fuel pc m = eval_loop flags checker sigversion (length pc) pc m.
Proof.
  intros Hf. remember (length pc) as n eqn:Hn. assert (length pc ≤ n)%nat as Hle by lia. clear Hn.
  revert n pc m Hle Hf. induction fuel as [|fuel IH]; intros n pc m Hle Hf.
  - assert (n = 0)%nat as -> by lia. done.
  - destruct pc as [|b pc]; [by destruct n|]. destruct n as [|n]; [cbn in Hle; lia|]. cbn [eval_loop].
    apply script_bind_ext. intros [pc' m'] Hstep%eval_step_shrinks. cbn in Hstep, Hle.
    apply IH; lia.
Qed.

(** The rest of an evaluation. *)
Definition eval_rest (pc : CScript) (m : machine) : evaluation machine :=
  eval_loop flags checker sigversion (length pc) pc m.

Lemma eval_rest_step b pc m :
  eval_rest (b :: pc) m =
  ('(pc', m') ←? eval_step flags checker sigversion (b :: pc) m; eval_rest pc' m').
Proof.
  unfold eval_rest at 1. cbn [length eval_loop]. apply script_bind_ext.
  intros [pc' m'] Hstep%eval_step_shrinks. cbn in Hstep. apply eval_loop_fuel. lia.
Qed.

(** The check at the end of a round. *)
Definition stack_fits (m : machine) : bool :=
  bool_decide (Z.of_nat (length (i_stack m) + length (i_altstack m)) ≤ MAX_STACK_SIZE).

Lemma size_check pc m :
  ('(pc', m') ←? (_ ←? fail_if (bool_decide (MAX_STACK_SIZE <
       Z.of_nat (length (i_stack m) + length (i_altstack m)))) SCRIPT_ERR_STACK_SIZE; done_ (pc, m));
   eval_rest pc' m') =
  if stack_fits m then eval_rest pc m else fail_ SCRIPT_ERR_STACK_SIZE.
Proof.
  unfold stack_fits. destruct (bool_decide (_ ≤ MAX_STACK_SIZE)) eqn:E.
  - apply bool_decide_eq_true in E. by rewrite bool_decide_eq_false_2 by lia.
  - apply bool_decide_eq_false in E. by rewrite bool_decide_eq_true_2 by lia.
Qed.

(** An operation that pushes nothing. *)
Lemma eval_rest_op opcode pc m :
  OP_16 < opcode → decode opcode ≠ I_DISABLED → decode opcode ≠ I_CODESEPARATOR →
  i_nOpCount m < MAX_OPS_PER_SCRIPT →
  eval_rest (opcode :: pc) m =
  let m1 := set_nOpCount (i_nOpCount m + 1) m in
  m' ←? (if forallb id (i_vfExec m) || bool_decide (OP_IF ≤ opcode ≤ OP_ENDIF)
         then exec_op flags checker sigversion opcode (forallb id (i_vfExec m)) pc m1
         else done_ m1);
  if stack_fits m' then eval_rest pc m' else fail_ SCRIPT_ERR_STACK_SIZE.
Proof.
  intros Hop Hd Hc Hn. rewrite eval_rest_step. unfold eval_step.
  rewrite GetScriptOp_opcode by (unfold OP_16, OP_PUSHDATA4 in *; lia). cbv zeta.
  rewrite (decide_True (P := OP_16 < opcode)) by done.
  rewrite (bool_decide_eq_false_2 (MAX_SCRIPT_ELEMENT_SIZE < _)) by (unfold MAX_SCRIPT_ELEMENT_SIZE; cbn; lia).
  rewrite (bool_decide_eq_false_2 (MAX_OPS_PER_SCRIPT < _)), andb_false_r by (cbn; lia).
  rewrite (bool_decide_eq_false_2 (_ = I_DISABLED)), (bool_decide_eq_false_2 (_ = I_CODESEPARATOR)) by done.
  rewrite (bool_decide_eq_false_2 (0 ≤ _ ≤ _)), andb_false_r by (unfold OP_16, OP_PUSHDATA4 in *; lia).
  go_on. rewrite script_bind_assoc. apply script_bind_ext. intros m' _. apply size_check.
Qed.

(** [OP_TRUE]. *)
Lemma eval_rest_true pc m :
  eval_rest (OP_TRUE :: pc) m =
  let m' := if forallb id (i_vfExec m) then set_stack (vchTrue :: i_stack m) m else m in
  if stack_fits m' then eval_rest pc m' else fail_ SCRIPT_ERR_STACK_SIZE.
Proof.
  rewrite eval_rest_step. unfold eval_step. rewrite GetScriptOp_opcode by done. cbv zeta.
  rewrite (decide_False (P := OP_16 < OP_TRUE)) by done.
  change (decode OP_TRUE) with I_NUMBER.
  rewrite (bool_decide_eq_false_2 (MAX_SCRIPT_ELEMENT_SIZE < _)) by (unfold MAX_SCRIPT_ELEMENT_SIZE; cbn; lia).
  rewrite (bool_decide_eq_false_2 (OP_16 < _)) by done.
  rewrite !(bool_decide_eq_false_2 (I_NUMBER = _)) by done.
  rewrite (bool_decide_eq_false_2 (0 ≤ _ ≤ _)) by (unfold OP_TRUE, OP_1, OP_PUSHDATA4; lia).
  rewrite (bool_decide_eq_false_2 (OP_IF ≤ _ ≤ _)) by (unfold OP_TRUE, OP_1, OP_IF; lia).
  set (m' := if forallb id (i_vfExec m) then set_stack (vchTrue :: i_stack m) m else m).
  match goal with |- context [if ?b && false then ?x else if ?b || false then ?y else ?z] =>
    assert ((if b && false then x else if b || false then y else z) = done_ m') as ->
      by (subst m'; by destruct b) end.
  go_on. apply size_check.
Qed.

(** A push of at least two and at most 75 bytes, which is minimal. *)
Lemma eval_rest_push v pc m :
  (2 ≤ length v ≤ 75)%nat →
  eval_rest (push_data v ++ pc) m =
  let m' := if forallb id (i_vfExec m) then set_stack (v :: i_stack m) m else m in
  if stack_fits m' then eval_rest pc m' else fail_ SCRIPT_ERR_STACK_SIZE.
Proof.
  intros Hv. assert (push_data v = Z.of_nat (length v) :: v) as Ev.
  { unfold push_data, OP_PUSHDATA1. by rewrite decide_True by lia. }
  rewrite Ev. cbn [app]. rewrite eval_rest_step. unfold eval_step. change (?a :: v ++ pc) with ((a :: v) ++ pc).
  rewrite <- Ev, GetScriptOp_push_data by lia.
  assert (push_opcode v = Z.of_nat (length v)) as ->.
  { unfold push_opcode, OP_PUSHDATA1. by rewrite decide_True by lia. }
  unfold CheckMinimalPush. set (n := Z.of_nat (length v)).
  assert (2 ≤ n ≤ 75) as Hn by lia. cbv zeta.
  rewrite (decode_push n) by (unfold OP_PUSHDATA4; lia).
  rewrite (decide_False (P := OP_16 < n)) by (unfold OP_16; lia).
  rewrite (bool_decide_eq_false_2 (MAX_SCRIPT_ELEMENT_SIZE < n)) by (unfold MAX_SCRIPT_ELEMENT_SIZE; lia).
  rewrite (bool_decide_eq_false_2 (OP_16 < n)) by (unfold OP_16; lia).
  rewrite (bool_decide_eq_true_2 (0 ≤ n ≤ OP_PUSHDATA4)) by (unfold OP_PUSHDATA4; lia).
  rewrite (bool_decide_eq_false_2 (OP_IF ≤ n ≤ OP_ENDIF)) by (unfold OP_IF; lia).
  rewrite !(bool_decide_eq_false_2 (I_BAD = _)) by done.
  rewrite (decide_False (P := n = 0)), (decide_False (P := n = 1 ∧ _)),
    (decide_False (P := n = 1 ∧ _)), (decide_True (P := n ≤ 75)),
    (bool_decide_eq_true_2 (n = n)) by (lia || done).
  set (m' := if forallb id (i_vfExec m) then set_stack (v :: i_stack m) m else m).
  match goal with |- context [if ?b && true then ?x else ?y] =>
    assert ((if b && true then x else y) = done_ m') as ->
      by (subst m'; destruct b; [destruct (has flags SCRIPT_VERIFY_MINIMALDATA)|]; done) end.
  go_on. apply size_check.
Qed.

Lemma stack_fits_true m :
  Z.of_nat (length (i_stack m) + length (i_altstack m)) ≤ MAX_STACK_SIZE → stack_fits m = true.
Proof. intros. by apply bool_decide_eq_true_2. Qed.

(** ** A key of a given hash, and its signature *)

(** The signature of [key] over the script, checked or not. *)
Definition signature_checked (scriptCode : CScript) (key sig : valtype) (b : bool) : Prop :=
  ∃ scriptCode', drop_signature flags sigversion scriptCode sig = Ok (Done scriptCode') ∧
    CheckEncodings sig key flags sigversion = Ok (Done tt) ∧
    CheckSig checker sig key scriptCode' sigversion = Ok b ∧
    (b = false → has flags SCRIPT_VERIFY_NULLFAIL = true → sig = []).

Lemma null_fail_Done b sig :
  null_fail flags b sig = Ok (Done tt) ↔ (b = false → has flags SCRIPT_VERIFY_NULLFAIL = true → sig = []).
Proof.
  unfold null_fail. rewrite fail_if_Done. destruct b, (has _ _); cbn; try naive_solver.
  rewrite bool_decide_eq_false. split; [intros Hn _ _|naive_solver].
  by destruct (decide (sig = [])); [|destruct Hn].
Qed.

Lemma checksig_Done scriptCode stack stack' :
  checksig flags checker sigversion I_CHECKSIG scriptCode stack = Ok (Done stack') ↔
  ∃ key sig rest b, stack = key :: sig :: rest ∧ signature_checked scriptCode key sig b ∧
    stack' = bool_value b :: rest.
Proof.
  unfold checksig. destruct stack as [|key [|sig rest]]; [split; [done|by intros (?&?&?&?&?&?)]..|].
  rewrite need_true by (cbn; lia). go_on. split.
  - intros Hc. done_inv Hc; try done. injection Ha as <-. injection Ha0 as <-. injection Ha5 as <-.
    exists key, sig, rest, a3. split; [done|]. split; [|done]. exists a1. destruct a2, a4.
    by rewrite <- null_fail_Done.
  - intros (? & ? & ? & b & [= <- <- <-] & (code & Hd & He & Hk & Hn) & ->).
    apply null_fail_Done in Hn. rewrite stacktop_1, stacktop_2. cbn [mbind outcome_bind].
    rewrite Hd. cbn [script_bind mbind outcome_bind]. rewrite He. cbn [script_bind mbind outcome_bind].
    rewrite Hk. cbn [script_bind mbind outcome_bind]. by rewrite Hn.
Qed.

(** The operations of a key hash script, on a stack that has what they need. *)
Lemma exec_dup fExec pc m v stack :
  i_stack m = v :: stack →
  exec_op flags checker sigversion OP_DUP fExec pc m = done_ (set_stack (v :: v :: stack) m).
Proof.
  intros Hs. change (exec_op _ _ _ _ _ _ _) with
    (on_stack (stack_op I_DUP) m).
  unfold on_stack. rewrite Hs. cbn [stack_op]. by rewrite need_true by (cbn; lia).
Qed.

(** The hash an opcode computes. *)
Definition hash_of (hash_opcode : Z) (v : valtype) : bytes :=
  if decide (hash_opcode = OP_SHA256) then be_bytes 32 (SHA256 v) else be_bytes 20 (Hash160 v).

Lemma exec_hash hash_opcode fExec pc m v stack :
  hash_opcode = OP_HASH160 ∨ hash_opcode = OP_SHA256 → i_stack m = v :: stack →
  exec_op flags checker sigversion hash_opcode fExec pc m =
  done_ (set_stack (hash_of hash_opcode v :: stack) m).
Proof.
  intros Ho Hs. transitivity (on_stack (hash_op (decode hash_opcode)) m); [by destruct Ho as [->| ->]|].
  unfold on_stack, hash_op. rewrite Hs, need_true by (cbn; lia). by destruct Ho as [->| ->].
Qed.

Lemma exec_equalverify fExec pc m v1 v2 stack :
  i_stack m = v2 :: v1 :: stack →
  exec_op flags checker sigversion OP_EQUALVERIFY fExec pc m =
  if decide (v1 = v2) then done_ (set_stack stack m) else fail_ SCRIPT_ERR_EQUALVERIFY.
Proof.
  intros Hs. change (exec_op _ _ _ _ _ _ _) with (on_stack (equal_op I_EQUALVERIFY) m).
  unfold on_stack, equal_op. rewrite Hs, need_true by (cbn; lia). go_on.
  rewrite stacktop_1, stacktop_2. cbn [mbind outcome_bind].
  destruct (decide (v1 = v2)).
  - by rewrite bool_decide_eq_true_2.
  - by rewrite bool_decide_eq_false_2.
Qed.

Lemma exec_checksig fExec pc m :
  exec_op flags checker sigversion OP_CHECKSIG fExec pc m =
  (stack ←? checksig flags checker sigversion I_CHECKSIG (i_pbegincodehash m) (i_stack m);
   done_ (set_stack stack m)).
Proof. done. Qed.

Definition set_counts (n : Z) (stack : Stack) (m : machine) : machine :=
  set_stack stack (set_nOpCount n m).

Lemma eval_keyhash hash_opcode hash pc m :
  hash_opcode = OP_HASH160 ∨ hash_opcode = OP_SHA256 → (2 ≤ length hash ≤ 75)%nat →
  forallb id (i_vfExec m) = true → i_nOpCount m ≤ 190 →
  Z.of_nat (length (i_stack m) + length (i_altstack m)) ≤ 998 →
  eval_rest ([OP_DUP; hash_opcode] ++ push_data hash ++ [OP_EQUALVERIFY; OP_CHECKSIG] ++ pc) m =
  match i_stack m with
  | [] => fail_ SCRIPT_ERR_INVALID_STACK_OPERATION
  | key :: stack =>
      if decide (hash_of hash_opcode key = hash) then
        stack' ←? checksig flags checker sigversion I_CHECKSIG (i_pbegincodehash m) (key :: stack);
        eval_rest pc (set_counts (i_nOpCount m + 4) stack' m)
      else fail_ SCRIPT_ERR_EQUALVERIFY
  end.
Proof.
  intros Ho Hh Hexec Hn Hsize. destruct m as [st alt vf n code].
  cbn [i_stack i_altstack i_vfExec i_nOpCount i_pbegincodehash] in *.
  assert (OP_PUSHDATA4 < hash_opcode ∧ OP_16 < hash_opcode ∧ decode hash_opcode ≠ I_DISABLED ∧
    decode hash_opcode ≠ I_CODESEPARATOR) as (Ho1 & Ho2 & Ho3 & Ho4) by (by destruct Ho as [->| ->]).
  cbn [app]. rewrite eval_rest_op by opcode_side. cbn [i_vfExec]. rewrite Hexec. cbn [orb].
  destruct st as [|key st]; [done|]. cbn [length] in Hsize.
  erewrite exec_dup by reflexivity. go_on.
  rewrite stack_fits_true by (unfold MAX_STACK_SIZE; cbn; lia).
  rewrite eval_rest_op by opcode_side. cbv zeta. cbn [i_vfExec set_stack set_nOpCount].
  rewrite Hexec. cbn [orb]. erewrite exec_hash by done. go_on.
  rewrite stack_fits_true by (unfold MAX_STACK_SIZE; cbn; lia).
  rewrite eval_rest_push by done. cbv zeta. cbn [i_vfExec set_stack set_nOpCount]. rewrite Hexec.
  rewrite stack_fits_true by (unfold MAX_STACK_SIZE; cbn; lia).
  rewrite eval_rest_op by opcode_side. cbv zeta. cbn [i_vfExec set_stack set_nOpCount].
  rewrite Hexec. cbn [orb]. erewrite exec_equalverify by done.
  destruct (decide (hash_of hash_opcode key = hash)); [|done]. go_on.
  rewrite stack_fits_true by (unfold MAX_STACK_SIZE; cbn; lia).
  rewrite eval_rest_op by opcode_side. cbv zeta. cbn [i_vfExec set_stack set_nOpCount].
  rewrite Hexec. cbn [orb]. rewrite exec_checksig, script_bind_assoc. cbn [i_stack i_pbegincodehash].
  apply script_bind_ext. intros st' Hc. go_on.
  apply checksig_Done in Hc as (k & sig & rest & b & Es & _ & ->). injection Es as -> ->. cbn in Hsize.
  rewrite stack_fits_true by (unfold MAX_STACK_SIZE; cbn; lia).
  unfold set_counts, set_stack, set_nOpCount. cbn. by replace (n + 1 + 1 + 1 + 1) with (n + 4) by lia.
Qed.

(** A whole evaluation. *)
Lemma EvalScript_Done stack script stack' :
  EvalScript flags checker sigversion stack script = Ok (Done stack') ↔
  Z.of_nat (length script) ≤ MAX_SCRIPT_SIZE ∧
  ∃ m, eval_rest script (machine_new stack script) = Ok (Done m) ∧ i_vfExec m = [] ∧
       i_stack m = stack'.
Proof.
  unfold EvalScript. fold (eval_rest script (machine_new stack script)). case_decide.
  { split; [done|]. intros [? _]. lia. }
  rewrite script_bind_Done. split.
  - intros (m & Hm & Hd). split; [lia|]. exists m. done_inv Hd. apply bool_decide_eq_false in Ha.
    split_and!; [by destruct (eval_rest _ _) as [|[]]| |done].
    by destruct (i_vfExec m); [|destruct Ha].
  - intros (_ & m & -> & Hv & <-). exists m. split; [done|].
    rewrite Hv. by rewrite bool_decide_eq_false_2 by congruence.
Qed.

Definition keyhash_script (hash_opcode : Z) (hash : bytes) : CScript :=
  [OP_DUP; hash_opcode] ++ push_data hash ++ [OP_EQUALVERIFY; OP_CHECKSIG].

Lemma length_keyhash_script op hash :
  (2 ≤ length hash ≤ 75)%nat → length (keyhash_script op hash) = (length hash + 5)%nat.
Proof.
  intros Hh. unfold keyhash_script, push_data, OP_PUSHDATA1. rewrite decide_True by lia.
  rewrite !length_app. cbn. lia.
Qed.

Lemma keyhash_Done op hash stack stack' :
  op = OP_HASH160 ∨ op = OP_SHA256 → (2 ≤ length hash ≤ 75)%nat → (length stack ≤ 998)%nat →
  EvalScript flags checker sigversion stack (keyhash_script op hash) = Ok (Done stack') ↔
  ∃ key sig rest b, stack = key :: sig :: rest ∧ hash_of op key = hash ∧
    signature_checked (keyhash_script op hash) key sig b ∧ stack' = bool_value b :: rest.
Proof.
  intros Ho Hh Hl. rewrite EvalScript_Done, length_keyhash_script by done. unfold MAX_SCRIPT_SIZE.
  set (m := machine_new _ _).
  assert (eval_rest (keyhash_script op hash) m = eval_rest ([OP_DUP; op] ++ push_data hash ++
    [OP_EQUALVERIFY; OP_CHECKSIG] ++ []) m) as -> by done.
  rewrite eval_keyhash by (done || (subst m; cbn; lia)).
  subst m. cbn [machine_new i_stack i_pbegincodehash i_nOpCount]. split.
  - intros (_ & m & Hm & _ & <-). destruct stack as [|key stack]; [done|]. case_decide; [|done].
    done_inv Hm. apply checksig_Done in Ha as (k & sig & rest & b & [= -> ->] & Hs & ->).
    injection Hm as <-. exists k, sig, rest, b. by split_and!.
  - intros (key & sig & rest & b & -> & Hk & Hs & ->). split; [lia|]. rewrite decide_True by done.
    assert (checksig flags checker sigversion I_CHECKSIG (keyhash_script op hash) (key :: sig :: rest) =
      Ok (Done (bool_value b :: rest))) as -> by (apply checksig_Done; by eexists _, _, _, _).
    eexists. split; [reflexivity|]. done.
Qed.
End spending.

Section staking.
Context `{!Crypto, !Hashing, !Signatures, !SignatureForms, !OpHashes}.
Context (flags : Z) (checker : BaseSignatureChecker).

(** ** Remote staking *)

(** The hash a remote staking output compares the key with: the staking hash
    in a coinbase transaction, the spending hash in any other. *)
Definition staking_hash (staking spending : bytes) : Z * bytes :=
  if decide (GetTxType checker = COINBASE) then (OP_HASH160, staking) else (OP_SHA256, spending).

(** A witness of a signature and a key of the given hash. *)
Definition key_witness (op : Z) (hash : bytes) (witness : list bytes) : Prop :=
  ∃ sig key, witness = [sig; key] ∧
    Z.of_nat (length sig) ≤ MAX_SCRIPT_ELEMENT_SIZE ∧ Z.of_nat (length key) ≤ MAX_SCRIPT_ELEMENT_SIZE ∧
    hash_of op key = hash ∧
    CheckEncodings sig key flags WITNESS_V0 = Ok (Done tt) ∧
    CheckSig checker sig key (keyhash_script op hash) WITNESS_V0 = Ok true.

Lemma signature_checked_witness script key sig b :
  signature_checked flags checker WITNESS_V0 script key sig b ↔
  CheckEncodings sig key flags WITNESS_V0 = Ok (Done tt) ∧
  CheckSig checker sig key script WITNESS_V0 = Ok b ∧
  (b = false → has flags SCRIPT_VERIFY_NULLFAIL = true → sig = []).
Proof.
  unfold signature_checked, drop_signature. rewrite decide_False by done. split.
  - by intros (? & [= <-] & ? & ? & ?).
  - intros. by exists script.
Qed.

Lemma witness_keyhash_Done op hash witness w :
  op = OP_HASH160 ∨ op = OP_SHA256 → (2 ≤ length hash ≤ 75)%nat →
  witness_script witness w flags checker = witness_by_key witness op hash →
  VerifyWitnessProgram witness w flags checker = Ok (Done tt) ↔ key_witness op hash witness.
Proof.
  intros Ho Hh Hw. unfold VerifyWitnessProgram. rewrite Hw. unfold witness_by_key.
  fold (keyhash_script op hash). case_decide as Hl.
  { split; [done|]. by intros (?&?&->&_). }
  destruct witness as [|sig [|key [|]]]; try discriminate Hl. clear Hl. go_on. cbn [rev app].
  rewrite script_bind_Done. split.
  - intros ([] & Hsz%fail_if_Done & Hv). done_inv Hv.
    apply (keyhash_Done _ _ _ op hash [key; sig] _ Ho Hh ltac:(cbn; lia)) in Ha
      as (k & s & rest & b & [= <- <- <-] & Hk & Hs & ->). apply fail_if_Done in Hv. apply signature_checked_witness in Hs as (He & Hc & _).
    cbn in Hsz. rewrite orb_false_r in Hsz. apply orb_false_iff in Hsz as [H1'%bool_decide_eq_false H2'%bool_decide_eq_false].
    exists sig, key. destruct b; [|done]. split_and!; done || lia.
  - intros (? & ? & [= <- <-] & Hls & Hlk & Hk & He & Hc). exists tt. split.
    { apply fail_if_Done. cbn. by rewrite !bool_decide_eq_false_2 by lia. }
    apply script_bind_Done. exists [bool_value true]. split; [|done].
    apply keyhash_Done; [done|done|cbn; lia|]. exists key, sig, [], true. split_and!; try done.
    by apply signature_checked_witness.
Qed.

(** The script of a remote staking output, by itself, leaves its hashes. *)
Lemma eval_remote_staking sigversion staking spending :
  length staking = 20%nat → length spending = 32%nat →
  EvalScript flags checker sigversion [] ([OP_1] ++ push_data staking ++ push_data spending) =
  Ok (Done [spending; staking; vchTrue]).
Proof.
  intros Hst Hsp. apply EvalScript_Done. split.
  { unfold push_data, OP_PUSHDATA1, MAX_SCRIPT_SIZE. rewrite !decide_True, !length_app by lia. cbn. lia. }
  set (m := machine_new _ _).
  exists (set_stack [spending; staking; vchTrue] m). split; [|done].
  rewrite <- (app_nil_r (push_data spending)). cbn [app]. fold OP_TRUE. rewrite eval_rest_true.
  subst m. cbv zeta. cbn [i_vfExec machine_new forallb].
  rewrite stack_fits_true by (unfold MAX_STACK_SIZE; cbn; lia). rewrite eval_rest_push by lia.
  cbv zeta. cbn [i_vfExec machine_new forallb set_stack].
  rewrite stack_fits_true by (unfold MAX_STACK_SIZE; cbn; lia). rewrite eval_rest_push by lia.
  cbv zeta. cbn [i_vfExec machine_new forallb set_stack].
  by rewrite stack_fits_true by (unfold MAX_STACK_SIZE; cbn; lia).
Qed.

(** The program of the output selects the key by the type of transaction. *)
Lemma remote_staking_program staking spending witness :
  length staking = 20%nat → length spending = 32%nat →
  let w := {| version := 1; program := [staking; spending] |} in
  ExtractWitnessProgram ([OP_1] ++ push_data staking ++ push_data spending) = Ok (Some w) ∧
  witness_script witness w flags checker =
  witness_by_key witness (staking_hash staking spending).1 (staking_hash staking spending).2.
Proof.
  intros Hst Hsp w. split; [fixed_list staking Hst; by fixed_list spending Hsp|].
  unfold witness_script. change (version w) with 1. rewrite decide_False by done.
  rewrite decide_True by done. assert (IsRemoteStakingP2WPKH w = true) as ->.
  { unfold IsRemoteStakingP2WPKH, program_size. cbn. by rewrite Hst, Hsp. }
  unfold staking_hash. by case_decide.
Qed.

(** C31: A remote staking output can be staked with the staking key and
    spent with the spending key, and with no other: with witnesses verified,
    and nothing in the scriptSig, the input verifies exactly if the witness is
    a signature and a key, each of at most 520 bytes, where in a coinbase
    transaction the HASH160 of the key is the staking hash and in any other
    transaction its SHA256 is the spending hash, and the signature checks. *)
Theorem remote_staking_spending staking spending s witness :
  CreateRemoteStakingKeyhashScript staking spending = Ok s → CastToBool spending = true →
  flags_ok flags → has flags SCRIPT_VERIFY_WITNESS = true →
  VerifyScript [] s witness flags checker = Ok (Done tt) ↔
  key_witness (staking_hash staking spending).1 (staking_hash staking spending).2 witness.
Proof.
  intros Hs Htrue [Hclean Hp2sh] Hwit. open CreateRemoteStakingKeyhashScript in Hs. ok_inv Hs.
  apply bool_decide_eq_true in Hr, Hr0. subst s.
  destruct (remote_staking_program staking spending witness Hr Hr0) as [Ew Hw].
  rewrite <- (witness_keyhash_Done _ _ witness _) by
    (try exact Hw; unfold staking_hash; case_decide; cbn; auto || lia).
  pose proof (eval_remote_staking BASE staking spending Hr Hr0) as Hev.
  assert (IsPayToScriptHash ([OP_1] ++ push_data staking ++ push_data spending) = false) as Hph
    by (unfold IsPayToScriptHash; cbn; by rewrite !andb_false_r).
  cbn [app] in Ew, Hev, Hph.
  set (script := OP_1 :: push_data staking ++ push_data spending) in *. clearbody script.
  unfold VerifyScript. change (IsPushOnly []) with true. cbn [negb]. rewrite andb_false_r.
  change (EvalScript flags checker BASE [] []) with (done_ ([] : Stack)). go_on. cbv zeta.
  rewrite Hev, Hph, andb_false_r. fold (done_ [spending; staking; vchTrue]). go_on.
  unfold top_is_true. rewrite Htrue. go_on. unfold verify_program. rewrite Hwit, Ew.
  rewrite bool_decide_eq_false_2 by congruence. cbn [mbind outcome_bind].
  rewrite !script_bind_assoc, script_bind_Done. split; [by intros ([] & Hv & _)|].
  intros Hv. exists tt. split; [done|]. go_on. rewrite (Hp2sh Hwit).
  cbn [cpp_assert mbind outcome_bind negb andb]. go_on. by destruct (has flags SCRIPT_VERIFY_CLEANSTACK).
Qed.
End staking.

Section commits.
Context `{!Crypto, !Hashing, !Signatures, !SignatureForms, !OpHashes}.
Context (flags : Z) (checker : BaseSignatureChecker).

(** ** The outputs of finalizer commits *)

(** The signature of the transaction by the finalizer's key. *)
Definition commit_signed (script : CScript) (pubkey sig : bytes) : Prop :=
  CheckEncodings sig pubkey flags BASE = Ok (Done tt) ∧ CheckSig checker sig pubkey script BASE = Ok true.

(** The arguments below the public key with which [OP_CHECKCOMMIT] leaves
    true, by the type of the transaction. *)
Definition commit_arguments (script : CScript) (pubkey : bytes) (args : Stack) : Prop :=
  match GetTxType checker with
  | VOTE =>
      ∃ vch sig vote voteSig, args = [vch; sig] ∧ DecodeVote vch = Some (vote, voteSig) ∧
        Verify (CPubKey_Set pubkey) (Vote_GetHash vote) voteSig = true ∧ commit_signed script pubkey sig
  | LOGOUT => ∃ sig, args = [sig] ∧ commit_signed script pubkey sig
  | SLASH =>
      ∃ vch1 vch2 vote1 vote2 sig1 sig2, args = [vch1; vch2] ∧
        DecodeVote vch1 = Some (vote1, sig1) ∧ DecodeVote vch2 = Some (vote2, sig2) ∧
        Vote_GetHash vote1 ≠ Vote_GetHash vote2 ∧
        Verify (CPubKey_Set pubkey) (Vote_GetHash vote1) sig1 = true ∧
        Verify (CPubKey_Set pubkey) (Vote_GetHash vote2) sig2 = true ∧
        m_validator_address vote1 = m_validator_address vote2 ∧ votes_slashable vote1 vote2 = true
  | _ => False
  end.

Definition is_commit_type (t : TxType) : bool :=
  match t with VOTE | LOGOUT | SLASH => true | _ => false end.

Lemma checkcommit_vote_Done script pubkey args stack' :
  GetTxType checker = VOTE →
  checkcommit_vote flags checker BASE script (pubkey :: args) = Ok (Done stack') ↔
  stack' = [CScriptNum_serialize OP_TRUE] ∧ commit_arguments script pubkey args.
Proof.
  intros Ht. unfold commit_arguments. rewrite Ht. unfold checkcommit_vote. case_decide as Hl.
  { split; [done|]. by intros (_ & ? & ? & ? & ? & -> & _). }
  destruct args as [|vch [|sig [|]]]; try discriminate Hl. clear Hl.
  rewrite stacktop_1, stacktop_2, stacktop_3. cbn [mbind outcome_bind]. split.
  - destruct (DecodeVote vch) as [[vote voteSig]|] eqn:Ed; [|done].
    destruct (Verify _ _ _) eqn:Ev; [|done]. cbn [negb]. intros Hc. done_inv Hc. destruct a.
    injection Ha2 as <-. injection Ha3 as <-. injection Ha4 as <-.
    split; [done|]. by exists vch, sig, vote, voteSig.
  - intros (-> & ? & ? & vote & voteSig & [= <- <-] & -> & -> & He & Hc). cbn [negb]. rewrite He.
    fold (done_ tt). go_on. rewrite Hc. cbn [mbind outcome_bind]. unfold null_fail. go_on. done.
Qed.

Lemma checkcommit_logout_Done script pubkey args stack' :
  GetTxType checker = LOGOUT →
  checkcommit_logout flags checker BASE script (pubkey :: args) = Ok (Done stack') ↔
  stack' = [CScriptNum_serialize OP_TRUE] ∧ commit_arguments script pubkey args.
Proof.
  intros Ht. unfold commit_arguments. rewrite Ht. unfold checkcommit_logout. case_decide as Hl.
  { split; [done|]. by intros (_ & ? & -> & _). }
  destruct args as [|sig [|]]; try discriminate Hl. clear Hl.
  rewrite stacktop_1, stacktop_2. cbn [mbind outcome_bind]. split.
  - intros Hc. done_inv Hc. destruct a. injection Ha2 as <-. injection Ha3 as <-.
    split; [done|]. by exists sig.
  - intros (-> & ? & [= <-] & He & Hc). rewrite He. fold (done_ tt). go_on. rewrite Hc.
    cbn [mbind outcome_bind]. unfold null_fail. go_on. done.
Qed.

Lemma checkcommit_slash_Done script pubkey args stack' :
  GetTxType checker = SLASH →
  checkcommit_slash (pubkey :: args) = Ok (Done stack') ↔
  stack' = [CScriptNum_serialize OP_TRUE] ∧ commit_arguments script pubkey args.
Proof.
  intros Ht. unfold commit_arguments. rewrite Ht. unfold checkcommit_slash. case_decide as Hl.
  { split; [done|]. by intros (_ & ? & ? & ? & ? & ? & ? & -> & _). }
  destruct args as [|vch1 [|vch2 [|]]]; try discriminate Hl. clear Hl.
  rewrite stacktop_1, stacktop_2, stacktop_3. cbn [mbind outcome_bind]. split.
  - destruct (DecodeVote vch1) as [[vote1 sig1]|] eqn:E1; [|done].
    destruct (DecodeVote vch2) as [[vote2 sig2]|] eqn:E2; [|done]. intros Hc. done_inv Hc.
    apply bool_decide_eq_false in Ha, Ha2. rewrite negb_false_iff in *. injection Ha4 as <-.
    split; [done|]. exists vch1, vch2, vote1, vote2, sig1, sig2. split_and!; try done.
    by destruct (decide (m_validator_address vote1 = m_validator_address vote2)); [|destruct Ha2].
  - intros (-> & ? & ? & vote1 & vote2 & sig1 & sig2 & [= <- <-] & -> & -> & Hh & Hv1 & Hv2 & Ha & Hs).
    rewrite Hv1, Hv2, Hs, !bool_decide_eq_false_2 by (done || tauto). done.
Qed.

(** [OP_CHECKCOMMIT]. *)
Lemma checkcommit_Done script pubkey args stack' :
  checkcommit flags checker BASE script (pubkey :: args) = Ok (Done stack') ↔
  if is_commit_type (GetTxType checker)
  then stack' = [CScriptNum_serialize OP_TRUE] ∧ commit_arguments script pubkey args
  else stack' = CScriptNum_serialize OP_0 :: args.
Proof.
  unfold checkcommit. destruct (GetTxType checker) eqn:Ht; cbn [is_commit_type];
    try (cbn [popstack mbind outcome_bind]; split; [by intros [= <-]|by intros ->]).
  - by apply checkcommit_vote_Done.
  - by apply checkcommit_logout_Done.
  - by apply checkcommit_slash_Done.
Qed.

(** The conditionals of the commit script. *)
Lemma exec_checkcommit fExec pc m :
  exec_op flags checker BASE OP_CHECKCOMMIT fExec pc m =
  (stack ←? checkcommit flags checker BASE (i_pbegincodehash m) (i_stack m); done_ (set_stack stack m)).
Proof. done. Qed.

Lemma exec_if pc m v stack :
  i_stack m = v :: stack →
  exec_op flags checker BASE OP_IF true pc m =
  done_ (set_vfExec (CastToBool v :: i_vfExec m) (set_stack stack m)).
Proof.
  intros Hs. change (exec_op _ _ _ _ _ _ _) with (if_op flags BASE I_IF true m).
  unfold if_op. rewrite Hs. by rewrite decide_False by (cbn; lia).
Qed.

Lemma exec_else fExec pc m b l :
  i_vfExec m = b :: l →
  exec_op flags checker BASE OP_ELSE fExec pc m = done_ (set_vfExec (negb b :: l) m).
Proof.
  intros Hv. change (exec_op _ _ _ _ _ _ _) with
    match i_vfExec m with
    | [] => fail_ SCRIPT_ERR_UNBALANCED_CONDITIONAL
    | b :: vfExec => done_ (set_vfExec (negb b :: vfExec) m)
    end. by rewrite Hv.
Qed.

Lemma exec_endif fExec pc m b l :
  i_vfExec m = b :: l →
  exec_op flags checker BASE OP_ENDIF fExec pc m = done_ (set_vfExec l m).
Proof.
  intros Hv. change (exec_op _ _ _ _ _ _ _) with
    match i_vfExec m with
    | [] => fail_ SCRIPT_ERR_UNBALANCED_CONDITIONAL
    | _ :: vfExec => done_ (set_vfExec vfExec m)
    end. by rewrite Hv.
Qed.

Ltac machine_cbn :=
  cbv beta iota zeta delta [i_stack i_altstack i_vfExec i_nOpCount i_pbegincodehash
    set_stack set_nOpCount set_vfExec set_counts machine_new];
  cbn [forallb id andb orb negb].
Ltac step_op :=
  rewrite eval_rest_op by opcode_side; cbv zeta;
  match goal with |- context [bool_decide (OP_IF ≤ ?o ≤ OP_ENDIF)] =>
    let b := eval vm_compute in (bool_decide (OP_IF ≤ o ≤ OP_ENDIF)) in
    change (bool_decide (OP_IF ≤ o ≤ OP_ENDIF)) with b end; machine_cbn.
Ltac fits := go_on; machine_cbn; rewrite stack_fits_true by (unfold MAX_STACK_SIZE; cbn; lia).

(** The branch for the other transactions, from its beginning on. *)
Lemma eval_commit_else code hash stack n :
  length hash = 20%nat → (length stack ≤ 998)%nat → 0 ≤ n ≤ 100 →
  eval_rest flags checker BASE
    (OP_IF :: OP_TRUE :: OP_ELSE :: [OP_DUP; OP_HASH160] ++ push_data hash ++
     [OP_EQUALVERIFY; OP_CHECKSIG] ++ [OP_ENDIF])
    {| i_stack := [] :: stack; i_altstack := []; i_vfExec := []; i_nOpCount := n;
       i_pbegincodehash := code |} =
  match stack with
  | [] => fail_ SCRIPT_ERR_INVALID_STACK_OPERATION
  | key :: rest =>
      if decide (hash_of OP_HASH160 key = hash) then
        stack' ←? checksig flags checker BASE I_CHECKSIG code (key :: rest);
        done_ {| i_stack := stack'; i_altstack := []; i_vfExec := []; i_nOpCount := n + 7;
                 i_pbegincodehash := code |}
      else fail_ SCRIPT_ERR_EQUALVERIFY
  end.
Proof.
  intros Hh Hl Hn. step_op. erewrite exec_if by done. fits.
  rewrite eval_rest_true. cbv zeta. change (CastToBool []) with false. fits.
  step_op. erewrite exec_else by done. fits.
  rewrite eval_keyhash by (done || (by left) || (cbn; lia)). machine_cbn.
  destruct stack as [|key rest]; [done|]. case_decide; [|done].
  apply script_bind_ext. intros stack' Hc.
  apply checksig_Done in Hc as (? & ? & ? & b & [= <- ->] & _ & ->). cbn in Hl.
  step_op. erewrite exec_endif by done. fits.
  by replace (n + 1 + 1 + 4 + 1) with (n + 7) by lia.
Qed.

(** The branch of a vote, a logout or a slashing. *)
Lemma eval_commit_then code hash v stack n :
  CastToBool v = true → length hash = 20%nat → (length stack ≤ 998)%nat → 0 ≤ n ≤ 100 →
  eval_rest flags checker BASE
    (OP_IF :: OP_TRUE :: OP_ELSE :: [OP_DUP; OP_HASH160] ++ push_data hash ++
     [OP_EQUALVERIFY; OP_CHECKSIG] ++ [OP_ENDIF])
    {| i_stack := v :: stack; i_altstack := []; i_vfExec := []; i_nOpCount := n;
       i_pbegincodehash := code |} =
  done_ {| i_stack := vchTrue :: stack; i_altstack := []; i_vfExec := []; i_nOpCount := n + 7;
           i_pbegincodehash := code |}.
Proof.
  intros Hv Hh Hl Hn. step_op. erewrite exec_if by done. rewrite Hv. fits.
  rewrite eval_rest_true. cbv zeta. fits. step_op. erewrite exec_else by done. fits. cbn [app].
  step_op. fits. step_op. fits. rewrite eval_rest_push by lia. cbv zeta. fits.
  step_op. fits. step_op. fits. step_op. erewrite exec_endif by done. fits.
  by replace (n + 1 + 1 + 1 + 1 + 1 + 1 + 1) with (n + 7) by lia.
Qed.

(** The commit script up to its conditional. *)
Lemma eval_commit_script pubkey stack m :
  length pubkey = 33%nat → (length stack ≤ 998)%nat →
  let script := CreateFinalizerCommitScript pubkey in
  eval_rest flags checker BASE script (machine_new stack script) = Ok (Done m) ↔
  ∃ stack', checkcommit flags checker BASE script (pubkey :: stack) = Ok (Done stack') ∧
    (length stack' ≤ length stack + 1)%nat ∧
    eval_rest flags checker BASE
      (OP_IF :: OP_TRUE :: OP_ELSE :: [OP_DUP; OP_HASH160] ++ push_data (be_bytes 20 (GetID pubkey)) ++
       [OP_EQUALVERIFY; OP_CHECKSIG] ++ [OP_ENDIF])
      {| i_stack := stack'; i_altstack := []; i_vfExec := []; i_nOpCount := 1;
         i_pbegincodehash := script |} = Ok (Done m).
Proof.
  intros Hk Hl script. unfold script at 1, CreateFinalizerCommitScript.
  rewrite eval_rest_push by lia. cbv zeta. fits. cbn [app]. step_op.
  rewrite exec_checkcommit, script_bind_assoc, script_bind_Done. machine_cbn.
  assert (∀ stack', checkcommit flags checker BASE script (pubkey :: stack) = Ok (Done stack') →
    (length stack' ≤ length stack + 1)%nat) as Hlen.
  { intros stack' Hc%checkcommit_Done. destruct (is_commit_type _); [destruct Hc as [-> _]|subst stack'];
      cbn [length]; lia. }
  split; intros (stack' & Hc & Hm); pose proof (Hlen _ Hc); exists stack'; (split; [done|]).
  - rewrite done_bind in Hm. rewrite stack_fits_true in Hm by (unfold MAX_STACK_SIZE; cbn; lia). done.
  - rewrite done_bind. rewrite stack_fits_true by (unfold MAX_STACK_SIZE; cbn; lia). by destruct Hm.
Qed.

(** C10: The output of a finalizer commit, for every transaction type, stack
    of arguments and set of flags.  A vote spends it exactly with a vote
    message signed by the finalizer's key and a transaction signature of the
    key; a logout with a transaction signature; a slashing with two votes of
    the same validator that the key signed, that are not the same and that are
    a double or a surround vote, and with no signature of the transaction; any
    other transaction only as a pay-to-public-key-hash output of the key. *)
Theorem commit_script_spending pubkey stack out :
  length pubkey = 33%nat → (length stack ≤ 998)%nat →
  let script := CreateFinalizerCommitScript pubkey in
  EvalScript flags checker BASE stack script = Ok (Done out) ↔
  if is_commit_type (GetTxType checker)
  then out = [vchTrue] ∧ commit_arguments script pubkey stack
  else ∃ key sig rest b, stack = key :: sig :: rest ∧
    be_bytes 20 (Hash160 key) = be_bytes 20 (GetID pubkey) ∧
    signature_checked flags checker BASE script key sig b ∧ out = bool_value b :: rest.
Proof.
  intros Hk Hl script. rewrite EvalScript_Done.
  set (hash := be_bytes 20 (GetID pubkey)). assert (length hash = 20%nat) as Hh by apply be_bytes_length.
  assert (Z.of_nat (length script) ≤ MAX_SCRIPT_SIZE) as Hsize.
  { unfold script, CreateFinalizerCommitScript, push_data, OP_PUSHDATA1, MAX_SCRIPT_SIZE. fold hash.
    rewrite !decide_True, !length_app by lia. cbn. lia. }
  pose proof (λ m, eval_commit_script pubkey stack m Hk Hl) as Hev. cbv zeta in Hev.
  fold script hash in Hev. setoid_rewrite Hev. setoid_rewrite checkcommit_Done.
  destruct (is_commit_type (GetTxType checker)).
  - split.
    + intros (_ & m & (stack' & [-> Hc] & _ & Hm) & _ & <-). split; [|done].
      rewrite eval_commit_then in Hm by (done || (cbn; lia)). by injection Hm as <-.
    + intros [-> Hc]. split; [done|]. exists {| i_stack := [vchTrue]; i_altstack := []; i_vfExec := [];
        i_nOpCount := 1 + 7; i_pbegincodehash := script |}. split; [|by split].
      eexists. split; [by split|]. split; [cbn; lia|].
      rewrite eval_commit_then by (done || (cbn; lia)). done.
  - split.
    + intros (_ & m & (stack' & -> & _ & Hm) & _ & <-).
      change (CScriptNum_serialize OP_0) with ([] : bytes) in Hm.
      rewrite eval_commit_else in Hm by (done || lia). destruct stack as [|key rest]; [done|].
      case_decide; [|done]. done_inv Hm.
      apply checksig_Done in Ha as (? & sig & rest' & b & [= <- ->] & Hs & ->). subst m.
      by exists key, sig, rest', b.
    + intros (key & sig & rest & b & -> & Hkey & Hs & ->). split; [done|].
      exists {| i_stack := bool_value b :: rest; i_altstack := []; i_vfExec := [];
        i_nOpCount := 1 + 7; i_pbegincodehash := script |}. split; [|by split].
      eexists. split; [done|]. split; [cbn; lia|].
      change (CScriptNum_serialize OP_0) with ([] : bytes).
      rewrite eval_commit_else by (done || lia). rewrite decide_True by done.
      apply script_bind_Done. exists (bool_value b :: rest). split; [|done].
      apply checksig_Done. by exists key, sig, rest, b.
Qed.
End commits.

(** ** Multiple signatures *)

(** The keys are gone through once: a signature that fails with a key is
    tried with the next. *)
Fixpoint assign (check : valtype → valtype → bool) (sigs keys : list valtype) : bool :=
  match keys with
  | [] => bool_decide (sigs = [])
  | key :: keys =>
      match sigs with
      | [] => true
      | sig :: rest => if check sig key then assign check rest keys else assign check sigs keys
      end
  end.

Lemma assign_nil check keys : assign check [] keys = true.
Proof. by destruct keys. Qed.

(** The greedy assignment finds one if there is one. *)
Lemma assign_correct check sigs keys :
  assign check sigs keys = true ↔
  ∃ ks, ks `sublist_of` keys ∧ Forall2 (λ sig key, check sig key = true) sigs ks.
Proof.
  revert sigs. induction keys as [|key keys IH]; intros sigs; cbn [assign].
  - rewrite bool_decide_eq_true. split.
    + intros ->. exists []. by split.
    + intros (ks & ->%sublist_nil_r & ->%Forall2_nil_inv_r). done.
  - destruct sigs as [|sig rest].
    { split; [intros _|done]. exists []. split; [apply sublist_nil_l|constructor]. }
    destruct (check sig key) eqn:Ec; rewrite IH; split.
    + intros (ks & Hsub & Hall). exists (key :: ks). by split; constructor.
    + intros (ks & Hsub & Hall). inversion Hall as [|? k ? ks' Hk Hrest]; subst. exists ks'.
      split; [|done]. inversion Hsub; subst; [done|].
      etrans; [|eassumption]. by apply sublist_cons.
    + intros (ks & Hsub & Hall). exists ks. split; [by constructor|done].
    + intros (ks & Hsub & Hall). exists ks. split; [|done]. inversion Hsub; subst; [|done].
      inversion Hall; congruence.
Qed.

Lemma assign_too_many check sigs keys :
  (length keys < length sigs)%nat → assign check sigs keys = false.
Proof.
  revert sigs. induction keys as [|key keys IH]; intros [|sig rest] Hl; cbn in *; try lia.
  destruct (check sig key); apply IH; cbn; lia.
Qed.

(** A number small enough to be an argument. *)
Lemma script_num_small n b : 0 ≤ n ≤ 20 → script_num (CScriptNum_serialize n) b nDefaultMaxNumSize = Ok n.
Proof.
  intros Hn. assert (is_byte n) as Hb by (unfold is_byte; lia).
  set (reads n := if decide (n ≤ 20) then
    match script_num (CScriptNum_serialize n) true nDefaultMaxNumSize,
          script_num (CScriptNum_serialize n) false nDefaultMaxNumSize with
    | Ok x, Ok y => bool_decide (x = n) && bool_decide (y = n) | _, _ => false end else true).
  assert (reads n = true) as Hr by (clear Hn; revert n Hb; apply forall_bytes; by vm_compute).
  unfold reads in Hr. rewrite decide_True in Hr by lia.
  destruct (script_num _ true _) eqn:E1; [|done]. destruct (script_num _ false _) eqn:E2; [|done].
  split_andb. destruct b; by subst.
Qed.

Section multisig.
Context `{!Crypto, !Hashing, !Signatures, !SignatureForms, !OpHashes}.
Context (flags : Z) (checker : BaseSignatureChecker) (sigversion : SigVersion).

(** The elements of a stack from a position on. *)
Definition stack_from (i : Z) (l : list valtype) (stack : Stack) : Prop :=
  1 ≤ i ∧ ∃ rest, drop (Z.to_nat (i - 1)) stack = l ++ rest.

Lemma stack_from_cons i v l stack :
  stack_from i (v :: l) stack → stacktop i stack = Ok v ∧ stack_from (i + 1) l stack.
Proof.
  intros (Hi & rest & Hd). cbn in Hd. assert (stack !! Z.to_nat (i - 1) = Some v) as Hv.
  { rewrite <- (Nat.add_0_r (Z.to_nat (i - 1))), <- lookup_drop, Hd. done. }
  unfold stacktop. rewrite decide_False, Hv by lia. split; [done|]. split; [lia|]. exists rest.
  rewrite (drop_S _ _ _ Hv) in Hd. injection Hd as <-. f_equal. lia.
Qed.

(** The loop over the keys computes the assignment. *)
Lemma match_signatures_correct check fuel stack code isig ikey sigs keys :
  stack_from isig sigs stack → stack_from ikey keys stack →
  (length sigs ≤ length keys)%nat → (length keys ≤ fuel)%nat →
  (∀ sig key, sig ∈ sigs → key ∈ keys →
    CheckEncodings sig key flags sigversion = Ok (Done tt) ∧
    CheckSig checker sig key code sigversion = Ok (check sig key)) →
  match_signatures flags checker sigversion fuel stack code isig ikey
    (Z.of_nat (length sigs)) (Z.of_nat (length keys)) = done_ (assign check sigs keys).
Proof.
  revert isig ikey sigs keys. induction fuel as [|fuel IH]; intros isig ikey sigs keys Hs Hk Hle Hf Hc.
  { assert (keys = []) as -> by (destruct keys; [done|cbn in Hf; lia]).
    by assert (sigs = []) as -> by (destruct sigs; [done|cbn in Hle; lia]). }
  destruct sigs as [|sig sigs]; [by rewrite assign_nil|].
  destruct keys as [|key keys]; [cbn in Hle; lia|]. cbn [match_signatures].
  rewrite decide_False by (cbn; lia).
  destruct (stack_from_cons _ _ _ _ Hs) as [-> Hs']. destruct (stack_from_cons _ _ _ _ Hk) as [-> Hk'].
  cbn [mbind outcome_bind]. destruct (Hc sig key) as [-> ->]; [set_solver..|]. fold (done_ tt). go_on.
  cbn [mbind outcome_bind]. cbv zeta. cbn [assign length] in *.
  replace (Z.of_nat (S (length keys)) - 1) with (Z.of_nat (length keys)) by lia.
  destruct (check sig key).
  - replace (Z.of_nat (S (length sigs)) - 1) with (Z.of_nat (length sigs)) by lia.
    rewrite decide_False by lia. apply IH; [done|done|lia|lia|]. intros. apply Hc; set_solver.
  - case_decide.
    + rewrite assign_too_many; [done|cbn; lia].
    + change (S (length sigs)) with (length (sig :: sigs)). apply IH; [done|done|cbn; lia|lia|].
      intros. apply Hc; set_solver.
Qed.

(** The arguments above the signatures are removed without a check. *)
Lemma clean_arguments_head b l k ikey2 stack :
  Z.of_nat (length l) ≤ ikey2 →
  clean_arguments flags (length l + k) b ikey2 (l ++ stack) =
  clean_arguments flags k b (ikey2 - Z.of_nat (length l)) stack.
Proof.
  revert ikey2. induction l as [|v l IH]; intros ikey2 Hl; [by rewrite Z.sub_0_r|].
  cbn [length Nat.add clean_arguments app] in *.
  rewrite (bool_decide_eq_false_2 (ikey2 = 0)), andb_false_r by lia. cbn [mbind outcome_bind popstack].
  go_on. rewrite decide_True, IH by lia. f_equal. lia.
Qed.

(** Of a failed operation the signatures have to be empty. *)
Definition null_failure (b : bool) (sigs : list valtype) : bool :=
  negb b && has flags SCRIPT_VERIFY_NULLFAIL && existsb (λ v, bool_decide (v ≠ [])) sigs.

Lemma clean_arguments_tail b l stack :
  clean_arguments flags (length l) b 0 (l ++ stack) =
  if null_failure b l then fail_ SCRIPT_ERR_SIG_NULLFAIL else done_ stack.
Proof.
  unfold null_failure. induction l as [|v l IH]; cbn [length clean_arguments app existsb].
  { by rewrite andb_false_r. }
  rewrite (bool_decide_eq_true_2 (0 = 0)), andb_true_r by done.
  destruct (negb b && has flags SCRIPT_VERIFY_NULLFAIL); cbn [andb] in *.
  - rewrite stacktop_1. cbn [mbind outcome_bind]. case_bool_decide; [done|]. go_on.
    cbn [popstack mbind outcome_bind]. by rewrite decide_False by lia.
  - cbn [popstack mbind outcome_bind]. go_on. by rewrite decide_False by lia.
Qed.

(** Where the arguments are. *)
Lemma multisig_positions nk ns keys sigs dummy rest :
  let stack := nk :: keys ++ ns :: sigs ++ dummy :: rest in
  stack_from 2 keys stack ∧ stacktop (Z.of_nat (length keys) + 2) stack = Ok ns ∧
  stack_from (Z.of_nat (length keys) + 3) sigs stack.
Proof.
  intros stack. assert (stack_from (Z.of_nat (length keys) + 2) (ns :: sigs) stack) as Hs.
  { split; [lia|]. exists (dummy :: rest).
    replace (Z.to_nat _) with (S (length keys)) by lia. subst stack. cbn. by rewrite drop_app_length. }
  split; [split; [lia|by eexists]|]. apply stack_from_cons in Hs as [-> Hs]. split; [done|].
  by replace (Z.of_nat (length keys) + 3) with (Z.of_nat (length keys) + 2 + 1) by lia.
Qed.

(** Multiple signatures.  On a stack with a number of keys, the keys,
    a number of signatures, the signatures and the extra element, and when
    the encodings pass, [OP_CHECKMULTISIG] leaves true exactly if the
    signatures can be assigned in order to different keys that verify them.
    The operation fails only for a signature that is not empty after a
    mismatch, or for an extra element that is not empty, if the flags ask for
    it; and the keys count as operations. *)
Theorem multisig_assigns_signatures check keys sigs dummy rest code code' nOpCount :
  let stack := CScriptNum_serialize (Z.of_nat (length keys)) :: keys ++
    CScriptNum_serialize (Z.of_nat (length sigs)) :: sigs ++ dummy :: rest in
  (length sigs ≤ length keys ≤ 20)%nat → nOpCount + Z.of_nat (length keys) ≤ MAX_OPS_PER_SCRIPT →
  drop_signatures flags sigversion (length sigs) (Z.of_nat (length keys) + 3) stack code = Ok (Done code') →
  (∀ sig key, sig ∈ sigs → key ∈ keys →
    CheckEncodings sig key flags sigversion = Ok (Done tt) ∧
    CheckSig checker sig key code' sigversion = Ok (check sig key)) →
  ∃ b : bool,
    (b = true ↔ ∃ ks, ks `sublist_of` keys ∧ Forall2 (λ sig key, check sig key = true) sigs ks) ∧
    checkmultisig flags checker sigversion I_CHECKMULTISIG code nOpCount stack =
    if null_failure b sigs then fail_ SCRIPT_ERR_SIG_NULLFAIL
    else if has flags SCRIPT_VERIFY_NULLDUMMY && bool_decide (dummy ≠ []) then fail_ SCRIPT_ERR_SIG_NULLDUMMY
    else done_ (bool_value b :: rest, nOpCount + Z.of_nat (length keys)).
Proof.
  intros stack Hn Hops Hdrop Hcheck. exists (assign check sigs keys). split; [apply assign_correct|].
  assert (length stack = length keys + length sigs + 3 + length rest)%nat as Hlen.
  { subst stack. cbn. rewrite length_app. cbn. rewrite length_app. cbn. lia. }
  destruct (multisig_positions (CScriptNum_serialize (Z.of_nat (length keys)))
    (CScriptNum_serialize (Z.of_nat (length sigs))) keys sigs dummy rest) as (Hk & Hnum & Hs). fold stack in Hk, Hnum, Hs.
  assert (∀ k, (k ≤ 20)%nat → getint (Z.of_nat k) = Z.of_nat k) as Hget.
  { intros k Hk'. unfold getint. by rewrite !decide_False by lia. }
  unfold checkmultisig. cbv zeta. rewrite need_true by lia. go_on.
  change (stacktop 1 stack) with (Ok (CScriptNum_serialize (Z.of_nat (length keys)))).
  cbn [mbind outcome_bind]. rewrite script_num_small by lia. cbn [mbind outcome_bind].
  rewrite Hget by lia. unfold MAX_PUBKEYS_PER_MULTISIG. rewrite !decide_False by lia.
  rewrite need_true by lia. go_on. replace (1 + 1 + Z.of_nat (length keys)) with
    (Z.of_nat (length keys) + 2) by lia.
  rewrite Hnum. cbn [mbind outcome_bind]. rewrite script_num_small by lia. cbn [mbind outcome_bind].
  rewrite Hget, decide_False, need_true by lia. go_on.
  replace (Z.of_nat (length keys) + 2 + 1) with (Z.of_nat (length keys) + 3) by lia.
  rewrite !Nat2Z.id, Hdrop. fold (done_ code'). go_on.
  rewrite (match_signatures_correct check) by (done || lia). go_on.
  replace (Z.to_nat _) with (length (CScriptNum_serialize (Z.of_nat (length keys)) :: keys ++
    [CScriptNum_serialize (Z.of_nat (length sigs))]) + length sigs)%nat
    by (cbn; rewrite length_app; cbn; lia).
  replace stack with ((CScriptNum_serialize (Z.of_nat (length keys)) :: keys ++
    [CScriptNum_serialize (Z.of_nat (length sigs))]) ++ sigs ++ dummy :: rest)
    by (subst stack; cbn; by rewrite <- app_assoc).
  rewrite clean_arguments_head by (cbn; rewrite length_app; cbn; lia).
  replace (_ - _) with 0 by (cbn; rewrite length_app; cbn; lia). rewrite clean_arguments_tail.
  destruct (null_failure _ sigs); [done|]. go_on. rewrite need_true by (cbn; lia). go_on.
  rewrite stacktop_1. cbn [mbind outcome_bind].
  by destruct (has flags SCRIPT_VERIFY_NULLDUMMY && _).
Qed.
End multisig.

(** ** Witnesses *)

#[local] Existing Instance toy_crypto.
#[local] Existing Instance toy_hashing.
#[local] Existing Instance toy_signatures.
#[local] Existing Instance toy_forms.
#[local] Existing Instance toy_op_hashes.

Definition toy_key : bytes := 2 :: replicate 32 7.

(** A checker for which a signature of a key is the key itself. *)
Definition toy_checker (type : TxType) : BaseSignatureChecker := {|
  CheckSig := λ sig key _ _, Ok (bool_decide (sig = key));
  CheckLockTime := λ _, Ok false;
  CheckSequence := λ _, Ok false;
  GetTxType := type;
|}.

Definition toy_flags : Z := Z.lor SCRIPT_VERIFY_P2SH SCRIPT_VERIFY_WITNESS.

Lemma remote_staking_spending_witness :
  ∃ s, CreateRemoteStakingKeyhashScript (replicate 20 1) (be_bytes 32 (SHA256 toy_key)) = Ok s ∧
    VerifyScript [] s [toy_key; toy_key] toy_flags (toy_checker REGULAR) = Ok (Done tt).
Proof.
  eexists. split; [reflexivity|].
  apply (remote_staking_spending toy_flags (toy_checker REGULAR)
    (replicate 20 1) (be_bytes 32 (SHA256 toy_key))); [reflexivity|vm_compute; reflexivity| |reflexivity|].
  - split; vm_compute; reflexivity.
  - exists toy_key, toy_key. split_and!; [reflexivity|vm_compute; discriminate|vm_compute; discriminate|
      vm_compute; reflexivity|vm_compute; reflexivity|vm_compute; reflexivity].
Defined.

Lemma commit_script_spending_witness :
  EvalScript toy_flags (toy_checker LOGOUT) BASE [toy_key] (CreateFinalizerCommitScript toy_key) =
  Ok (Done [vchTrue]).
Proof.
  apply (commit_script_spending toy_flags (toy_checker LOGOUT) toy_key [toy_key] [vchTrue]);
    [reflexivity|cbn; lia|].
  split; [reflexivity|]. exists toy_key. split; [reflexivity|]. split; vm_compute; reflexivity.
Defined.

Lemma multisig_assigns_signatures_witness :
  ∃ b : bool,
    (b = true ↔ ∃ ks, ks `sublist_of` [[1]; [2]; [3]] ∧
       Forall2 (λ sig key, bool_decide (sig = key) = true) [[1]; [3]] ks) ∧
    checkmultisig toy_flags (toy_checker REGULAR) WITNESS_V0 I_CHECKMULTISIG [] 0
      ([[3]; [1]; [2]; [3]; [2]; [1]; [3]; []]) =
    if null_failure toy_flags b [[1]; [3]] then fail_ SCRIPT_ERR_SIG_NULLFAIL
    else if has toy_flags SCRIPT_VERIFY_NULLDUMMY && bool_decide ([] ≠ ([] : bytes))
    then fail_ SCRIPT_ERR_SIG_NULLDUMMY
    else done_ ([bool_value b], 3).
Proof.
  apply (multisig_assigns_signatures toy_flags (toy_checker REGULAR) WITNESS_V0
    (λ sig key, bool_decide (sig = key)) [[1]; [2]; [3]] [[1]; [3]] [] [] [] [] 0).
  - cbn. lia.
  - vm_compute. discriminate.
  - vm_compute. reflexivity.
  - intros sig key Hs Hk. split; [|reflexivity].
    unfold CheckEncodings, CheckSignatureEncoding. destruct sig; reflexivity.
Defined.
