(* ===== verification/SighashProofs.v ===== *)
(** * Properties of the signature hash

    Deleting from a script at the boundaries of its operations, the equality
    of the signature hash with its older definition, the cache of the hashes
    of a transaction, and what a signature does not cover. *)
From S2P Require Import Prelude Serialize Admin Params FinalizationData FinalizationOps.
From S2P Require Import StateFormat Script ScriptProofs CommitScripts Transaction Coins Checks.
From S2P Require Import Interpreter Sighash InterpreterProofs ScriptVerification.

(** ** The operations of a script *)

(** Bytes that are read as one operation, whatever follows. *)
Definition is_op (o : CScript) : Prop := ∃ x, ∀ rest, GetScriptOp (o ++ rest) = (Some x, rest).

(** What is read is an operation. *)
Lemma GetScriptOp_op pc x pc' :
  GetScriptOp pc = (Some x, pc') →
  ∃ o, pc = o ++ pc' ∧ ∀ rest, GetScriptOp (o ++ rest) = (Some x, rest).
Proof.
  destruct pc as [|op pc]; cbn; [done|]. destruct (decide (op ≤ OP_PUSHDATA4)) as [Hop|Hop].
  2: { intros [= <- <-]. exists [op]. split; [done|]. intros rest. cbn. by rewrite decide_False. }
  match goal with |- context [match ?r with Some _ => _ | None => _ end] =>
    destruct r as [[n pc1]|] eqn:E end; [|done].
  assert (∃ size, pc = size ++ pc1 ∧ ∀ rest,
    (if decide (op < OP_PUSHDATA1) then Some (op, size ++ rest)
     else if decide (op = OP_PUSHDATA1) then ser_readdata8 (size ++ rest)
     else if decide (op = OP_PUSHDATA2) then ser_readdata16 (size ++ rest)
     else ser_readdata32 (size ++ rest)) = Some (n, rest)) as (size & -> & Hsize).
  { repeat case_decide; simplify_eq; [by exists []|..];
      unfold ser_readdata8, ser_readdata16, ser_readdata32 in E;
      match type of E with (_ ← read_bytes ?k pc; _) = _ =>
        destruct (read_bytes k pc) as [[size r]|] eqn:R; [|done] end;
      cbn in E; simplify_eq; apply read_bytes_Some in R as [-> Hl]; exists size;
      (split; [done|]); intros rest;
      unfold ser_readdata8, ser_readdata16, ser_readdata32; by rewrite read_bytes_app. }
  destruct (decide (Z.of_nat (length pc1) < n)) as [|Hn]; [done|]. intros [= <- <-].
  exists (op :: size ++ take (Z.to_nat n) pc1). split.
  { cbn. by rewrite <- app_assoc, take_drop. }
  intros rest. cbn. rewrite decide_True by done. rewrite <- app_assoc, Hsize.
  rewrite length_app, length_take, decide_False by lia.
  rewrite take_app_length', drop_app_length' by (rewrite length_take; lia). done.
Qed.

Lemma is_op_nonempty o : is_op o → o ≠ [].
Proof. intros [x Hx] ->. specialize (Hx []). done. Qed.

(** An operation at a position is the only one there. *)
Lemma op_prefix o b rest rest' : is_op o → is_op b → o ++ rest = b ++ rest' → o = b ∧ rest = rest'.
Proof.
  intros [x Hx] [y Hy] E. pose proof (Hx rest) as H1'. rewrite E, Hy in H1'.
  injection H1' as _ <-. by apply app_inv_tail in E as ->.
Qed.

Lemma take_is_prefix (b pc : CScript) :
  (length b ≤ length pc)%nat ∧ take (length b) pc = b ↔ ∃ rest, pc = b ++ rest.
Proof.
  split.
  - intros [_ Ht]. exists (drop (length b) pc). by rewrite <- Ht at 1; rewrite take_drop.
  - intros [rest ->]. rewrite length_app, take_app_length. split; [lia|done].
Qed.

Definition others (b : CScript) (ops : list CScript) : list CScript := filter (λ o, o ≠ b) ops.
Definition count_op (b : CScript) (ops : list CScript) : Z := Z.of_nat (length (filter (λ o, o = b) ops)).

Section deleting.
Context (b : CScript) (Hb : is_op b).

(** The inner loop skips the operations [b] that come next. *)
Lemma skip_matches_ops fuel ops n :
  Forall is_op ops → (length (concat ops) ≤ fuel)%nat →
  ∃ ops', skip_matches fuel b (concat ops) n = (concat ops', n + count_op b ops - count_op b ops') ∧
    Forall is_op ops' ∧ others b ops = others b ops' ∧ (length (concat ops') ≤ length (concat ops))%nat ∧
    (∀ o ops'', ops' = o :: ops'' → o ≠ b).
Proof.
  revert fuel n. induction ops as [|o ops IH]; intros fuel n Hops Hf.
  { exists []. destruct fuel; cbn [skip_matches concat]; [|rewrite decide_False
      by (rewrite take_is_prefix; intros [rest E]; symmetry in E; apply app_eq_nil in E as [E _];
          by destruct (is_op_nonempty b))];
      (split; [f_equal; lia|by split_and!]). }
  apply Forall_cons_1 in Hops as [Ho Hops]. pose proof (is_op_nonempty o Ho).
  assert (0 < length o)%nat by (destruct o; [done|cbn; lia]). cbn [concat] in *. rewrite length_app in Hf.
  destruct (decide (o = b)) as [->|Hne].
  - destruct fuel as [|fuel]; [lia|]. cbn [skip_matches].
    rewrite decide_True by (apply take_is_prefix; by eexists). rewrite drop_app_length.
    destruct (IH fuel (n + 1) Hops ltac:(lia)) as (ops' & -> & Hops' & Hoth & Hlen & Hne).
    exists ops'. split_and!; [|done| |rewrite length_app; lia|done].
    + f_equal. unfold count_op. rewrite filter_cons_True by done. cbn [length]. lia.
    + unfold others in *. rewrite filter_cons_False by (intros Hc; by apply Hc). done.
  - exists (o :: ops). cbn [concat]. split_and!; [|by constructor|done|done|by intros ? ? [= <- <-]].
    destruct fuel as [|fuel]; [lia|]. cbn [skip_matches]. rewrite decide_False; [f_equal; lia|].
    rewrite take_is_prefix. intros [rest E]. apply Hne. by apply (op_prefix o b (concat ops) rest).
Qed.

Lemma FindAndDelete_loop_ops fuel ops kept result n :
  Forall is_op ops → (length (concat ops) < fuel)%nat →
  ∃ r rest, FindAndDelete_loop fuel b (concat ops) (kept ++ concat ops) result n =
      (r, rest, n + count_op b ops) ∧
    r ++ rest = result ++ kept ++ concat (others b ops).
Proof.
  revert ops kept result n. induction fuel as [|fuel IH]; intros ops kept result n Hops Hf; [lia|].
  cbn [FindAndDelete_loop]. rewrite length_app, Nat.add_sub, take_app_length.
  destruct (skip_matches_ops (length (concat ops)) ops n Hops (le_n _))
    as (ops' & -> & Hops' & Hoth & Hlen & Hfirst). rewrite Hoth.
  destruct ops' as [|o ops'].
  { cbn. eexists _, _. split; [f_equal; unfold count_op at 2; cbn; lia|]. by rewrite !app_nil_r. }
  apply Forall_cons_1 in Hops' as [Ho Hops']. specialize (Hfirst o ops' eq_refl).
  pose proof Ho as [x Hx]. cbn [concat] in *. rewrite Hx.
  assert (0 < length o)%nat by (destruct o; [by destruct (is_op_nonempty [])|cbn; lia]).
  rewrite length_app in Hlen.
  destruct (IH ops' o (result ++ kept) (n + count_op b ops - count_op b (o :: ops')) Hops' ltac:(lia))
    as (r & rest & -> & Hr). exists r, rest. split.
  - f_equal. unfold count_op. rewrite (filter_cons_False _ o) by done. lia.
  - rewrite Hr. unfold others. rewrite (filter_cons_True _ o) by done. cbn [concat].
    by rewrite <- !app_assoc.
Qed.

(** [FindAndDelete] of an operation leaves the other operations. *)
Lemma FindAndDelete_ops ops :
  Forall is_op ops → FindAndDelete (concat ops) b = (count_op b ops, concat (others b ops)).
Proof.
  intros Hops. unfold FindAndDelete. rewrite decide_False by (by apply is_op_nonempty).
  destruct (FindAndDelete_loop_ops (S (length (concat ops))) ops [] [] 0 Hops (le_n _))
    as (r & rest & E & Hr). cbn [app] in E, Hr. rewrite E. f_equal.
  case_decide; [done|]. unfold count_op, others in *.
  assert (filter (λ o, o = b) ops = []) as Hnone by (apply nil_length_inv; lia).
  f_equal. clear -Hnone. induction ops as [|o ops IH]; [done|].
  rewrite filter_cons in Hnone. case_decide; [done|]. rewrite filter_cons_True by done.
  f_equal. by apply IH.
Qed.
End deleting.

(** ** The script of a signature *)

Lemma is_op_separator : is_op [OP_CODESEPARATOR].
Proof. exists (OP_CODESEPARATOR, []). intros rest. by apply GetScriptOp_opcode. Qed.

Lemma is_op_push v : Z.of_nat (length v) < 2 ^ 32 → is_op (push_data v).
Proof. intros Hv. exists (push_opcode v, v). intros rest. by apply GetScriptOp_push_data. Qed.

(** The opcode of an operation is its first byte. *)
Lemma op_separator o opcode data :
  (∀ rest, GetScriptOp (o ++ rest) = (Some (opcode, data), rest)) →
  opcode = OP_CODESEPARATOR ↔ o = [OP_CODESEPARATOR].
Proof.
  intros Ho. split.
  - intros ->. destruct o as [|x o]; [by specialize (Ho [])|].
    assert (x = OP_CODESEPARATOR) as ->.
    { specialize (Ho []). cbn in Ho. case_decide; [|by injection Ho].
      destruct (if decide (x < OP_PUSHDATA1) then _ else _) as [[n pc]|]; [|done].
      case_decide; [done|]. by injection Ho. }
    specialize (Ho []). rewrite app_nil_r, GetScriptOp_opcode in Ho by done. by injection Ho as _ ->.
  - intros ->. specialize (Ho []). cbn in Ho. by injection Ho.
Qed.

Lemma count_separators_ops fuel ops n :
  Forall is_op ops → (length (concat ops) < fuel)%nat →
  count_separators fuel (concat ops) n = n + count_op [OP_CODESEPARATOR] ops.
Proof.
  revert ops n. induction fuel as [|fuel IH]; intros ops n Hops Hf; [lia|]. cbn [count_separators].
  destruct ops as [|o ops]; [unfold count_op; cbn; lia|].
  apply Forall_cons_1 in Hops as [Ho Hops]. pose proof (is_op_nonempty o Ho).
  destruct Ho as [[opcode data] Ho]. cbn [concat] in *. rewrite Ho. rewrite length_app in Hf.
  assert (0 < length o)%nat by (destruct o; [done|cbn; lia]). rewrite IH by (done || lia).
  pose proof (op_separator o opcode data Ho) as Hiff. unfold count_op. rewrite filter_cons.
  destruct (decide (opcode = OP_CODESEPARATOR)) as [E|E].
  - rewrite decide_True by tauto. cbn [length]. lia.
  - rewrite decide_False by tauto. done.
Qed.

Lemma write_pieces_ops fuel ops pend :
  Forall is_op ops → (length (concat ops) < fuel)%nat →
  write_pieces fuel (concat ops) (pend ++ concat ops) =
  pend ++ concat (others [OP_CODESEPARATOR] ops).
Proof.
  revert ops pend. induction fuel as [|fuel IH]; intros ops pend Hops Hf; [lia|]. cbn [write_pieces].
  destruct ops as [|o ops].
  { cbn [concat GetScriptOp others filter]. rewrite !app_nil_r. case_decide as Hp.
    - rewrite Nat.sub_0_r. apply take_ge. done.
    - destruct pend; [done|by destruct Hp]. }
  apply Forall_cons_1 in Hops as [Ho Hops]. pose proof (is_op_nonempty o Ho).
  destruct Ho as [[opcode data] Ho]. cbn [concat] in *. rewrite Ho. rewrite length_app in Hf.
  assert (0 < length o)%nat by (destruct o; [done|cbn; lia]).
  pose proof (op_separator o opcode data Ho) as Hiff. unfold others. rewrite filter_cons.
  destruct (decide (opcode = OP_CODESEPARATOR)) as [E|E].
  - rewrite (decide_False (P := o ≠ _)) by tauto. rewrite (proj1 Hiff E) in *.
    rewrite !length_app. cbn [length]. rewrite take_app_length' by lia.
    rewrite <- (app_nil_l (concat ops)) at 2. rewrite (IH ops []) by (done || lia). done.
  - rewrite (decide_True (P := o ≠ _)) by tauto. cbn [concat].
    rewrite !app_assoc. apply (IH ops (pend ++ o)); done || lia.
Qed.

Lemma length_filter_op (ops : list CScript) b :
  (length b * length (filter (λ o, o = b) ops) ≤ length (concat ops))%nat.
Proof.
  induction ops as [|o ops IH]; [cbn; lia|]. rewrite filter_cons. cbn [concat].
  rewrite length_app. case_decide; subst; cbn [length]; lia.
Qed.

Lemma length_others ops b :
  length (concat (others b ops)) = (length (concat ops) - length b * length (filter (λ o, o = b) ops))%nat.
Proof.
  unfold others. induction ops as [|o ops IH]; [cbn; lia|]. rewrite !filter_cons.
  pose proof (length_filter_op ops b) as Hle.
  destruct (decide (o = b)) as [->|Hne].
  - rewrite decide_False by tauto. cbn [length concat]. rewrite length_app, IH. lia.
  - rewrite decide_True by done. cbn [concat]. rewrite !length_app, IH. lia.
Qed.

(** The separators are skipped while the script is written. *)
Lemma SerializeScriptCode_ops ops :
  Forall is_op ops →
  SerializeScriptCode (concat ops) =
  enc CScript_format (FindAndDelete (concat ops) [OP_CODESEPARATOR]).2.
Proof.
  intros Hops. rewrite FindAndDelete_ops by (done || apply is_op_separator). cbn [snd].
  unfold SerializeScriptCode. cbv zeta. rewrite count_separators_ops by (done || lia).
  pose proof (write_pieces_ops (S (length (concat ops))) ops [] Hops (le_n _)) as Hw.
  cbn [app] in Hw. rewrite Hw. cbn [enc CScript_format byte_vector_format].
  unfold byte_vector_Serialize. rewrite length_others. unfold count_op. cbn [length].
  pose proof (length_filter_op ops [OP_CODESEPARATOR]). f_equal. f_equal. cbn [length] in *. lia.
Qed.

(** ** The older definition *)

Lemma serialize_each_list {A} (fmt : format A) f l k :
  (∀ i a, l !! i = Some a → f (k + Z.of_nat i) = Ok (enc fmt a)) →
  serialize_each f (length l) k = Ok (concat (enc fmt <$> l)).
Proof.
  revert k. induction l as [|a l IH]; intros k Hf; [done|]. cbn [length serialize_each].
  specialize (Hf 0%nat) as H0'. rewrite Z.add_0_r in H0'. rewrite (H0' a eq_refl).
  cbn [mbind outcome_bind]. rewrite IH; [done|]. intros i b Hi.
  replace (k + 1 + Z.of_nat i) with (k + Z.of_nat (S i)) by lia. by apply Hf.
Qed.

(** The transaction the older definition hashes. *)
Definition signed_vin (code : CScript) (n : nat) (nHashType : Z) (ins : list CTxIn) : list CTxIn :=
  let ins := alter (set_scriptSig code) n (set_scriptSig [] <$> ins) in
  if hash_is nHashType SIGHASH_NONE || hash_is nHashType SIGHASH_SINGLE then zero_sequences n ins else ins.

Lemma signed_vin_lookup code n nHashType ins i txin :
  ins !! i = Some txin →
  signed_vin code n nHashType ins !! i =
  Some {| prevout := prevout txin; scriptSig := if decide (i = n) then code else [];
          nSequence := if bool_decide (i ≠ n) &&
            (hash_is nHashType SIGHASH_SINGLE || hash_is nHashType SIGHASH_NONE) then 0 else nSequence txin;
          scriptWitness := scriptWitness txin |}.
Proof.
  intros Hi. unfold signed_vin, zero_sequences. cbv zeta. rewrite (orb_comm (hash_is _ SIGHASH_SINGLE)).
  assert (alter (set_scriptSig code) n (set_scriptSig [] <$> ins) !! i =
    Some (set_scriptSig (if decide (i = n) then code else []) txin)) as Ha.
  { destruct (decide (i = n)) as [->|Hne].
    - rewrite list_lookup_alter_eq, list_lookup_fmap, Hi. done.
    - rewrite list_lookup_alter_ne, list_lookup_fmap, Hi by done. done. }
  destruct (hash_is nHashType SIGHASH_NONE || hash_is nHashType SIGHASH_SINGLE).
  - rewrite list_lookup_imap, Ha. cbn. destruct (decide (i = n)) as [->|Hne].
    + by rewrite decide_False, bool_decide_eq_false_2 by tauto.
    + by rewrite decide_True, bool_decide_eq_true_2 by done.
  - rewrite Ha, andb_false_r. done.
Qed.

Lemma length_signed_vin code n nHashType ins : length (signed_vin code n nHashType ins) = length ins.
Proof.
  unfold signed_vin, zero_sequences. cbv zeta.
  destruct (_ || _); by rewrite ?length_imap, length_alter, length_fmap.
Qed.

Definition signed_vout (n : nat) (nHashType : Z) (outs : list CTxOut) : list CTxOut :=
  if hash_is nHashType SIGHASH_NONE then []
  else if hash_is nHashType SIGHASH_SINGLE
  then imap (λ i txout, if decide (i < n)%nat then CTxOut_null else txout) (take (n + 1) outs)
  else outs.

(** What is written for an input and for an output. *)
Lemma SerializeInput_eq ops txTo nIn nHashType i j txin :
  Forall is_op ops → 0 ≤ nIn → 0 ≤ i → j = (if anyone_can_pay nHashType then nIn else i) →
  signed_vin (FindAndDelete (concat ops) [OP_CODESEPARATOR]).2 (Z.to_nat nIn) nHashType (vin txTo)
    !! Z.to_nat j = Some txin →
  SerializeInput txTo (concat ops) nIn nHashType i = Ok (enc CTxIn_format txin).
Proof.
  intros Hops Hn Hi Hj Hl. unfold SerializeInput. cbv zeta. rewrite <- Hj.
  assert (0 ≤ j) as Hj0 by (rewrite Hj; destruct (anyone_can_pay _); lia).
  destruct (vin txTo !! Z.to_nat j) as [t|] eqn:Et.
  2: { apply lookup_lt_Some in Hl. rewrite length_signed_vin in Hl.
       apply lookup_ge_None in Et. lia. }
  rewrite (signed_vin_lookup _ _ _ _ _ t Et) in Hl. injection Hl as <-.
  unfold vec_at. rewrite Et. cbn [mbind outcome_bind]. f_equal.
  cbn [enc CTxIn_format record_format]. cbn -[enc COutPoint_format CScript_format uint32_format].
  unfold pair_Serialize. cbn [fst snd enc]. f_equal.
  destruct (decide (j = nIn)) as [->|Hne].
  - rewrite (decide_False (P := nIn ≠ nIn)), decide_True, !bool_decide_eq_false_2 by tauto.
    by rewrite SerializeScriptCode_ops.
  - rewrite (decide_True (P := j ≠ nIn)), (decide_False (P := Z.to_nat j = _)),
      !bool_decide_eq_true_2 by lia. cbn [andb]. f_equal. by destruct (_ || _).
Qed.

Lemma SerializeOutput_eq txTo nIn nHashType i txout :
  0 ≤ nIn → hash_is nHashType SIGHASH_NONE = false →
  signed_vout (Z.to_nat nIn) nHashType (vout txTo) !! i = Some txout →
  SerializeOutput txTo nIn nHashType (Z.of_nat i) = Ok (enc CTxOut_format txout).
Proof.
  intros Hn Hnone. unfold signed_vout, SerializeOutput. rewrite Hnone.
  destruct (hash_is nHashType SIGHASH_SINGLE); cbn [andb].
  - rewrite list_lookup_imap. destruct (take _ _ !! i) as [t|] eqn:Et; [|done].
    apply lookup_take_Some in Et as [Et Hi]. cbn. intros [= <-].
    destruct (decide (i < Z.to_nat nIn)%nat).
    + by rewrite bool_decide_eq_true_2 by lia.
    + rewrite bool_decide_eq_false_2 by lia. rewrite Nat2Z.id. unfold vec_at. by rewrite Et.
  - intros Ht. rewrite Nat2Z.id. unfold vec_at. by rewrite Ht.
Qed.

Section sighash.
Context `{!Hashing}.

(** The older definition as one formula. *)
Lemma SignatureHashOld_eq code txTo nIn nHashType :
  0 ≤ nIn < Z.of_nat (length (vin txTo)) →
  SignatureHashOld code txTo nIn nHashType =
  if hash_is nHashType SIGHASH_SINGLE && bool_decide (Z.of_nat (length (vout txTo)) ≤ nIn)
  then Ok uint256_one
  else
    let n := Z.to_nat nIn in
    let ins := signed_vin (FindAndDelete code [OP_CODESEPARATOR]).2 n nHashType (vin txTo) in
    ins ← (if anyone_can_pay nHashType then txin ← vec_at ins n; Ok [txin] else Ok ins);
    Ok (Hash256 (SerializeTransaction false
                   {| vin := ins; vout := signed_vout n nHashType (vout txTo);
                      nVersion := nVersion txTo; nLockTime := nLockTime txTo |} ++
                 enc uint32_format nHashType)).
Proof.
  intros Hin. unfold SignatureHashOld. rewrite decide_False by lia. cbv zeta.
  unfold signed_vin, signed_vout. cbv zeta.
  destruct (hash_is nHashType SIGHASH_NONE) eqn:En; cbn [orb].
  - assert (hash_is nHashType SIGHASH_SINGLE = false) as ->; [|done].
    unfold hash_is, SIGHASH_NONE, SIGHASH_SINGLE in *. apply bool_decide_eq_true in En.
    by rewrite En.
  - destruct (hash_is nHashType SIGHASH_SINGLE) eqn:Es; cbn [andb]; [|done].
    case_bool_decide; case_decide; done || lia.
Qed.

(** The inputs and the outputs that are hashed. *)
Lemma serialize_inputs ops txTo nIn nHashType :
  Forall is_op ops → 0 ≤ nIn < Z.of_nat (length (vin txTo)) →
  let ins := signed_vin (FindAndDelete (concat ops) [OP_CODESEPARATOR]).2 (Z.to_nat nIn) nHashType
               (vin txTo) in
  let nInputs := if anyone_can_pay nHashType then 1 else Z.of_nat (length (vin txTo)) in
  ∃ hashed, (if anyone_can_pay nHashType then txin ← vec_at ins (Z.to_nat nIn); Ok [txin] else Ok ins) =
      Ok hashed ∧ nInputs = Z.of_nat (length hashed) ∧
    serialize_each (SerializeInput txTo (concat ops) nIn nHashType) (Z.to_nat nInputs) 0 =
    Ok (concat (enc CTxIn_format <$> hashed)).
Proof.
  intros Hops Hin ins nInputs.
  destruct (lookup_lt_is_Some_2 ins (Z.to_nat nIn)) as [txin Ht];
    [unfold ins; rewrite length_signed_vin; lia|].
  destruct (anyone_can_pay nHashType) eqn:Ea; subst nInputs.
  - exists [txin]. unfold vec_at. rewrite Ht. split; [done|]. split; [done|].
    apply (serialize_each_list CTxIn_format _ [txin]). intros i a Hi.
    apply list_lookup_singleton_Some in Hi as [-> <-].
    eapply SerializeInput_eq; [done|lia|done|by rewrite Ea|exact Ht].
  - exists ins. split; [done|]. assert (length ins = length (vin txTo)) as El by apply length_signed_vin.
    rewrite <- El, Nat2Z.id. split; [done|].
    apply serialize_each_list. intros i a Hi.
    apply (SerializeInput_eq _ _ _ _ _ (Z.of_nat i)); [done|lia|lia|by rewrite Ea|by rewrite Nat2Z.id].
Qed.

Lemma serialize_outputs txTo nIn nHashType :
  0 ≤ nIn < 2 ^ 32 - 1 →
  (hash_is nHashType SIGHASH_SINGLE = true → nIn < Z.of_nat (length (vout txTo))) →
  let outs := signed_vout (Z.to_nat nIn) nHashType (vout txTo) in
  let nOutputs := if hash_is nHashType SIGHASH_NONE then 0
    else if hash_is nHashType SIGHASH_SINGLE then uint32 (nIn + 1) else Z.of_nat (length (vout txTo)) in
  nOutputs = Z.of_nat (length outs) ∧
  serialize_each (SerializeOutput txTo nIn nHashType) (Z.to_nat nOutputs) 0 =
  Ok (concat (enc CTxOut_format <$> outs)).
Proof.
  intros Hn Hsingle outs nOutputs. assert (nOutputs = Z.of_nat (length outs)) as El.
  { subst nOutputs outs. unfold signed_vout. destruct (hash_is nHashType SIGHASH_NONE); [done|].
    destruct (hash_is nHashType SIGHASH_SINGLE); [|done]. specialize (Hsingle eq_refl).
    rewrite length_imap, length_take. unfold uint32. rewrite Z.mod_small by lia. lia. }
  split; [done|]. rewrite El, Nat2Z.id. destruct (hash_is nHashType SIGHASH_NONE) eqn:En.
  - subst outs. unfold signed_vout. rewrite En. done.
  - apply serialize_each_list. intros i a Hi. apply SerializeOutput_eq; [lia|done|done].
Qed.

(** C30: The signature hash before segregated witness, which writes the
    signed parts of the transaction directly, equals the older definition,
    which edits a copy of the transaction and serializes it: for every input,
    every hash type and every script whose operations can be read. *)
Theorem signature_hash_matches_old ops txTo nIn nHashType amount cache :
  Forall is_op ops → 0 ≤ nIn < Z.of_nat (length (vin txTo)) → Z.of_nat (length (vin txTo)) < 2 ^ 32 →
  SignatureHash (concat ops) txTo nIn nHashType amount BASE cache =
  SignatureHashOld (concat ops) txTo nIn nHashType.
Proof.
  intros Hops Hin Hsz. rewrite SignatureHashOld_eq by done.
  destruct (SignatureHash_returns (concat ops) txTo nIn nHashType amount BASE cache ltac:(lia)) as [Hr _].
  destruct (Hr ltac:(lia)) as [h Hh]. rewrite Hh. unfold SignatureHash in Hh.
  apply bind_Ok in Hh as (? & _ & Hh). apply bind_Ok in Hh as (? & _ & Hh).
  rewrite decide_False in Hh by done.
  destruct (hash_is nHashType SIGHASH_SINGLE && bool_decide (Z.of_nat (length (vout txTo)) ≤ nIn)) eqn:Eone;
    [done|].
  destruct (serialize_inputs ops txTo nIn nHashType Hops Hin) as (hashed & Ei & Eni & Eis).
  destruct (serialize_outputs txTo nIn nHashType) as [Eno Eos]; [lia| |].
  { intros Es. rewrite Es in Eone. cbn in Eone. apply bool_decide_eq_false in Eone. lia. }
  cbv zeta. rewrite Ei. cbn [mbind outcome_bind]. rewrite <- Hh. unfold SerializeForSignature. cbv zeta.
  rewrite Eis. cbn [mbind outcome_bind]. rewrite Eos. cbn [mbind outcome_bind]. rewrite Eni, Eno.
  f_equal. unfold SerializeTransaction. cbn [andb vin vout nVersion nLockTime].
  rewrite !decide_False by (intros Hc; by apply Hc). cbn [app]. f_equal. f_equal.
  cbn [enc vector_format]. unfold vector_Serialize. by rewrite <- !app_assoc.
Qed.

(** The hashes computed once for a transaction are those computed for each
    input. *)
Lemma precomputed_hashes_agree code txTo nIn nHashType amount sigversion :
  SignatureHash code txTo nIn nHashType amount sigversion (Some (PrecomputedTransactionData_new txTo)) =
  SignatureHash code txTo nIn nHashType amount sigversion None.
Proof.
  unfold SignatureHash. assert (witness_digests txTo nIn nHashType (Some (PrecomputedTransactionData_new txTo)) =
    witness_digests txTo nIn nHashType None) as ->; [|done].
  unfold witness_digests, PrecomputedTransactionData_new. by destruct (HasWitness txTo).
Qed.

(** ** What a signature does not cover *)

(** Two transactions that differ in the scripts and witnesses of their inputs
    only. *)
Record same_unsigned (tx tx' : CTransaction) : Prop := {
  su_vin : (λ i, (prevout i, nSequence i)) <$> vin tx = (λ i, (prevout i, nSequence i)) <$> vin tx';
  su_vout : vout tx = vout tx';
  su_version : nVersion tx = nVersion tx';
  su_locktime : nLockTime tx = nLockTime tx';
}.

Lemma same_length tx tx' : same_unsigned tx tx' → length (vin tx) = length (vin tx').
Proof.
  intros Hs. rewrite <- (length_fmap (λ i, (prevout i, nSequence i)) (vin tx)), (su_vin _ _ Hs).
  apply length_fmap.
Qed.

Lemma same_input tx tx' code nIn nHashType i :
  same_unsigned tx tx' →
  SerializeInput tx code nIn nHashType i = SerializeInput tx' code nIn nHashType i.
Proof.
  intros Hs. unfold SerializeInput. cbv zeta. set (j := if anyone_can_pay nHashType then nIn else i).
  pose proof (f_equal (λ l, l !! Z.to_nat j) (su_vin _ _ Hs)) as E. cbn in E.
  rewrite !list_lookup_fmap in E. unfold vec_at.
  destruct (vin tx !! Z.to_nat j) as [t|], (vin tx' !! Z.to_nat j) as [t'|]; cbn in E |- *; try done.
  by injection E as -> ->.
Qed.

Lemma serialize_each_ext f g n k : (∀ i, f i = g i) → serialize_each f n k = serialize_each g n k.
Proof.
  intros Hfg. revert k. induction n as [|n IH]; intros k; cbn; [done|]. by rewrite Hfg, IH.
Qed.

Lemma SerializeForSignature_same tx tx' code nIn nHashType :
  same_unsigned tx tx' →
  SerializeForSignature tx code nIn nHashType = SerializeForSignature tx' code nIn nHashType.
Proof.
  intros Hs. unfold SerializeForSignature. cbv zeta. rewrite (same_length _ _ Hs).
  rewrite (serialize_each_ext (SerializeInput tx code nIn nHashType)
    (SerializeInput tx' code nIn nHashType)) by (intros; by apply same_input).
  unfold SerializeOutput. by rewrite (su_vout _ _ Hs), (su_version _ _ Hs), (su_locktime _ _ Hs).
Qed.

Lemma SignatureHash_same tx tx' code nIn nHashType amount amount' cache cache' :
  0 ≤ nIn → same_unsigned tx tx' →
  SignatureHash code tx nIn nHashType amount BASE cache =
  SignatureHash code tx' nIn nHashType amount' BASE cache'.
Proof.
  intros H0' Hs. pose proof (same_length _ _ Hs) as Hlen. unfold SignatureHash. rewrite Hlen.
  destruct (decide (nIn < Z.of_nat (length (vin tx')))) as [Hin|Hin];
    [|by rewrite (bool_decide_eq_false_2 (nIn < _))].
  rewrite (bool_decide_eq_true_2 (nIn < _)) by done. cbn [cpp_assert mbind outcome_bind].
  assert (∀ t : CTransaction, length (vin t) = length (vin tx') →
    returns (if IsVote t then txin ← vec_at (vin t) 0; Ok (scriptSig txin) else Ok code)) as Hret.
  { intros t Ht. destruct (IsVote t); [|by eexists]. apply returns_bind; [|intros ? _; by eexists].
    apply (vec_at_returns _ 0). lia. }
  destruct (Hret tx Hlen) as [s1 ->], (Hret tx' eq_refl) as [s2 ->]. cbn [mbind outcome_bind].
  rewrite !decide_False by done. by rewrite (su_vout _ _ Hs), (SerializeForSignature_same tx tx').
Qed.

(** The signature of a transaction before segregated witness, which is
    the one a finalizer's commit script checks, does not cover the scripts of
    the inputs: of two transactions that differ in them only, any signature is
    valid for both or for neither.  So the vote of a vote transaction, which is
    in the script of its input, is not signed with the transaction. *)
Theorem base_signatures_ignore_scripts `{!Crypto, !Signatures}
    tx tx' nIn amount amount' txdata txdata' sig key code :
  0 ≤ nIn → same_unsigned tx tx' →
  transaction_CheckSig tx nIn amount txdata sig key code BASE =
  transaction_CheckSig tx' nIn amount' txdata' sig key code BASE.
Proof.
  intros Hn Hs. unfold transaction_CheckSig. cbv zeta. destruct (negb _); [done|].
  case_decide; [done|]. by rewrite (SignatureHash_same tx tx' _ _ _ amount amount' txdata txdata').
Qed.
End sighash.

(** ** Witnesses *)

#[local] Existing Instance toy_crypto.
#[local] Existing Instance toy_hashing.
#[local] Existing Instance toy_signatures.

Lemma signature_hash_matches_old_witness :
  SignatureHash (concat [[OP_DUP]; [OP_CODESEPARATOR]; push_data [1; 2; 3]]) toy_tx 0 SIGHASH_ALL 5 BASE None =
  SignatureHashOld (concat [[OP_DUP]; [OP_CODESEPARATOR]; push_data [1; 2; 3]]) toy_tx 0 SIGHASH_ALL.
Proof.
  apply signature_hash_matches_old; [|cbn; lia|cbn; lia].
  apply Forall_cons_2; [by exists (OP_DUP, [])|].
  apply Forall_cons_2; [exact is_op_separator|].
  apply Forall_cons_2; [apply is_op_push; cbn; lia|apply Forall_nil_2].
Defined.

(** Two votes of the same finalizer, in otherwise equal transactions. *)
Definition toy_vote_tx (vote : bytes) : CTransaction :=
  SetType VOTE {| vin := [CTxIn_new {| outpoint_hash := 99; outpoint_n := 0 |} vote SEQUENCE_FINAL];
                  vout := []; nVersion := 1; nLockTime := 0 |}.

Lemma base_signatures_ignore_scripts_witness :
  transaction_CheckSig (toy_vote_tx [1]) 0 5 None [3; 1] (2 :: replicate 32 7) [OP_TRUE] BASE =
  transaction_CheckSig (toy_vote_tx [2]) 0 5 None [3; 1] (2 :: replicate 32 7) [OP_TRUE] BASE.
Proof. apply base_signatures_ignore_scripts; [lia|split; reflexivity]. Defined.
