(* ===== verification/MerkleBlock.v ===== *)
(** * Partial Merkle trees: src/src/merkleblock.h and merkleblock.cpp

    A partial tree proves to a node without the block that transactions are
    in it: it holds the hashes of the subtrees without a matched transaction,
    and one bit per visited node.  [partial_tree_complete] shows that what is
    built, sent and extracted are the matched transactions with the root of
    the block; [partial_tree_sound] that nothing else can be extracted under
    that root.  The bloom filter of [CMerkleBlock] is an argument. *)
From S2P Require Import Prelude Serialize Params Script Transaction Block.

Definition MAX_BLOCK_WEIGHT : Z := 4000000.
Definition MIN_TRANSACTION_WEIGHT : Z := 4 * 60.

Record CPartialMerkleTree := {
  nTransactions : Z;
  vBits : list bool;
  vHash : list Z;
  fBad : bool;
}.

(** [unsigned], shifted by an [int] below 32. *)
Definition CalcTreeWidth (nTransactions : Z) (height : nat) : Z :=
  Z.shiftr (uint32 (nTransactions + Z.shiftl 1 (Z.of_nat height) - 1)) (Z.of_nat height).

(** [while (CalcTreeWidth(nHeight) > 1) nHeight++]: the width is at most one
    at height 31, so 31 rounds are enough. *)
Fixpoint tree_height_loop (fuel : nat) (nTransactions : Z) (nHeight : nat) : nat :=
  match fuel with
  | O => nHeight
  | S fuel =>
      if decide (1 < CalcTreeWidth nTransactions nHeight)
      then tree_height_loop fuel nTransactions (S nHeight) else nHeight
  end.

Definition CalcTreeHeight (nTransactions : Z) : nat := tree_height_loop 31 nTransactions 0.

Section partial.
Context `{!Hashing}.

Fixpoint CalcHash (nTransactions : Z) (height : nat) (pos : Z) (vTxid : list Z) : outcome Z :=
  _ ← cpp_assert (bool_decide (length vTxid ≠ O));
  match height with
  | O => vec_at vTxid (Z.to_nat pos)
  | S height =>
      lhash ← CalcHash nTransactions height (uint32 (pos * 2)) vTxid;
      rhash ← (if decide (uint32 (pos * 2 + 1) < CalcTreeWidth nTransactions height)
               then CalcHash nTransactions height (uint32 (pos * 2 + 1)) vTxid
               else Ok lhash);
      Ok (Hash_pair lhash rhash)
  end.

(** The loop over the leaves [p] of a node, of which there are [rounds]. *)
Fixpoint any_match (rounds : nat) (p : Z) (vMatch : list bool) (fParentOfMatch : bool) : outcome bool :=
  match rounds with
  | O => Ok fParentOfMatch
  | S rounds => m ← vec_at vMatch (Z.to_nat p); any_match rounds (p + 1) vMatch (fParentOfMatch || m)
  end.

Definition leaf_rounds (nTransactions : Z) (height : nat) (pos : Z) : nat :=
  Z.to_nat (Z.min (uint32 (Z.shiftl (uint32 (pos + 1)) (Z.of_nat height))) nTransactions -
            uint32 (Z.shiftl pos (Z.of_nat height))).

Definition push_bit (b : bool) (t : CPartialMerkleTree) : CPartialMerkleTree :=
  {| nTransactions := nTransactions t; vBits := vBits t ++ [b]; vHash := vHash t; fBad := fBad t |}.
Definition push_hash (h : Z) (t : CPartialMerkleTree) : CPartialMerkleTree :=
  {| nTransactions := nTransactions t; vBits := vBits t; vHash := vHash t ++ [h]; fBad := fBad t |}.

Fixpoint TraverseAndBuild (height : nat) (pos : Z) (vTxid : list Z) (vMatch : list bool)
    (t : CPartialMerkleTree) : outcome CPartialMerkleTree :=
  fParentOfMatch ← any_match (leaf_rounds (nTransactions t) height pos)
                     (uint32 (Z.shiftl pos (Z.of_nat height))) vMatch false;
  let t := push_bit fParentOfMatch t in
  match height with
  | O => h ← CalcHash (nTransactions t) height pos vTxid; Ok (push_hash h t)
  | S below =>
      if negb fParentOfMatch then
        h ← CalcHash (nTransactions t) height pos vTxid; Ok (push_hash h t)
      else
        t ← TraverseAndBuild below (uint32 (pos * 2)) vTxid vMatch t;
        if decide (uint32 (pos * 2 + 1) < CalcTreeWidth (nTransactions t) below)
        then TraverseAndBuild below (uint32 (pos * 2 + 1)) vTxid vMatch t
        else Ok t
  end.

(** The constructor from a list of hashes and a mask. *)
Definition CPartialMerkleTree_new (vTxid : list Z) (vMatch : list bool) : outcome CPartialMerkleTree :=
  let n := uint32 (Z.of_nat (length vTxid)) in
  TraverseAndBuild (CalcTreeHeight n) 0 vTxid vMatch
    {| nTransactions := n; vBits := []; vHash := []; fBad := false |}.

(** What [TraverseAndExtract] changes: its four references and [fBad]. *)
Record Extraction := {
  nBitsUsed : nat;
  nHashUsed : nat;
  ex_vMatch : list Z;
  ex_vnIndex : list Z;
  ex_fBad : bool;
}.

Definition use_bit (e : Extraction) : Extraction :=
  {| nBitsUsed := S (nBitsUsed e); nHashUsed := nHashUsed e; ex_vMatch := ex_vMatch e;
     ex_vnIndex := ex_vnIndex e; ex_fBad := ex_fBad e |}.
Definition use_hash (e : Extraction) : Extraction :=
  {| nBitsUsed := nBitsUsed e; nHashUsed := S (nHashUsed e); ex_vMatch := ex_vMatch e;
     ex_vnIndex := ex_vnIndex e; ex_fBad := ex_fBad e |}.
Definition push_match (hash pos : Z) (e : Extraction) : Extraction :=
  {| nBitsUsed := nBitsUsed e; nHashUsed := nHashUsed e; ex_vMatch := ex_vMatch e ++ [hash];
     ex_vnIndex := ex_vnIndex e ++ [pos]; ex_fBad := ex_fBad e |}.
Definition set_bad (bad : bool) (e : Extraction) : Extraction :=
  {| nBitsUsed := nBitsUsed e; nHashUsed := nHashUsed e; ex_vMatch := ex_vMatch e;
     ex_vnIndex := ex_vnIndex e; ex_fBad := bad || ex_fBad e |}.

Fixpoint TraverseAndExtract (t : CPartialMerkleTree) (height : nat) (pos : Z) (e : Extraction) :
  Z * Extraction :=
  match vBits t !! nBitsUsed e with
  | None => (0, set_bad true e)
  | Some fParentOfMatch =>
      let e := use_bit e in
      let stored e :=
        match vHash t !! nHashUsed e with
        | None => (0, set_bad true e)
        | Some hash =>
            let e := use_hash e in
            (hash, if bool_decide (height = O) && fParentOfMatch then push_match hash pos e else e)
        end in
      match height with
      | O => stored e
      | S below =>
          if negb fParentOfMatch then stored e
          else
            let '(lhash, e) := TraverseAndExtract t below (uint32 (pos * 2)) e in
            if decide (uint32 (pos * 2 + 1) < CalcTreeWidth (nTransactions t) below) then
              let '(rhash, e) := TraverseAndExtract t below (uint32 (pos * 2 + 1)) e in
              (Hash_pair lhash rhash, set_bad (bool_decide (rhash = lhash)) e)
            else (Hash_pair lhash lhash, e)
      end
  end.

(** The root, or 0 for a failure; [vMatch] and [vnIndex]. *)
Definition ExtractMatches (t : CPartialMerkleTree) (vnIndex : list Z) : Z * list Z * list Z :=
  let failure := (0, [], vnIndex) in
  if decide (nTransactions t = 0) then failure
  else if decide (MAX_BLOCK_WEIGHT / MIN_TRANSACTION_WEIGHT < nTransactions t) then failure
  else if decide (nTransactions t < Z.of_nat (length (vHash t))) then failure
  else if decide (length (vBits t) < length (vHash t))%nat then failure
  else
    let '(hashMerkleRoot, e) :=
      TraverseAndExtract t (CalcTreeHeight (nTransactions t)) 0
        {| nBitsUsed := 0; nHashUsed := 0; ex_vMatch := []; ex_vnIndex := vnIndex; ex_fBad := fBad t |} in
    let ok :=
      negb (ex_fBad e) &&
      bool_decide ((nBitsUsed e + 7) / 8 = (length (vBits t) + 7) / 8)%nat &&
      bool_decide (nHashUsed e = length (vHash t)) in
    (if ok then hashMerkleRoot else 0, ex_vMatch e, ex_vnIndex e).

(** ** Sending a tree *)

(** [vBytes[p / 8] |= vBits[p] << (p % 8)] for every [p]. *)
Definition pack_bits (vBits : list bool) : bytes :=
  foldl (λ vBytes p,
    <[(p / 8)%nat := Z.lor (vBytes !!! (p / 8)%nat)
                       (Z.shiftl (Z.b2z (vBits !!! p)) (Z.of_nat (p mod 8)))]> vBytes)
    (replicate ((length vBits + 7) / 8) 0) (seq 0 (length vBits)).

Definition unpack_bits (vBytes : bytes) : list bool :=
  (λ p, bool_decide (Z.land (vBytes !!! (p / 8)%nat) (Z.shiftl 1 (Z.of_nat (p mod 8))) ≠ 0)) <$>
  seq 0 (length vBytes * 8).

Definition CPartialMerkleTree_format : format CPartialMerkleTree :=
  record_format (uint32_format ⊗ vector_format uint256_format ⊗ byte_vector_format)
    (λ t, (nTransactions t, (vHash t, pack_bits (vBits t))))
    (λ '(n, (hashes, vBytes)),
       {| nTransactions := n; vBits := unpack_bits vBytes; vHash := hashes; fBad := false |}).

(** ** The transactions of a block *)

(** [header], [txn] and [vMatchedTxn]. *)
Record CMerkleBlock := {
  mb_header : CBlockHeader;
  txn : CPartialMerkleTree;
  vMatchedTxn : list (nat * Z);
}.

(** [filter->IsRelevantAndUpdate], which may change the filter. *)
Context {Filter : Type} (IsRelevantAndUpdate : CTransaction → Filter → bool * Filter).

Fixpoint match_txs (i : nat) (txs : list CTransaction) (filter : option Filter)
    (txids : option (gset Z)) : list bool * list (nat * Z) :=
  match txs with
  | [] => ([], [])
  | tx :: txs =>
      let hash := GetHash tx in
      let wanted := match txids with Some ids => bool_decide (hash ∈ ids) | None => false end in
      if wanted then
        let '(vMatch, matched) := match_txs (S i) txs filter txids in (true :: vMatch, matched)
      else
        let '(relevant, filter) :=
          match filter with
          | Some f => let '(b, f) := IsRelevantAndUpdate tx f in (b, Some f)
          | None => (false, None)
          end in
        let '(vMatch, matched) := match_txs (S i) txs filter txids in
        (relevant :: vMatch, if relevant then (i, hash) :: matched else matched)
  end.

Definition CMerkleBlock_new (block : CBlock) (filter : option Filter) (txids : option (gset Z)) :
  outcome CMerkleBlock :=
  let '(vMatch, matched) := match_txs 0 (vtx block) filter txids in
  t ← CPartialMerkleTree_new (GetHash <$> vtx block) vMatch;
  Ok {| mb_header := GetBlockHeader block; txn := t; vMatchedTxn := matched |}.
End partial.

(** ** Widths and heights *)

Lemma pow_15 h : (h ≤ 15)%nat → 1 ≤ 2 ^ Z.of_nat h ≤ 32768 ∧ Z.of_nat (2 ^ h) = 2 ^ Z.of_nat h.
Proof.
  intros Hh. split; [|by rewrite Nat2Z.inj_pow].
  pose proof (Z.pow_pos_nonneg 2 (Z.of_nat h)). pose proof (Z.pow_le_mono_r 2 (Z.of_nat h) 15). lia.
Qed.

(** The positions of the children as the code computes them. *)
Lemma child_positions pos :
  Z.of_nat pos ≤ 16666 →
  uint32 (Z.of_nat pos * 2) = Z.of_nat (2 * pos) ∧
  uint32 (Z.of_nat pos * 2 + 1) = Z.of_nat (2 * pos + 1).
Proof. intros. rewrite !uint32_small by (unfold is_uint32; lia). lia. Qed.

Section tree.
Context `{!Hashing} (vTxid : list Z).
Context (Hsmall : Z.of_nat (length vTxid) ≤ MAX_BLOCK_WEIGHT / MIN_TRANSACTION_WEIGHT).
#[local] Abbreviation n := (Z.of_nat (length vTxid)).

Lemma level_width h i : (i < length (level vTxid h) ↔ i * 2 ^ h < length vTxid)%nat.
Proof.
  revert i. induction h as [|h IH]; intros i; cbn [level]; [cbn; lia|].
  rewrite length_next_level, Nat.pow_succ_r'.
  replace (i * (2 * 2 ^ h))%nat with ((2 * i) * 2 ^ h)%nat by lia. rewrite <- IH.
  pose proof (Nat.div2_odd (S (length (level vTxid h)))). destruct (Nat.odd _); cbn [Nat.b2n] in *; lia.
Qed.

Lemma small_length : n ≤ 16666.
Proof. exact Hsmall. Qed.

Lemma small_height : (tree_height (length vTxid) ≤ 15)%nat.
Proof.
  unfold tree_height. rewrite <- (Nat.log2_up_pow2 15) by lia. apply Nat.log2_up_le_mono.
  pose proof small_length. assert (Z.of_nat (2 ^ 15) = 32768) by (rewrite Nat2Z.inj_pow; done). lia.
Qed.

Lemma CalcTreeWidth_lt h i :
  (h ≤ 15)%nat → Z.of_nat i < CalcTreeWidth n h ↔ (i < length (level vTxid h))%nat.
Proof.
  intros Hh. rewrite level_width. destruct (pow_15 h Hh) as [Hp Heq]. pose proof small_length.
  unfold CalcTreeWidth. rewrite Z.shiftl_1_l, Z.shiftr_div_pow2 by lia.
  rewrite uint32_small by (unfold is_uint32; lia).
  pose proof (Z.div_mod (n + 2 ^ Z.of_nat h - 1) (2 ^ Z.of_nat h)) as Hdm.
  pose proof (Z.mod_pos_bound (n + 2 ^ Z.of_nat h - 1) (2 ^ Z.of_nat h)) as Hb.
  set (q := _ / _) in *. set (r := _ mod _) in *. rewrite Nat2Z.inj_lt, Nat2Z.inj_mul, Heq.
  split; intros Hi; nia.
Qed.

Lemma level_nonempty h : vTxid ≠ [] → (0 < length (level vTxid h))%nat.
Proof. intros Hne. apply level_width. destruct vTxid; [done|]. cbn. lia. Qed.

Lemma tree_height_level h :
  (h ≤ tree_height (length vTxid))%nat →
  tree_height (length (level vTxid h)) = (tree_height (length vTxid) - h)%nat.
Proof.
  induction h as [|h IH]; intros Hh; cbn [level]; [lia|].
  assert (1 < length (level vTxid h))%nat as Hl.
  { destruct (decide (1 < length (level vTxid h))%nat); [done|].
    rewrite (tree_height_small (length (level vTxid h))) in IH by lia. lia. }
  pose proof (tree_height_next _ Hl). rewrite length_next_level. lia.
Qed.

Lemma CalcTreeHeight_spec : vTxid ≠ [] → CalcTreeHeight n = tree_height (length vTxid).
Proof.
  intros Hne. unfold CalcTreeHeight. pose proof small_height as Hsh.
  enough (∀ fuel h, (h ≤ tree_height (length vTxid) → tree_height (length vTxid) < h + fuel →
    tree_height_loop fuel n h = tree_height (length vTxid))%nat) as Hloop by (apply Hloop; lia).
  induction fuel as [|fuel IH]; intros h Hh Hf; cbn [tree_height_loop]; [lia|].
  pose proof (tree_height_level h Hh) as Hth.
  destruct (decide _) as [Hw|Hw]; rewrite (CalcTreeWidth_lt h 1) in Hw by lia.
  - apply IH; [|lia]. rewrite tree_height_next in Hth by done. lia.
  - rewrite tree_height_small in Hth by lia. lia.
Qed.

(** The node above two nodes of a level. *)
Lemma parent_node h pos v :
  level vTxid (S h) !! pos = Some v →
  ∃ a b, level vTxid h !! (2 * pos)%nat = Some a ∧ v = Hash_pair a b ∧
    ((2 * pos + 1 < length (level vTxid h))%nat ∧ level vTxid h !! (2 * pos + 1)%nat = Some b ∨
     (length (level vTxid h) ≤ 2 * pos + 1)%nat ∧ b = a).
Proof.
  cbn [level]. rewrite next_level_lookup. intros Hv.
  destruct (level vTxid h !! (2 * pos)%nat) as [a|] eqn:Ha; [|done]. injection Hv as <-.
  exists a, (default a (level vTxid h !! (2 * pos + 1)%nat)). split_and!; [done|done|].
  destruct (level vTxid h !! (2 * pos + 1)%nat) as [b|] eqn:Hb.
  - left. split; [by eapply lookup_lt_Some|done].
  - right. split; [by apply lookup_ge_None|done].
Qed.

Lemma node_position h pos v :
  (h ≤ 15)%nat → level vTxid h !! pos = Some v → (pos * 2 ^ h < length vTxid)%nat ∧ Z.of_nat pos ≤ 16666.
Proof.
  intros Hh Hv%lookup_lt_Some%level_width. split; [done|]. destruct (pow_15 h Hh) as [? Heq].
  pose proof small_length. nia.
Qed.

Lemma CalcHash_level h pos v :
  (h ≤ 15)%nat → level vTxid h !! pos = Some v → CalcHash n h (Z.of_nat pos) vTxid = Ok v.
Proof.
  revert pos v. induction h as [|h IH]; intros pos v Hh Hv; cbn [CalcHash].
  - assert (vTxid ≠ []) by by destruct vTxid. cbn [level] in Hv.
    rewrite bool_decide_eq_true_2 by by destruct vTxid. cbn. rewrite Nat2Z.id. by apply vec_at_Ok.
  - destruct (node_position _ _ _ Hh Hv) as [Hlt Hpos]. destruct (child_positions pos Hpos) as [-> ->].
    destruct (parent_node h pos v Hv) as (a & b & Ha & -> & Hb).
    rewrite bool_decide_eq_true_2 by (destruct vTxid; cbn in *; lia). cbn [mbind outcome_bind cpp_assert].
    rewrite (IH (2 * pos)%nat a) by (done || lia). cbn [mbind outcome_bind].
    destruct Hb as [[Hw Hb]|[Hw ->]].
    + rewrite decide_True by (apply CalcTreeWidth_lt; [lia|done]). by rewrite (IH (2 * pos + 1)%nat b) by (done || lia).
    + rewrite decide_False by (rewrite CalcTreeWidth_lt; lia). done.
Qed.
End tree.

(** ** What is built can be extracted *)

Section complete.
Context `{!Hashing} (vTxid : list Z) (vMatch : list bool).
Context (Hsmall : Z.of_nat (length vTxid) ≤ MAX_BLOCK_WEIGHT / MIN_TRANSACTION_WEIGHT).
Context (Hlen : length vMatch = length vTxid).
Context (Hrange : ∀ h, Forall is_uint256 (level vTxid h)).
#[local] Abbreviation n := (Z.of_nat (length vTxid)).

(** The leaves below a node, and the matched ones. *)
Definition leaves (h pos : nat) : list nat :=
  seq (pos * 2 ^ h) (Nat.min (2 ^ h) (length vTxid - pos * 2 ^ h)).

Definition matched (h pos : nat) : list nat := filter (λ i, vMatch !! i = Some true) (leaves h pos).

Lemma leaves_leaf pos : (pos < length vTxid)%nat → leaves 0 pos = [pos].
Proof.
  intros Hp. unfold leaves. cbn [Nat.pow]. rewrite Nat.mul_1_r.
  replace (Nat.min 1 (length vTxid - pos)) with 1%nat by lia. done.
Qed.

Lemma leaves_split h pos :
  leaves (S h) pos =
  leaves h (2 * pos) ++ (if decide (2 * pos + 1 < length (level vTxid h))%nat
                         then leaves h (2 * pos + 1) else []).
Proof.
  unfold leaves. rewrite Nat.pow_succ_r'. set (w := (2 ^ h)%nat).
  replace (pos * (2 * w))%nat with (2 * pos * w)%nat by lia.
  destruct (decide _) as [Hw|Hw]; rewrite level_width in Hw; fold w in Hw.
  - replace ((2 * pos + 1) * w)%nat with (2 * pos * w + w)%nat in * by lia.
    replace (Nat.min (2 * w) (length vTxid - 2 * pos * w))%nat
      with (w + Nat.min w (length vTxid - (2 * pos * w + w)))%nat by lia.
    rewrite seq_app. by rewrite (Nat.min_l w (length vTxid - 2 * pos * w)) by lia.
  - rewrite app_nil_r. f_equal. lia.
Qed.

Lemma any_match_spec lo cnt found :
  (lo + cnt ≤ length vTxid)%nat →
  any_match cnt (Z.of_nat lo) vMatch found =
  Ok (found || bool_decide (filter (λ i, vMatch !! i = Some true) (seq lo cnt) ≠ [])).
Proof.
  revert lo found. induction cnt as [|cnt IH]; intros lo found Hl; cbn [any_match seq].
  - by rewrite orb_false_r.
  - destruct (lookup_lt_is_Some_2 vMatch lo) as [m Hm]; [lia|].
    rewrite Nat2Z.id. unfold vec_at. rewrite Hm. cbn [mbind outcome_bind].
    replace (Z.of_nat lo + 1) with (Z.of_nat (S lo)) by lia. rewrite IH by lia. f_equal.
    rewrite filter_cons, Hm. destruct m, found; cbn; try done.
Qed.

Lemma parent_of_match h pos v :
  (h ≤ 15)%nat → level vTxid h !! pos = Some v →
  any_match (leaf_rounds n h (Z.of_nat pos)) (uint32 (Z.shiftl (Z.of_nat pos) (Z.of_nat h))) vMatch false =
  Ok (bool_decide (matched h pos ≠ [])).
Proof.
  intros Hh Hv. destruct (node_position vTxid Hsmall h pos v Hh Hv) as [Hlt Hpos].
  destruct (pow_15 h Hh) as [Hp Heq]. pose proof (small_length vTxid Hsmall) as Hn.
  unfold leaf_rounds. rewrite (uint32_small (Z.of_nat pos + 1)) by (unfold is_uint32; lia).
  rewrite !Z.shiftl_mul_pow2 by lia.
  rewrite !uint32_small by (unfold is_uint32; nia).
  rewrite <- Heq, <- Nat2Z.inj_mul.
  replace (Z.to_nat _) with (Nat.min (2 ^ h) (length vTxid - pos * 2 ^ h))%nat by nia.
  by rewrite any_match_spec by lia.
Qed.

Definition extend (bits : list bool) (hashes : list Z) (t : CPartialMerkleTree) : CPartialMerkleTree :=
  {| nTransactions := nTransactions t; vBits := vBits t ++ bits; vHash := vHash t ++ hashes;
     fBad := fBad t |}.

(** The state after a subtree of so many bits and hashes was read. *)
Definition advance (bits hashes : nat) (found : list nat) (e : Extraction) : Extraction :=
  {| nBitsUsed := nBitsUsed e + bits; nHashUsed := nHashUsed e + hashes;
     ex_vMatch := ex_vMatch e ++ ((λ i, vTxid !!! i) <$> found);
     ex_vnIndex := ex_vnIndex e ++ (Z.of_nat <$> found); ex_fBad := ex_fBad e |}.

(** [bits] and [hashes] are next in the tree. *)
Definition upcoming (t : CPartialMerkleTree) (e : Extraction) (bits : list bool) (hashes : list Z) : Prop :=
  take (length bits) (drop (nBitsUsed e) (vBits t)) = bits ∧
  take (length hashes) (drop (nHashUsed e) (vHash t)) = hashes.

(** [bits] and [hashes] encode the node. *)
Definition encodes (h pos : nat) (v : Z) (bits : list bool) (hashes : list Z) : Prop :=
  (length hashes ≤ length (leaves h pos) ∧ length hashes ≤ length bits ∧
   length bits + 1 ≤ 2 ^ S h)%nat ∧ Forall is_uint256 hashes ∧
  ∀ t e, nTransactions t = n → upcoming t e bits hashes →
    TraverseAndExtract t h (Z.of_nat pos) e =
    (v, advance (length bits) (length hashes) (matched h pos) e).

Lemma upcoming_bit t e b bits hashes : upcoming t e (b :: bits) hashes → vBits t !! nBitsUsed e = Some b.
Proof.
  intros [Hb _]. cbn [length] in Hb. rewrite <- (Nat.add_0_r (nBitsUsed e)), <- lookup_drop.
  destruct (drop (nBitsUsed e) (vBits t)); [done|]. cbn in Hb. by injection Hb as ->.
Qed.

Lemma upcoming_hash t e bits v hashes : upcoming t e bits (v :: hashes) → vHash t !! nHashUsed e = Some v.
Proof.
  intros [_ Hb]. cbn [length] in Hb. rewrite <- (Nat.add_0_r (nHashUsed e)), <- lookup_drop.
  destruct (drop (nHashUsed e) (vHash t)); [done|]. cbn in Hb. by injection Hb as ->.
Qed.

Lemma take_drop_app {A} (l : list A) i xs ys :
  take (length (xs ++ ys)) (drop i l) = xs ++ ys →
  take (length xs) (drop i l) = xs ∧ take (length ys) (drop (i + length xs) l) = ys.
Proof.
  rewrite length_app, <- take_take_drop, drop_drop. intros Heq. apply app_inj_1 in Heq; [done|].
  apply (f_equal length) in Heq. rewrite !length_app, !length_take, length_drop in Heq.
  rewrite length_take. rewrite length_drop in *. lia.
Qed.

Lemma upcoming_app t e bits bits' hashes hashes' found :
  upcoming t e (bits ++ bits') (hashes ++ hashes') →
  upcoming t e bits hashes ∧
  upcoming t (advance (length bits) (length hashes) found e) bits' hashes'.
Proof. intros [[? ?]%take_drop_app [? ?]%take_drop_app]. done. Qed.

Lemma upcoming_use_bit t e b bits hashes :
  upcoming t e (b :: bits) hashes → upcoming t (use_bit e) bits hashes.
Proof.
  intros [[_ Hb]%(take_drop_app _ _ [b] bits) Hh]. split; [|done].
  cbn [nBitsUsed use_bit]. by rewrite <- Nat.add_1_r.
Qed.

(** A hash stored for a node: a leaf, or a subtree without a match. *)
Lemma encodes_stored h pos v :
  (h ≤ 15)%nat → level vTxid h !! pos = Some v → h = O ∨ matched h pos = [] →
  encodes h pos v [bool_decide (matched h pos ≠ [])] [v].
Proof.
  intros Hh Hv Hcase. destruct (node_position vTxid Hsmall h pos v Hh Hv) as [Hlt _].
  pose proof (Nat.pow_nonzero 2 h). unfold encodes. split_and!; [| |rewrite Nat.pow_succ_r'; cbn; lia| |].
  { unfold leaves. rewrite length_seq. cbn. lia. } { done. }
  { apply Forall_singleton. by eapply Forall_lookup_1. }
  intros t e Hn Hup. pose proof (upcoming_bit _ _ _ _ _ Hup) as Hb.
  pose proof (upcoming_hash _ _ _ _ _ Hup) as Hs.
  assert (match h with O => True | S _ => matched h pos = [] end) as Hz by (destruct h, Hcase; done).
  destruct h as [|h]; cbn [TraverseAndExtract]; rewrite Hb; cbn [nHashUsed use_bit].
  - rewrite Hs. cbn [level] in Hv. f_equal. unfold matched. rewrite leaves_leaf by (cbn in Hlt; lia).
    rewrite filter_cons, filter_nil. destruct (decide _); unfold advance; cbn;
      rewrite ?app_nil_r, !Nat.add_1_r; [|done].
    unfold push_match, use_hash, use_bit. cbn. f_equal. by rewrite (list_lookup_total_correct _ _ _ Hv).
  - rewrite Hz. cbn -[upcoming]. rewrite Hs. unfold advance, use_hash, use_bit. cbn.
    by rewrite !app_nil_r, !Nat.add_1_r.
Qed.

Lemma advance_advance b1 h1 f1 b2 h2 f2 e :
  advance b2 h2 f2 (advance b1 h1 f1 e) = advance (b1 + b2) (h1 + h2) (f1 ++ f2) e.
Proof. unfold advance. cbn. by rewrite !fmap_app, !app_assoc, !Nat.add_assoc. Qed.

Lemma advance_use_bit b h f e : advance b h f (use_bit e) = advance (S b) h f e.
Proof. unfold advance. cbn. by rewrite Nat.add_succ_r. Qed.

Lemma set_bad_false e : set_bad false e = e.
Proof. by destruct e. Qed.

Lemma matched_split h pos :
  matched (S h) pos =
  matched h (2 * pos) ++ (if decide (2 * pos + 1 < length (level vTxid h))%nat
                          then matched h (2 * pos + 1) else []).
Proof. unfold matched. rewrite leaves_split, filter_app. by destruct (decide _). Qed.

(** A node with two children, and a node with one. *)
Lemma encodes_two h pos a b bits hashes bits' hashes' :
  (S h ≤ 15)%nat → Z.of_nat pos ≤ 16666 → (2 * pos + 1 < length (level vTxid h))%nat → a ≠ b →
  encodes h (2 * pos) a bits hashes → encodes h (2 * pos + 1) b bits' hashes' →
  encodes (S h) pos (Hash_pair a b) (true :: bits ++ bits') (hashes ++ hashes').
Proof.
  intros Hh Hpos Hw Hne ((Hl1 & Hb1 & Hs1) & Hr1 & He1) ((Hl2 & Hb2 & Hs2) & Hr2 & He2). unfold encodes.
  rewrite leaves_split, matched_split, !decide_True by done. split_and!.
  { rewrite !length_app. lia. } { cbn. rewrite !length_app. lia. }
  { rewrite Nat.pow_succ_r'. cbn [length]. rewrite length_app. lia. } { by apply Forall_app. }
  intros t e Hn Hup. cbn [TraverseAndExtract]. destruct (child_positions pos Hpos) as [-> ->].
  rewrite (upcoming_bit _ _ _ _ _ Hup). cbn [negb].
  apply upcoming_use_bit, (upcoming_app _ _ _ _ _ _ (matched h (2 * pos))) in Hup as [Hup1 Hup2].
  rewrite (He1 t _ Hn Hup1). rewrite Hn, decide_True by (apply CalcTreeWidth_lt; [done|lia|done]).
  rewrite (He2 t _ Hn Hup2), bool_decide_eq_false_2, set_bad_false by done.
  cbn [length]. by rewrite advance_advance, advance_use_bit, !length_app.
Qed.

Lemma encodes_one h pos a bits hashes :
  (S h ≤ 15)%nat → Z.of_nat pos ≤ 16666 → (length (level vTxid h) ≤ 2 * pos + 1)%nat →
  encodes h (2 * pos) a bits hashes →
  encodes (S h) pos (Hash_pair a a) (true :: bits) hashes.
Proof.
  intros Hh Hpos Hw ((Hl1 & Hb1 & Hs1) & Hr1 & He1). unfold encodes.
  rewrite leaves_split, matched_split, !decide_False, !app_nil_r by lia.
  split_and!; [done|cbn; lia|rewrite Nat.pow_succ_r'; cbn [length]; lia|done|].
  intros t e Hn Hup. cbn [TraverseAndExtract]. destruct (child_positions pos Hpos) as [-> ->].
  rewrite (upcoming_bit _ _ _ _ _ Hup). cbn [negb]. apply upcoming_use_bit in Hup.
  rewrite (He1 t _ Hn Hup). rewrite Hn, decide_False by (rewrite CalcTreeWidth_lt; [lia|done|lia]).
  by rewrite advance_use_bit.
Qed.

Lemma push_stored b v t : push_hash v (push_bit b t) = extend [b] [v] t.
Proof. done. Qed.

Lemma extend_extend b1 h1 b2 h2 t :
  extend b2 h2 (extend b1 h1 t) = extend (b1 ++ b2) (h1 ++ h2) t.
Proof. unfold extend. cbn. by rewrite !app_assoc. Qed.

Lemma extend_push_bit b bits hashes t : extend bits hashes (push_bit b t) = extend (b :: bits) hashes t.
Proof. unfold extend, push_bit. cbn. by rewrite <- app_assoc. Qed.

(** A repeated pair is reported. *)
Lemma pair_repeated_lookup hashes i a :
  hashes !! (2 * i)%nat = Some a → hashes !! (2 * i + 1)%nat = Some a → pair_repeated hashes = true.
Proof.
  revert i. induction hashes as [|x|x y rest IH] using pairs_ind; intros i H0 H1.
  - done.
  - apply lookup_lt_Some in H1. cbn in H1. lia.
  - cbn. destruct i as [|i]; [cbn in *; simplify_eq; by rewrite bool_decide_eq_true_2|].
    rewrite (IH i), orb_true_r; [done|..];
      [replace (2 * S i)%nat with (S (S (2 * i))) in H0 by lia|
       replace (2 * S i + 1)%nat with (S (S (2 * i + 1))) in H1 by lia]; done.
Qed.

Lemma TraverseAndBuild_encodes h pos v t :
  (h ≤ 15)%nat → level vTxid h !! pos = Some v → nTransactions t = n →
  (∀ k, (k < h)%nat → pair_repeated (level vTxid k) = false) →
  ∃ bits hashes, TraverseAndBuild h (Z.of_nat pos) vTxid vMatch t = Ok (extend bits hashes t) ∧
    encodes h pos v bits hashes.
Proof.
  revert pos v t. induction h as [|h IH]; intros pos v t Hh Hv Hn Hrep; cbn [TraverseAndBuild];
    rewrite Hn, (parent_of_match _ _ v Hh Hv); cbn [mbind outcome_bind nTransactions push_bit]; rewrite Hn.
  { rewrite (CalcHash_level vTxid Hsmall 0 pos v Hh Hv). cbn [mbind outcome_bind].
    rewrite push_stored. eexists _, _. split; [done|]. apply encodes_stored; auto. }
  destruct (bool_decide_reflect (matched (S h) pos ≠ [])) as [Hm|Hm]; cbn [negb].
  2:{ rewrite (CalcHash_level vTxid Hsmall (S h) pos v Hh Hv). cbn [mbind outcome_bind].
    assert (matched (S h) pos = []) as Hm' by (destruct (matched (S h) pos); [done|by destruct Hm]).
    rewrite push_stored. eexists _, _. split; [done|].
    rewrite <- (bool_decide_eq_false_2 _ Hm). apply encodes_stored; auto. }
  destruct (node_position vTxid Hsmall _ pos v Hh Hv) as [_ Hpos].
  destruct (child_positions pos Hpos) as [-> ->].
  destruct (parent_node vTxid h pos v Hv) as (a & b & Ha & -> & Hb).
  destruct (IH (2 * pos)%nat a (push_bit true t)) as (bits & hashes & -> & He); [lia|done|done|auto|].
  cbn [mbind outcome_bind nTransactions extend push_bit]. rewrite Hn.
  destruct Hb as [[Hw Hb]|[Hw ->]].
  - rewrite decide_True by (apply CalcTreeWidth_lt; [done|lia|done]).
    destruct (IH (2 * pos + 1)%nat b (extend bits hashes (push_bit true t)))
      as (bits' & hashes' & -> & He'); [lia|done|done|auto|].
    rewrite extend_extend, extend_push_bit. eexists _, _. split; [done|].
    apply encodes_two; try done. intros ->.
    pose proof (Hrep h ltac:(lia)) as Hr. by rewrite (pair_repeated_lookup _ pos b Ha Hb) in Hr.
  - rewrite decide_False by (rewrite CalcTreeWidth_lt; [lia|done|lia]).
    rewrite extend_push_bit. eexists _, _. split; [done|]. by apply encodes_one.
Qed.
End complete.

(** ** Flag bits in bytes *)

Lemma test_bit x m : 0 ≤ m → bool_decide (Z.land x (Z.shiftl 1 m) ≠ 0) = Z.testbit x m.
Proof.
  intros Hm. rewrite Z.shiftl_1_l. destruct (Z.testbit x m) eqn:Hb.
  - apply bool_decide_eq_true_2. intros Hz. apply (f_equal (λ z, Z.testbit z m)) in Hz.
    by rewrite Z.land_spec, Hb, Z.pow2_bits_true, Z.bits_0 in Hz.
  - apply bool_decide_eq_false_2. intros Hz. apply Hz. apply Z.bits_inj'. intros j Hj.
    rewrite Z.land_spec, Z.pow2_bits_eqb, Z.bits_0 by done.
    destruct (Z.eqb_spec m j) as [->|]; [by rewrite Hb|by rewrite andb_false_r].
Qed.

Lemma shifted_bit b m j :
  Z.testbit (Z.shiftl (Z.b2z b) (Z.of_nat m)) (Z.of_nat j) = b && bool_decide (j = m).
Proof.
  rewrite Z.shiftl_spec by lia. destruct (decide (j = m)) as [->|Hne].
  - rewrite Z.sub_diag, Z.b2z_bit0, bool_decide_eq_true_2 by done. by rewrite andb_true_r.
  - rewrite bool_decide_eq_false_2, andb_false_r by done. destruct (decide (j < m)%nat).
    + apply Z.testbit_neg_r. lia.
    + destruct b; [|by rewrite Z.testbit_0_l]. apply (Z.bits_above_log2 1); cbn; lia.
Qed.

Lemma pack_bits_spec bits i j :
  (i < (length bits + 7) / 8)%nat → (j < 8)%nat →
  Z.testbit (pack_bits bits !!! i) (Z.of_nat j) =
  bool_decide (8 * i + j < length bits)%nat && (bits !!! (8 * i + j)%nat).
Proof.
  intros Hi Hj. unfold pack_bits. set (nb := ((length bits + 7) / 8)%nat) in *. set (F := foldl _).
  enough (∀ k, (k ≤ length bits)%nat → length (F (replicate nb 0) (seq 0 k)) = nb ∧
    ∀ i, (i < nb)%nat → Z.testbit (F (replicate nb 0) (seq 0 k) !!! i) (Z.of_nat j) =
      bool_decide (8 * i + j < k)%nat && (bits !!! (8 * i + j)%nat)) as HF by by apply HF.
  clear i Hi. induction k as [|k IH]; intros Hk.
  { cbn. rewrite length_replicate. split; [done|]. intros i Hi.
    rewrite lookup_total_replicate_2 by done. rewrite Z.testbit_0_l. by rewrite bool_decide_eq_false_2 by lia. }
  destruct (IH ltac:(lia)) as [Hlen Hbit]. rewrite seq_S, Nat.add_0_l. subst F. rewrite foldl_snoc.
  set (v := foldl _ _ _) in *. split; [by rewrite length_insert|]. intros i Hi.
  pose proof (Nat.div_mod_eq k 8) as Hdm. pose proof (Nat.mod_upper_bound k 8 ltac:(done)) as Hmod.
  destruct (decide (i = k / 8)%nat) as [->|Hne].
  - rewrite list_lookup_total_insert_eq by (rewrite Hlen; done).
    rewrite Z.lor_spec, Hbit, shifted_bit by done.
    destruct (decide (j = k mod 8)%nat) as [->|Hj'].
    + rewrite <- Hdm, (bool_decide_eq_false_2 (k < k)%nat), (bool_decide_eq_true_2 (k < S k)%nat),
        (bool_decide_eq_true_2 (k mod 8 = k mod 8)%nat) by lia. cbn. by rewrite andb_true_r.
    + rewrite (bool_decide_eq_false_2 (j = _)), andb_false_r, orb_false_r by done. f_equal.
      apply bool_decide_ext. lia.
  - rewrite list_lookup_total_insert_ne, Hbit by done. f_equal. apply bool_decide_ext. lia.
Qed.

Lemma length_pack_bits bits : length (pack_bits bits) = ((length bits + 7) / 8)%nat.
Proof.
  unfold pack_bits. generalize (seq 0 (length bits)). intros l.
  induction l as [|p l IH] using rev_ind; cbn; [by rewrite length_replicate|].
  by rewrite foldl_snoc, length_insert.
Qed.

Lemma unpack_pack_bits bits :
  unpack_bits (pack_bits bits) =
  bits ++ replicate ((length bits + 7) / 8 * 8 - length bits) false.
Proof.
  unfold unpack_bits. rewrite length_pack_bits. set (nb := ((length bits + 7) / 8)%nat).
  assert (length bits ≤ nb * 8)%nat as Hnb.
  { pose proof (Nat.div_mod_eq (length bits + 7) 8). pose proof (Nat.mod_upper_bound (length bits + 7) 8).
    subst nb. lia. }
  apply list_eq_same_length with (nb * 8)%nat; [..|intros p x y Hp].
  { rewrite length_app, length_replicate. lia. } { by rewrite length_fmap, length_seq. }
  rewrite list_lookup_fmap, lookup_seq_lt by done. intros Hx%(inj Some). subst x. rewrite Nat.add_0_l.
  pose proof (Nat.div_mod_eq p 8) as Hdm. pose proof (Nat.mod_upper_bound p 8 ltac:(done)) as Hmod.
  rewrite test_bit, pack_bits_spec, <- Hdm by (fold nb; lia).
  destruct (decide (p < length bits)%nat) as [Hl|Hl].
  - rewrite bool_decide_eq_true_2, lookup_app_l by done. by intros ->%list_lookup_total_correct.
  - rewrite bool_decide_eq_false_2, lookup_app_r by lia. by intros [-> _]%lookup_replicate.
Qed.

Lemma tree_sent t rest :
  is_uint32 (nTransactions t) → Forall is_uint256 (vHash t) → size_ok (length (vHash t)) →
  size_ok (length (pack_bits (vBits t))) →
  dec CPartialMerkleTree_format (enc CPartialMerkleTree_format t ++ rest) =
  Some ({| nTransactions := nTransactions t;
           vBits := vBits t ++ replicate ((length (vBits t) + 7) / 8 * 8 - length (vBits t)) false;
           vHash := vHash t; fBad := false |}, rest).
Proof.
  intros Hn Hr Hs Hb. cbn [enc dec CPartialMerkleTree_format record_format].
  rewrite (dec_enc (f := uint32_format ⊗ vector_format uint256_format ⊗ byte_vector_format)) by done.
  cbn. by rewrite unpack_pack_bits.
Qed.

Lemma padded_bytes k : ((k + 7) / 8 = ((k + ((k + 7) / 8 * 8 - k)) + 7) / 8)%nat.
Proof.
  pose proof (Nat.div_mod_eq (k + 7) 8) as Hdm. pose proof (Nat.mod_upper_bound (k + 7) 8 ltac:(done)).
  set (q := ((k + 7) / 8)%nat) in *. replace (k + (q * 8 - k) + 7)%nat with (q * 8 + 7)%nat by lia.
  rewrite Nat.div_add_l by done. cbn. lia.
Qed.

Lemma packed_size k : (k + 1 ≤ 2 ^ 16)%nat → Z.of_nat ((k + 7) / 8) ≤ 0x02000000.
Proof.
  intros Hk. assert (Z.of_nat (2 ^ 16) = 65536) by (rewrite Nat2Z.inj_pow; done).
  pose proof (Nat.div_mod_eq (k + 7) 8). lia.
Qed.

Section extract.
Context `{!Hashing} (vTxid : list Z) (vMatch : list bool) (root : Z).
Context (Hne : vTxid ≠ []) (Hlen : length vMatch = length vTxid).
Context (Hsmall : Z.of_nat (length vTxid) ≤ MAX_BLOCK_WEIGHT / MIN_TRANSACTION_WEIGHT).
Context (Hroot : level vTxid (tree_height (length vTxid)) = [root]).

(** The positions of all matched hashes. *)
Definition all_matched : list nat := filter (λ i, vMatch !! i = Some true) (seq 0 (length vTxid)).

Lemma leaves_root : leaves vTxid (tree_height (length vTxid)) 0 = seq 0 (length vTxid).
Proof.
  pose proof (level_width vTxid (tree_height (length vTxid)) 1) as Hw. rewrite Hroot in Hw. cbn [length] in Hw.
  unfold leaves. rewrite Nat.mul_0_l, Nat.sub_0_r, Nat.min_r by lia. done.
Qed.

Lemma ExtractMatches_encodes bits hashes pad :
  encodes vTxid vMatch (tree_height (length vTxid)) 0 root bits hashes →
  ((length bits + 7) / 8 = (length bits + pad + 7) / 8)%nat →
  ExtractMatches {| nTransactions := Z.of_nat (length vTxid); vBits := bits ++ replicate pad false;
                    vHash := hashes; fBad := false |} [] =
  (root, (λ i, vTxid !!! i) <$> all_matched, Z.of_nat <$> all_matched).
Proof.
  intros ((Hl & Hb & Hs) & _ & He) Hpad. rewrite leaves_root, length_seq in Hl.
  assert (length vTxid ≠ 0)%nat by by destruct vTxid.
  unfold ExtractMatches. cbn [nTransactions vHash vBits fBad].
  rewrite !decide_False by (rewrite ?length_app; lia).
  rewrite (CalcTreeHeight_spec vTxid Hsmall Hne). change 0 with (Z.of_nat 0). rewrite He; [|done|].
  - unfold advance. cbn [ex_fBad nBitsUsed nHashUsed ex_vMatch ex_vnIndex app].
    unfold matched. rewrite leaves_root, length_app, length_replicate.
    rewrite !bool_decide_eq_true_2 by done. done.
  - split; cbn; [by rewrite drop_0, take_app_length|by rewrite drop_0, take_ge].
Qed.
End extract.

(** ** Only what is in the block can be extracted *)

Section sound.
Context `{!Hashing} (Hash256_range : ∀ bs, is_uint256 (Hash256 bs)).
Context (vTxid : list Z) (t : CPartialMerkleTree) (Hstored : Forall is_uint256 (vHash t)).
Context (Hsmall : Z.of_nat (length vTxid) ≤ MAX_BLOCK_WEIGHT / MIN_TRANSACTION_WEIGHT).

Lemma TraverseAndExtract_range h pos e v e' :
  TraverseAndExtract t h pos e = (v, e') → is_uint256 v.
Proof.
  assert (is_uint256 0) as H0 by (unfold is_uint256; lia).
  revert pos e v e'. induction h as [|h IH]; intros pos e v e'; cbn [TraverseAndExtract];
    destruct (vBits t !! nBitsUsed e) as [b|]; intros Heq; simplify_eq; try done.
  2: destruct b; cbn [negb] in Heq.
  2: { destruct (TraverseAndExtract t h (uint32 (pos * 2)) (use_bit e)) as [l e1].
       destruct (decide _); [|by simplify_eq; apply Hash256_range].
       destruct (TraverseAndExtract t h (uint32 (pos * 2 + 1)) e1) as [r e2].
       simplify_eq. apply Hash256_range. }
  all: destruct (vHash t !! _) as [x|] eqn:Hx; simplify_eq; [|done]; by eapply Forall_lookup_1.
Qed.

Lemma TraverseAndExtract_bad h pos e v e' :
  TraverseAndExtract t h pos e = (v, e') → ex_fBad e = true → ex_fBad e' = true.
Proof.
  revert pos e v e'. induction h as [|h IH]; intros pos e v e'; cbn [TraverseAndExtract];
    destruct (vBits t !! nBitsUsed e) as [b|]; intros Heq Hb; simplify_eq; try done.
  2: destruct b; cbn [negb] in Heq.
  2: { destruct (TraverseAndExtract t h (uint32 (pos * 2)) (use_bit e)) as [l e1] eqn:H1.
       apply IH in H1; [|done]. destruct (decide _); [|by simplify_eq].
       destruct (TraverseAndExtract t h (uint32 (pos * 2 + 1)) e1) as [r e2] eqn:H2.
       apply IH in H2; [|done]. simplify_eq. cbn. by rewrite H2, orb_true_r. }
  all: destruct (vHash t !! _) as [x|] eqn:Hx; simplify_eq; [|done]; cbn.
  - by destruct b.
  - done.
Qed.

(** What was found on the way from [e] to [e'] is in the block. *)
Definition genuine (e e' : Extraction) : Prop :=
  ∃ found : list (nat * Z), ex_vMatch e' = ex_vMatch e ++ found.*2 ∧
    ex_vnIndex e' = ex_vnIndex e ++ (Z.of_nat <$> found.*1) ∧
    Forall (λ '(i, x), vTxid !! i = Some x) found.

Lemma genuine_none e e' : ex_vMatch e' = ex_vMatch e → ex_vnIndex e' = ex_vnIndex e → genuine e e'.
Proof. intros Hm Hi. exists []. cbn. by rewrite Hm, Hi, !app_nil_r. Qed.

Lemma genuine_trans e e1 e2 : genuine e e1 → genuine e1 e2 → genuine e e2.
Proof.
  intros (f1 & Hm1 & Hi1 & HF1) (f2 & Hm2 & Hi2 & HF2). exists (f1 ++ f2).
  rewrite Hm2, Hm1, Hi2, Hi1, !fmap_app, !app_assoc. split_and!; [done..|]. by apply Forall_app.
Qed.

Lemma stored_genuine h pos e v b :
  h = O ∨ b = false → level vTxid h !! pos = Some v →
  genuine e (if bool_decide (h = O) && b then push_match v (Z.of_nat pos) (use_hash (use_bit e))
             else use_hash (use_bit e)).
Proof.
  intros Hc Hv. destruct b; [|rewrite andb_false_r; by apply genuine_none].
  destruct Hc as [->|]; [|done]. rewrite bool_decide_eq_true_2 by done.
  exists [(pos, v)]. split_and!; [done..|]. by apply Forall_singleton.
Qed.

(** Two hashes that give a node are its children, or a second preimage. *)
Lemma children_or_preimage h pos a b c d :
  (S h ≤ tree_height (length vTxid))%nat → level_pairs (level vTxid h) !! pos = Some (a, b) →
  is_uint256 c → is_uint256 d → Hash_pair c d = Hash_pair a b →
  (c, d) = (a, b) ∨ second_preimage vTxid.
Proof.
  intros Hh Hp Hc Hd Heq. destruct (decide ((c, d) = (a, b))) as [|Hne]; [by left|]. right.
  exists a, b, c, d. split_and!; try done. apply (merkle_pairs_level _ h); [lia|].
  by eapply list_elem_of_lookup_2.
Qed.

Lemma parent_pair h pos v :
  level vTxid (S h) !! pos = Some v →
  ∃ a b, level_pairs (level vTxid h) !! pos = Some (a, b) ∧ v = Hash_pair a b ∧
    level vTxid h !! (2 * pos)%nat = Some a ∧ (a ≠ b → level vTxid h !! (2 * pos + 1)%nat = Some b).
Proof.
  cbn [level]. rewrite next_level_lookup, level_pairs_lookup. intros Hv.
  destruct (level vTxid h !! (2 * pos)%nat) as [a|]; [|done]. injection Hv as <-.
  eexists a, _. split_and!; [done..|]. by destruct (level vTxid h !! (2 * pos + 1)%nat).
Qed.

Lemma TraverseAndExtract_genuine h pos e v e' :
  (h ≤ tree_height (length vTxid))%nat → level vTxid h !! pos = Some v →
  TraverseAndExtract t h (Z.of_nat pos) e = (v, e') → ex_fBad e' = false →
  genuine e e' ∨ second_preimage vTxid.
Proof.
  revert pos e v e'. induction h as [|h IH]; intros pos e v e' Hh Hv Hex Hbad;
    pose proof (small_height vTxid Hsmall) as Hsh; cbn [TraverseAndExtract] in Hex;
    destruct (vBits t !! nBitsUsed e) as [b|] eqn:Hb; try (by simplify_eq).
  { destruct (vHash t !! _) as [x|]; [|by simplify_eq]. injection Hex as -> <-.
    left. by apply (stored_genuine 0); [left|]. }
  destruct b; cbn [negb] in Hex.
  2: { destruct (vHash t !! _) as [x|]; [|by simplify_eq]. injection Hex as -> <-.
       left. by apply (stored_genuine (S h) pos e v false); [right|]. }
  destruct (node_position vTxid Hsmall (S h) pos v ltac:(lia) Hv) as [_ Hpos].
  destruct (child_positions pos Hpos) as [Hc0 Hc1]. rewrite Hc0, Hc1 in Hex.
  destruct (parent_pair h pos v Hv) as (a & b & Hp & -> & Ha & Hb').
  destruct (TraverseAndExtract t h (Z.of_nat (2 * pos)) (use_bit e)) as [l e1] eqn:H1.
  assert (genuine e (use_bit e)) as Hg0 by by apply genuine_none.
  destruct (decide _); [destruct (TraverseAndExtract t h (Z.of_nat (2 * pos + 1)) e1) as [r e2] eqn:H2|];
    injection Hex as Hhash <-.
  - cbn in Hbad. apply orb_false_iff in Hbad as [Hlr%bool_decide_eq_false Hbad2].
    assert (ex_fBad e1 = false) as Hbad1.
    { destruct (ex_fBad e1) eqn:Hb1; [|done]. by rewrite (TraverseAndExtract_bad _ _ _ _ _ H2 Hb1) in Hbad2. }
    destruct (children_or_preimage h pos a b l r) as [[= -> ->]|]; [lia|done|
      by eapply TraverseAndExtract_range|by eapply TraverseAndExtract_range|done| |by right].
    destruct (IH _ _ _ _ ltac:(lia) Ha H1 Hbad1) as [Hg1|]; [|by right].
    destruct (IH _ _ _ _ ltac:(lia) (Hb' ltac:(done)) H2 Hbad2) as [Hg2|]; [left|by right].
    by apply (genuine_trans _ _ _ Hg0), (genuine_trans _ _ _ Hg1).
  - destruct (children_or_preimage h pos a b l l) as [[= -> ->]|]; [lia|done|
      by eapply TraverseAndExtract_range|by eapply TraverseAndExtract_range|done| |by right].
    destruct (IH _ _ _ _ ltac:(lia) Ha H1 Hbad) as [Hg1|]; [left|by right].
    by apply (genuine_trans _ _ _ Hg0).
Qed.
End sound.

(** ** The theorems *)

(** C28: A partial tree built from the hashes of a block and a mask, sent and
    received, proves exactly the matched transactions: extraction returns
    their hashes in order, their positions, and the Merkle root of the block.
    The hashes of a block repeat no pair in any level, which
    [ComputeMerkleRoot] checks. *)
Theorem partial_tree_complete `{!Hashing} vTxid vMatch root rest :
  (∀ bs, is_uint256 (Hash256 bs)) →
  vTxid ≠ [] → Z.of_nat (length vTxid) ≤ MAX_BLOCK_WEIGHT / MIN_TRANSACTION_WEIGHT →
  Forall is_uint256 vTxid → length vMatch = length vTxid →
  ComputeMerkleRoot vTxid = (root, false) →
  ∃ t sent, CPartialMerkleTree_new vTxid vMatch = Ok t ∧
    dec CPartialMerkleTree_format (enc CPartialMerkleTree_format t ++ rest) = Some (sent, rest) ∧
    ExtractMatches sent [] =
    (root, (λ i, vTxid !!! i) <$> all_matched vTxid vMatch, Z.of_nat <$> all_matched vTxid vMatch).
Proof.
  intros Hhash Hne Hsmall Hr Hlen [Hroot Hmut]%ComputeMerkleRoot_spec; [|done].
  assert (∀ h, Forall is_uint256 (level vTxid h)) as Hrange by (intros [|h]; [done|by apply next_level_range]).
  pose proof (small_length vTxid Hsmall) as Hsm. pose proof (small_height vTxid Hsmall) as Hsh.
  unfold CPartialMerkleTree_new. rewrite uint32_small by (unfold is_uint32; lia).
  rewrite (CalcTreeHeight_spec vTxid Hsmall Hne).
  destruct (TraverseAndBuild_encodes vTxid vMatch Hsmall Hlen Hrange (tree_height (length vTxid)) 0 root
    {| nTransactions := Z.of_nat (length vTxid); vBits := []; vHash := []; fBad := false |})
    as (bits & hashes & Hbuild & Henc); [done|by rewrite Hroot|done| |].
  { intros k Hk. destruct (pair_repeated (level vTxid k)) eqn:Hp; [|done].
    enough (mutated_tree vTxid = true) by congruence. apply existsb_exists. exists k.
    split; [|done]. apply list_elem_of_In, elem_of_seq. lia. }
  change (Z.of_nat 0) with 0 in Hbuild. eexists _, _. split; [done|].
  pose proof Henc as ((Hl & Hb & Hs) & Hhr & _).
  erewrite leaves_root, length_seq in Hl by eassumption.
  rewrite tree_sent; [|..].
  - split; [done|]. eapply ExtractMatches_encodes; try eassumption. apply padded_bytes.
  - cbn. unfold is_uint32. lia.
  - done.
  - cbn [extend vHash app]. unfold size_ok, MAX_SIZE. lia.
  - unfold size_ok, MAX_SIZE. rewrite length_pack_bits. cbn [extend vBits app].
    by apply packed_size, (Nat.le_trans _ _ _ Hs), Nat.pow_le_mono_r; [|lia].
Qed.

(** C13: Whatever partial tree a peer sends, if extraction returns the Merkle
    root of a block and the tree claims the height of the block's tree, then
    every extracted hash is the one at the extracted position of the block,
    or two hashes are exhibited that hash like a node of the block's tree and
    are not its children. *)
Theorem partial_tree_sound `{!Hashing} vTxid t root vMatch vnIndex :
  (∀ bs, is_uint256 (Hash256 bs)) →
  vTxid ≠ [] → Z.of_nat (length vTxid) ≤ MAX_BLOCK_WEIGHT / MIN_TRANSACTION_WEIGHT →
  Forall is_uint256 (vHash t) →
  CalcTreeHeight (nTransactions t) = CalcTreeHeight (Z.of_nat (length vTxid)) →
  (ComputeMerkleRoot vTxid).1 = root → root ≠ 0 →
  ExtractMatches t [] = (root, vMatch, vnIndex) →
  Forall2 (λ x i, 0 ≤ i ∧ vTxid !! Z.to_nat i = Some x) vMatch vnIndex ∨ second_preimage vTxid.
Proof.
  intros Hhash Hne Hsmall Hstored Hheight Hroot Hnz Hex.
  destruct (ComputeMerkleRoot vTxid) as [root' mutated] eqn:Hc. cbn in Hroot. subst root'.
  apply ComputeMerkleRoot_spec in Hc as [Htop _]; [|done].
  unfold ExtractMatches in Hex. repeat (destruct (decide _) in Hex; [by simplify_eq|]).
  rewrite Hheight, (CalcTreeHeight_spec vTxid Hsmall Hne) in Hex.
  destruct (TraverseAndExtract _ _ _ _) as [v e] eqn:Ht.
  destruct (ex_fBad e) eqn:Hbad; cbn [negb andb] in Hex; [by simplify_eq|].
  destruct (_ && _) in Hex; [|by simplify_eq]. injection Hex as -> <- <-.
  destruct (TraverseAndExtract_genuine Hhash vTxid t Hstored Hsmall (tree_height (length vTxid)) 0
    {| nBitsUsed := 0; nHashUsed := 0; ex_vMatch := []; ex_vnIndex := []; ex_fBad := fBad t |} root e)
    as [(found & -> & -> & HF)|]; [done|by rewrite Htop|done|done| |by right].
  left. cbn. clear -HF. induction HF as [|[i x] found Hix HF IH]; [constructor|].
  cbn. constructor; [|done]. rewrite Nat2Z.id. split; [lia|done].
Qed.

(** ** Examples *)

Lemma toy_hash_range (bs : bytes) : is_uint256 (@Hash256 toy_hash bs).
Proof.
  unfold Hash256, is_uint256. cbn. destruct bs as [|b bs _] using rev_ind; [cbn; lia|].
  rewrite foldl_snoc. apply Z.mod_pos_bound. lia.
Qed.

Definition demo_txids : list Z := [11; 22; 33; 44; 55].

Definition demo_mask : list bool := [false; true; false; false; true].

Lemma partial_tree_complete_witness :
  let _ := toy_hash in
  all_matched demo_txids demo_mask = [1; 4]%nat ∧
  ∃ t sent, CPartialMerkleTree_new demo_txids demo_mask = Ok t ∧
    dec CPartialMerkleTree_format (enc CPartialMerkleTree_format t ++ []) = Some (sent, []) ∧
    ExtractMatches sent [] =
    ((ComputeMerkleRoot demo_txids).1, (λ i, demo_txids !!! i) <$> all_matched demo_txids demo_mask,
     Z.of_nat <$> all_matched demo_txids demo_mask).
Proof.
  intros H. split; [reflexivity|].
  refine (partial_tree_complete (H := H) demo_txids demo_mask _ [] toy_hash_range _ _ _ _ _);
    [discriminate|vm_compute; discriminate| |reflexivity|vm_compute; reflexivity].
  repeat constructor; unfold is_uint256; lia.
Defined.

(** The tree for the fifth transaction: the root, the left half, the path to
    the fifth leaf. *)
Definition demo_partial_tree : CPartialMerkleTree := {|
  nTransactions := 5;
  vBits := [true; false; true; true; true; false; false; false];
  vHash := match level (H := toy_hash) demo_txids 2 with l :: _ => [l; 55] | [] => [] end;
  fBad := false |}.

Lemma partial_tree_sound_witness :
  let _ := toy_hash in
  Forall2 (λ x i, 0 ≤ i ∧ demo_txids !! Z.to_nat i = Some x) [55] [4] ∨ second_preimage demo_txids.
Proof.
  intros H.
  refine (partial_tree_sound (H := H) demo_txids demo_partial_tree (ComputeMerkleRoot demo_txids).1 [55] [4]
    toy_hash_range _ _ _ _ _ _ _);
    [discriminate|vm_compute; discriminate| |vm_compute; reflexivity|reflexivity|vm_compute; discriminate|
     vm_compute; reflexivity].
  repeat constructor; vm_compute; discriminate.
Defined.
