(* ===== verification/TxVerify.v ===== *)
(** * Checks of all transactions: src/src/consensus/tx_verify.cpp

    The checks every transaction of a block passes, whatever its type: lock
    times, relative lock times, signature operations, the checks without a
    context and those of the amounts against the coins spent.  The view of
    coins is the cache of [Coins]; reading it may fill it, so it is passed
    along.  A check that fails ends as in [Checks]. *)
From stdpp Require Import strings.
From S2P Require Import Prelude Serialize Admin Params FinalizationData FinalizationOps.
From S2P Require Import StateFormat Script Standard CommitScripts Transaction Coins Checks Chain.
From S2P Require Import Interpreter Block MerkleBlock.

Definition WITNESS_SCALE_FACTOR : Z := 4.
Definition LOCKTIME_VERIFY_SEQUENCE : Z := Z.shiftl 1 0.

(** ** Lock times *)

Definition IsFinalTx (tx : CTransaction) (nBlockHeight nBlockTime : Z) : bool :=
  if decide (nLockTime tx = 0) then true
  else if decide (nLockTime tx <
                  (if decide (nLockTime tx < LOCKTIME_THRESHOLD) then nBlockHeight else nBlockTime))
  then true
  else forallb (λ txin, bool_decide (nSequence txin = SEQUENCE_FINAL)) (vin tx).

Section locks.
Context (heap : BlockMap).

(** The loop over the inputs and the heights of the coins they spend; also
    the heights it leaves in [*prevHeights]. *)
Fixpoint sequence_locks_loop (block : Z) (ins : list CTxIn) (prevHeights : list Z)
    (nMinHeight nMinTime : Z) : outcome (Z * Z * list Z) :=
  match ins, prevHeights with
  | txin :: ins, nCoinHeight :: prevHeights =>
      if decide (Z.land (nSequence txin) SEQUENCE_LOCKTIME_DISABLE_FLAG ≠ 0) then
        '(locks, heights) ← sequence_locks_loop block ins prevHeights nMinHeight nMinTime;
        Ok (locks, 0 :: heights)
      else
        '(nMinHeight, nMinTime) ←
          (if decide (Z.land (nSequence txin) SEQUENCE_LOCKTIME_TYPE_FLAG ≠ 0) then
             found ← GetAncestor heap block (Z.max (nCoinHeight - 1) 0);
             match found with
             | None => Raise OutOfBounds
             | Some coin_block =>
                 nCoinTime ← GetMedianTimePast heap coin_block;
                 Ok (nMinHeight, Z.max nMinTime (nCoinTime +
                       Z.shiftl (Z.land (nSequence txin) SEQUENCE_LOCKTIME_MASK)
                         SEQUENCE_LOCKTIME_GRANULARITY - 1))
             end
           else Ok (Z.max nMinHeight (nCoinHeight +
                      Z.land (nSequence txin) SEQUENCE_LOCKTIME_MASK - 1), nMinTime));
        '(locks, heights) ← sequence_locks_loop block ins prevHeights nMinHeight nMinTime;
        Ok (locks, nCoinHeight :: heights)
  | _, _ => Ok ((nMinHeight, nMinTime), prevHeights)
  end.

(** The last height and time at which the transaction is not valid. *)
Definition CalculateSequenceLocks (tx : CTransaction) (flags : Z) (prevHeights : list Z) (block : Z) :
  outcome (Z * Z * list Z) :=
  _ ← cpp_assert (bool_decide (length prevHeights = length (vin tx)));
  let fEnforceBIP68 :=
    bool_decide (2 ≤ nVersion tx) && bool_decide (Z.land flags LOCKTIME_VERIFY_SEQUENCE ≠ 0) in
  if negb fEnforceBIP68 then Ok ((-1, -1), prevHeights)
  else sequence_locks_loop block (vin tx) prevHeights (-1) (-1).

Definition EvaluateSequenceLocks (block : Z) (lockPair : Z * Z) : outcome bool :=
  b ← deref heap block;
  if decide (nHeight b = 0) then Ok true
  else
    match pprev b with
    | None => Raise AssertionFailure
    | Some prev =>
        nBlockTime ← GetMedianTimePast heap prev;
        Ok (negb (bool_decide (nHeight b ≤ lockPair.1) || bool_decide (nBlockTime ≤ lockPair.2)))
    end.

Definition SequenceLocks (tx : CTransaction) (flags : Z) (prevHeights : list Z) (block : Z) :
  outcome bool :=
  '(lockPair, _) ← CalculateSequenceLocks tx flags prevHeights block;
  EvaluateSequenceLocks block lockPair.
End locks.

(** ** Checks without a context *)

Fixpoint check_outputs (outs : list CTxOut) (nValueOut : Z) : check unit :=
  match outs with
  | [] => accept tt
  | txout :: outs =>
      _ ←! require (negb (bool_decide (nValue txout < 0))) 100 "bad-txns-vout-negative";
      _ ←! require (negb (bool_decide (MAX_MONEY < nValue txout))) 100 "bad-txns-vout-toolarge";
      let nValueOut := int64 (nValueOut + nValue txout) in
      _ ←! require (MoneyRange nValueOut) 100 "bad-txns-txouttotal-toolarge";
      check_outputs outs nValueOut
  end.

Fixpoint check_distinct (ins : list CTxIn) (vInOutPoints : gset COutPoint) : check unit :=
  match ins with
  | [] => accept tt
  | txin :: ins =>
      _ ←! require (negb (bool_decide (prevout txin ∈ vInOutPoints))) 100 "bad-txns-inputs-duplicate";
      check_distinct ins ({[prevout txin]} ∪ vInOutPoints)
  end.

Definition CheckTransaction (tx : CTransaction) : check unit :=
  _ ←! require (bool_decide (vin tx ≠ [])) 10 "bad-txns-vin-empty";
  _ ←! require (bool_decide (vout tx ≠ [])) 10 "bad-txns-vout-empty";
  _ ←! require (negb (bool_decide
         (MAX_BLOCK_WEIGHT < Z.of_nat (length (SerializeTransaction false tx)) * WITNESS_SCALE_FACTOR)))
         100 "bad-txns-oversize";
  _ ←! check_outputs (vout tx) 0;
  _ ←! check_distinct (vin tx) ∅;
  _ ←! (if IsCoinBase tx then
          i ←! lift (vec_at (vin tx) 0);
          require (negb (bool_decide (length (scriptSig i) < 2)%nat ||
                         bool_decide (100 < length (scriptSig i))%nat)) 100 "bad-cb-length"
        else
          require (forallb (λ i, negb (COutPoint_IsNull (prevout i))) (vin tx)) 10
            "bad-txns-prevout-null");
  match GetType tx with
  | DEPOSIT | VOTE | LOGOUT =>
      o ←! lift (vec_at (vout tx) 0);
      require (IsFinalizerCommitScript (scriptPubKey o)) 100 "bad-finalizercommit-vout-script"
  | REGULAR | SLASH | COINBASE | WITHDRAW | ADMIN => accept tt
  end.

(** ** Checks against the coins *)

Section coins.
Context `{!SnapshotHashing, !Hashing} (base : gmap COutPoint Coin).

(** The sums are [unsigned int]. *)
Fixpoint sum_sigops (scripts : list CScript) (nSigOps : Z) : outcome Z :=
  match scripts with
  | [] => Ok nSigOps
  | s :: scripts => n ← GetSigOpCount s false; sum_sigops scripts (uint32 (nSigOps + n))
  end.

Definition GetLegacySigOpCount (tx : CTransaction) : outcome Z :=
  nSigOps ← sum_sigops (scriptSig <$> vin tx) 0;
  sum_sigops (scriptPubKey <$> vout tx) nSigOps.

Fixpoint p2sh_sigops (ins : list CTxIn) (nSigOps : Z) (c : CCoinsViewCache) :
  outcome (Z * CCoinsViewCache) :=
  match ins with
  | [] => Ok (nSigOps, c)
  | i :: ins =>
      let '(k, c) := AccessCoin base (prevout i) c in
      _ ← cpp_assert (negb (IsSpent k));
      n ← (if IsPayToScriptHash (scriptPubKey (out k))
           then GetSigOpCount_sig (scriptPubKey (out k)) (scriptSig i) else Ok 0);
      p2sh_sigops ins (uint32 (nSigOps + n)) c
  end.

Definition GetP2SHSigOpCount (tx : CTransaction) (c : CCoinsViewCache) :
  outcome (Z * CCoinsViewCache) :=
  if IsCoinBase tx then Ok (0, c) else p2sh_sigops (vin tx) 0 c.

Fixpoint witness_sigops (tx : CTransaction) (flags : Z) (ins : list CTxIn) (nSigOps : Z)
    (c : CCoinsViewCache) : outcome (Z * CCoinsViewCache) :=
  match ins with
  | [] => Ok (nSigOps, c)
  | i :: ins =>
      let '(k, c) := AccessCoin base (prevout i) c in
      _ ← cpp_assert (negb (IsSpent k));
      n ← CountWitnessSigOps (scriptSig i) (scriptPubKey (out k)) (scriptWitness i) flags (GetType tx);
      witness_sigops tx flags ins (int64 (nSigOps + n)) c
  end.

Definition GetTransactionSigOpCost (tx : CTransaction) (flags : Z) (c : CCoinsViewCache) :
  outcome (Z * CCoinsViewCache) :=
  legacy ← GetLegacySigOpCount tx;
  let nSigOps := uint32 (legacy * WITNESS_SCALE_FACTOR) in
  '(nSigOps, c) ←
    (if has flags SCRIPT_VERIFY_P2SH then
       '(n, c) ← GetP2SHSigOpCount tx c;
       Ok (nSigOps + uint32 (n * WITNESS_SCALE_FACTOR), c)
     else Ok (nSigOps, c));
  witness_sigops tx flags (spending_inputs tx) nSigOps c.

(** The loop over the inputs: the sum of their values. *)
Fixpoint check_inputs_loop (nSpendHeight : Z) (ins : list CTxIn) (nValueIn : Z) (c : CCoinsViewCache) :
  check (Z * CCoinsViewCache) :=
  match ins with
  | [] => accept (nValueIn, c)
  | i :: ins =>
      let '(k, c) := AccessCoin base (prevout i) c in
      _ ←! lift (cpp_assert (negb (IsSpent k)));
      _ ←! require (negb (IsImmatureCoinBaseReward k (outpoint_n (prevout i)) nSpendHeight)) 0
             "bad-txns-premature-spend-of-coinbase-reward";
      let nValueIn := int64 (nValueIn + nValue (out k)) in
      _ ←! require (MoneyRange (nValue (out k)) && MoneyRange nValueIn) 100
             "bad-txns-inputvalues-outofrange";
      check_inputs_loop nSpendHeight ins nValueIn c
  end.

(** [txfee] and [*inputs_amount], which are unchanged for the genesis block.  [GetValueOut] throws when the outputs are out of
    range. *)
Definition CheckTxInputs (tx : CTransaction) (nSpendHeight txfee inputs_amount : Z)
    (c : CCoinsViewCache) : check (Z * Z * CCoinsViewCache) :=
  if decide (nSpendHeight = 0) then accept (txfee, inputs_amount, c)
  else
    let '(have, c) := HaveInputs base tx c in
    _ ←! require have 100 "bad-txns-inputs-missingorspent";
    checked ←! check_inputs_loop nSpendHeight (spending_inputs tx) 0 c;
    let '(nValueIn, c) := checked in
    value_out ←! lift (match GetValueOut tx with Some v => Ok v | None => Raise RuntimeError end);
    _ ←! require (IsCoinBase tx || negb (bool_decide (nValueIn < value_out))) 100 "bad-txns-in-belowout";
    let txfee_aux := int64 (nValueIn - value_out) in
    _ ←! require (IsCoinBase tx || MoneyRange txfee_aux) 100 "bad-txns-fee-outofrange";
    accept (txfee_aux, nValueIn, c).
End coins.
