(* ===== verification/Behavior.v ===== *)
(** * Parameters of the block chain: src/src/blockchain/blockchain_parameters.cpp,
    blockchain_behavior.cpp, src/src/staking/active_chain.cpp

    The numbers that define a network, the schedule of block times and
    rewards, and the difficulty target of the next block, computed from the
    times and targets of a window of blocks of the active chain.  The genesis
    block enters by its hash; names, address prefixes and settings are left
    out. *)
From S2P Require Import Prelude Serialize Ufp64 ArithUint256 Params Script Transaction Block Chain.

(** The two difficulty functions in use. *)
Inductive DifficultyFunction := AdjustDifficulty | TipDifficulty.

Record Parameters := {
  genesis_hash : Z;
  block_stake_timestamp_interval_seconds : Z;
  block_time_seconds : Z;
  max_future_block_time_seconds : Z;
  maximum_block_weight : Z;
  maximum_sigops_count : Z;
  witness_scale_factor : Z;
  stake_maturity : Z;
  stake_maturity_activation_height : Z;
  initial_supply : Z;
  expected_maximum_supply : Z;
  reward : Z;
  immediate_reward_fraction : Z;
  difficulty_function : DifficultyFunction;
  difficulty_adjustment_window : Z;
  max_difficulty_value : Z;
  mine_blocks_on_demand : bool;
}.

(** [uint256S]: the last digits of the text are the first byte. *)
Definition uint256S (v : Z) : Z := be_value (le_bytes 32 v).

Definition expected_emission_years : Z := 50.

Definition Parameters_Base (genesis : Z) : outcome Parameters :=
  let initial := 1500000000 * UNIT in
  let maximum := 2718275100 * UNIT in
  let avg_blocks_per_year := 60 * 60 * 24 * 365 / 8 in
  let reward := (maximum - initial) / (avg_blocks_per_year * expected_emission_years) in
  fraction ← div_2uint 1 10;
  _ ← cpp_assert (bool_decide (maximum = initial + reward * avg_blocks_per_year * expected_emission_years));
  Ok {| genesis_hash := genesis; block_stake_timestamp_interval_seconds := 4; block_time_seconds := 8;
        max_future_block_time_seconds := 15; maximum_block_weight := 4000000;
        maximum_sigops_count := 80000; witness_scale_factor := 4; stake_maturity := 200;
        stake_maturity_activation_height := 400; initial_supply := initial;
        expected_maximum_supply := maximum; reward := reward; immediate_reward_fraction := fraction;
        difficulty_function := AdjustDifficulty; difficulty_adjustment_window := 128;
        max_difficulty_value := uint256S (2 ^ 224 - 1); mine_blocks_on_demand := false |}.

Definition Parameters_TestNet (genesis : Z) : outcome Parameters :=
  p ← Parameters_Base genesis;
  Ok {| genesis_hash := genesis;
        block_stake_timestamp_interval_seconds := block_stake_timestamp_interval_seconds p;
        block_time_seconds := block_time_seconds p;
        max_future_block_time_seconds := max_future_block_time_seconds p;
        maximum_block_weight := maximum_block_weight p; maximum_sigops_count := maximum_sigops_count p;
        witness_scale_factor := witness_scale_factor p; stake_maturity := 100;
        stake_maturity_activation_height := 200; initial_supply := 1500000000 * UNIT;
        expected_maximum_supply := expected_maximum_supply p; reward := reward p;
        immediate_reward_fraction := immediate_reward_fraction p;
        difficulty_function := difficulty_function p;
        difficulty_adjustment_window := difficulty_adjustment_window p;
        max_difficulty_value := max_difficulty_value p; mine_blocks_on_demand := mine_blocks_on_demand p |}.

Definition Parameters_RegTest (genesis : Z) : outcome Parameters :=
  p ← Parameters_Base genesis;
  Ok {| genesis_hash := genesis;
        block_stake_timestamp_interval_seconds := block_stake_timestamp_interval_seconds p;
        block_time_seconds := block_time_seconds p; max_future_block_time_seconds := 2 * 60 * 60;
        maximum_block_weight := maximum_block_weight p; maximum_sigops_count := maximum_sigops_count p;
        witness_scale_factor := witness_scale_factor p; stake_maturity := 2;
        stake_maturity_activation_height := 1000; initial_supply := 1060000 * UNIT;
        expected_maximum_supply := expected_maximum_supply p; reward := 3750000000;
        immediate_reward_fraction := immediate_reward_fraction p; difficulty_function := TipDifficulty;
        difficulty_adjustment_window := 0; max_difficulty_value := 0; mine_blocks_on_demand := true |}.

(** ** The active chain *)

Section active.
Context (heap : BlockMap) (index_map : gmap Z Z) (active_chain : list (option Z)).

Definition ActiveChain_GetHeight : outcome Z :=
  if decide (Height active_chain < 0) then Raise RuntimeError else Ok (Height active_chain).

Definition ActiveChain_GetSize : outcome Z := h ← ActiveChain_GetHeight; Ok (uint32 (h + 1)).

(** [operator[]] takes an [int]. *)
Definition AtHeight (height : Z) : option Z := at_height active_chain (int32 height).

Definition AtDepth (depth : Z) : outcome (option Z) :=
  size ← ActiveChain_GetSize; Ok (AtHeight (uint32 (size - depth))).

Definition GetDepth (height : Z) : outcome Z :=
  h ← ActiveChain_GetHeight; Ok (uint32 (h - height + 1)).

(** Only blocks of the active chain are found. *)
Definition GetBlockIndex (block_hash : Z) : outcome (option Z) :=
  match index_map !! block_hash with
  | None => Ok None
  | Some index =>
      contains ← Contains heap active_chain index;
      Ok (if (contains : bool) then Some index else None)
  end.

(** [*p] for a pointer that may be null. *)
Definition deref_ptr (p : option Z) : outcome CBlockIndex :=
  match p with None => Raise OutOfBounds | Some p => deref heap p end.

(** ** Difficulty *)

(** The sum of the targets of [n] blocks from height [i] on. *)
Fixpoint difficulties_sum (n : nat) (i : Z) (sum : base_uint) : outcome base_uint :=
  match n with
  | O => Ok sum
  | S n =>
      b ← deref_ptr (AtHeight i);
      let '(temp, _, _) := SetCompact (index_nBits b) in
      difficulties_sum n (uint32 (i + 1)) (op_add sum temp)
  end.

(** From the sum of the targets and the time the blocks took. *)
Definition scale_difficulty (p : Parameters) (sum : base_uint) (actual : Z) : outcome Z :=
  let maximum := UintToArith256 (max_difficulty_value p) in
  let window := difficulty_adjustment_window p in
  avg_difficulty ← op_div sum (base_uint_new window);
  let numerator := op_mul (base_uint_new actual) avg_difficulty in
  quotient ← op_div numerator (base_uint_new actual);
  if decide (quotient ≠ avg_difficulty) then GetCompact maximum false
  else
    let expected := uint32 (window * block_time_seconds p) in
    next_difficulty ← op_div numerator (base_uint_new expected);
    if decide (0 < CompareTo next_difficulty maximum) then GetCompact maximum false
    else GetCompact next_difficulty false.

Definition adjust_difficulty (p : Parameters) (height : Z) : outcome Z :=
  let maximum := UintToArith256 (max_difficulty_value p) in
  let window := difficulty_adjustment_window p in
  if decide (height ≤ window) then
    tip ← AtDepth 1; b ← deref_ptr tip; Ok (index_nBits b)
  else
    let window_end := uint32 (height - 1) in
    let window_start := uint32 (height - 1 - window) in
    end_index ← deref_ptr (AtHeight window_end);
    start_index ← deref_ptr (AtHeight window_start);
    if decide (nTime end_index ≤ nTime start_index) then GetCompact maximum false
    else
      let actual := uint32 (nTime end_index - nTime start_index) in
      sum ← difficulties_sum (Z.to_nat window) (uint32 (window_start + 1)) base_uint_zero;
      scale_difficulty p sum actual.

Definition CalculateDifficulty (p : Parameters) (height : Z) : outcome Z :=
  match difficulty_function p with
  | AdjustDifficulty => adjust_difficulty p height
  | TipDifficulty => tip ← AtDepth 1; b ← deref_ptr tip; Ok (index_nBits b)
  end.
End active.

(** ** Times, rewards, sizes *)

Section behavior.
Context `{!Hashing} (p : Parameters).

Definition CalculateProposingTimestamp (timestamp_sec : Z) : Z :=
  let blocktime := uint32 timestamp_sec in
  let interval := block_stake_timestamp_interval_seconds p in
  if decide (interval = 0) then blocktime else uint32 (blocktime - blocktime mod interval).

Definition CalculateProposingTimestampAfter (time : Z) : Z :=
  uint32 (CalculateProposingTimestamp time + block_stake_timestamp_interval_seconds p).

Definition CalculateBlockReward (height : Z) : outcome Z :=
  mul_to_uint (immediate_reward_fraction p) (reward p).

Definition IsGenesisBlockHash (hash : Z) : bool := bool_decide (hash = genesis_hash p).

Definition IsGenesisBlock (block : CBlock) : bool :=
  IsGenesisBlockHash (Header_GetHash (GetBlockHeader block)).

(** [GetSerializeSize] with and without witnesses. *)
Definition transaction_size (witness : bool) (tx : CTransaction) : Z :=
  Z.of_nat (length (SerializeTransaction witness tx)).

Definition block_size (witness : bool) (block : CBlock) : Z :=
  Z.of_nat (length (enc CBlockHeader_format (GetBlockHeader block))) +
  GetSizeOfCompactSize (Z.of_nat (length (vtx block))) +
  foldr Z.add 0 (transaction_size witness <$> vtx block) +
  Z.of_nat (length (enc byte_vector_format (signature block))).

Definition GetTransactionWeight (tx : CTransaction) : Z :=
  transaction_size false tx * (witness_scale_factor p - 1) + transaction_size true tx.

Definition Behavior_GetBlockWeight (block : CBlock) : Z :=
  block_size false block * (witness_scale_factor p - 1) + block_size true block.

Definition IsInMoneyRange (amount : Z) : bool :=
  bool_decide (0 ≤ amount) && bool_decide (amount ≤ expected_maximum_supply p).

(** A transaction with one empty input and one empty output. *)
Definition CalculateAbsoluteTransactionSizeMinimum : Z :=
  transaction_size false
    {| vin := [CTxIn_new COutPoint_null [] SEQUENCE_FINAL];
       vout := [{| nValue := -1; scriptPubKey := [] |}]; nVersion := CURRENT_VERSION; nLockTime := 0 |}.

Definition CheckConsistency : outcome unit :=
  cpp_assert (bool_decide (stake_maturity p ≤ stake_maturity_activation_height p)).
End behavior.

(** ** What is shown *)

(** [block_size] is the length of the serialized block. *)
Lemma block_size_true block : block_size true block = Z.of_nat (length (enc CBlock_format block)).
Proof.
  change (enc CBlock_format block) with
    (enc CBlockHeader_format (GetBlockHeader block) ++
     (WriteCompactSize (Z.of_nat (length (vtx block))) ++ concat (enc CTransaction_format <$> vtx block)) ++
     enc byte_vector_format (signature block)).
  unfold block_size. rewrite !length_app, !Nat2Z.inj_add, WriteCompactSize_size by lia.
  assert (foldr Z.add 0 (transaction_size true <$> vtx block) =
          Z.of_nat (length (concat (enc CTransaction_format <$> vtx block)))) as ->; [|lia].
  induction (vtx block) as [|tx txs IH]; [done|]. rewrite !fmap_cons. cbn [foldr concat].
  rewrite IH, length_app, Nat2Z.inj_add. done.
Qed.

Lemma proposing_timestamp p t : 0 < block_stake_timestamp_interval_seconds p → is_uint32 t →
  let r := CalculateProposingTimestamp p t in
  r ≤ t < r + block_stake_timestamp_interval_seconds p ∧ is_uint32 r ∧
  r mod block_stake_timestamp_interval_seconds p = 0 ∧ CalculateProposingTimestamp p r = r.
Proof.
  intros Hi Ht. cbn zeta. assert (∀ x, is_uint32 x → CalculateProposingTimestamp p x =
    x - x mod block_stake_timestamp_interval_seconds p) as E.
  { intros x Hx. unfold CalculateProposingTimestamp. rewrite decide_False, (uint32_small x) by (done || lia).
    apply uint32_small. unfold is_uint32 in *. pose proof (Z.mod_pos_bound x _ Hi). pose proof (Z.mod_le x _ (proj1 Hx) Hi). lia. }
  set (i := block_stake_timestamp_interval_seconds p) in *. rewrite (E t Ht).
  pose proof (Z.mod_pos_bound t i Hi). pose proof (Z.mod_le t i (proj1 Ht) Hi). pose proof (Z.div_mod t i ltac:(lia)).
  assert ((t - t mod i) mod i = 0) as Em.
  { replace (t - t mod i) with (t / i * i) by lia. apply Z.mod_mul. lia. }
  assert (is_uint32 (t - t mod i)) as Hr by (unfold is_uint32 in *; lia).
  split_and!; [lia|lia|done|done|]. rewrite E, Em by done. lia.
Qed.

(** The constants of the networks. *)
Lemma base_parameters genesis : ∃ p, Parameters_Base genesis = Ok p ∧
  CheckConsistency p = Ok tt ∧
  expected_maximum_supply p = initial_supply p + reward p * (365 * 24 * 60 * 60 / block_time_seconds p) * 50 ∧
  (∀ h, CalculateBlockReward p h = Ok (reward p / 10)) ∧ blob_value (max_difficulty_value p) = 2 ^ 224 - 1.
Proof. eexists. split_and!; [reflexivity|reflexivity|reflexivity|intros; reflexivity|reflexivity]. Qed.

(** The blocks of the active chain from height [start] on. *)
Definition window (heap : BlockMap) (chain : list (option Z)) (start : nat) (blocks : list CBlockIndex) : Prop :=
  ∀ k b, blocks !! k = Some b → ∃ ptr, chain !! (start + k)%nat = Some (Some ptr) ∧ heap !! ptr = Some b.

(** The number a target in compact form stands for. *)
Definition target_of (b : CBlockIndex) : Z := words_value (SetCompact (index_nBits b)).1.1.

Lemma window_deref heap chain start blocks k b : window heap chain start blocks →
  Z.of_nat (start + length blocks) < 2 ^ 31 → blocks !! k = Some b →
  deref_ptr heap (AtHeight chain (Z.of_nat (start + k))) = Ok b.
Proof.
  intros Hw Hlen Hb. destruct (Hw k b Hb) as (ptr & Hc & Hh). pose proof (lookup_lt_Some _ _ _ Hb).
  pose proof (lookup_lt_Some _ _ _ Hc). unfold AtHeight, at_height.
  assert (int32 (Z.of_nat (start + k)) = Z.of_nat (start + k)) as ->.
  { unfold int32. rewrite Z.mod_small; lia. }
  rewrite decide_False, Nat2Z.id, Hc by lia. cbn. unfold deref. by rewrite Hh.
Qed.

Lemma window_tail heap chain start b blocks : window heap chain start (b :: blocks) →
  window heap chain (S start) blocks.
Proof. intros Hw k c Hk. destruct (Hw (S k) c Hk) as (ptr & Hc & Hh). exists ptr. by rewrite Nat.add_succ_l, <- Nat.add_succ_r. Qed.

Lemma difficulties_sum_spec heap chain blocks : ∀ start sum,
  window heap chain start blocks → Z.of_nat (start + length blocks) < 2 ^ 31 →
  Forall (λ b, is_uint32 (index_nBits b)) blocks → is_arith sum →
  ∃ r, difficulties_sum heap chain (length blocks) (Z.of_nat start) sum = Ok r ∧ is_arith r ∧
    words_value r = (words_value sum + foldr Z.add 0 (target_of <$> blocks)) mod 2 ^ 256.
Proof.
  induction blocks as [|b blocks IH]; intros start sum Hw Hlen Hb Hs; cbn [length difficulties_sum].
  { exists sum. split_and!; [done|done|]. cbn. rewrite Z.add_0_r, Z.mod_small by (by apply words_value_arith). done. }
  apply Forall_cons in Hb as [Hb Hbs].
  pose proof (window_deref heap chain start (b :: blocks) 0 b Hw Hlen eq_refl) as Hd. rewrite Nat.add_0_r in Hd.
  rewrite Hd. cbn [mbind outcome_bind]. pose proof (SetCompact_arith _ Hb) as Ht.
  destruct (SetCompact (index_nBits b)) as [[t neg] ovf] eqn:Et. cbn [fst] in Ht.
  destruct (op_add_spec sum t Hs Ht) as [Ha Ea].
  replace (uint32 (Z.of_nat start + 1)) with (Z.of_nat (S start)) by (rewrite uint32_small; unfold is_uint32; cbn [length] in Hlen; lia).
  destruct (IH (S start) (op_add sum t)) as (r & Er & Hr & Ev); [by eapply window_tail|cbn [length] in Hlen; lia|done|done|].
  exists r. split_and!; [done|done|]. rewrite Ev, Ea, Zplus_mod_idemp_l. f_equal. rewrite fmap_cons. cbn [foldr].
  unfold target_of at 2. rewrite Et. cbn [fst]. lia.
Qed.

(** The target the blocks of the window lead to: the average target, scaled
    by the time the blocks took over the time they should take, at most the
    limit; and the limit when the times do not increase or the product does
    not fit. *)
Definition ideal_target (p : Parameters) (first last_block : CBlockIndex) (blocks : list CBlockIndex) : Z :=
  let maximum := blob_value (max_difficulty_value p) in
  let actual := nTime last_block - nTime first in
  let average := foldr Z.add 0 (target_of <$> blocks) mod 2 ^ 256 / Z.of_nat (length blocks) in
  if decide (actual ≤ 0 ∨ 2 ^ 256 ≤ actual * average) then maximum
  else Z.min maximum (actual * average / (Z.of_nat (length blocks) * block_time_seconds p)).

Definition approximates (m : outcome Z) (v : Z) : Prop :=
  ∃ c t, m = Ok c ∧ SetCompact c = (t, false, false) ∧ words_value t ≤ v ∧ (v - words_value t) * 2 ^ 15 ≤ v.

Lemma GetCompact_approximates a : is_arith a → approximates (GetCompact a false) (words_value a).
Proof. intros Ha. destruct (compact_targets a Ha) as (c & t & ? & ? & ? & ? & ? & ? & _). by exists c, t. Qed.

(** Scaling with the check for overflow: the quotient differs from the factor
    exactly when the product does not fit. *)
Lemma overflow_check actual average : 0 < actual → 0 ≤ average < 2 ^ 256 →
  (actual * average) mod 2 ^ 256 / actual = average ↔ actual * average < 2 ^ 256.
Proof.
  intros Ha Hv. split.
  - intros E. destruct (decide (actual * average < 2 ^ 256)) as [|Hge]; [done|exfalso].
    pose proof (Z.mod_pos_bound (actual * average) (2 ^ 256) ltac:(lia)) as Hm.
    assert ((actual * average) mod 2 ^ 256 / actual < average) by (apply Z.div_lt_upper_bound; lia). lia.
  - intros Hlt. rewrite Z.mod_small, Z.mul_comm, Z.div_mul by nia. done.
Qed.

Lemma op_div_nonzero a b : is_arith a → is_arith b → words_value b ≠ 0 →
  ∃ q, op_div a b = Ok q ∧ is_arith q ∧ words_value q = words_value a / words_value b.
Proof. intros Ha Hb H0. pose proof (op_div_spec a b Ha Hb) as H. by rewrite decide_False in H. Qed.

Lemma scale_difficulty_spec p sum actual n :
  is_arith sum → difficulty_adjustment_window p = Z.of_nat n → (0 < n)%nat → 0 < actual < 2 ^ 32 →
  0 < Z.of_nat n * block_time_seconds p < 2 ^ 32 → Z.of_nat n < 2 ^ 32 →
  let maximum := blob_value (max_difficulty_value p) in
  let average := words_value sum / Z.of_nat n in
  approximates (scale_difficulty p sum actual)
    (if decide (2 ^ 256 ≤ actual * average) then maximum
     else Z.min maximum (actual * average / (Z.of_nat n * block_time_seconds p))).
Proof.
  intros Hsum HW Hn Ha HT Hn32. unfold scale_difficulty. rewrite HW.
  destruct (UintToArith256_spec (max_difficulty_value p)) as [Hmax Emax]. rewrite <- Emax.
  set (maximum := UintToArith256 _) in *. cbn zeta.
  destruct (base_uint_new_spec (Z.of_nat n)) as [Hbn Ebn]; [unfold is_uint64; lia|].
  destruct (op_div_nonzero sum (base_uint_new (Z.of_nat n))) as (avg & Ed & Havg & Eavg); [done|done|lia|].
  destruct (base_uint_new_spec actual) as [Hba Eba]; [unfold is_uint64; lia|].
  destruct (op_mul_spec (base_uint_new actual) avg Hba Havg) as [Hnum Enum].
  destruct (op_div_nonzero (op_mul (base_uint_new actual) avg) (base_uint_new actual)) as (quo & Eq & Hquo & Equo);
    [done|done|lia|].
  rewrite Ed. cbn [mbind outcome_bind]. rewrite Eq. cbn [mbind outcome_bind].
  rewrite Ebn in Eavg. rewrite <- Eavg. rewrite Eba in Enum, Equo. rewrite Enum in Equo.
  pose proof (words_value_arith avg Havg) as Hr. pose proof (overflow_check actual _ ltac:(lia) Hr) as Hov.
  rewrite <- Equo in Hov. destruct (decide (actual * words_value avg < 2 ^ 256)) as [Hfit|Hover].
  2: { rewrite (decide_True (P := quo ≠ avg)), decide_True by (lia || (intros ->; tauto)). by apply GetCompact_approximates. }
  rewrite (decide_False (P := quo ≠ avg)).
  2: { intros Hne. apply Hne, words_value_inj; [by rewrite (arith_length quo), (arith_length avg)|apply Hquo|apply Havg|tauto]. }
  rewrite decide_False by lia. rewrite (uint32_small (Z.of_nat n * _)) by (unfold is_uint32; lia).
  destruct (base_uint_new_spec (Z.of_nat n * block_time_seconds p)) as [Hbe Ebe]; [unfold is_uint64; lia|].
  destruct (op_div_nonzero (op_mul (base_uint_new actual) avg) (base_uint_new (Z.of_nat n * block_time_seconds p)))
    as (next & En & Hnext & Enext); [done|done|lia|].
  rewrite En. cbn [mbind outcome_bind]. rewrite Ebe, Enum, Z.mod_small in Enext by nia.
  rewrite <- Enext. rewrite CompareTo_spec by (by rewrite ?(arith_length next), ?(arith_length maximum) || apply Hnext || apply Hmax).
  destruct (Z.compare_spec (words_value next) (words_value maximum)).
  - rewrite decide_False, Z.min_r by lia. by apply GetCompact_approximates.
  - rewrite decide_False, Z.min_r by lia. by apply GetCompact_approximates.
  - rewrite decide_True, Z.min_l by lia. by apply GetCompact_approximates.
Qed.

(** C25: the difficulty follows the block times.  From a window of blocks of
    the active chain with 32-bit times and targets the difficulty function
    returns, and what it returns decodes, without sign or overflow, to the
    target that scales the average of the window by the time its blocks took
    over the time they should take, limited by the maximum, up to the
    precision of the compact form. *)
Theorem difficulty_adjusts heap chain p start first blocks last_block :
  window heap chain start (first :: blocks) → last blocks = Some last_block →
  difficulty_function p = AdjustDifficulty →
  difficulty_adjustment_window p = Z.of_nat (length blocks) →
  Z.of_nat (S start + length blocks) < 2 ^ 31 →
  0 < Z.of_nat (length blocks) * block_time_seconds p < 2 ^ 32 →
  Forall (λ b, is_uint32 (index_nBits b) ∧ is_uint32 (nTime b)) (first :: blocks) →
  approximates (CalculateDifficulty heap chain p (Z.of_nat (S start + length blocks)))
    (ideal_target p first last_block blocks).
Proof.
  intros Hw Hlast Hf HW Hlen HT Hall. unfold CalculateDifficulty. rewrite Hf. unfold adjust_difficulty, ideal_target.
  destruct (UintToArith256_spec (max_difficulty_value p)) as [Hmax Emax]. rewrite <- Emax.
  set (maximum := UintToArith256 _) in *. set (n := length blocks) in *. rewrite HW, decide_False by lia.
  assert (Forall (λ b, is_uint32 (index_nBits b)) blocks ∧ is_uint32 (nTime first) ∧ is_uint32 (nTime last_block)) as (Hbits & Ht1 & Ht2).
  { apply Forall_cons in Hall as [[? ?] Hall]. split_and!; [|done|].
    - eapply Forall_impl; [exact Hall|]. by intros ? [? _].
    - rewrite last_lookup in Hlast. by destruct (Forall_lookup_1 _ _ _ _ Hall Hlast). }
  assert (0 < n)%nat as Hn by (destruct blocks; [discriminate|unfold n; cbn; lia]). unfold is_uint32 in Ht1, Ht2.
  replace (uint32 (Z.of_nat (S start + n) - 1)) with (Z.of_nat (start + n)) by (rewrite uint32_small; unfold is_uint32; lia).
  replace (uint32 (Z.of_nat (S start + n) - 1 - Z.of_nat n)) with (Z.of_nat (start + 0)) by (rewrite uint32_small; unfold is_uint32; lia).
  assert ((first :: blocks) !! n = Some last_block) as Hln.
  { rewrite last_lookup in Hlast. fold n in Hlast. destruct n; [lia|done]. }
  rewrite (window_deref heap chain start (first :: blocks) n last_block Hw), 
    (window_deref heap chain start (first :: blocks) 0 first Hw) by (done || (cbn [length]; fold n; lia)).
  cbn [mbind outcome_bind]. case_decide as Hle.
  { rewrite decide_True by lia. by apply GetCompact_approximates. }
  set (actual := nTime last_block - nTime first). rewrite (uint32_small actual) by (unfold is_uint32, actual; lia).
  replace (uint32 (Z.of_nat (start + 0) + 1)) with (Z.of_nat (S start)) by (rewrite uint32_small; unfold is_uint32; lia).
  rewrite Nat2Z.id.
  destruct (difficulties_sum_spec heap chain blocks (S start) base_uint_zero) as (sum & Es & Hsum & Esum);
    [by eapply window_tail|done|done|apply is_arith_zero|]. fold n in Es. rewrite Es. cbn [mbind outcome_bind].
  unfold base_uint_zero in Esum. rewrite words_value_zeros, Z.add_0_l in Esum. rewrite <- Esum.
  pose proof (scale_difficulty_spec p sum actual n Hsum HW Hn ltac:(unfold actual; lia) HT ltac:(lia)) as Hs.
  cbn zeta in Hs. rewrite <- Emax in Hs. fold maximum in Hs.
  destruct (decide (2 ^ 256 ≤ _)) as [Hov|Hov] in Hs.
  - by rewrite decide_True by lia.
  - rewrite decide_False by (unfold actual in *; lia). done.
Qed.

(** A network with a window of two blocks, and a chain of three. *)
Definition demo_parameters : Parameters := {|
  genesis_hash := 1000; block_stake_timestamp_interval_seconds := 4; block_time_seconds := 8;
  max_future_block_time_seconds := 15; maximum_block_weight := 4000000; maximum_sigops_count := 80000;
  witness_scale_factor := 4; stake_maturity := 2; stake_maturity_activation_height := 3;
  initial_supply := 1060000 * UNIT; expected_maximum_supply := 2718275100 * UNIT; reward := 3750000000;
  immediate_reward_fraction := 10000000; difficulty_function := AdjustDifficulty;
  difficulty_adjustment_window := 2; max_difficulty_value := uint256S (2 ^ 224 - 1);
  mine_blocks_on_demand := false |}.

Definition demo_active : list (option Z) := [Some 10; Some 11; Some 12].

Definition demo_at (p : Z) : CBlockIndex := default (demo_block None 0) (demo_tree !! p).

Lemma difficulty_adjusts_witness :
  approximates (CalculateDifficulty demo_tree demo_active demo_parameters 3)
    (ideal_target demo_parameters (demo_at 10) (demo_at 12) [demo_at 11; demo_at 12]).
Proof.
  refine (difficulty_adjusts demo_tree demo_active demo_parameters 0 (demo_at 10) [demo_at 11; demo_at 12]
    (demo_at 12) _ eq_refl eq_refl eq_refl _ _ _).
  - intros [|[|[|k]]] b Hb; try discriminate Hb; injection Hb as <-.
    + exists 10. split; vm_compute; reflexivity.
    + exists 11. split; vm_compute; reflexivity.
    + exists 12. split; vm_compute; reflexivity.
  - vm_compute. reflexivity.
  - vm_compute. split; reflexivity.
  - repeat constructor; vm_compute; congruence || reflexivity.
Defined.
