(* ===== verification/Staking.v ===== *)
(** * Proof of stake: src/src/staking/proof_of_stake.cpp, stake_validator.cpp,
    validation_error.h, coin.h

    The keys that may sign a block, taken from the witness of its staking
    input; the kernel hash and the target a stake is compared with; the
    checks of the stake of a block against the coins of the active chain.
    Logging is left out, and so are the locks. *)
From stdpp Require Import strings.
From S2P Require Import Prelude Serialize Ufp64 ArithUint256 Admin Params FinalizationData FinalizationOps.
From S2P Require Import StateFormat Script Standard CommitScripts Transaction Block Coins Checks Chain Behavior.

Inductive BlockValidationError :=
  | BLOCK_SIGNATURE_VERIFICATION_FAILED
  | BLOCKTIME_TOO_EARLY
  | BLOCKTIME_TOO_FAR_INTO_FUTURE
  | COINBASE_TRANSACTION_AT_POSITION_OTHER_THAN_FIRST
  | COINBASE_TRANSACTION_WITHOUT_OUTPUT
  | DUPLICATE_STAKE
  | DUPLICATE_TRANSACTION
  | FINALIZER_COMMITS_MERKLE_ROOT_MISMATCH
  | FIRST_TRANSACTION_NOT_A_COINBASE_TRANSACTION
  | INVALID_BLOCK_HEIGHT
  | INVALID_BLOCK_TIME
  | INVALID_BLOCK_PUBLIC_KEY
  | INVALID_BLOCK_SIGOPS_COUNT
  | INVALID_BLOCK_SIZE
  | INVALID_BLOCK_WEIGHT
  | INVALID_FINALIZER_COMMIT_BAD_SCRIPT
  | INVALID_TRANSACTION_DUPLICATE_INPUTS
  | INVALID_TRANSACTION_NEGATIVE_OUTPUT
  | INVALID_TRANSACTION_NO_INPUTS
  | INVALID_TRANSACTION_NO_OUTPUTS
  | INVALID_TRANSACTION_NULL_INPUT
  | INVALID_TRANSACTION_ORDERING
  | INVALID_TRANSACTION_OUTPUT_PAYS_TOO_MUCH
  | INVALID_TRANSACTION_PAYS_TOO_MUCH
  | INVALID_TRANSACTION_TOO_BIG
  | INVALID_META_INPUT_PREVOUT
  | MERKLE_ROOT_MISMATCH
  | MERKLE_ROOT_DUPLICATE_TRANSACTIONS
  | MISMATCHING_HEIGHT
  | NO_BLOCK_HEIGHT
  | NO_COINBASE_TRANSACTION
  | NO_META_INPUT
  | NO_SNAPSHOT_HASH
  | NO_STAKING_INPUT
  | NON_FINAL_TRANSACTION
  | PREVIOUS_BLOCK_DOESNT_MATCH
  | PREVIOUS_BLOCK_NOT_PART_OF_ACTIVE_CHAIN
  | REMOTE_STAKING_INPUT_BIGGER_THAN_OUTPUT
  | STAKE_IMMATURE
  | STAKE_NOT_ELIGIBLE
  | STAKE_NOT_FOUND
  | TRANSACTION_INPUT_NOT_FOUND
  | WITNESS_MERKLE_ROOT_MISMATCH
  | WITNESS_MERKLE_ROOT_DUPLICATE_TRANSACTIONS.

(** [m_error]: success is [None]. *)
Abbreviation BlockValidationResult := (option BlockValidationError).

(** ** The keys that sign a block *)

Section keys.
Context `{!Crypto}.

Definition ExtractP2WPKHKeys (witness : list bytes) : list CPubKey :=
  match witness with
  | [_; public_key_data] =>
      let public_key := CPubKey_Set public_key_data in
      if IsFullyValid public_key then [public_key] else []
  | _ => []
  end.

(** The keys among the solutions of a multisignature script; all of them
    have to be valid. *)
Definition multisig_signers (solutions : list bytes) : list CPubKey :=
  let keys := CPubKey_Set <$> take (length solutions - 2) (drop 1 solutions) in
  if forallb IsFullyValid keys then keys else [].

Definition ExtractP2WSHKeys (witness : list bytes) : outcome (list CPubKey) :=
  match last witness with
  | None | Some [] => Ok []
  | Some witness_script =>
      solved ← Solver witness_script;
      match solved with
      | Some (TX_PUBKEYHASH, _) =>
          Ok (match witness !! 1%nat with Some k => [CPubKey_Set k] | None => [] end)
      | Some (TX_PUBKEY, solutions) => k ← vec_at solutions 0; Ok [CPubKey_Set k]
      | Some (TX_MULTISIG, solutions) =>
          front ← vec_at solutions 0;
          num_signatures ← vec_at front 0;
          if decide (num_signatures ≠ 1) then Ok []
          else
            back ← vec_at solutions (length solutions - 1);
            num_pubkeys ← vec_at back 0;
            if decide (num_pubkeys ≠ Z.of_nat (length solutions) - 2) then Ok []
            else Ok (multisig_signers solutions)
      | _ => Ok []
      end
  end.

Definition ExtractInputSigningKeys (input : CTxIn) : outcome (list CPubKey) :=
  match ExtractP2WPKHKeys (scriptWitness input) with
  | [k] => Ok [k]
  | _ => ExtractP2WSHKeys (scriptWitness input)
  end.

Definition ExtractBlockSigningKeys (block : CBlock) : outcome (list CPubKey) :=
  match vtx block with
  | [] => Ok []
  | coinbase :: _ =>
      match vin coinbase with
      | _ :: input :: _ => ExtractInputSigningKeys input
      | _ => Ok []
      end
  end.
End keys.

(** ** Kernels *)

Section stake.
Context `{!Hashing}.

Definition stake_kernel_hash (previous_block_stake_modifier stake_block_time stake_txid stake_out_index
    target_block_time : Z) : Z :=
  Hash256 (enc uint256_format previous_block_stake_modifier ++ enc uint32_format stake_block_time ++
           enc uint256_format stake_txid ++ enc uint32_format stake_out_index ++
           enc uint32_format target_block_time).

Definition stake_modifier_hash (stake_transaction_hash previous_blocks_stake_modifier : Z) : Z :=
  Hash256 (enc uint256_format stake_transaction_hash ++ enc uint256_format previous_blocks_stake_modifier).

(** [staking::Coin], with the index of the block that contains it. *)
Record StakeCoin := {
  m_containing_block : CBlockIndex;
  m_out_point : COutPoint;
  m_tx_out : CTxOut;
}.

Definition ComputeStakeModifier (previous_block : option CBlockIndex) (stake : StakeCoin) : Z :=
  match previous_block with
  | None => 0
  | Some b => stake_modifier_hash (outpoint_hash (m_out_point stake)) (stake_modifier b)
  end.

Definition ComputeKernelHash (previous_block : option CBlockIndex) (coin : StakeCoin)
    (target_block_time : Z) : Z :=
  match previous_block with
  | None => 0
  | Some b =>
      stake_kernel_hash (stake_modifier b) (nTime (m_containing_block coin))
        (outpoint_hash (m_out_point coin)) (outpoint_n (m_out_point coin)) target_block_time
  end.

Definition CheckKernel (stake_amount kernel_hash target_difficulty : Z) : bool :=
  if decide (stake_amount ≤ 0) then false
  else
    let '(target_value, is_negative, is_overflow) := SetCompact target_difficulty in
    if is_negative || is_overflow || EqualTo target_value 0 then false
    else
      let weight := base_uint_new (uint64 stake_amount) in
      let target_value := op_mul target_value weight in
      bool_decide (CompareTo (UintToArith256 kernel_hash) target_value ≤ 0).

(** ** The stake of a block *)

(** [ActiveChain::GetUTXO] on the coins of the tip, and [UTXOViewAdapter] of
    validation.cpp, which relies on the block being there. *)
Definition ActiveChain_GetUTXO (heap : BlockMap) (active_chain : list (option Z)) (coins : gmap COutPoint Coin)
    (out_point : COutPoint) : outcome (option StakeCoin) :=
  match coins !! out_point with
  | None => Ok None
  | Some coin =>
      if IsSpent coin then Ok None
      else
        match AtHeight active_chain (coin_nHeight coin) with
        | None => Ok None
        | Some ptr =>
            b ← deref heap ptr;
            Ok (Some {| m_containing_block := b; m_out_point := out_point; m_tx_out := out coin |})
        end
  end.

Definition UTXOViewAdapter_GetUTXO (heap : BlockMap) (active_chain : list (option Z)) (coins : gmap COutPoint Coin)
    (out_point : COutPoint) : outcome (option StakeCoin) :=
  match coins !! out_point with
  | None => Ok None
  | Some coin =>
      if IsSpent coin then Ok None
      else
        match AtHeight active_chain (coin_nHeight coin) with
        | None => Raise AssertionFailure
        | Some ptr =>
            b ← deref heap ptr;
            Ok (Some {| m_containing_block := b; m_out_point := out_point; m_tx_out := out coin |})
        end
  end.

Section validator.
(** The block indexes and the active chain, and [GetUTXO] of the view. *)
Context (heap : BlockMap) (index_map : gmap Z Z) (active_chain : list (option Z)) (p : Parameters).
Context (GetUTXO : COutPoint → outcome (option StakeCoin)).

(** [remote_staking_amounts[script] += amount] when the script is a remote
    staking one. *)
Definition add_remote_stake (stake : StakeCoin) (amounts : gmap CScript Z) : outcome (gmap CScript Z) :=
  let script := scriptPubKey (m_tx_out stake) in
  wp ← ExtractWitnessProgram script;
  Ok (match wp with
      | Some wp =>
          if IsRemoteStaking wp
          then <[script := int64 (default 0 (amounts !! script) + nValue (m_tx_out stake))]> amounts
          else amounts
      | None => amounts
      end).

(** The inputs after the staking one; [None] when a coin is missing. *)
Fixpoint add_remote_stakes (ins : list CTxIn) (amounts : gmap CScript Z) :
  outcome (option (gmap CScript Z)) :=
  match ins with
  | [] => Ok (Some amounts)
  | i :: ins =>
      utxo ← GetUTXO (prevout i);
      match utxo with
      | None => Ok None
      | Some utxo => amounts ← add_remote_stake utxo amounts; add_remote_stakes ins amounts
      end
  end.

Definition subtract_output (amounts : gmap CScript Z) (o : CTxOut) : gmap CScript Z :=
  match amounts !! scriptPubKey o with
  | Some amount => <[scriptPubKey o := int64 (amount - nValue o)]> amounts
  | None => amounts
  end.

Definition CheckRemoteStakingOutputs (coinbase_tx : CTransaction) (stake : StakeCoin) :
  outcome BlockValidationResult :=
  amounts ← add_remote_stake stake ∅;
  amounts ← add_remote_stakes (drop 2 (vin coinbase_tx)) amounts;
  match amounts with
  | None => Ok (Some TRANSACTION_INPUT_NOT_FOUND)
  | Some amounts =>
      let amounts := foldl subtract_output amounts (vout coinbase_tx) in
      Ok (if existsb (λ '(_, amount), bool_decide (0 < amount)) (map_to_list amounts)
          then Some REMOTE_STAKING_INPUT_BIGGER_THAN_OUTPUT else None)
  end.

Definition IsStakeMature (height : Z) : outcome bool :=
  at_depth ← GetDepth active_chain height;
  chain_height ← ActiveChain_GetHeight active_chain;
  Ok (bool_decide (chain_height ≤ stake_maturity_activation_height p) ||
      bool_decide (stake_maturity p < at_depth)).

Definition CheckStakeInternal (previous_block : CBlockIndex) (block : CBlock) (skip_eligibility : bool) :
  outcome BlockValidationResult :=
  match vtx block with
  | [] => Ok (Some NO_COINBASE_TRANSACTION)
  | coinbase_tx :: _ =>
      if decide (GetType coinbase_tx ≠ COINBASE) then Ok (Some FIRST_TRANSACTION_NOT_A_COINBASE_TRANSACTION)
      else
        match vin coinbase_tx with
        | _ :: staking_input :: _ =>
            stake ← GetUTXO (prevout staking_input);
            match stake with
            | None => Ok (Some STAKE_NOT_FOUND)
            | Some stake =>
                mature ← IsStakeMature (uint32 (nHeight (m_containing_block stake)));
                if negb mature then Ok (Some STAKE_IMMATURE)
                else
                  eligible ←
                    (if skip_eligibility then Ok true
                     else
                       let kernel_hash :=
                         ComputeKernelHash (Some previous_block) stake (block_nTime (GetBlockHeader block)) in
                       let target_height := uint32 (nHeight previous_block + 1) in
                       target_difficulty ← CalculateDifficulty heap active_chain p target_height;
                       Ok (CheckKernel (nValue (m_tx_out stake)) kernel_hash target_difficulty ||
                           mine_blocks_on_demand p));
                  if negb eligible then Ok (Some STAKE_NOT_ELIGIBLE)
                  else CheckRemoteStakingOutputs coinbase_tx stake
            end
        | _ => Ok (Some NO_STAKING_INPUT)
        end
  end.

(** [already_checked] is the status in the validation information. *)
Definition CheckStake (block : CBlock) (skip_eligibility already_checked : bool) :
  outcome BlockValidationResult :=
  if IsGenesisBlock p block then Ok None
  else if already_checked then Ok None
  else
    tip ← GetBlockIndex heap index_map active_chain (hashPrevBlock (GetBlockHeader block));
    match tip with
    | None => Ok (Some PREVIOUS_BLOCK_NOT_PART_OF_ACTIVE_CHAIN)
    | Some tip => b ← deref heap tip; CheckStakeInternal b block skip_eligibility
    end.
End validator.
End stake.

(** [m_kernel_seen]. *)
Definition IsPieceOfStakeKnown (stake : COutPoint) (m_kernel_seen : gset COutPoint) : bool :=
  bool_decide (stake ∈ m_kernel_seen).
Definition RememberPieceOfStake (stake : COutPoint) (m_kernel_seen : gset COutPoint) : gset COutPoint :=
  {[stake]} ∪ m_kernel_seen.
Definition ForgetPieceOfStake (stake : COutPoint) (m_kernel_seen : gset COutPoint) : gset COutPoint :=
  m_kernel_seen ∖ {[stake]}.

(** ** What is shown of kernels *)

Lemma CheckKernel_spec amount hash bits t : is_uint32 bits → 0 < amount < 2 ^ 63 →
  SetCompact bits = (t, false, false) → words_value t ≠ 0 →
  CheckKernel amount hash bits = bool_decide (blob_value hash ≤ (words_value t * amount) mod 2 ^ 256).
Proof.
  intros Hb Ha Ht H0. pose proof (SetCompact_arith bits Hb) as Hta. rewrite Ht in Hta. cbn [fst] in Hta.
  unfold CheckKernel. rewrite decide_False, Ht, EqualTo_spec by (done || unfold is_uint64; lia).
  rewrite bool_decide_eq_false_2 by done. cbn [orb]. rewrite uint64_small by (unfold is_uint64; lia).
  destruct (base_uint_new_spec amount) as [Hw Ew]; [unfold is_uint64; lia|].
  destruct (op_mul_spec t (base_uint_new amount) Hta Hw) as [Hp Ep].
  destruct (UintToArith256_spec hash) as [Hh Eh].
  rewrite CompareTo_spec, Ep, Ew, Eh by
    (rewrite ?(arith_length _ Hh), ?(arith_length _ Hp); done || apply Hh || apply Hp).
  apply bool_decide_ext. destruct (Z.compare_spec (blob_value hash) ((words_value t * amount) mod 2 ^ 256)); lia.
Qed.

(** C23: what a stake counts for.  For a target that decodes without sign or
    overflow, a kernel hash meets it exactly when it is not above the product
    of target and stake modulo 2^256, for every stake and every hash.  As long
    as the product has 256 bits, a bigger stake therefore meets the target
    whenever a smaller one does.  The product is not checked for overflow, so
    this stops there: a stake past the limit misses every hash above its
    reduced product, also those that the biggest stake below the limit, which
    is smaller, meets. *)
Theorem kernel_weighs_stake bits t amount hash :
  is_uint32 bits → SetCompact bits = (t, false, false) → words_value t ≠ 0 → 0 < amount < 2 ^ 63 →
  CheckKernel amount hash bits = bool_decide (blob_value hash ≤ (words_value t * amount) mod 2 ^ 256) ∧
  (words_value t * amount < 2 ^ 256 → ∀ smaller, 0 < smaller ≤ amount →
     CheckKernel smaller hash bits = true → CheckKernel amount hash bits = true) ∧
  (2 ^ 256 ≤ words_value t * amount →
     let limit := (2 ^ 256 - 1) / words_value t in
     0 < limit < amount ∧
     ((words_value t * amount) mod 2 ^ 256 < blob_value hash ≤ words_value t * limit →
      CheckKernel limit hash bits = true ∧ CheckKernel amount hash bits = false)).
Proof.
  intros Hb Ht H0 Ha. pose proof (SetCompact_arith bits Hb) as Hta. rewrite Ht in Hta. cbn [fst] in Hta.
  pose proof (words_value_arith t Hta) as Hr. split; [by apply CheckKernel_spec|split].
  - intros Hfit smaller Hs.
    rewrite (CheckKernel_spec amount hash bits t), (CheckKernel_spec smaller hash bits t), !Z.mod_small
      by (done || nia).
    rewrite !bool_decide_eq_true. nia.
  - intros Hover limit.
    assert (0 < limit) by (apply Z.div_str_pos; lia).
    pose proof (Z.mul_div_le (2 ^ 256 - 1) (words_value t)) as Hle. fold limit in Hle.
    split; [nia|]. intros Hh.
    rewrite (CheckKernel_spec limit hash bits t), (CheckKernel_spec amount hash bits t) by (done || nia).
    rewrite bool_decide_eq_true, bool_decide_eq_false, (Z.mod_small (words_value t * limit)) by nia. lia.
Qed.

(** The target of the first blocks of the test network for local use. *)
Lemma kernel_weighs_stake_witness :
  CheckKernel 2 (uint256S (0x7fffff * 2 ^ 232)) 0x207fffff = true ∧
  CheckKernel 3 (uint256S (0x7fffff * 2 ^ 232)) 0x207fffff = false.
Proof.
  assert (words_value (SetCompact 0x207fffff).1.1 = 0x7fffff * 2 ^ 232) as E by (vm_compute; reflexivity).
  destruct (kernel_weighs_stake 0x207fffff (SetCompact 0x207fffff).1.1 3 (uint256S (0x7fffff * 2 ^ 232)))
    as (_ & _ & H).
  - unfold is_uint32. lia.
  - vm_compute. reflexivity.
  - rewrite E. lia.
  - lia.
  - rewrite E in H. destruct H as [_ H]; [lia|].
    destruct H as [Hlimit Hmissed]; [vm_compute; done|]. exact (conj Hlimit Hmissed).
Defined.

(** ** What is shown of remote stakes *)

(** What the outputs in a list pay to a script. *)
Definition paid_to (s : CScript) (outs : list CTxOut) : Z :=
  foldr Z.add 0 ((λ o, if decide (scriptPubKey o = s) then nValue o else 0) <$> outs).

Definition total_paid (outs : list CTxOut) : Z := foldr Z.add 0 (nValue <$> outs).

Definition is_remote_stake (s : CScript) : Prop :=
  ∃ wp, ExtractWitnessProgram s = Ok (Some wp) ∧ IsRemoteStaking wp = true.

Lemma paid_to_bounds s outs : Forall (λ o, 0 ≤ nValue o) outs → 0 ≤ paid_to s outs ≤ total_paid outs.
Proof.
  unfold paid_to, total_paid. induction 1 as [|o outs Ho Hos IH]; [done|]. rewrite !fmap_cons. cbn [foldr].
  case_decide; lia.
Qed.

Lemma paid_to_cons s o outs :
  paid_to s (o :: outs) = (if decide (scriptPubKey o = s) then nValue o else 0) + paid_to s outs.
Proof. done. Qed.

Lemma add_remote_stake_spec stake m m' s : is_remote_stake s → add_remote_stake stake m = Ok m' →
  0 ≤ default 0 (m !! s) → 0 ≤ nValue (m_tx_out stake) → default 0 (m !! s) + nValue (m_tx_out stake) < 2 ^ 63 →
  default 0 (m' !! s) = default 0 (m !! s) + paid_to s [m_tx_out stake].
Proof.
  intros (wp & Hwp & Hr) H Hm Hv Hlt. unfold add_remote_stake in H. ok_inv H.
  rewrite paid_to_cons. change (paid_to s []) with 0. case_decide as Hs.
  - rewrite Hs in *. rewrite Hwp in *. simplify_eq. rewrite Hr, lookup_insert_eq. cbn [default].
    rewrite int64_small by (unfold is_int64; lia). unfold id. lia.
  - simplify_eq. match goal with w : option WitnessProgram |- _ => destruct w as [w|]; [destruct (IsRemoteStaking w)|] end;
      rewrite ?lookup_insert_ne by done; lia.
Qed.

Section remote.
Context (GetUTXO : COutPoint → outcome (option StakeCoin)).

(** The coins of the inputs after the staking one. *)
Definition coins_found (ins : list CTxIn) (ks : list StakeCoin) : Prop :=
  Forall2 (λ i k, GetUTXO (prevout i) = Ok (Some k)) ins ks.

Lemma add_remote_stakes_spec ins : ∀ m m', add_remote_stakes GetUTXO ins m = Ok (Some m') →
  ∃ ks, coins_found ins ks ∧
    ∀ s, is_remote_stake s → Forall (λ o, 0 ≤ nValue o) (m_tx_out <$> ks) → 0 ≤ default 0 (m !! s) →
      default 0 (m !! s) + total_paid (m_tx_out <$> ks) < 2 ^ 63 →
      default 0 (m' !! s) = default 0 (m !! s) + paid_to s (m_tx_out <$> ks).
Proof.
  induction ins as [|i ins IH]; intros m m' H; cbn [add_remote_stakes] in H.
  { simplify_eq. exists []. split; [constructor|]. intros. cbn. lia. }
  destruct (GetUTXO (prevout i)) as [[k|]|] eqn:Hk; cbn [mbind outcome_bind] in H; try discriminate.
  destruct (add_remote_stake k m) as [m1|] eqn:Hm1; cbn [mbind outcome_bind] in H; [|discriminate].
  destruct (IH m1 m' H) as (ks & Hks & Hs). exists (k :: ks). split; [by constructor|].
  intros s Hr Hpos Hm Hlt. rewrite fmap_cons in *. apply Forall_cons in Hpos as [Hp Hps].
  change (total_paid (m_tx_out k :: (m_tx_out <$> ks))) with (nValue (m_tx_out k) + total_paid (m_tx_out <$> ks)) in Hlt.
  pose proof (paid_to_bounds s _ Hps).
  pose proof (add_remote_stake_spec k m m1 s Hr Hm1 Hm Hp ltac:(lia)) as E1.
  rewrite paid_to_cons in *. change (paid_to s []) with 0 in E1.
  rewrite Hs; [lia|done|done|case_decide; lia|case_decide; lia].
Qed.

Lemma subtract_outputs_spec s outs : ∀ (m : gmap CScript Z) a,
  m !! s = Some a → 0 ≤ a < 2 ^ 62 → Forall (λ o, 0 ≤ nValue o) outs → total_paid outs < 2 ^ 62 →
  foldl subtract_output m outs !! s = Some (a - paid_to s outs).
Proof.
  assert (∀ outs (m : gmap CScript Z) a, m !! s = Some a → - 2 ^ 62 + total_paid outs ≤ a < 2 ^ 62 →
    Forall (λ o, 0 ≤ nValue o) outs → total_paid outs < 2 ^ 62 →
    foldl subtract_output m outs !! s = Some (a - paid_to s outs)) as H.
  { clear outs. induction outs as [|o outs IH]; intros m a Ha Hr Hpos Ht; cbn [foldl].
    { rewrite Ha. f_equal. cbn. lia. }
    apply Forall_cons in Hpos as [Hp Hps]. pose proof (paid_to_bounds s _ Hps).
    change (total_paid (o :: outs)) with (nValue o + total_paid outs) in *. rewrite paid_to_cons.
    unfold subtract_output at 2. destruct (decide (scriptPubKey o = s)) as [Hs|Hs].
    - rewrite Hs, Ha. rewrite (IH _ (a - nValue o)); [f_equal; lia| |lia|done|lia].
      rewrite lookup_insert_eq, int64_small by (unfold is_int64; lia). done.
    - rewrite (IH _ a); [f_equal; lia| |lia|done|lia].
      destruct (m !! scriptPubKey o); [by rewrite lookup_insert_ne|done]. }
  intros m a Ha Hr Hpos Ht. apply H; [done|lia|done|done].
Qed.

(** C24: remote stakes are returned.  When the check of the remote staking
    outputs passes, the coins of all inputs after the staking one were found,
    and for every remote staking script the outputs of the coinbase pay at
    least as much to the script as the staking input and the other inputs
    take from it, for amounts within the money supply. *)
Theorem remote_stakes_are_returned coinbase_tx stake :
  CheckRemoteStakingOutputs GetUTXO coinbase_tx stake = Ok None →
  ∃ ks, coins_found (drop 2 (vin coinbase_tx)) ks ∧
    let spent := m_tx_out stake :: (m_tx_out <$> ks) in
    ∀ s, is_remote_stake s →
      Forall (λ o, 0 ≤ nValue o) spent → total_paid spent < 2 ^ 62 →
      Forall (λ o, 0 ≤ nValue o) (vout coinbase_tx) → total_paid (vout coinbase_tx) < 2 ^ 62 →
      paid_to s spent ≤ paid_to s (vout coinbase_tx).
Proof.
  intros H. unfold CheckRemoteStakingOutputs in H.
  destruct (add_remote_stake stake ∅) as [m0|] eqn:H0; cbn [mbind outcome_bind] in H; [|discriminate].
  destruct (add_remote_stakes GetUTXO _ m0) as [[m1|]|] eqn:H1; cbn [mbind outcome_bind] in H; try discriminate.
  destruct (add_remote_stakes_spec _ _ _ H1) as (ks & Hks & Hs). exists ks. split; [done|]. cbn zeta.
  intros s Hr Hin Htin Hout Htout. apply Forall_cons in Hin as [Hp Hps].
  change (total_paid (m_tx_out stake :: (m_tx_out <$> ks))) with
    (nValue (m_tx_out stake) + total_paid (m_tx_out <$> ks)) in Htin.
  pose proof (paid_to_bounds s _ Hps). pose proof (paid_to_bounds s _ Hout).
  pose proof (add_remote_stake_spec stake ∅ m0 s Hr H0) as E0. rewrite lookup_empty in E0. cbn [default] in E0.
  specialize (E0 ltac:(lia) Hp ltac:(lia)). rewrite paid_to_cons in *. change (paid_to s []) with 0 in E0.
  specialize (Hs s Hr Hps). rewrite E0 in Hs. specialize (Hs ltac:(case_decide; lia) ltac:(case_decide; lia)).
  destruct (m1 !! s) as [a|] eqn:Ha; cbn [default] in Hs; [|unfold id in Hs; lia]. unfold id in Hs.
  pose proof (subtract_outputs_spec s (vout coinbase_tx) m1 a Ha ltac:(case_decide; lia) Hout Htout) as Hfin.
  destruct (existsb _ _) eqn:He; [discriminate|]. apply not_true_iff_false in He.
  destruct (decide (a - paid_to s (vout coinbase_tx) ≤ 0)); [lia|]. exfalso. apply He, existsb_exists.
  exists (s, a - paid_to s (vout coinbase_tx)). split; [by apply list_elem_of_In, elem_of_map_to_list|].
  apply bool_decide_eq_true. lia.
Qed.
End remote.

(** A coinbase with a remote stake as staking input and as third input. *)
Definition demo_remote_script : CScript := [OP_1] ++ [20] ++ replicate 20 7 ++ [32] ++ replicate 32 9.

Definition demo_stake (amount : Z) : StakeCoin := {|
  m_containing_block := demo_at 10; m_out_point := COutPoint_null;
  m_tx_out := {| nValue := amount; scriptPubKey := demo_remote_script |} |}.

Definition demo_staking_tx : CTransaction := {|
  vin := replicate 3 (CTxIn_new COutPoint_null [] SEQUENCE_FINAL);
  vout := [{| nValue := 10; scriptPubKey := [] |}; {| nValue := 70; scriptPubKey := demo_remote_script |}];
  nVersion := 1; nLockTime := 0 |}.

Lemma remote_stakes_are_returned_witness :
  ∃ ks, coins_found (λ _, Ok (Some (demo_stake 30))) (drop 2 (vin demo_staking_tx)) ks ∧
    is_remote_stake demo_remote_script ∧
    (total_paid (m_tx_out <$> ks) = 30 → Forall (λ o, 0 ≤ nValue o) (m_tx_out <$> ks) →
     paid_to demo_remote_script (m_tx_out (demo_stake 40) :: (m_tx_out <$> ks)) ≤
     paid_to demo_remote_script (vout demo_staking_tx)).
Proof.
  destruct (remote_stakes_are_returned (λ _, Ok (Some (demo_stake 30))) demo_staking_tx (demo_stake 40))
    as (ks & Hks & Hs); [vm_compute; reflexivity|].
  assert (is_remote_stake demo_remote_script) as Hr.
  { eexists. split; vm_compute; reflexivity. }
  exists ks. split; [exact Hks|]. split; [exact Hr|]. intros Ht Hp. apply (Hs demo_remote_script Hr).
  - constructor; [cbn; lia|exact Hp].
  - change (40 + total_paid (m_tx_out <$> ks) < 2 ^ 62). rewrite Ht. lia.
  - repeat constructor; cbn; lia.
  - vm_compute. reflexivity.
Defined.
