(* ===== verification/Connect.v ===== *)
(** * Connecting and disconnecting the coins of a block: src/src/validation.cpp,
    src/src/staking/block_reward_validator.cpp, src/src/undo.h

    The part of [ConnectBlock] that works on the coins: the outputs of all
    transactions are added first, then every transaction is checked against
    the coins it spends and its inputs are spent, and the coinbase may claim
    the fees and the reward of the block.  [DisconnectBlock] undoes it from
    the coins that were spent.  The checks on the block itself come before;
    times, logging and the parallel script queue are left out, and so is the
    cache of script executions, which holds only successful ones.  Undo data
    is an argument where it is read from disk. *)
From stdpp Require Import strings.
From S2P Require Import Prelude Serialize Admin Params FinalizationData FinalizationOps.
From S2P Require Import StateFormat Script Standard CommitScripts Transaction Coins Checks Chain.
From S2P Require Import Interpreter Sighash Block MerkleBlock TxVerify.

Definition MAX_BLOCK_SIGOPS_COST : Z := 80000.

Section connect.
Context `{!SnapshotHashing, !Hashing} (base : gmap COutPoint Coin).

(** ** Spending and adding *)

(** The coins moved to [txundo.vprevout]. *)
Fixpoint spend_loop (ins : list CTxIn) (c : CCoinsViewCache) : outcome (list Coin * CCoinsViewCache) :=
  match ins with
  | [] => Ok ([], c)
  | txin :: ins =>
      let '(spent, c) := SpendCoin base (prevout txin) c in
      match spent with
      | None => Raise AssertionFailure
      | Some k => '(ks, c) ← spend_loop ins c; Ok (k :: ks, c)
      end
  end.

Definition MarkCoinAsSpent (tx : CTransaction) (c : CCoinsViewCache) :
  outcome (list Coin * CCoinsViewCache) :=
  spend_loop (spending_inputs tx) c.

Definition UpdateCoins (tx : CTransaction) (nHeight : Z) (c : CCoinsViewCache) :
  outcome (list Coin * CCoinsViewCache) :=
  '(txundo, c) ← MarkCoinAsSpent tx c;
  c ← AddCoins base tx nHeight false c;
  Ok (txundo, c).

(** ** Scripts *)

Section scripts.
Context `{!Crypto, !Signatures, !SignatureForms, !OpHashes}.

(** [CScriptCheck::operator()]. *)
Definition CScriptCheck (m_tx_out : CTxOut) (tx : CTransaction) (nIn : nat) (flags : Z)
    (txdata : PrecomputedTransactionData) : outcome bool :=
  if IsCoinBase tx && bool_decide (nIn = O) then Ok true
  else
    i ← vec_at (vin tx) nIn;
    r ← VerifyScript (scriptSig i) (scriptPubKey m_tx_out) (scriptWitness i) flags
          (TransactionSignatureChecker tx (Z.of_nat nIn) (nValue m_tx_out) (Some txdata));
    Ok (match r with Done _ => true | Fail _ => false end).

Definition STANDARD_NOT_MANDATORY_VERIFY_FLAGS : Z :=
  Z.land STANDARD_SCRIPT_VERIFY_FLAGS (Z.lnot MANDATORY_SCRIPT_VERIFY_FLAGS).

(** The loop of [CheckInputs] from input [i] on. *)
Fixpoint check_scripts (tx : CTransaction) (flags : Z) (txdata : PrecomputedTransactionData)
    (i : nat) (ins : list CTxIn) (c : CCoinsViewCache) : check CCoinsViewCache :=
  match ins with
  | [] => accept c
  | txin :: ins =>
      let '(k, c) := AccessCoin base (prevout txin) c in
      _ ←! lift (cpp_assert (negb (IsSpent k)));
      ok ←! lift (CScriptCheck (out k) tx i flags txdata);
      if (ok : bool) then check_scripts tx flags txdata (S i) ins c
      else if has flags STANDARD_NOT_MANDATORY_VERIFY_FLAGS then
        ok ←! lift (CScriptCheck (out k) tx i
                      (Z.land flags (Z.lnot STANDARD_NOT_MANDATORY_VERIFY_FLAGS)) txdata);
        if (ok : bool) then reject 0 "non-mandatory-script-verify-flag"
        else reject 100 "mandatory-script-verify-flag-failed"
      else reject 100 "mandatory-script-verify-flag-failed"
  end.

Definition CheckInputs (tx : CTransaction) (fScriptChecks : bool) (flags : Z)
    (txdata : PrecomputedTransactionData) (c : CCoinsViewCache) : check CCoinsViewCache :=
  if fScriptChecks
  then check_scripts tx flags txdata (if IsCoinBase tx then 1 else 0) (spending_inputs tx) c
  else accept c.

(** ** Connecting *)

(** [prevheights]: an [int] each. *)
Fixpoint prev_heights (ins : list CTxIn) (c : CCoinsViewCache) : list Z * CCoinsViewCache :=
  match ins with
  | [] => ([], c)
  | i :: ins =>
      let '(k, c) := AccessCoin base (prevout i) c in
      let '(hs, c) := prev_heights ins c in
      (int32 (coin_nHeight k) :: hs, c)
  end.

Fixpoint add_outputs (nHeight : Z) (txs : list CTransaction) (c : CCoinsViewCache) :
  outcome CCoinsViewCache :=
  match txs with
  | [] => Ok c
  | tx :: txs => c ← AddCoins base tx nHeight false c; add_outputs nHeight txs c
  end.

Section block.
(** The block indexes, the one of this block, and what was decided about it
    before. *)
Context (heap : BlockMap) (pindex nHeight : Z) (nLockTimeFlags flags : Z) (fScriptChecks : bool).

(** The second loop over the transactions: the undo data, [nFees] and
    [coinbase_in]. *)
Fixpoint connect_loop (txs : list CTransaction) (nSigOpsCost nFees coinbase_in : Z)
    (c : CCoinsViewCache) : check (list (list Coin) * Z * Z * CCoinsViewCache) :=
  match txs with
  | [] => accept ([], nFees, coinbase_in, c)
  | tx :: txs =>
      checked ←! CheckTxInputs base tx nHeight 0 0 c;
      let '(txfee, value_in, c) := checked in
      let '(prevheights, c) := prev_heights (vin tx) c in
      final ←! lift (SequenceLocks heap tx nLockTimeFlags prevheights pindex);
      _ ←! require final 100 "bad-txns-nonfinal";
      cost ←! lift (GetTransactionSigOpCost base tx flags c);
      let '(cost, c) := cost in
      let nSigOpsCost := int64 (nSigOpsCost + cost) in
      _ ←! require (negb (bool_decide (MAX_BLOCK_SIGOPS_COST < nSigOpsCost))) 100 "bad-blk-sigops";
      sums ←! (if IsCoinBase tx then accept (nFees, int64 (coinbase_in + value_in))
               else
                 let nFees := int64 (nFees + txfee) in
                 _ ←! require (MoneyRange nFees) 100 "bad-txns-accumulated-fee-outofrange";
                 accept (nFees, coinbase_in));
      c ←! CheckInputs tx fScriptChecks flags (PrecomputedTransactionData_new tx) c;
      marked ←! lift (MarkCoinAsSpent tx c);
      let '(txundo, c) := marked in
      rest ←! connect_loop txs nSigOpsCost sums.1 sums.2 c;
      let '(vtxundo, nFees, coinbase_in, c) := rest in
      accept (txundo :: vtxundo, nFees, coinbase_in, c)
  end.

(** [CalculateBlockReward] is the reward function of the chain's parameters. *)
Context (CalculateBlockReward : Z → Z).

Definition CheckBlockRewards (coinbase_tx : CTransaction) (input_amount fees : Z) : check unit :=
  _ ←! lift (cpp_assert (MoneyRange input_amount));
  _ ←! lift (cpp_assert (MoneyRange fees));
  let total_reward := int64 (fees + CalculateBlockReward nHeight) in
  _ ←! require (negb (bool_decide (length (vout coinbase_tx) < 1)%nat)) 100 "bad-cb-too-few-outputs";
  output_amount ←! lift (match GetValueOut coinbase_tx with Some v => Ok v | None => Raise RuntimeError end);
  _ ←! require (negb (bool_decide (total_reward < int64 (output_amount - input_amount)))) 100
         "bad-cb-amount";
  _ ←! require (negb (bool_decide (int64 (output_amount - input_amount) < int64 (total_reward - fees))))
         100 "bad-cb-spends-too-little";
  let non_reward_out := foldl (λ sum o, int64 (sum + nValue o)) 0 (drop 1 (vout coinbase_tx)) in
  require (negb (bool_decide (input_amount < non_reward_out))) 100 "bad-cb-spends-too-much".

(** The outputs of the block are added, its transactions are checked and
    their inputs spent, and the reward is checked: the undo data and the
    view. *)
Definition connect_coins (block : CBlock) (isGenesisBlock : bool) (c : CCoinsViewCache) :
  check (list (list Coin) * CCoinsViewCache) :=
  c ←! lift (add_outputs nHeight (vtx block) c);
  connected ←! connect_loop (vtx block) 0 0 0 c;
  let '(vtxundo, nFees, coinbase_in, c) := connected in
  _ ←! (if isGenesisBlock then accept tt
        else
          coinbase_tx ←! lift (vec_at (vtx block) 0);
          CheckBlockRewards coinbase_tx coinbase_in nFees);
  accept (vtxundo, c).

(** The view moves on to the block. *)
Definition ConnectBlock_coins (block : CBlock) (hashBlock : Z) (isGenesisBlock : bool)
    (c : CCoinsViewCache) : check (list (list Coin) * CCoinsViewCache) :=
  connected ←! connect_coins block isGenesisBlock c;
  accept (connected.1, SetBestBlock hashBlock connected.2).
End block.
End scripts.

(** ** Disconnecting *)

Inductive DisconnectResult := DISCONNECT_OK | DISCONNECT_UNCLEAN | DISCONNECT_FAILED.

(** An output has at least nine bytes. *)
Definition MAX_OUTPUTS_PER_BLOCK : Z := MAX_BLOCK_WEIGHT / (WITNESS_SCALE_FACTOR * 9).

Fixpoint access_by_txid (rounds : nat) (txid n : Z) (c : CCoinsViewCache) : Coin * CCoinsViewCache :=
  match rounds with
  | O => (Coin_empty, c)
  | S rounds =>
      let '(alternate, c) := AccessCoin base {| outpoint_hash := txid; outpoint_n := n |} c in
      if negb (IsSpent alternate) then (alternate, c) else access_by_txid rounds txid (n + 1) c
  end.

Definition AccessByTxid (txid : Z) (c : CCoinsViewCache) : Coin * CCoinsViewCache :=
  access_by_txid (Z.to_nat MAX_OUTPUTS_PER_BLOCK) txid 0 c.

Definition ApplyTxInUndo (undo : Coin) (outpoint : COutPoint) (c : CCoinsViewCache) :
  outcome (DisconnectResult * CCoinsViewCache) :=
  let '(have, c) := HaveCoin base outpoint c in
  let fClean := negb have in
  let '(undo, c) :=
    if decide (coin_nHeight undo = 0) then
      let '(alternate, c) := AccessByTxid (outpoint_hash outpoint) c in
      (if negb (IsSpent alternate)
       then Some {| out := out undo; tx_type := tx_type alternate; coin_nHeight := coin_nHeight alternate |}
       else None, c)
    else (Some undo, c) in
  match undo with
  | None => Ok (DISCONNECT_FAILED, c)
  | Some undo =>
      c ← AddCoin outpoint undo (negb fClean) c;
      Ok (if fClean then DISCONNECT_OK else DISCONNECT_UNCLEAN, c)
  end.

(** The inputs of one transaction; [None] is a failure. *)
Fixpoint restore_inputs (ins : list CTxIn) (undos : list Coin) (fClean : bool) (c : CCoinsViewCache) :
  outcome (option bool * CCoinsViewCache) :=
  match ins, undos with
  | i :: ins, undo :: undos =>
      '(res, c) ← ApplyTxInUndo undo (prevout i) c;
      match res with
      | DISCONNECT_FAILED => Ok (None, c)
      | DISCONNECT_OK => restore_inputs ins undos fClean c
      | DISCONNECT_UNCLEAN => restore_inputs ins undos false c
      end
  | _, _ => Ok (Some fClean, c)
  end.

(** The first loop of [DisconnectBlock]. *)
Fixpoint restore_all (txs : list CTransaction) (vtxundo : list (list Coin)) (fClean : bool)
    (c : CCoinsViewCache) : outcome (option bool * CCoinsViewCache) :=
  match txs, vtxundo with
  | tx :: txs, txundo :: vtxundo =>
      if decide (length txundo + (if IsCoinBase tx then 1 else 0) ≠ length (vin tx))%nat
      then Ok (None, c)
      else
        '(res, c) ← restore_inputs (spending_inputs tx) txundo fClean c;
        match res with
        | None => Ok (None, c)
        | Some fClean => restore_all txs vtxundo fClean c
        end
  | _, _ => Ok (Some fClean, c)
  end.

(** The second loop, over the outputs from index [o] on. *)
Fixpoint revert_outputs (tx : CTransaction) (txid nHeight o : Z) (outs : list CTxOut) (fClean : bool)
    (c : CCoinsViewCache) : bool * CCoinsViewCache :=
  match outs with
  | [] => (fClean, c)
  | txout :: outs =>
      if IsUnspendable (scriptPubKey txout) then revert_outputs tx txid nHeight (o + 1) outs fClean c
      else
        let '(spent, c) := SpendCoin base {| outpoint_hash := txid; outpoint_n := uint32 o |} c in
        let matches :=
          match spent with
          | None => false
          | Some k => bool_decide (txout = out k) && bool_decide (uint32 nHeight = coin_nHeight k) &&
                      bool_decide (GetType tx = tx_type k)
          end in
        revert_outputs tx txid nHeight (o + 1) outs (fClean && matches) c
  end.

Fixpoint revert_all (nHeight : Z) (txs : list CTransaction) (fClean : bool) (c : CCoinsViewCache) :
  bool * CCoinsViewCache :=
  match txs with
  | [] => (fClean, c)
  | tx :: txs =>
      let '(fClean, c) := revert_outputs tx (GetHash tx) nHeight 0 (vout tx) fClean c in
      revert_all nHeight txs fClean c
  end.

(** [blockUndo] is what [UndoReadFromDisk] read; the hash is the parent's. *)
Definition DisconnectBlock (block : CBlock) (nHeight hashPrev : Z) (blockUndo : option (list (list Coin)))
    (c : CCoinsViewCache) : outcome (DisconnectResult * CCoinsViewCache) :=
  match blockUndo with
  | None => Ok (DISCONNECT_FAILED, c)
  | Some vtxundo =>
      if decide (length vtxundo ≠ length (vtx block)) then Ok (DISCONNECT_FAILED, c)
      else
        '(restored, c) ← restore_all (vtx block) vtxundo true c;
        match restored with
        | None => Ok (DISCONNECT_FAILED, c)
        | Some fClean =>
            let '(fClean, c) := revert_all nHeight (vtx block) fClean c in
            Ok (if fClean then DISCONNECT_OK else DISCONNECT_UNCLEAN, SetBestBlock hashPrev c)
        end
  end.
End connect.
