(* ===== verification/ConnectProofs.v ===== *)
(** * Blocks create only their reward and can be undone

    [ConnectBlock_coins] and [DisconnectBlock] in terms of the set of unspent
    outputs their cache stands for: [supply_grows_by_reward] and
    [disconnect_undoes_connect], and the case in which undoing fails. *)
From stdpp Require Import strings.
From S2P Require Import Prelude Serialize Admin Params FinalizationData FinalizationOps.
From S2P Require Import StateFormat Script Standard CommitScripts Transaction Coins Checks Chain.
From S2P Require Import Interpreter Sighash ScriptVerification Block MerkleBlock TxVerify Connect.

Lemma money_range v : MoneyRange v = true → 0 ≤ v ≤ 271827510000000000.
Proof. unfold MoneyRange. by intros [?%bool_decide_eq_true ?%bool_decide_eq_true]%andb_true_iff. Qed.

(** ** Sets of outputs *)

(** The set without some outputs. *)
Definition without (os : list COutPoint) (m : gmap COutPoint Coin) : gmap COutPoint Coin :=
  filter (λ kv, kv.1 ∉ os) m.

Lemma lookup_without os m o : without os m !! o = if decide (o ∈ os) then None else m !! o.
Proof.
  unfold without. destruct (decide (o ∈ os)) as [Hin|Hin].
  - apply map_lookup_filter_None. right. intros k _ Hn. by apply Hn.
  - destruct (m !! o) as [k|] eqn:Hm.
    + by apply map_lookup_filter_Some.
    + apply map_lookup_filter_None. by left.
Qed.

Lemma without_nil m : without [] m = m.
Proof. apply map_eq. intros o. by rewrite lookup_without, decide_False by apply not_elem_of_nil. Qed.

Lemma without_delete os o m : delete o (without os m) = without (os ++ [o]) m.
Proof.
  apply map_eq. intros o'. rewrite lookup_without. destruct (decide (o' = o)) as [->|Hne].
  - rewrite lookup_delete_eq, decide_True; [done|]. apply elem_of_app. right. by apply list_elem_of_singleton.
  - rewrite lookup_delete_ne, lookup_without by done. apply decide_ext.
    rewrite elem_of_app, list_elem_of_singleton. naive_solver.
Qed.

Lemma without_insert o os k m :
  m !! o = Some k → o ∉ os → <[o := k]> (without (o :: os) m) = without os m.
Proof.
  intros Hk Ho. apply map_eq. intros o'. rewrite lookup_without. destruct (decide (o' = o)) as [->|Hne].
  - by rewrite lookup_insert_eq, decide_False.
  - rewrite lookup_insert_ne, lookup_without by done. apply decide_ext.
    rewrite elem_of_cons. naive_solver.
Qed.

Lemma without_of_delete o os m : without os (delete o m) = without (o :: os) m.
Proof.
  apply map_eq. intros o'. rewrite !lookup_without. destruct (decide (o' = o)) as [->|Hne].
  - rewrite lookup_delete_eq, (decide_True (P := o ∈ o :: os)) by apply list_elem_of_here.
    by destruct (decide (o ∈ os)).
  - rewrite lookup_delete_ne by done. apply decide_ext. rewrite elem_of_cons. naive_solver.
Qed.

Lemma without_app os os' m : without os' (without os m) = without (os ++ os') m.
Proof.
  apply map_eq. intros o. rewrite !lookup_without.
  destruct (decide (o ∈ os')), (decide (o ∈ os)), (decide (o ∈ os ++ os')) as [Hin|Hin];
    rewrite elem_of_app in Hin; naive_solver.
Qed.

Lemma lookups_delete (m : gmap COutPoint Coin) o os ks :
  o ∉ os → Forall2 (λ o' k, m !! o' = Some k) os ks →
  Forall2 (λ o' k, delete o m !! o' = Some k) os ks.
Proof.
  intros Ho HF. induction HF as [|o' k os ks Hk HF IH]; [constructor|].
  rewrite elem_of_cons in Ho. constructor; [|naive_solver]. rewrite lookup_delete_ne; naive_solver.
Qed.

(** The value of a set. *)
Definition total (m : gmap COutPoint Coin) : Z := map_fold (λ _ k sum, nValue (out k) + sum) 0 m.

Lemma total_insert m o k : m !! o = None → total (<[o := k]> m) = nValue (out k) + total m.
Proof.
  intros Ho. unfold total.
  apply (map_fold_insert_L (λ _ k sum, nValue (out k) + sum) 0 o k m); [intros; lia|done].
Qed.

Lemma total_delete m o k : m !! o = Some k → total (delete o m) = total m - nValue (out k).
Proof.
  intros Hk. rewrite <- (insert_delete_id m o k Hk) at 2.
  rewrite total_insert by apply lookup_delete_eq. lia.
Qed.

Definition coin_values (ks : list Coin) : Z := foldr (λ k sum, nValue (out k) + sum) 0 ks.

Lemma coin_values_cons k ks : coin_values (k :: ks) = nValue (out k) + coin_values ks.
Proof. done. Qed.

Lemma coin_values_app ks ks' : coin_values (ks ++ ks') = coin_values ks + coin_values ks'.
Proof. unfold coin_values. induction ks as [|k ks IH]; cbn [foldr app]; lia. Qed.

(** The coins of a list of outputs, which are distinct. *)
Definition found (m : gmap COutPoint Coin) (os : list COutPoint) (ks : list Coin) : Prop :=
  NoDup os ∧ Forall2 (λ o k, m !! o = Some k) os ks.

Lemma total_without m os ks : found m os ks → total (without os m) = total m - coin_values ks.
Proof.
  intros [Hnd HF]. revert ks HF. induction os as [|o os IH] using rev_ind; intros ks HF.
  - apply Forall2_nil_inv_l in HF as ->. rewrite without_nil. cbn. lia.
  - apply NoDup_app in Hnd as (Hnd & Hdis & _).
    apply Forall2_app_inv_l in HF as (ks1 & ks2 & HF1 & HF2 & ->).
    apply Forall2_cons_inv_l in HF2 as (k & ks3 & Hk & HF2 & ->). apply Forall2_nil_inv_l in HF2 as ->.
    rewrite <- without_delete, (total_delete _ _ k), (IH Hnd ks1 HF1), coin_values_app; [cbn; lia|].
    rewrite lookup_without, decide_False; [done|]. intros Hin. apply (Hdis o Hin).
    by apply list_elem_of_singleton.
Qed.

(** ** Reading *)

Section coins.
Context `{!SnapshotHashing, !SnapshotHashingLaws, !Hashing}.
Implicit Types (base : gmap COutPoint Coin) (c : CCoinsViewCache).

(** The cache still stands for the set. *)
Definition same_set base c c' : Prop := cache_ok base c' ∧ utxo base c' = utxo base c.

Lemma same_set_trans base c c1 c2 : same_set base c c1 → same_set base c1 c2 → same_set base c c2.
Proof. intros [_ Hu1] [Hok Hu2]. split; [done|congruence]. Qed.

Lemma AccessCoin_utxo base o c k c' :
  cache_ok base c → AccessCoin base o c = (k, c') →
  same_set base c c' ∧ (IsSpent k = false → utxo base c !! o = Some k) ∧
  (∀ k', utxo base c !! o = Some k' → k = k').
Proof.
  intros Hc. unfold AccessCoin. pose proof (FetchCoin_utxo base o c Hc) as Hf.
  destruct (FetchCoin base o c) as [[e|] c1]; destruct Hf as (Hok & Hu & _ & _ & Hn & Hs);
    intros [= <- <-].
  - rewrite (Hs e eq_refl). split; [done|]. unfold unspent. destruct (IsSpent (coin e)); naive_solver.
  - rewrite (Hn eq_refl). split; [done|]. by split.
Qed.

Lemma HaveInputs_loop_utxo base ins c b c' :
  cache_ok base c → HaveInputs_loop base ins c = (b, c') → same_set base c c'.
Proof.
  revert c. induction ins as [|i ins IH]; intros c Hc; cbn; [by intros [= <- <-]|].
  pose proof (HaveCoin_utxo base (prevout i) c Hc) as Hh.
  destruct (HaveCoin base (prevout i) c) as [h c1]. destruct Hh as (_ & Hok & Hu & _).
  assert (same_set base c c1) as Hs by done.
  destruct h; [|by intros [= <- <-]]. intros He. exact (same_set_trans _ _ _ _ Hs (IH c1 Hok He)).
Qed.

(** What the loop over the inputs accepts: all of them are unspent, and the
    sum is their value. *)
Lemma check_inputs_loop_utxo base height ins v c v' c' :
  cache_ok base c → MoneyRange v = true → check_inputs_loop base height ins v c = Ok (Accept (v', c')) →
  same_set base c c' ∧ MoneyRange v' = true ∧
  ∃ ks, Forall2 (λ i k, utxo base c !! prevout i = Some k) ins ks ∧ v' = v + coin_values ks.
Proof.
  revert v c. induction ins as [|i ins IH]; intros v c Hc Hv; cbn.
  { intros [= <- <-]. split; [done|]. split; [done|]. exists []. split; [constructor|]. cbn. lia. }
  destruct (AccessCoin base (prevout i) c) as [k c1] eqn:Ha.
  destruct (AccessCoin_utxo _ _ _ _ _ Hc Ha) as (Hsame & Hk & _). intros Hacc. accepted.
  apply andb_true_iff in Hacc2 as [Hkr Hsum].
  unfold cpp_assert in Hacc0. destruct (IsSpent k) eqn:Hsp; [done|].
  destruct (IH _ c1 (proj1 Hsame) Hsum Hacc) as (Hs' & Hr & ks & HF & ->).
  split; [by eapply same_set_trans|]. split; [done|]. exists (k :: ks). split.
  - constructor; [by apply Hk|]. by rewrite (proj2 Hsame) in HF.
  - rewrite coin_values_cons. apply money_range in Hv, Hkr. rewrite int64_small; [lia|]. unfold is_int64. lia.
Qed.

(** The value of outputs. *)
Definition out_values (outs : list CTxOut) : Z := foldr (λ o sum, nValue o + sum) 0 outs.

Lemma out_values_cons o outs : out_values (o :: outs) = nValue o + out_values outs.
Proof. done. Qed.

Lemma out_values_app outs outs' : out_values (outs ++ outs') = out_values outs + out_values outs'.
Proof. unfold out_values. induction outs as [|o outs IH]; cbn [foldr app]; lia. Qed.

Lemma GetValueOut_loop_sum outs v v' :
  MoneyRange v = true → GetValueOut_loop outs v = Some v' →
  v' = v + out_values outs ∧ MoneyRange v' = true.
Proof.
  revert v. induction outs as [|o outs IH]; intros v Hv; cbn [GetValueOut_loop].
  { intros [= <-]. split; [cbn; lia|done]. }
  destruct (MoneyRange (nValue o)) eqn:Ho; [|done].
  destruct (MoneyRange (int64 (v + nValue o))) eqn:Hs; [|done]. cbn [negb orb]. intros Hl.
  destruct (IH _ Hs Hl) as [-> Hr]. split; [|done]. rewrite out_values_cons.
  apply money_range in Hv, Ho. rewrite int64_small; [lia|]. unfold is_int64. lia.
Qed.

Lemma GetValueOut_sum tx v : GetValueOut tx = Some v → v = out_values (vout tx) ∧ MoneyRange v = true.
Proof. intros Hv. by apply GetValueOut_loop_sum in Hv. Qed.

(** What is known of a transaction that passed. *)
Record inputs_checked base c tx (txfee value_in : Z) (ks : list Coin) : Prop := {
  ic_coins : Forall2 (λ i k, utxo base c !! prevout i = Some k) (spending_inputs tx) ks;
  ic_value_in : value_in = coin_values ks;
  ic_range : MoneyRange value_in = true;
  ic_out_range : MoneyRange (out_values (vout tx)) = true;
  ic_fee : IsCoinBase tx = false →
    txfee = value_in - out_values (vout tx) ∧ MoneyRange txfee = true;
}.

Lemma CheckTxInputs_utxo base tx height f v c txfee value_in c' :
  cache_ok base c → height ≠ 0 →
  CheckTxInputs base tx height f v c = Ok (Accept (txfee, value_in, c')) →
  same_set base c c' ∧ ∃ ks, inputs_checked base c tx txfee value_in ks.
Proof.
  intros Hc Hh. unfold CheckTxInputs. rewrite decide_False by done.
  destruct (HaveInputs base tx c) as [have c1] eqn:Hi.
  apply HaveInputs_loop_utxo in Hi as Hs1; [|done]. intros Hacc. accepted. subst have.
  destruct x0 as [nValueIn c2].
  destruct (check_inputs_loop_utxo _ _ _ 0 _ _ _ (proj1 Hs1) eq_refl Hacc1) as (Hs2 & Hr & ks & HF & Hsum).
  rewrite (proj2 Hs1) in HF. accepted. destruct (GetValueOut tx) as [vo|] eqn:Hvo; [|done].
  injection Hacc0 as <-. destruct (GetValueOut_sum _ _ Hvo) as [-> Hor]. injection Hacc as <- <- <-.
  split; [by eapply same_set_trans|]. exists ks. split; [done|lia|done|done|]. intros Hcb.
  rewrite Hcb in Hacc2, Hacc3. cbn in *. apply negb_true_iff, bool_decide_eq_false in Hacc2.
  apply money_range in Hr, Hor. rewrite int64_small in *; [done|unfold is_int64; lia..].
Qed.

Definition prevouts (tx : CTransaction) : list COutPoint := prevout <$> spending_inputs tx.

Lemma prev_heights_utxo base ins c hs c' :
  cache_ok base c → prev_heights base ins c = (hs, c') → same_set base c c'.
Proof.
  revert c hs. induction ins as [|i ins IH]; intros c hs Hc; cbn; [by intros [= <- <-]|].
  destruct (AccessCoin base (prevout i) c) as [k c1] eqn:Ha.
  destruct (AccessCoin_utxo _ _ _ _ _ Hc Ha) as (Hs & _).
  destruct (prev_heights base ins c1) as [hs1 c2] eqn:Hp. intros [= <- <-].
  by eapply same_set_trans, IH; [| |done]; [|apply Hs].
Qed.

Lemma p2sh_sigops_utxo base ins n c n' c' :
  cache_ok base c → p2sh_sigops base ins n c = Ok (n', c') → same_set base c c'.
Proof.
  revert n c. induction ins as [|i ins IH]; intros n c Hc; cbn; [by intros [= <- <-]|].
  destruct (AccessCoin base (prevout i) c) as [k c1] eqn:Ha.
  destruct (AccessCoin_utxo _ _ _ _ _ Hc Ha) as (Hs & _). intros Hl. ok_inv Hl.
  eapply same_set_trans; [done|]. eapply IH; [apply Hs|done].
Qed.

Lemma witness_sigops_utxo base tx flags ins n c n' c' :
  cache_ok base c → witness_sigops base tx flags ins n c = Ok (n', c') → same_set base c c'.
Proof.
  revert n c. induction ins as [|i ins IH]; intros n c Hc; cbn; [by intros [= <- <-]|].
  destruct (AccessCoin base (prevout i) c) as [k c1] eqn:Ha.
  destruct (AccessCoin_utxo _ _ _ _ _ Hc Ha) as (Hs & _). intros Hl. ok_inv Hl.
  eapply same_set_trans; [done|]. eapply IH; [apply Hs|done].
Qed.

Lemma GetTransactionSigOpCost_utxo base tx flags c n c' :
  cache_ok base c → GetTransactionSigOpCost base tx flags c = Ok (n, c') → same_set base c c'.
Proof.
  intros Hc Hg. unfold GetTransactionSigOpCost in Hg. ok_inv Hg.
  enough (same_set base c c0) as Hs.
  { eapply same_set_trans; [done|]. eapply witness_sigops_utxo; [apply Hs|done]. }
  destruct (has flags SCRIPT_VERIFY_P2SH); [|by injection Hr0 as <- <-].
  ok_inv Hr0. unfold GetP2SHSigOpCount in *.
  destruct (IsCoinBase tx); [by simplify_eq|]. simplify_eq. by eapply p2sh_sigops_utxo.
Qed.

Section scripts.
Context `{!Crypto, !Signatures, !SignatureForms, !OpHashes}.

Lemma CheckInputs_utxo base tx b flags txdata c c' :
  cache_ok base c → CheckInputs base tx b flags txdata c = Ok (Accept c') → same_set base c c'.
Proof.
  intros Hc. unfold CheckInputs. destruct b; [|by intros [= <-]].
  generalize (if IsCoinBase tx then 1%nat else 0%nat) as i. revert c Hc.
  induction (spending_inputs tx) as [|txin ins IH]; intros c Hc i; cbn [check_scripts]; [by intros [= <-]|].
  destruct (AccessCoin base (prevout txin) c) as [k c1] eqn:Ha.
  destruct (AccessCoin_utxo _ _ _ _ _ Hc Ha) as (Hs & _). intros Hacc. accepted.
  destruct x0.
  - eapply same_set_trans; [done|]. by eapply IH; [apply Hs|].
  - destruct (has _ _); [|done]. accepted. by destruct x0.
Qed.

(** ** Spending *)

Lemma spend_loop_utxo base ins ks c :
  cache_ok base c → found (utxo base c) (prevout <$> ins) ks →
  ∃ c', spend_loop base ins c = Ok (ks, c') ∧ cache_ok base c' ∧
    utxo base c' = without (prevout <$> ins) (utxo base c).
Proof.
  intros Hc [Hnd HF]. revert ks c Hc HF.
  induction ins as [|i ins IH]; intros ks c Hc HF; cbn [spend_loop fmap list_fmap] in *.
  { apply Forall2_nil_inv_l in HF as ->. exists c. by rewrite without_nil. }
  apply Forall2_cons_inv_l in HF as (k & ks' & Hk & HF & ->).
  apply NoDup_cons in Hnd as [Hi Hnd]. pose proof (SpendCoin_utxo base _ c k Hc Hk) as Hsp.
  destruct (SpendCoin base (prevout i) c) as [r c1]. destruct Hsp as (-> & Hc1 & Hu1).
  destruct (IH Hnd ks' c1) as (c' & -> & Hc' & Hu'); [done|by rewrite Hu1; apply lookups_delete|].
  exists c'. split; [done|]. split; [done|]. rewrite Hu', Hu1. apply without_of_delete.
Qed.

(** The coins of a transaction that passed are spent. *)
Lemma connect_loop_step base heap pindex height lockFlags flags fScripts tx txs cost fees cbin c
    vtxundo fees' cbin' c' :
  cache_ok base c → height ≠ 0 → NoDup (prevouts tx) →
  connect_loop base heap pindex height lockFlags flags fScripts (tx :: txs) cost fees cbin c =
    Ok (Accept (vtxundo, fees', cbin', c')) →
  ∃ txfee value_in ks cost1 c1 vtxundo1, inputs_checked base c tx txfee value_in ks ∧
    vtxundo = ks :: vtxundo1 ∧ cache_ok base c1 ∧
    utxo base c1 = without (prevouts tx) (utxo base c) ∧
    (IsCoinBase tx = false → MoneyRange (int64 (fees + txfee)) = true) ∧
    connect_loop base heap pindex height lockFlags flags fScripts txs cost1
      (if IsCoinBase tx then fees else int64 (fees + txfee))
      (if IsCoinBase tx then int64 (cbin + value_in) else cbin) c1 =
      Ok (Accept (vtxundo1, fees', cbin', c')).
Proof.
  intros Hc Hh Hnd. cbn [connect_loop]. intros Hacc. accepted.
  destruct x as [[txfee value_in] c2].
  destruct (CheckTxInputs_utxo _ _ _ _ _ _ _ _ _ Hc Hh Hacc0) as [Hs2 [ks Hks]].
  destruct (prev_heights base (vin tx) c2) as [hs c3] eqn:Hp.
  apply prev_heights_utxo in Hp as Hs3; [|apply Hs2]. accepted. destruct x1 as [n c4].
  apply GetTransactionSigOpCost_utxo in Hacc3 as Hs4; [|apply Hs3]. accepted.
  rename x2 into sums, x3 into c5, Hacc5 into Hsums.
  apply CheckInputs_utxo in Hacc6 as Hs5; [|apply Hs4].
  assert (same_set base c c5) as [Hc5 Hu5].
  { eapply same_set_trans; [exact Hs2|]. eapply same_set_trans; [exact Hs3|]. by eapply same_set_trans. }
  destruct (spend_loop_utxo base (spending_inputs tx) ks c5) as (c6 & Hsp & Hc6 & Hu6); [done| |].
  { rewrite Hu5. split; [done|]. apply Forall2_fmap_l, (ic_coins _ _ _ _ _ _ Hks). }
  unfold MarkCoinAsSpent in Hacc7. rewrite Hsp in Hacc7. injection Hacc7 as <-. accepted.
  destruct x2 as [[[vtxundo1 fees1] cbin1] c7]. injection Hacc as <- <- <- <-.
  assert (sums = (if IsCoinBase tx then (fees, int64 (cbin + value_in)) else (int64 (fees + txfee), cbin)) ∧
    (IsCoinBase tx = false → MoneyRange (int64 (fees + txfee)) = true)) as [-> Hfee].
  { destruct (IsCoinBase tx); accepted; [by subst|]. by subst. }
  exists txfee, value_in, ks, (int64 (cost + n)), c6, vtxundo1.
  split_and!; [done|done|done|by rewrite Hu6, Hu5|done|]. by destruct (IsCoinBase tx).
Qed.

Lemma lookups_without (m : gmap COutPoint Coin) os os' ks :
  Forall2 (λ o k, without os m !! o = Some k) os' ks →
  Forall2 (λ o k, m !! o = Some k) os' ks ∧ Forall (λ o, o ∉ os) os'.
Proof.
  induction 1 as [|o k os' ks Hk HF [IH1 IH2]]; [by split; constructor|].
  rewrite lookup_without in Hk. destruct (decide (o ∈ os)); [done|]. by split; constructor.
Qed.

Lemma found_app m os ks os' ks' :
  found m os ks → found (without os m) os' ks' → found m (os ++ os') (ks ++ ks').
Proof.
  intros [Hnd HF] [Hnd' [HF' Hdis]%lookups_without]. split.
  - apply NoDup_app. split_and!; [done| |done]. intros o Ho Ho'. by apply (proj1 (Forall_forall _ _) Hdis o).
  - by apply Forall2_app.
Qed.

(** The whole loop spends what the transactions spend. *)
Lemma connect_loop_spent base heap pindex height lockFlags flags fScripts txs cost fees cbin c
    vtxundo fees' cbin' c' :
  cache_ok base c → height ≠ 0 → Forall (λ tx, NoDup (prevouts tx)) txs →
  connect_loop base heap pindex height lockFlags flags fScripts txs cost fees cbin c =
    Ok (Accept (vtxundo, fees', cbin', c')) →
  cache_ok base c' ∧ utxo base c' = without (concat (prevouts <$> txs)) (utxo base c) ∧
  found (utxo base c) (concat (prevouts <$> txs)) (concat vtxundo) ∧
  Forall2 (λ tx ks, length (prevouts tx) = length ks) txs vtxundo.
Proof.
  intros Hc Hh Hnd. revert cost fees cbin c vtxundo Hc.
  induction Hnd as [|tx txs Htx Hnd IH]; intros cost fees cbin c vtxundo Hc Hl.
  { injection Hl as <- <- <- <-. cbn. rewrite without_nil. split_and!; [done..| |constructor].
    split; constructor. }
  apply connect_loop_step in Hl
    as (txfee & value_in & ks & cost1 & c1 & vtxundo1 & Hks & -> & Hc1 & Hu1 & _ & Hl); [|done..].
  destruct (IH _ _ _ _ _ Hc1 Hl) as (Hc' & Hu' & Hf' & HF). rewrite Hu1 in Hu', Hf'.
  pose proof (ic_coins _ _ _ _ _ _ Hks) as Hcoins. cbn. split_and!; [done| | |].
  - by rewrite Hu', without_app.
  - apply found_app; [|done]. split; [done|]. by apply Forall2_fmap_l.
  - constructor; [|done]. unfold prevouts. rewrite length_fmap. by eapply Forall2_length.
Qed.

(** Transactions that are not a coinbase pay what they do not spend. *)
Lemma connect_loop_fees base heap pindex height lockFlags flags fScripts txs cost fees cbin c
    vtxundo fees' cbin' c' :
  cache_ok base c → height ≠ 0 → Forall (λ tx, NoDup (prevouts tx)) txs →
  Forall (λ tx, IsCoinBase tx = false) txs → MoneyRange fees = true →
  connect_loop base heap pindex height lockFlags flags fScripts txs cost fees cbin c =
    Ok (Accept (vtxundo, fees', cbin', c')) →
  MoneyRange fees' = true ∧ cbin' = cbin ∧
  fees' = fees + coin_values (concat vtxundo) - out_values (concat (vout <$> txs)).
Proof.
  intros Hc Hh Hnd Hcb. revert cost fees c vtxundo Hc.
  induction Hnd as [|tx txs Htx Hnd IH]; intros cost fees c vtxundo Hc Hfees Hl.
  { injection Hl as <- <- <- <-. split_and!; [done..|]. cbn. lia. }
  apply Forall_cons in Hcb as [Htxcb Hcb].
  apply connect_loop_step in Hl
    as (txfee & value_in & ks & cost1 & c1 & vtxundo1 & Hks & -> & Hc1 & Hu1 & Hr & Hl); [|done..].
  rewrite Htxcb in Hl. pose proof (Hr Htxcb) as Hsum.
  destruct (ic_fee _ _ _ _ _ _ Hks Htxcb) as [Hfee Hfr].
  destruct (IH Hcb _ _ _ _ Hc1 Hsum Hl) as (Hr' & -> & ->). split_and!; [done..|].
  pose proof (ic_value_in _ _ _ _ _ _ Hks). apply money_range in Hfees, Hfr. cbn [concat fmap list_fmap].
  rewrite coin_values_app, out_values_app, int64_small by (unfold is_int64; lia). lia.
Qed.
End scripts.

(** ** Adding outputs *)

(** The outputs of a transaction that can be spent, with their coins. *)
Fixpoint outputs_from (type : TxType) (txid height i : Z) (outs : list CTxOut) : list (COutPoint * Coin) :=
  match outs with
  | [] => []
  | o :: outs =>
      if IsUnspendable (scriptPubKey o) then outputs_from type txid height (i + 1) outs
      else ({| outpoint_hash := txid; outpoint_n := uint32 i |}, Coin_new o height type) ::
           outputs_from type txid height (i + 1) outs
  end.

Definition created (height : Z) (tx : CTransaction) : list (COutPoint * Coin) :=
  outputs_from (GetType tx) (GetHash tx) height 0 (vout tx).

Definition all_created (height : Z) (txs : list CTransaction) : list (COutPoint * Coin) :=
  concat (created height <$> txs).

(** Distinct outputs that are not in the set. *)
Definition new_outputs (l : list (COutPoint * Coin)) (m : gmap COutPoint Coin) : Prop :=
  NoDup l.*1 ∧ Forall (λ o, m !! o = None) l.*1.

Lemma new_outputs_app l l' m :
  new_outputs (l ++ l') m → new_outputs l m ∧ new_outputs l' (list_to_map l ∪ m).
Proof.
  intros [Hnd HF]. rewrite fmap_app in Hnd, HF. apply NoDup_app in Hnd as (Hnd & Hdis & Hnd').
  apply Forall_app in HF as [HF HF']. split; [done|]. split; [done|].
  rewrite Forall_forall in HF' |- *. intros o Ho. apply lookup_union_None. split; [|by apply HF'].
  apply not_elem_of_list_to_map_1. intros Hin. by apply (Hdis o).
Qed.

Lemma new_outputs_app_r l l' m :
  new_outputs (l ++ l') m → new_outputs l (list_to_map l' ∪ m) ∧ new_outputs l' m.
Proof.
  intros [Hnd HF]. rewrite fmap_app in Hnd, HF. apply NoDup_app in Hnd as (Hnd & Hdis & Hnd').
  apply Forall_app in HF as [HF HF']. split; [|done]. split; [done|].
  rewrite Forall_forall in HF |- *. intros o Ho. apply lookup_union_None. split; [|by apply HF].
  apply not_elem_of_list_to_map_1. by apply Hdis.
Qed.

Lemma AddCoins_loop_utxo base tx txid height outs i c :
  cache_ok base c → Forall (λ o, 0 ≤ nValue o) outs →
  new_outputs (outputs_from (GetType tx) txid height i outs) (utxo base c) →
  ∃ c', AddCoins_loop base tx txid height false outs i c = Ok c' ∧ cache_ok base c' ∧
    utxo base c' = list_to_map (outputs_from (GetType tx) txid height i outs) ∪ utxo base c.
Proof.
  intros Hc HF. revert i c Hc. induction HF as [|o outs Ho HF IH]; intros i c Hc Hnew; cbn in *.
  { exists c. by rewrite (left_id_L ∅ (∪)). }
  assert (IsSpent (Coin_new o height (GetType tx)) = false) as Hsp.
  { unfold IsSpent, CTxOut_IsNull. cbn. apply bool_decide_eq_false_2. lia. }
  destruct (IsUnspendable (scriptPubKey o)) eqn:Hun.
  { unfold AddCoin. rewrite Hsp. cbn [out Coin_new]. rewrite Hun. cbn. by apply IH. }
  pose proof (proj1 Hnew) as Hnd. apply (new_outputs_app [_]) in Hnew as [[_ [Hfresh _]%Forall_cons] Hrest]. cbn in Hfresh.
  destruct (AddCoin_utxo base {| outpoint_hash := txid; outpoint_n := uint32 i |}
    (Coin_new o height (GetType tx)) (IsCoinBase tx) c) as (c1 & -> & Hc1 & Hu1); [done..|by left|].
  cbn. assert (utxo base c1 = list_to_map [({| outpoint_hash := txid; outpoint_n := uint32 i |},
    Coin_new o height (GetType tx))] ∪ utxo base c) as Hu.
  { cbn. by rewrite Hu1, <- insert_union_l, (left_id_L ∅ (∪)). }
  destruct (IH (i + 1) c1 Hc1) as (c' & -> & Hc' & Hu'); [by rewrite Hu|].
  exists c'. split_and!; [done..|]. rewrite Hu', Hu1. cbn [list_to_map foldr uncurry fst snd].
  rewrite <- insert_union_l. symmetry. apply insert_union_r.
  apply not_elem_of_list_to_map_1. by apply NoDup_cons in Hnd as [? _].
Qed.

Lemma add_outputs_utxo base height txs c :
  cache_ok base c → Forall (λ tx, Forall (λ o, 0 ≤ nValue o) (vout tx)) txs →
  new_outputs (all_created height txs) (utxo base c) →
  ∃ c', add_outputs base height txs c = Ok c' ∧ cache_ok base c' ∧
    utxo base c' = list_to_map (all_created height txs) ∪ utxo base c.
Proof.
  intros Hc HF. revert c Hc. induction HF as [|tx txs Htx HF IH]; intros c Hc Hnew; cbn [add_outputs].
  { exists c. split_and!; [done..|]. cbn. by rewrite (left_id_L ∅ (∪)). }
  unfold all_created in Hnew. cbn [fmap list_fmap concat] in Hnew.
  pose proof (proj1 Hnew) as Hnd. apply new_outputs_app in Hnew as [Hnew Hrest].
  destruct (AddCoins_loop_utxo base tx (GetHash tx) height (vout tx) 0 c Hc Htx Hnew)
    as (c1 & Hadd & Hc1 & Hu1). unfold AddCoins. rewrite Hadd. cbn [mbind outcome_bind].
  destruct (IH c1 Hc1) as (c' & -> & Hc' & Hu'); [by rewrite Hu1|].
  exists c'. split_and!; [done..|]. rewrite Hu', Hu1. unfold all_created. cbn [fmap list_fmap concat].
  rewrite list_to_map_app, (assoc_L (∪)). f_equal. apply map_union_comm.
  apply map_disjoint_list_to_map_l, Forall_forall. intros [o k] Hin.
  apply not_elem_of_list_to_map_1. rewrite fmap_app in Hnd. apply NoDup_app in Hnd as (_ & Hdis & _).
  intros Ho. apply (Hdis o Ho). apply list_elem_of_fmap. by exists (o, k).
Qed.

(** ** Values *)

Lemma total_created l m :
  new_outputs l m → total (list_to_map l ∪ m) = coin_values l.*2 + total m.
Proof.
  induction l as [|[o k] l IH]; intros Hnew; [cbn; by rewrite (left_id_L ∅ (∪))|].
  pose proof Hnew as [[Ho Hnd]%NoDup_cons [Hm HF]%Forall_cons]. cbn [list_to_map foldr uncurry fst snd].
  rewrite <- insert_union_l, total_insert.
  - rewrite IH by by split. cbn [fmap list_fmap snd]. rewrite coin_values_cons. lia.
  - apply lookup_union_None. split; [by apply not_elem_of_list_to_map_1|done].
Qed.

(** The value in outputs that cannot be spent. *)
Definition burned (txs : list CTransaction) : Z :=
  out_values (filter (λ o, IsUnspendable (scriptPubKey o) = true) (concat (vout <$> txs))).

Lemma outputs_from_values type txid height i outs :
  coin_values (outputs_from type txid height i outs).*2 +
  out_values (filter (λ o, IsUnspendable (scriptPubKey o) = true) outs) = out_values outs.
Proof.
  revert i. induction outs as [|o outs IH]; intros i; [done|].
  cbn [outputs_from]. rewrite filter_cons, out_values_cons. specialize (IH (i + 1)).
  destruct (IsUnspendable (scriptPubKey o)); [rewrite decide_True by done|rewrite decide_False by done];
    cbn [fmap list_fmap snd]; rewrite ?out_values_cons, ?coin_values_cons; cbn [out Coin_new]; lia.
Qed.

Lemma all_created_values height txs :
  coin_values (all_created height txs).*2 + burned txs = out_values (concat (vout <$> txs)).
Proof.
  unfold burned, all_created. induction txs as [|tx txs IH]; [done|]. cbn [fmap list_fmap concat].
  rewrite fmap_app, coin_values_app, filter_app, !out_values_app, <- IH.
  rewrite <- (outputs_from_values (GetType tx) (GetHash tx) height 0 (vout tx)). unfold created. lia.
Qed.

(** ** Transactions that pass the checks without a context *)

Lemma check_outputs_nonneg outs v u : check_outputs outs v = Ok (Accept u) → Forall (λ o, 0 ≤ nValue o) outs.
Proof.
  revert v. induction outs as [|o outs IH]; intros v; cbn [check_outputs]; [constructor|].
  intros Hacc. accepted. constructor; [|by eapply IH].
  apply negb_true_iff, bool_decide_eq_false in Hacc0. lia.
Qed.

Lemma check_distinct_NoDup ins seen u :
  check_distinct ins seen = Ok (Accept u) → NoDup (prevout <$> ins) ∧ Forall (λ i, prevout i ∉ seen) ins.
Proof.
  revert seen. induction ins as [|i ins IH]; intros seen; cbn [check_distinct]; [by split; constructor|].
  intros Hacc. accepted. apply negb_true_iff, bool_decide_eq_false in Hacc0.
  destruct (IH _ Hacc) as [Hnd HF]. rewrite Forall_forall in HF. split.
  - cbn. constructor; [|done]. intros (j & Heq & Hj)%list_elem_of_fmap. apply (HF j Hj). set_solver.
  - constructor; [done|]. apply Forall_forall. intros j Hj Hin. apply (HF j Hj). set_solver.
Qed.

Lemma CheckTransaction_ok tx u :
  CheckTransaction tx = Ok (Accept u) → NoDup (prevouts tx) ∧ Forall (λ o, 0 ≤ nValue o) (vout tx).
Proof.
  unfold CheckTransaction. intros Hacc. accepted. split; [|by eapply check_outputs_nonneg].
  match goal with H : check_distinct _ _ = _ |- _ => apply check_distinct_NoDup in H as [Hnd _] end.
  unfold prevouts, spending_inputs. rewrite <- (take_drop (if IsCoinBase tx then 1 else 0) (vin tx)) in Hnd.
  rewrite fmap_app in Hnd. by apply NoDup_app in Hnd as (_ & _ & ?).
Qed.

Definition checked_transaction (tx : CTransaction) : Prop := CheckTransaction tx = Ok (Accept tt).

Lemma checked_transactions txs :
  Forall checked_transaction txs →
  Forall (λ tx, NoDup (prevouts tx)) txs ∧ Forall (λ tx, Forall (λ o, 0 ≤ nValue o) (vout tx)) txs.
Proof.
  intros HF. split; apply (Forall_impl _ _ _ HF); intros tx Htx;
  by apply (CheckTransaction_ok tx tt).
Qed.

Section theorems.
Context `{!Crypto, !Signatures, !SignatureForms, !OpHashes}.

(** Connecting a block changes the set of unspent outputs by the outputs it
    creates and those it spends. *)
Lemma ConnectBlock_coins_utxo base heap pindex height lockFlags flags fScripts reward block hash genesis c
    vtxundo c' :
  cache_ok base c → height ≠ 0 → Forall checked_transaction (vtx block) →
  new_outputs (all_created height (vtx block)) (utxo base c) →
  ConnectBlock_coins base heap pindex height lockFlags flags fScripts reward block hash genesis c =
    Ok (Accept (vtxundo, c')) →
  let os := concat (prevouts <$> vtx block) in
  let m := list_to_map (all_created height (vtx block)) ∪ utxo base c in
  cache_ok base c' ∧ utxo base c' = without os m ∧ found m os (concat vtxundo) ∧
  Forall2 (λ tx ks, length (prevouts tx) = length ks) (vtx block) vtxundo ∧
  ∃ c1 c2 fees coinbase_in, cache_ok base c1 ∧
    connect_loop base heap pindex height lockFlags flags fScripts (vtx block) 0 0 0 c1 =
      Ok (Accept (vtxundo, fees, coinbase_in, c2)) ∧
    (genesis = false → ∃ cb, vtx block !! 0%nat = Some cb ∧
      CheckBlockRewards height reward cb coinbase_in fees = Ok (Accept tt)).
Proof.
  intros Hc Hh [Hnd Hpos]%checked_transactions Hnew Hacc.
  destruct (add_outputs_utxo base height (vtx block) c Hc Hpos Hnew) as (c1 & Hadd & Hc1 & Hu1).
  unfold ConnectBlock_coins, connect_coins in Hacc. apply check_bind_Accept in Hacc as ([vtxundo2 c'2] & Hco & Hacc).
  accepted. cbn in Hacc. injection Hacc as <- <-. rewrite Hadd in Hco0. injection Hco0 as <-.
  destruct x0 as [[[undo fees] cbin] c2].
  destruct (connect_loop_spent _ _ _ _ _ _ _ _ _ _ _ _ _ _ _ _ Hc1 Hh Hnd Hco1) as (Hc2 & Hu2 & Hf & HF).
  accepted. injection Hco as <- <-. rewrite Hu1 in Hu2, Hf. cbv zeta.
  assert (utxo base (SetBestBlock hash c2) = utxo base c2) as Hb by done.
  split_and!; [|by rewrite Hb|done|done|].
  { destruct Hc2. split; done. }
  exists c1, c2, fees, cbin. split_and!; [done|done|]. intros ->. accepted. destruct x.
  match goal with H : vec_at _ _ = _ |- _ => apply vec_at_Ok in H; by eexists end.
Qed.

(** What the reward check leaves to the coinbase. *)
Lemma CheckBlockRewards_bound height reward cb input_amount fees :
  MoneyRange (reward height) = true →
  CheckBlockRewards height reward cb input_amount fees = Ok (Accept tt) →
  reward height ≤ out_values (vout cb) - input_amount ≤ fees + reward height.
Proof.
  intros Hr Hacc. unfold CheckBlockRewards in Hacc. accepted.
  match goal with H : cpp_assert (MoneyRange input_amount) = _ |- _ => apply cpp_assert_Ok in H as Hi end.
  match goal with H : cpp_assert (MoneyRange fees) = _ |- _ => apply cpp_assert_Ok in H as Hf end.
  destruct (GetValueOut cb) as [v|] eqn:Hv; [|done]. apply GetValueOut_sum in Hv as [-> Hv].
  repeat match goal with
  | H : negb (bool_decide _) = true |- _ => apply negb_true_iff, bool_decide_eq_false in H
  | H : Ok _ = Ok _ |- _ => injection H as <-
  end.
  apply money_range in Hr, Hi, Hf, Hv.
  rewrite (int64_small (fees + _)) in * by (unfold is_int64; lia).
  rewrite (int64_small (_ - input_amount)), (int64_small (_ - fees)) in * by (unfold is_int64; lia). lia.
Qed.

(** Connecting the coins of a block creates no money but its reward: the
    value of all unspent outputs together with what the block put into
    unspendable outputs grows by at most the block reward, and by no less
    than the reward without the fees; the fees are what the other
    transactions spend and do not pay out, and are not negative. *)
Lemma supply_grows_by_reward base heap pindex height lockFlags flags fScripts reward block hash c
    vtxundo c' cb txs :
  cache_ok base c → height ≠ 0 → MoneyRange (reward height) = true →
  vtx block = cb :: txs → IsCoinBase cb = true → Forall (λ tx, IsCoinBase tx = false) txs →
  Forall checked_transaction (vtx block) →
  new_outputs (all_created height (vtx block)) (utxo base c) →
  ConnectBlock_coins base heap pindex height lockFlags flags fScripts reward block hash false c =
    Ok (Accept (vtxundo, c')) →
  let fees := coin_values (concat (tail vtxundo)) - out_values (concat (vout <$> txs)) in
  let growth := total (utxo base c') + burned (vtx block) - total (utxo base c) in
  0 ≤ fees ∧ reward height - fees ≤ growth ≤ reward height.
Proof.
  intros Hc Hh Hr Hvtx Hcb Htxs Hchk Hnew Hacc. cbv zeta.
  destruct (ConnectBlock_coins_utxo _ _ _ _ _ _ _ _ _ _ _ _ _ _ Hc Hh Hchk Hnew Hacc)
    as (Hc' & Hu' & Hfound & _ & c1 & c2 & fees & cbin & Hc1 & Hloop & Hrew).
  destruct (Hrew eq_refl) as (cb' & Hcb' & Hrw). rewrite Hvtx in Hcb'. injection Hcb' as <-.
  apply CheckBlockRewards_bound in Hrw; [|done].
  rewrite Hu', (total_without _ _ _ Hfound), (total_created _ _ Hnew).
  pose proof (all_created_values height (vtx block)) as Hval.
  destruct (checked_transactions _ Hchk) as [Hnd _]. rewrite Hvtx in *. cbn [fmap list_fmap concat] in Hval.
  rewrite out_values_app in Hval. apply Forall_cons in Hnd as [Hcbnd Hnd].
  apply connect_loop_step in Hloop
    as (txfee & value_in & ks & cost1 & c3 & undo1 & Hks & -> & Hc3 & _ & _ & Hloop); [|done..].
  rewrite Hcb in Hloop. pose proof (ic_range _ _ _ _ _ _ Hks) as Hin. apply money_range in Hin.
  apply connect_loop_fees in Hloop as (Hfr & -> & Hfees); [|done..].
  rewrite (int64_small (0 + value_in)) in Hrw by (unfold is_int64; lia).
  rewrite (ic_value_in _ _ _ _ _ _ Hks) in Hrw. cbn [concat tail]. rewrite coin_values_app.
  apply money_range in Hfr. lia.
Qed.
End theorems.

(** ** Undoing *)

(** A coin [AddCoin] stores. *)
Definition storable (k : Coin) : Prop :=
  IsSpent k = false ∧ IsUnspendable (scriptPubKey (out k)) = false.

Lemma ApplyTxInUndo_utxo base k o c :
  cache_ok base c → utxo base c !! o = None → storable k → coin_nHeight k ≠ 0 →
  ∃ c', ApplyTxInUndo base k o c = Ok (DISCONNECT_OK, c') ∧ cache_ok base c' ∧
    utxo base c' = <[o := k]> (utxo base c).
Proof.
  intros Hc Ho [Hsp Hun] Hk. unfold ApplyTxInUndo. pose proof (HaveCoin_utxo base o c Hc) as Hh.
  destruct (HaveCoin base o c) as [have c1]. destruct Hh as (Hhave & Hc1 & Hu1 & _).
  assert (have = false) as ->.
  { destruct have; [|done]. destruct (proj1 Hhave eq_refl) as [? Hs]. by rewrite Ho in Hs. }
  rewrite decide_False by done. cbn [negb].
  destruct (AddCoin_utxo base o k false c1) as (c2 & -> & Hc2 & Hu2); [done..| |].
  { left. by rewrite Hu1. }
  exists c2. split_and!; [done..|]. by rewrite Hu2, Hu1.
Qed.

Section undo.
Context (m : gmap COutPoint Coin) (Hm : map_Forall (λ _, storable) m).

Lemma restore_inputs_utxo base ins ks rest c b :
  cache_ok base c → utxo base c = without ((prevout <$> ins) ++ rest) m →
  NoDup ((prevout <$> ins) ++ rest) → Forall2 (λ i k, m !! prevout i = Some k) ins ks →
  Forall (λ k, coin_nHeight k ≠ 0) ks →
  ∃ c', restore_inputs base ins ks b c = Ok (Some b, c') ∧ cache_ok base c' ∧
    utxo base c' = without rest m.
Proof.
  intros Hc Hu Hnd HF. revert c Hc Hu Hnd.
  induction HF as [|i k ins ks Hk HF IH]; intros c Hc Hu Hnd Hh; cbn [restore_inputs].
  { by exists c. }
  apply Forall_cons in Hh as [Hk0 Hh]. cbn in Hu, Hnd. apply NoDup_cons in Hnd as [Hi Hnd].
  destruct (ApplyTxInUndo_utxo base k (prevout i) c) as (c1 & -> & Hc1 & Hu1); [done| |by eapply Hm|done|].
  { rewrite Hu, lookup_without, decide_True; [done|apply list_elem_of_here]. }
  cbn. apply IH; [done| |done|done]. rewrite Hu1, Hu. by apply without_insert.
Qed.

Lemma restore_all_utxo base txs vtxundo c b :
  cache_ok base c → Forall (λ tx, vin tx ≠ []) txs →
  utxo base c = without (concat (prevouts <$> txs)) m →
  found m (concat (prevouts <$> txs)) (concat vtxundo) →
  Forall2 (λ tx ks, length (prevouts tx) = length ks) txs vtxundo →
  Forall (λ k, coin_nHeight k ≠ 0) (concat vtxundo) →
  ∃ c', restore_all base txs vtxundo b c = Ok (Some b, c') ∧ cache_ok base c' ∧ utxo base c' = m.
Proof.
  intros Hc Hv Hu Hf HF. revert c Hc Hv Hu Hf.
  induction HF as [|tx ks txs vtxundo Hl HF IH]; intros c Hc Hv Hu Hf Hh; cbn [restore_all].
  { exists c. split_and!; [done..|]. cbn in Hu. by rewrite without_nil in Hu. }
  apply Forall_cons in Hv as [Htx Hv]. cbn in Hu, Hf, Hh. apply Forall_app in Hh as [Hk Hh].
  destruct Hf as [Hnd Hcoins].
  apply Forall2_app_inv in Hcoins as [Hcoins Hrest]; [|done].
  rewrite decide_False.
  2: { unfold prevouts, spending_inputs in Hl. rewrite length_fmap, length_drop in Hl.
       destruct (vin tx); [done|]. destruct (IsCoinBase tx); cbn in *; lia. }
  destruct (restore_inputs_utxo base (spending_inputs tx) ks (concat (prevouts <$> txs)) c b)
    as (c1 & -> & Hc1 & Hu1); [done..|by apply Forall2_fmap_l in Hcoins|done|].
  cbn. apply NoDup_app in Hnd as (_ & _ & Hnd). by apply IH.
Qed.
End undo.

(** Created outputs are spent again and found as they were created. *)
Lemma revert_outputs_utxo base tx txid height outs i b c m :
  cache_ok base c →
  new_outputs (outputs_from (GetType tx) txid height i outs) m →
  utxo base c = list_to_map (outputs_from (GetType tx) txid height i outs) ∪ m →
  ∃ c', revert_outputs base tx txid height i outs b c = (b, c') ∧ cache_ok base c' ∧ utxo base c' = m.
Proof.
  revert i b c. induction outs as [|o outs IH]; intros i b c Hc Hnew Hu; cbn [revert_outputs].
  { exists c. split_and!; [done..|]. cbn in Hu. by rewrite (left_id_L ∅ (∪)) in Hu. }
  cbn in Hnew, Hu. destruct (IsUnspendable (scriptPubKey o)); [by apply IH|].
  set (op := {| outpoint_hash := txid; outpoint_n := uint32 i |}) in *.
  set (k := Coin_new o height (GetType tx)) in *.
  destruct Hnew as [[Hop Hnd]%NoDup_cons [Hfresh HF]%Forall_cons]. cbn in Hu.
  rewrite <- insert_union_l in Hu.
  pose proof (SpendCoin_utxo base op c k Hc) as Hsp.
  destruct (SpendCoin base op c) as [r c1]. rewrite Hu, lookup_insert_eq in Hsp.
  destruct (Hsp eq_refl) as (-> & Hc1 & Hu1). cbn.
  rewrite !bool_decide_eq_true_2, andb_true_r by done.
  apply IH; [done|by split|]. rewrite Hu1. apply delete_insert_id.
  apply lookup_union_None. split; [by apply not_elem_of_list_to_map_1|done].
Qed.

Lemma revert_all_utxo base height txs b c m :
  cache_ok base c → new_outputs (all_created height txs) m →
  utxo base c = list_to_map (all_created height txs) ∪ m →
  ∃ c', revert_all base height txs b c = (b, c') ∧ cache_ok base c' ∧ utxo base c' = m.
Proof.
  revert b c. induction txs as [|tx txs IH]; intros b c Hc Hnew Hu; cbn [revert_all].
  { exists c. split_and!; [done..|]. cbn in Hu. by rewrite (left_id_L ∅ (∪)) in Hu. }
  unfold all_created in Hnew, Hu. cbn [fmap list_fmap concat] in Hnew, Hu.
  rewrite list_to_map_app, <- (assoc_L (∪)) in Hu. apply new_outputs_app_r in Hnew as [Hnew Hrest].
  destruct (revert_outputs_utxo base tx (GetHash tx) height (vout tx) 0 b c _ Hc Hnew Hu)
    as (c1 & -> & Hc1 & Hu1). by apply IH.
Qed.

Lemma created_storable height txs :
  Forall (λ tx, Forall (λ o, 0 ≤ nValue o) (vout tx)) txs →
  Forall (λ ok, storable ok.2) (all_created height txs).
Proof.
  intros HF. apply Forall_concat, Forall_fmap. apply (Forall_impl _ _ _ HF). intros tx Htx. cbn.
  unfold created. generalize 0 at 1 as i. intros i. revert i.
  induction Htx as [|o outs Ho Htx IH]; intros i; cbn; [constructor|].
  destruct (IsUnspendable (scriptPubKey o)) eqn:Hun; [done|]. constructor; [|done]. split; [|done].
  unfold IsSpent, CTxOut_IsNull. apply bool_decide_eq_false_2. cbn. lia.
Qed.

Lemma CheckTransaction_vin tx u : CheckTransaction tx = Ok (Accept u) → vin tx ≠ [].
Proof. unfold CheckTransaction. intros Hacc. accepted. by apply bool_decide_eq_true in Hacc0. Qed.

Section disconnect.
Context `{!Crypto, !Signatures, !SignatureForms, !OpHashes}.

(** C7: Disconnecting a block undoes connecting it.  On any view that stands
    for the set of unspent outputs the block left, with the undo data the
    block gave, [DisconnectBlock] reports a clean result and leaves a view
    that stands for the set before the block, its hash and best block
    included, provided no coin the block spent is from the genesis block. *)
Theorem disconnect_undoes_connect base heap pindex height lockFlags flags fScripts reward block hash
    genesis c vtxundo c' base' c1 hashPrev :
  cache_ok base c → height ≠ 0 → Forall checked_transaction (vtx block) →
  new_outputs (all_created height (vtx block)) (utxo base c) →
  map_Forall (λ _ k, IsUnspendable (scriptPubKey (out k)) = false) (utxo base c) →
  ConnectBlock_coins base heap pindex height lockFlags flags fScripts reward block hash genesis c =
    Ok (Accept (vtxundo, c')) →
  Forall (λ k, coin_nHeight k ≠ 0) (concat vtxundo) →
  cache_ok base' c1 → utxo base' c1 = utxo base c' →
  ∃ c2, DisconnectBlock base' block height hashPrev (Some vtxundo) c1 = Ok (DISCONNECT_OK, c2) ∧
    utxo base' c2 = utxo base c ∧ snapshotHash c2 = set_hash (utxo base c) ∧ hashBlock c2 = hashPrev.
Proof.
  intros Hc Hh Hchk Hnew Hstore Hacc Hk Hc1 Hu1.
  destruct (ConnectBlock_coins_utxo _ _ _ _ _ _ _ _ _ _ _ _ _ _ Hc Hh Hchk Hnew Hacc)
    as (_ & Hu' & Hfound & HF & _). rewrite Hu' in Hu1.
  destruct (checked_transactions _ Hchk) as [_ Hpos].
  set (m := list_to_map (all_created height (vtx block)) ∪ utxo base c) in *.
  assert (map_Forall (λ _, storable) m) as Hm.
  { apply map_Forall_union_2; intros o k Hok.
    - apply elem_of_list_to_map_2 in Hok.
      exact (proj1 (Forall_forall _ _) (created_storable height _ Hpos) _ Hok).
    - split; [by apply (utxo_unspent _ _ Hc o)|by apply (Hstore o)]. }
  unfold DisconnectBlock. rewrite decide_False by (apply Forall2_length in HF; lia).
  destruct (restore_all_utxo m Hm base' (vtx block) vtxundo c1 true) as (c3 & -> & Hc3 & Hu3); try done.
  { apply (Forall_impl _ _ _ Hchk). intros tx Htx. by eapply CheckTransaction_vin. }
  cbn. destruct (revert_all_utxo base' height (vtx block) true c3 (utxo base c) Hc3 Hnew Hu3)
    as (c4 & -> & [_ _ Hh4] & Hu4).
  eexists. split; [done|]. split; [done|]. split; [|done]. cbn. by rewrite Hh4, Hu4.
Qed.
End disconnect.
End coins.

(** Restoring a coin of the genesis block fails when no other output of its
    transaction is left: height zero counts as missing metadata. *)
Theorem genesis_coin_not_restored `{!SnapshotHashing, !SnapshotHashingLaws, !Hashing} base c k o :
  cache_ok base c → coin_nHeight k = 0 →
  (∀ n, utxo base c !! {| outpoint_hash := outpoint_hash o; outpoint_n := n |} = None) →
  ∃ c', ApplyTxInUndo base k o c = Ok (DISCONNECT_FAILED, c') ∧ utxo base c' = utxo base c.
Proof.
  intros Hc Hk Hnone. unfold ApplyTxInUndo. pose proof (HaveCoin_utxo base o c Hc) as Hh.
  destruct (HaveCoin base o c) as [have c1]. destruct Hh as (_ & Hc1 & Hu1 & _). rewrite decide_True by done.
  enough (∀ rounds n c1, cache_ok base c1 → utxo base c1 = utxo base c → ∃ k' c2,
    access_by_txid base rounds (outpoint_hash o) n c1 = (k', c2) ∧ IsSpent k' = true ∧
    utxo base c2 = utxo base c) as Hloop.
  { unfold AccessByTxid. destruct (Hloop (Z.to_nat MAX_OUTPUTS_PER_BLOCK) 0 c1 Hc1 Hu1)
      as (k' & c2 & -> & -> & Hu2). by exists c2. }
  clear c1 Hc1 Hu1. induction rounds as [|rounds IH]; intros n c1 Hc1 Hu1; cbn [access_by_txid].
  { by exists Coin_empty, c1. }
  destruct (AccessCoin base _ c1) as [k' c2] eqn:Ha.
  destruct (AccessCoin_utxo _ _ _ _ _ Hc1 Ha) as ([Hc2 Hu2] & Hsome & _).
  destruct (IsSpent k') eqn:Hsp; cbn [negb]; [apply IH; [done|congruence]|].
  rewrite Hu1, Hnone in Hsome. by discriminate Hsome.
Qed.

(** ** Examples

    A block at height 7 on two coins: the coinbase stakes one of them and
    claims a reward of 10 and the fee of 3 that the other transaction pays. *)

#[local] Existing Instances demo_snapshot_hashing demo_snapshot_hashing_laws toy_hashing toy_crypto.
#[local] Existing Instances toy_signatures toy_forms toy_op_hashes.

Definition paying (v : Z) : CTxOut := {| nValue := v; scriptPubKey := [OP_1] |}.

Definition demo_coinbase : CTransaction := SetType COINBASE
  {| vin := [CTxIn_new COutPoint_null [1; 7] SEQUENCE_FINAL; CTxIn_new (demo_outpoint 1) [] SEQUENCE_FINAL];
     vout := [paying 13; paying 100]; nVersion := 2; nLockTime := 0 |}.

Definition demo_payment : CTransaction :=
  {| vin := [CTxIn_new (demo_outpoint 2) [] SEQUENCE_FINAL]; vout := [paying 47]; nVersion := 2; nLockTime := 0 |}.

Definition demo_block : CBlock :=
  {| GetBlockHeader := {| block_nVersion := 1; hashPrevBlock := 6; hashMerkleRoot := 0;
       hash_witness_merkle_root := 0; hash_finalizer_commits_merkle_root := 0; block_nTime := 0; nBits := 0 |};
     vtx := [demo_coinbase; demo_payment]; signature := [] |}.

Definition demo_coins : gmap COutPoint Coin :=
  {[ demo_outpoint 1 := demo_coin 100; demo_outpoint 2 := demo_coin 50 ]}.

Definition demo_view : CCoinsViewCache := CCoinsViewCache_new 3150.

Definition demo_index (hash height : Z) (prev : option Z) : CBlockIndex :=
  set_position hash prev height
    (CBlockIndex_new {| block_nVersion := 1; hashPrevBlock := 0; hashMerkleRoot := 0; hash_witness_merkle_root := 0;
       hash_finalizer_commits_merkle_root := 0; block_nTime := 1000; nBits := 0x207fffff |}).

Definition demo_indexes : BlockMap := {[ 6 := demo_index 6 6 None; 7 := demo_index 7 7 (Some 6) ]}.

Definition demo_connect : check (list (list Coin) * CCoinsViewCache) :=
  ConnectBlock_coins demo_coins demo_indexes 7 7 0 SCRIPT_VERIFY_P2SH true (λ _, 10) demo_block 7 false demo_view.

Definition accepted_or {A} (d : A) (m : check A) : A := match m with Ok (Accept a) => a | _ => d end.

Definition demo_connected : list (list Coin) * CCoinsViewCache := accepted_or ([], demo_view) demo_connect.

Lemma demo_connect_accepted : demo_connect = Ok (Accept (demo_connected.1, demo_connected.2)).
Proof. vm_compute. reflexivity. Qed.

Lemma demo_view_ok : cache_ok demo_coins demo_view.
Proof.
  split; [|by apply map_Forall_empty|by vm_compute]. apply (bool_decide_unpack _). by vm_compute.
Qed.

Lemma demo_checked : Forall checked_transaction (vtx demo_block).
Proof. apply Forall_cons_2; [|apply Forall_cons_2; [|apply Forall_nil_2]]; vm_compute; reflexivity. Qed.

Lemma demo_new_outputs : new_outputs (all_created 7 (vtx demo_block)) (utxo demo_coins demo_view).
Proof. split; apply (bool_decide_unpack _); vm_compute; exact I. Qed.

Lemma disconnect_undoes_connect_witness :
  ∃ c2, DisconnectBlock demo_coins demo_block 7 6 (Some demo_connected.1) demo_connected.2 =
    Ok (DISCONNECT_OK, c2) ∧ utxo demo_coins c2 = utxo demo_coins demo_view.
Proof.
  destruct (ConnectBlock_coins_utxo demo_coins demo_indexes 7 7 0 SCRIPT_VERIFY_P2SH true (λ _, 10) demo_block 7
    false demo_view demo_connected.1 demo_connected.2 demo_view_ok ltac:(discriminate) demo_checked
    demo_new_outputs demo_connect_accepted) as (Hok & _).
  destruct (disconnect_undoes_connect demo_coins demo_indexes 7 7 0 SCRIPT_VERIFY_P2SH true (λ _, 10)
    demo_block 7 false demo_view demo_connected.1 demo_connected.2 demo_coins demo_connected.2 6 demo_view_ok
    ltac:(discriminate) demo_checked demo_new_outputs) as (c2 & Hd & Hu & _);
    [|exact demo_connect_accepted| |exact Hok|reflexivity|].
  - apply (bool_decide_unpack _). vm_compute. exact I.
  - apply (bool_decide_unpack _). vm_compute. exact I.
  - exists c2. split; [exact Hd|exact Hu].
Defined.

Lemma genesis_coin_not_restored_witness :
  ∃ c', ApplyTxInUndo demo_coins {| out := paying 5; tx_type := COINBASE; coin_nHeight := 0 |}
          {| outpoint_hash := 78; outpoint_n := 0 |} demo_view = Ok (DISCONNECT_FAILED, c') ∧
    utxo demo_coins c' = utxo demo_coins demo_view.
Proof.
  apply (genesis_coin_not_restored demo_coins demo_view); [exact demo_view_ok|reflexivity|].
  intros n. rewrite lookup_utxo. cbn [cacheCoins demo_view CCoinsViewCache_new]. rewrite lookup_empty.
  unfold demo_coins. rewrite lookup_insert_ne by discriminate. by apply lookup_singleton_ne.
Defined.
