(* ===== verification/BlockValidation.v ===== *)
(** * Checks of blocks: src/src/staking/block_validator.cpp, validation_error.cpp,
    block_validation_info.h, legacy_validation_interface.cpp,
    src/src/consensus/ltor.cpp

    The block validator checks headers and blocks on their own and against
    the previous block, and remembers in a [BlockValidationInfo] what was
    checked.  The node runs with the older checks of
    [LegacyValidationImpl], which use the validator for headers only.  An
    error of the validator is translated to a rejection; debug messages, the
    rejection codes and the corruption flag are left out. *)
From stdpp Require Import strings.
From S2P Require Import Prelude Serialize Ufp64 ArithUint256 Admin Params FinalizationData FinalizationOps.
From S2P Require Import StateFormat Script Standard CommitScripts Transaction Block Coins Checks Chain.
From S2P Require Import Interpreter Sighash ScriptVerification MerkleBlock TxVerify Behavior Staking Connect.

(** ** Results *)

(** The level and the reason of the rejection. *)
Definition GetValidationErrorFor (error : BlockValidationError) : Z * string :=
  match error with
  | BLOCK_SIGNATURE_VERIFICATION_FAILED => (100, "bad-blk-signature")
  | BLOCKTIME_TOO_EARLY => (100, "time-too-old")
  | BLOCKTIME_TOO_FAR_INTO_FUTURE => (100, "time-too-new")
  | COINBASE_TRANSACTION_AT_POSITION_OTHER_THAN_FIRST => (100, "bad-cb-multiple")
  | COINBASE_TRANSACTION_WITHOUT_OUTPUT => (100, "bad-cb-no-outputs")
  | DUPLICATE_STAKE => (100, "bad-stake-duplicate")
  | DUPLICATE_TRANSACTION => (100, "bad-txns-duplicate")
  | MERKLE_ROOT_DUPLICATE_TRANSACTIONS => (100, "bad-txns-duplicate")
  | MERKLE_ROOT_MISMATCH => (100, "bad-txnmrklroot")
  | WITNESS_MERKLE_ROOT_DUPLICATE_TRANSACTIONS => (100, "bad-txns-witness-duplicate")
  | WITNESS_MERKLE_ROOT_MISMATCH => (100, "bad-witness-merkle-match")
  | FINALIZER_COMMITS_MERKLE_ROOT_MISMATCH => (100, "bad-finalizercommits-merkleroot")
  | FIRST_TRANSACTION_NOT_A_COINBASE_TRANSACTION => (100, "bad-cb-missing")
  | INVALID_BLOCK_HEIGHT => (100, "bad-cb-height")
  | INVALID_BLOCK_SIZE => (100, "bad-blk-length")
  | INVALID_BLOCK_TIME => (100, "bad-blk-time")
  | INVALID_BLOCK_PUBLIC_KEY => (100, "bad-blk-public-key")
  | INVALID_BLOCK_WEIGHT => (100, "bad-blk-weight")
  | INVALID_BLOCK_SIGOPS_COUNT => (100, "bad-blk-sigops")
  | INVALID_FINALIZER_COMMIT_BAD_SCRIPT => (100, "bad-txns-bad-finalizer-commit-script")
  | INVALID_TRANSACTION_DUPLICATE_INPUTS => (100, "bad-txns-inputs-duplicate")
  | INVALID_TRANSACTION_NEGATIVE_OUTPUT => (100, "bad-txns-vout-negative")
  | INVALID_TRANSACTION_NO_INPUTS => (100, "bad-txns-vin-empty")
  | INVALID_TRANSACTION_NO_OUTPUTS => (100, "bad-txns-vout-empty")
  | INVALID_TRANSACTION_NULL_INPUT => (10, "bad-txns-prevout-null")
  | INVALID_TRANSACTION_ORDERING => (100, "bad-tx-ordering")
  | INVALID_TRANSACTION_OUTPUT_PAYS_TOO_MUCH => (100, "bad-txns-vout-toolarge")
  | INVALID_TRANSACTION_PAYS_TOO_MUCH => (100, "bad-txns-txouttotal-toolarge")
  | INVALID_TRANSACTION_TOO_BIG => (100, "bad-txns-oversize")
  | INVALID_META_INPUT_PREVOUT => (100, "bad-cb-meta-input-prevout")
  | MISMATCHING_HEIGHT => (100, "bad-cb-height")
  | NO_BLOCK_HEIGHT => (100, "bad-cb-height-missing")
  | NO_COINBASE_TRANSACTION => (100, "bad-cb-missing")
  | NO_META_INPUT => (100, "bad-cb-meta-input-missing")
  | NO_SNAPSHOT_HASH => (100, "bad-cb-snapshot-hash-missing")
  | NO_STAKING_INPUT => (100, "bad-stake-missing")
  | NON_FINAL_TRANSACTION => (100, "bad-txns-nonfinal")
  | PREVIOUS_BLOCK_DOESNT_MATCH => (100, "bad-blk-prev-block-mismatch")
  | PREVIOUS_BLOCK_NOT_PART_OF_ACTIVE_CHAIN => (10, "prev-blk-not-found")
  | REMOTE_STAKING_INPUT_BIGGER_THAN_OUTPUT => (100, "bad-cb-rs-output")
  | STAKE_IMMATURE => (100, "bad-stake-immature")
  | STAKE_NOT_ELIGIBLE => (100, "bad-stake-not-eligible")
  | STAKE_NOT_FOUND => (100, "bad-stake-not-found")
  | TRANSACTION_INPUT_NOT_FOUND => (100, "bad-txns-inputs-missingorspent")
  end.

Definition CheckResult (result : BlockValidationResult) : check unit :=
  match result with
  | None => accept tt
  | Some error => let '(level, reason) := GetValidationErrorFor error in reject level reason
  end.

(** A check of the validator with what it finds out, or its error. *)
Abbreviation validation A := (outcome (A + BlockValidationError)).

Definition validation_bind {A B} (m : validation A) (k : A → validation B) : validation B :=
  v ← m; match v with inl a => k a | inr e => Ok (inr e) end.

Notation "x ←+ m ; k" := (validation_bind m (λ x, k))
  (at level 20, m at level 100, k at level 200, right associativity).

Definition succeed {A} (a : A) : validation A := Ok (inl a).
Definition invalid {A} (e : BlockValidationError) : validation A := Ok (inr e).
Definition demand (b : bool) (e : BlockValidationError) : validation unit :=
  if b then succeed tt else invalid e.
Definition computed {A} (m : outcome A) : validation A := a ← m; succeed a.

Definition as_result (m : validation unit) : outcome BlockValidationResult :=
  v ← m; Ok (match v with inl _ => None | inr e => Some e end).

(** ** What was checked already *)

Inductive Trit := Trit_True | Trit_False | Trit_Unknown.

Definition IsTrue (t : Trit) : bool := match t with Trit_True => true | _ => false end.

Definition Trit_of (b : bool) : Trit := if b then Trit_True else Trit_False.

Record BlockValidationInfo := {
  m_check_CheckBlockHeader : Trit;
  m_check_ContextualCheckBlockHeader : Trit;
  m_check_CheckBlock : Trit;
  m_check_ContextualCheckBlock : Trit;
  m_check_CheckStake : Trit;
  m_height : Z;
  m_snapshot_hash : Z;
}.

Definition BlockValidationInfo_new : BlockValidationInfo :=
  {| m_check_CheckBlockHeader := Trit_Unknown; m_check_ContextualCheckBlockHeader := Trit_Unknown;
     m_check_CheckBlock := Trit_Unknown; m_check_ContextualCheckBlock := Trit_Unknown;
     m_check_CheckStake := Trit_Unknown; m_height := 0; m_snapshot_hash := 0 |}.

Definition MarkCheckBlockHeader (t : Trit) (i : BlockValidationInfo) : BlockValidationInfo :=
  {| m_check_CheckBlockHeader := t; m_check_ContextualCheckBlockHeader := m_check_ContextualCheckBlockHeader i;
     m_check_CheckBlock := m_check_CheckBlock i; m_check_ContextualCheckBlock := m_check_ContextualCheckBlock i;
     m_check_CheckStake := m_check_CheckStake i; m_height := m_height i; m_snapshot_hash := m_snapshot_hash i |}.

Definition MarkContextualCheckBlockHeader (t : Trit) (i : BlockValidationInfo) : BlockValidationInfo :=
  {| m_check_CheckBlockHeader := m_check_CheckBlockHeader i; m_check_ContextualCheckBlockHeader := t;
     m_check_CheckBlock := m_check_CheckBlock i; m_check_ContextualCheckBlock := m_check_ContextualCheckBlock i;
     m_check_CheckStake := m_check_CheckStake i; m_height := m_height i; m_snapshot_hash := m_snapshot_hash i |}.

Definition MarkCheckBlockSuccessfull (height snapshot_hash : Z) (i : BlockValidationInfo) : BlockValidationInfo :=
  {| m_check_CheckBlockHeader := m_check_CheckBlockHeader i;
     m_check_ContextualCheckBlockHeader := m_check_ContextualCheckBlockHeader i;
     m_check_CheckBlock := Trit_True; m_check_ContextualCheckBlock := m_check_ContextualCheckBlock i;
     m_check_CheckStake := m_check_CheckStake i; m_height := height; m_snapshot_hash := snapshot_hash |}.

Definition MarkCheckBlockFailed (i : BlockValidationInfo) : BlockValidationInfo :=
  {| m_check_CheckBlockHeader := m_check_CheckBlockHeader i;
     m_check_ContextualCheckBlockHeader := m_check_ContextualCheckBlockHeader i;
     m_check_CheckBlock := Trit_False; m_check_ContextualCheckBlock := m_check_ContextualCheckBlock i;
     m_check_CheckStake := m_check_CheckStake i; m_height := m_height i; m_snapshot_hash := m_snapshot_hash i |}.

Definition MarkContextualCheckBlock (t : Trit) (i : BlockValidationInfo) : BlockValidationInfo :=
  {| m_check_CheckBlockHeader := m_check_CheckBlockHeader i;
     m_check_ContextualCheckBlockHeader := m_check_ContextualCheckBlockHeader i;
     m_check_CheckBlock := m_check_CheckBlock i; m_check_ContextualCheckBlock := t;
     m_check_CheckStake := m_check_CheckStake i; m_height := m_height i; m_snapshot_hash := m_snapshot_hash i |}.

(** The checks take the validation information, when there is one, and
    return it with their result. *)
Abbreviation tracked := (BlockValidationResult * option BlockValidationInfo)%type.

(** ** The block validator *)

Section validator.
Context `{!Crypto, !Hashing, !Signatures} (p : Parameters).

(** The height and the snapshot hash in the first input. *)
Definition CheckCoinbaseMetaInputInternal (i : CTxIn) : validation (Z * Z) :=
  _ ←+ demand (COutPoint_IsNull (prevout i)) INVALID_META_INPUT_PREVOUT;
  match GetScriptOp (scriptSig i) with
  | (None, _) => invalid NO_BLOCK_HEIGHT
  | (Some (op, buf), it) =>
      _ ←+ demand (negb (bool_decide (buf = []) && bool_decide (op ≠ OP_0))) NO_BLOCK_HEIGHT;
      match CScriptNum_new buf true nDefaultMaxNumSize with
      | None => invalid INVALID_BLOCK_HEIGHT
      | Some height =>
          _ ←+ demand (negb (bool_decide (height < 0) || bool_decide (2 ^ 32 - 1 < height)))
                 INVALID_BLOCK_HEIGHT;
          match GetScriptOp it with
          | (Some (op, buf), _) =>
              _ ←+ demand (negb (bool_decide (op ≠ 0x20) || bool_decide (length buf ≠ 32%nat)))
                     NO_SNAPSHOT_HASH;
              succeed (uint32 (getint height), be_value buf)
          | (None, _) => invalid NO_SNAPSHOT_HASH
          end
      end
  end.

Definition CheckCoinbaseTransactionInternal (block : CBlock) (tx : CTransaction) : validation (Z * Z) :=
  match vin tx with
  | [] => invalid NO_META_INPUT
  | i :: _ =>
      meta ←+ CheckCoinbaseMetaInputInternal i;
      _ ←+ demand (negb (bool_decide (length (vin tx) < 2)%nat) || IsGenesisBlock p block)
             NO_STAKING_INPUT;
      _ ←+ demand (bool_decide (vout tx ≠ [])) COINBASE_TRANSACTION_WITHOUT_OUTPUT;
      succeed meta
  end.

Definition CheckBlockSignatureInternal (block : CBlock) : validation unit :=
  let block_hash := Header_GetHash (GetBlockHeader block) in
  keys ←+ computed (ExtractBlockSigningKeys block);
  _ ←+ demand (bool_decide (keys ≠ [])) INVALID_BLOCK_PUBLIC_KEY;
  demand (existsb (λ k, Verify k block_hash (signature block)) keys) BLOCK_SIGNATURE_VERIFICATION_FAILED.

Definition CheckBlockHeaderInternal (h : CBlockHeader) : validation unit :=
  demand (bool_decide (CalculateProposingTimestamp p (block_nTime h) = block_nTime h)) INVALID_BLOCK_TIME.

(** The sum of the times is a [uint32_t]. *)
Definition ContextualCheckBlockHeaderInternal (heap : BlockMap) (h : CBlockHeader) (adjusted_time : Z)
    (previous_block : Z) : validation unit :=
  prev ←+ computed (deref heap previous_block);
  _ ←+ demand (bool_decide (hashPrevBlock h = phashBlock prev)) PREVIOUS_BLOCK_DOESNT_MATCH;
  median ←+ computed (GetMedianTimePast heap previous_block);
  _ ←+ demand (negb (bool_decide (block_nTime h ≤ median))) BLOCKTIME_TOO_EARLY;
  demand (negb (bool_decide (uint32 (adjusted_time + max_future_block_time_seconds p) < block_nTime h)))
    BLOCKTIME_TOO_FAR_INTO_FUTURE.

(** *** Transactions *)

Fixpoint validate_inputs (coinbase : bool) (ix : nat) (ins : list CTxIn) (outpoints : gset COutPoint) :
  validation unit :=
  match ins with
  | [] => succeed tt
  | txin :: ins =>
      _ ←+ demand (negb (bool_decide (prevout txin ∈ outpoints))) INVALID_TRANSACTION_DUPLICATE_INPUTS;
      _ ←+ demand (negb (COutPoint_IsNull (prevout txin)) || coinbase && bool_decide (ix = 0%nat))
             INVALID_TRANSACTION_NULL_INPUT;
      validate_inputs coinbase (S ix) ins ({[prevout txin]} ∪ outpoints)
  end.

Fixpoint validate_outputs (outs : list CTxOut) (out_total : Z) : validation unit :=
  match outs with
  | [] => succeed tt
  | txout :: outs =>
      _ ←+ demand (negb (bool_decide (nValue txout < 0))) INVALID_TRANSACTION_NEGATIVE_OUTPUT;
      _ ←+ demand (negb (bool_decide (expected_maximum_supply p < nValue txout)))
             INVALID_TRANSACTION_OUTPUT_PAYS_TOO_MUCH;
      let out_total := int64 (out_total + nValue txout) in
      _ ←+ demand (IsInMoneyRange p out_total) INVALID_TRANSACTION_PAYS_TOO_MUCH;
      validate_outputs outs out_total
  end.

Definition Validator_CheckTransaction (tx : CTransaction) : validation unit :=
  _ ←+ demand (bool_decide (vin tx ≠ [])) INVALID_TRANSACTION_NO_INPUTS;
  _ ←+ demand (bool_decide (vout tx ≠ [])) INVALID_TRANSACTION_NO_OUTPUTS;
  let weight := uint64 (transaction_size false tx * witness_scale_factor p) in
  _ ←+ demand (negb (bool_decide (maximum_block_weight p < weight))) INVALID_TRANSACTION_TOO_BIG;
  _ ←+ validate_inputs (IsCoinBase tx) 0 (vin tx) ∅;
  _ ←+ validate_outputs (vout tx) 0;
  match GetType tx with
  | DEPOSIT | VOTE | LOGOUT =>
      o ←+ computed (vec_at (vout tx) 0);
      demand (IsFinalizerCommitScript (scriptPubKey o)) INVALID_FINALIZER_COMMIT_BAD_SCRIPT
  | REGULAR | COINBASE | SLASH | WITHDRAW | ADMIN => succeed tt
  end.

(** *** Blocks *)

Definition CheckBlockSize (block : CBlock) : bool :=
  let lowest_possible_size :=
    uint64 (Z.of_nat (length (vtx block)) * CalculateAbsoluteTransactionSizeMinimum) in
  bool_decide (vtx block ≠ []) &&
  negb (bool_decide (maximum_block_weight p < uint64 (lowest_possible_size * witness_scale_factor p))) &&
  bool_decide (uint64 (block_size false block * witness_scale_factor p) ≤ maximum_block_weight p).

(** The sum is an [unsigned int]. *)
Fixpoint legacy_sigops (txs : list CTransaction) (num_sig_ops : Z) : outcome Z :=
  match txs with
  | [] => Ok num_sig_ops
  | tx :: txs => n ← GetLegacySigOpCount tx; legacy_sigops txs (uint32 (num_sig_ops + n))
  end.

Definition CheckSigOpCount (block : CBlock) : outcome bool :=
  num_sig_ops ← legacy_sigops (vtx block) 0;
  Ok (bool_decide (uint32 (num_sig_ops * witness_scale_factor p) ≤ maximum_sigops_count p)).

(** The transactions behind the coinbase: none is another coinbase, and
    they ascend. *)
Fixpoint validate_order (prev_tx : CTransaction) (txs : list CTransaction) : validation unit :=
  match txs with
  | [] => succeed tt
  | tx :: txs =>
      _ ←+ demand (bool_decide (GetType tx ≠ COINBASE)) COINBASE_TRANSACTION_AT_POSITION_OTHER_THAN_FIRST;
      let ordering := CompareAsNumber (GetHash tx) (GetHash prev_tx) in
      _ ←+ demand (negb (bool_decide (ordering < 0) && negb (IsCoinBase prev_tx))) INVALID_TRANSACTION_ORDERING;
      _ ←+ demand (bool_decide (ordering ≠ 0)) DUPLICATE_TRANSACTION;
      validate_order tx txs
  end.

Fixpoint validate_transactions (txs : list CTransaction) : validation unit :=
  match txs with
  | [] => succeed tt
  | tx :: txs => _ ←+ Validator_CheckTransaction tx; validate_transactions txs
  end.

Definition CheckBlockInternal (block : CBlock) : validation (Z * Z) :=
  let h := GetBlockHeader block in
  _ ←+ demand (CheckBlockSize block) INVALID_BLOCK_SIZE;
  coinbase ←+ computed (vec_at (vtx block) 0);
  meta ←+ (if bool_decide (GetType coinbase = COINBASE) then CheckCoinbaseTransactionInternal block coinbase
           else invalid FIRST_TRANSACTION_NOT_A_COINBASE_TRANSACTION);
  _ ←+ validate_order coinbase (drop 1 (vtx block));
  sigops_ok ←+ computed (CheckSigOpCount block);
  _ ←+ demand sigops_ok INVALID_BLOCK_SIGOPS_COUNT;
  let '(expected_merkle_root, duplicate_transactions) := BlockMerkleRoot block in
  _ ←+ demand (bool_decide (hashMerkleRoot h = expected_merkle_root)) MERKLE_ROOT_MISMATCH;
  _ ←+ demand (negb duplicate_transactions) MERKLE_ROOT_DUPLICATE_TRANSACTIONS;
  let '(expected_witness_merkle_root, duplicate_transactions) := BlockWitnessMerkleRoot block in
  _ ←+ demand (bool_decide (hash_witness_merkle_root h = expected_witness_merkle_root))
         WITNESS_MERKLE_ROOT_MISMATCH;
  _ ←+ demand (negb duplicate_transactions) WITNESS_MERKLE_ROOT_DUPLICATE_TRANSACTIONS;
  _ ←+ demand (bool_decide (hash_finalizer_commits_merkle_root h = (BlockFinalizerCommitsMerkleRoot block).1))
         FINALIZER_COMMITS_MERKLE_ROOT_MISMATCH;
  _ ←+ validate_transactions (vtx block);
  _ ←+ (if IsGenesisBlock p block then succeed tt else CheckBlockSignatureInternal block);
  succeed meta.

(** The height is an [unsigned int]; it is converted to [int] where
    [IsFinalTx] takes it. *)
Definition ContextualCheckBlockInternal (heap : BlockMap) (block : CBlock) (prev_block : Z)
    (validation_info : BlockValidationInfo) : validation unit :=
  prev ←+ computed (deref heap prev_block);
  _ ←+ demand (bool_decide (m_height validation_info = uint32 (uint32 (nHeight prev) + 1))) MISMATCHING_HEIGHT;
  lock_time_cutoff ←+ computed (GetMedianTimePast heap prev_block);
  _ ←+ demand (forallb (λ tx, IsFinalTx tx (int32 (m_height validation_info)) lock_time_cutoff) (vtx block))
         NON_FINAL_TRANSACTION;
  demand (negb (bool_decide (maximum_block_weight p < Behavior_GetBlockWeight p block))) INVALID_BLOCK_WEIGHT.

(** *** With what was checked before *)

Definition known (status : BlockValidationInfo → Trit) (info : option BlockValidationInfo) : bool :=
  match info with Some i => IsTrue (status i) | None => false end.

(** The next check, unless there is an error. *)
Definition then_check (m : outcome tracked) (k : option BlockValidationInfo → outcome tracked) : outcome tracked :=
  checked ← m;
  match checked with
  | (Some error, info) => Ok (Some error, info)
  | (None, info) => k info
  end.

Definition Validator_CheckBlockHeader (h : CBlockHeader) (info : option BlockValidationInfo) :
  outcome tracked :=
  if known m_check_CheckBlockHeader info then Ok (None, info)
  else
    result ← as_result (CheckBlockHeaderInternal h);
    Ok (result, MarkCheckBlockHeader (Trit_of (bool_decide (result = None))) <$> info).

Definition Validator_ContextualCheckBlockHeader (heap : BlockMap) (h : CBlockHeader) (prev_block adjusted_time : Z)
    (info : option BlockValidationInfo) : outcome tracked :=
  if known m_check_ContextualCheckBlockHeader info then Ok (None, info)
  else
    then_check
      (if known m_check_CheckBlockHeader info then Ok (None, info) else Validator_CheckBlockHeader h info)
      (λ info,
        result ← as_result (ContextualCheckBlockHeaderInternal heap h adjusted_time prev_block);
        Ok (result, MarkContextualCheckBlockHeader (Trit_of (bool_decide (result = None))) <$> info)).

Definition Validator_CheckBlock (block : CBlock) (info : option BlockValidationInfo) : outcome tracked :=
  if known m_check_CheckBlock info then Ok (None, info)
  else
    then_check
      (if known m_check_CheckBlockHeader info then Ok (None, info)
       else Validator_CheckBlockHeader (GetBlockHeader block) info)
      (λ info,
        checked ← CheckBlockInternal block;
        match checked with
        | inl (height, snapshot_hash) => Ok (None, MarkCheckBlockSuccessfull height snapshot_hash <$> info)
        | inr error => Ok (Some error, MarkCheckBlockFailed <$> info)
        end).

(** Here the information is made up when the caller has none. *)
Definition Validator_ContextualCheckBlock (heap : BlockMap) (block : CBlock) (prev_block adjusted_time : Z)
    (block_validation_info : option BlockValidationInfo) : outcome tracked :=
  let info := Some (default BlockValidationInfo_new block_validation_info) in
  if known m_check_ContextualCheckBlock info then Ok (None, info)
  else
    then_check (if known m_check_CheckBlock info then Ok (None, info) else Validator_CheckBlock block info)
      (λ info,
        then_check
          (if known m_check_ContextualCheckBlockHeader info then Ok (None, info)
           else Validator_ContextualCheckBlockHeader heap (GetBlockHeader block) prev_block adjusted_time info)
          (λ info,
            result ← as_result (ContextualCheckBlockInternal heap block prev_block
                                  (default BlockValidationInfo_new info));
            Ok (result, MarkContextualCheckBlock (Trit_of (bool_decide (result = None))) <$> info))).

Definition CheckCoinbaseTransaction (block : CBlock) (coinbase_tx : CTransaction) :
  outcome BlockValidationResult :=
  as_result (_ ←+ CheckCoinbaseTransactionInternal block coinbase_tx; succeed tt).
End validator.

(** ** The checks the node runs with *)

Definition LOCKTIME_MEDIAN_TIME_PAST : Z := Z.shiftl 1 1.

Definition GetBlockWeight (block : CBlock) : Z :=
  block_size false block * (WITNESS_SCALE_FACTOR - 1) + block_size true block.

Section legacy.
Context `{!Crypto, !Hashing, !Signatures}.

(** The transactions are checked, and ascend behind the coinbase. *)
Fixpoint check_transactions (prevTx : option CTransaction) (txs : list CTransaction) : check unit :=
  match txs with
  | [] => accept tt
  | tx :: txs =>
      _ ←! CheckTransaction tx;
      _ ←! match prevTx with
           | Some prev =>
               if decide (CompareAsNumber (GetHash tx) (GetHash prev) ≤ 0) then
                 if decide (GetHash tx = GetHash prev) then reject 100 "bad-txns-duplicate"
                 else reject 100 "bad-tx-ordering"
               else accept tt
           | None => accept tt
           end;
      check_transactions (if bool_decide (prevTx ≠ None) || negb (IsCoinBase tx) then Some tx else prevTx) txs
  end.

(** Whether the block may be marked as checked, [fChecked]. *)
Definition Legacy_CheckBlock (block : CBlock) (fChecked check_merkle_root : bool) : check bool :=
  let h := GetBlockHeader block in
  if fChecked then accept true
  else
    _ ←! (if check_merkle_root then
            let '(hashMerkleRoot2, mutated) := BlockMerkleRoot block in
            _ ←! require (bool_decide (hashMerkleRoot h = hashMerkleRoot2)) 100 "bad-txnmrklroot";
            _ ←! require (negb mutated) 100 "bad-txns-duplicate";
            require (bool_decide (hash_finalizer_commits_merkle_root h =
                                  (BlockFinalizerCommitsMerkleRoot block).1)) 100
              "bad-finalizercommits-merkleroot"
          else accept tt);
    _ ←! require (negb (bool_decide (vtx block = []) ||
             bool_decide (MAX_BLOCK_WEIGHT < Z.of_nat (length (vtx block)) * WITNESS_SCALE_FACTOR) ||
             bool_decide (MAX_BLOCK_WEIGHT < block_size false block * WITNESS_SCALE_FACTOR))) 100
           "bad-blk-length";
    coinbase ←! lift (vec_at (vtx block) 0);
    _ ←! require (IsCoinBase coinbase) 100 "bad-cb-missing";
    _ ←! require (forallb (λ tx, negb (IsCoinBase tx)) (drop 1 (vtx block))) 100 "bad-cb-multiple";
    _ ←! check_transactions None (vtx block);
    nSigOps ←! lift (legacy_sigops (vtx block) 0);
    _ ←! require (negb (bool_decide (MAX_BLOCK_SIGOPS_COST < uint32 (nSigOps * WITNESS_SCALE_FACTOR)))) 100
           "bad-blk-sigops";
    _ ←! (if check_merkle_root then
            require (bool_decide (hash_witness_merkle_root h = (BlockWitnessMerkleRoot block).1)) 100
              "bad-witness-merkle-match"
          else accept tt);
    accept check_merkle_root.

Section context.
Context (garbage : bytes) (heap : BlockMap).

(** [csv_active] is the state of the version bits for the block. *)
Fixpoint check_final (nHeight nLockTimeCutoff : Z) (txs : list CTransaction) : check unit :=
  match txs with
  | [] => accept tt
  | tx :: txs =>
      _ ←! require (IsFinalTx tx nHeight nLockTimeCutoff) 10 "bad-txns-nonfinal";
      _ ←! (if IsFinalizerCommit tx then CheckFinalizerCommit garbage tx else accept tt);
      check_final nHeight nLockTimeCutoff txs
  end.

Definition Legacy_ContextualCheckBlock (csv_active : bool) (block : CBlock) (prev_block : option Z) : check unit :=
  nHeight ←! match prev_block with
             | None => accept 0
             | Some prev => b ←! lift (deref heap prev); accept (nHeight b + 1)
             end;
  let nLockTimeFlags := if csv_active then LOCKTIME_MEDIAN_TIME_PAST else 0 in
  nLockTimeCutoff ←!
    (if decide (Z.land nLockTimeFlags LOCKTIME_MEDIAN_TIME_PAST ≠ 0) then
       match prev_block with
       | None => Raise OutOfBounds
       | Some prev => lift (GetMedianTimePast heap prev)
       end
     else accept (block_nTime (GetBlockHeader block)));
  _ ←! check_final nHeight nLockTimeCutoff (vtx block);
  require (negb (bool_decide (MAX_BLOCK_WEIGHT < GetBlockWeight block))) 100 "bad-blk-weight".

Definition Legacy_ContextualCheckBlockHeader (p : Parameters) (h : CBlockHeader) (prev_block : option Z)
    (adjusted_time : Z) : check unit :=
  match prev_block with
  | None => Raise AssertionFailure
  | Some prev =>
      let info := MarkCheckBlockHeader Trit_True BlockValidationInfo_new in
      tracked ←! lift (Validator_ContextualCheckBlockHeader p heap h prev (uint32 adjusted_time) (Some info));
      CheckResult tracked.1
  end.
End context.

(** ** The order of transactions *)

(** [std::sort] of all but the first; it may leave equal hashes in any
    order. *)
Definition SortTransactions (transactions : list CTransaction) : list CTransaction :=
  if decide (length transactions ≤ 2)%nat then transactions
  else
    take 1 transactions ++
    merge_sort (λ a b, ¬ CompareAsNumber (GetHash b) (GetHash a) < 0) (drop 1 transactions).
End legacy.

(** ** What is shown *)

Section accepted.
Context `{!Crypto, !Hashing, !Signatures}.

Definition checked (tx : CTransaction) : Prop := CheckTransaction tx = Ok (Accept tt).

(** The number the hash of a transaction is compared as. *)
Definition hash_value (tx : CTransaction) : Z := blob_value (GetHash tx).

Definition ascending (txs : list CTransaction) : Prop := StronglySorted Z.lt (hash_value <$> txs).

Lemma CompareAsNumber_le h k : CompareAsNumber h k ≤ 0 ↔ blob_value h ≤ blob_value k.
Proof. rewrite CompareAsNumber_spec. destruct (Z.compare_spec (blob_value h) (blob_value k)); lia. Qed.

Lemma check_transactions_step prevTx tx txs :
  check_transactions prevTx (tx :: txs) = Ok (Accept tt) ↔
  checked tx ∧ (match prevTx with Some prev => hash_value prev < hash_value tx | None => True end) ∧
  check_transactions (if bool_decide (prevTx ≠ None) || negb (IsCoinBase tx) then Some tx else prevTx) txs =
    Ok (Accept tt).
Proof.
  cbn [check_transactions]. unfold checked, hash_value.
  generalize (CheckTransaction tx) as m; intros m. rewrite check_bind_Accept.
  split.
  - intros ([] & -> & Hr). split; [done|]. apply check_bind_Accept in Hr as ([] & Ho & Hr). split; [|done].
    destruct prevTx as [prev|]; [|done]. case_decide as Hle; [by case_decide|].
    rewrite CompareAsNumber_le in Hle. lia.
  - intros (-> & Ho & Hr). exists tt. split; [done|]. apply check_bind_Accept. exists tt. split; [|done].
    destruct prevTx as [prev|]; [|done]. by rewrite decide_False by (rewrite CompareAsNumber_le; lia).
Qed.

Lemma check_transactions_behind prev txs :
  check_transactions (Some prev) txs = Ok (Accept tt) ↔ Forall checked txs ∧ ascending (prev :: txs).
Proof.
  revert prev. induction txs as [|tx txs IH]; intros prev.
  { split; [intros _; split; [done|by repeat constructor]|done]. }
  rewrite check_transactions_step, (bool_decide_eq_true_2 (Some prev ≠ None)) by done. cbn [orb].
  rewrite IH, Forall_cons. unfold ascending. rewrite !fmap_cons. split.
  - intros (Hc & Hlt & HF & HS). split; [done|]. constructor; [done|].
    apply StronglySorted_inv in HS as [_ HS]. constructor; [done|].
    eapply Forall_impl; [exact HS|]. intros v Hv. lia.
  - intros [[Hc HF] HS]. apply StronglySorted_inv in HS as [HS Hlt]. by apply Forall_cons in Hlt as [Hlt _].
Qed.

Lemma check_transactions_block cb txs :
  IsCoinBase cb = true → Forall (λ tx, IsCoinBase tx = false) txs →
  check_transactions None (cb :: txs) = Ok (Accept tt) ↔ Forall checked (cb :: txs) ∧ ascending txs.
Proof.
  intros Hcb Hother. rewrite check_transactions_step, Hcb, Forall_cons.
  rewrite (bool_decide_eq_false_2 (None ≠ None)) by naive_solver. cbn [orb negb].
  destruct txs as [|tx txs].
  { split; [intros (? & _); split; [done|constructor]|by intros [[? _] _]]. }
  apply Forall_cons in Hother as [Htx _]. rewrite check_transactions_step, Htx.
  rewrite orb_true_r. rewrite check_transactions_behind, Forall_cons. naive_solver.
Qed.

(** What the transactions of an accepted block are like. *)
Record acceptable (block : CBlock) : Prop := {
  acc_count : Z.of_nat (length (vtx block)) * WITNESS_SCALE_FACTOR ≤ MAX_BLOCK_WEIGHT;
  acc_size : block_size false block * WITNESS_SCALE_FACTOR ≤ MAX_BLOCK_WEIGHT;
  acc_checked : Forall checked (vtx block);
  acc_order : ∃ cb txs, vtx block = cb :: txs ∧ IsCoinBase cb = true ∧
    Forall (λ tx, IsCoinBase tx = false) txs ∧ ascending txs;
  acc_sigops : ∃ n, legacy_sigops (vtx block) 0 = Ok n ∧
    uint32 (n * WITNESS_SCALE_FACTOR) ≤ MAX_BLOCK_SIGOPS_COST;
}.

(** The header commits to the transactions. *)
Record committed (block : CBlock) : Prop := {
  com_merkle : BlockMerkleRoot block = (hashMerkleRoot (GetBlockHeader block), false);
  com_commits : (BlockFinalizerCommitsMerkleRoot block).1 =
    hash_finalizer_commits_merkle_root (GetBlockHeader block);
  com_witness : (BlockWitnessMerkleRoot block).1 = hash_witness_merkle_root (GetBlockHeader block);
}.

Lemma other_transactions txs :
  forallb (λ tx, negb (IsCoinBase tx)) txs = true ↔ Forall (λ tx, IsCoinBase tx = false) txs.
Proof.
  rewrite forallb_forall, Forall_forall.
  setoid_rewrite negb_true_iff. by setoid_rewrite list_elem_of_In.
Qed.

(** Puts an accepted check together. *)
Ltac accepting :=
  repeat match goal with
  | |- check_bind (lift _) _ = Ok (Accept _) => apply check_bind_Accept; eexists; split; [apply lift_Accept|]
  | |- check_bind _ _ = Ok (Accept _) => apply check_bind_Accept; exists tt; split
  | |- require _ _ _ = Ok (Accept _) => apply require_Accept
  | |- accept _ = Ok (Accept _) => apply accept_Accept
  end.

Lemma CheckBlock_sound block mk b :
  Legacy_CheckBlock block false mk = Ok (Accept b) →
  b = mk ∧ acceptable block ∧ (mk = true → committed block).
Proof.
  unfold Legacy_CheckBlock. intros Hacc.
  destruct (BlockMerkleRoot block) as [root mutated] eqn:Hroot. accepted.
  split; [done|]. repeat match goal with u : unit |- _ => destruct u end. split.
  - apply negb_true_iff, orb_false_iff in Hacc1 as [[Hne Hcount]%orb_false_iff Hsize].
    rewrite negb_true_iff in Hacc7. rewrite bool_decide_eq_false in Hne, Hcount, Hsize, Hacc7.
    destruct (vtx block) as [|cb txs] eqn:Hvtx; [done|]. injection Hacc2 as <-.
    apply other_transactions in Hacc4. cbn [drop] in Hacc4.
    apply check_transactions_block in Hacc5 as [HF HS]; [|done..].
    split; rewrite ?Hvtx; [lia|lia|done|by exists cb, txs|]. eexists. split; [done|lia].
  - intros ->. accepted. rewrite negb_true_iff in *. rewrite bool_decide_eq_true in *. subst mutated.
    split; congruence.
Qed.

(** C11: The checks of a block on its own accept exactly the blocks whose
    first transaction and no other is a coinbase, whose other transactions
    strictly ascend by their hashes read as numbers, all of whose
    transactions pass the checks without a context, that keep to the limits
    on size and signature operations, and, unless Merkle roots are left out,
    whose header commits to the transactions without a repetition in the
    Merkle tree, to their witnesses and to the finalizer commits. *)
Theorem CheckBlock_accepts block check_merkle_root b :
  Legacy_CheckBlock block false check_merkle_root = Ok (Accept b) ↔
  b = check_merkle_root ∧ acceptable block ∧ (check_merkle_root = true → committed block).
Proof.
  split; [apply CheckBlock_sound|]. unfold Legacy_CheckBlock.
  intros (-> & [Hcount Hsize Hchk (cb & txs & Hvtx & Hcb & Hother & HS) (n & Hn & Hops)] & Hcom).
  rewrite Hvtx in *. destruct check_merkle_root.
  1: destruct (Hcom eq_refl) as [-> -> ->].
  all: accepting; rewrite ?bool_decide_eq_true_2 by done; try done.
  all: first [by apply other_transactions | by apply check_transactions_block
             |by rewrite !(bool_decide_eq_false_2 (_ < _)) by lia].
Qed.

(** A hash is a [uint256]. *)
Context (Hash256_range : ∀ bs, is_uint256 (Hash256 bs)).

Definition before (a b : CTransaction) : Prop := ¬ CompareAsNumber (GetHash b) (GetHash a) < 0.

Lemma before_hash_value a b : before a b ↔ hash_value a ≤ hash_value b.
Proof.
  unfold before, hash_value. rewrite CompareAsNumber_spec.
  destruct (Z.compare_spec (blob_value (GetHash b)) (blob_value (GetHash a))); lia.
Qed.

#[local] Instance before_dec : RelDecision before.
Proof. intros a b. unfold before. apply _. Defined.

Lemma before_ascending txs : NoDup (GetHash <$> txs) → StronglySorted before txs → ascending txs.
Proof.
  intros Hnd HS. induction HS as [|a txs HS IH HF]; [constructor|].
  rewrite fmap_cons in Hnd. apply NoDup_cons in Hnd as [Ha Hnd]. unfold ascending. rewrite fmap_cons.
  constructor; [by apply IH|]. apply Forall_fmap, Forall_forall. intros b Hb. change (hash_value a < hash_value b).
  rewrite Forall_forall in HF. pose proof (proj1 (before_hash_value a b) (HF b Hb)) as Hle.
  enough (hash_value a ≠ hash_value b) by lia.
  unfold hash_value. intros Heq.
  apply (blob_value_inj (GetHash a) (GetHash b)) in Heq; [|apply Hash256_range..].
  apply Ha. rewrite Heq. by apply list_elem_of_fmap_2.
Qed.

Lemma SortTransactions_spec cb txs :
  ∃ txs', SortTransactions (cb :: txs) = cb :: txs' ∧ txs' ≡ₚ txs ∧ StronglySorted before txs'.
Proof.
  unfold SortTransactions. case_decide as Hl.
  - exists txs. split_and!; [done..|]. destruct txs as [|a [|b txs]]; [constructor| |cbn in Hl; lia].
    by repeat constructor.
  - eexists. split; [reflexivity|]. cbn [drop].
    change (λ a b, ¬ CompareAsNumber (GetHash b) (GetHash a) < 0) with before. split.
    + apply merge_sort_Permutation.
    + apply StronglySorted_merge_sort.
      * intros a b c. rewrite !before_hash_value. lia.
      * intros a b. rewrite !before_hash_value. lia.
Qed.

(** C29: A proposer that sorts the transactions behind the coinbase gets a
    block that passes the check of the order: when the transactions pass the
    checks without a context, only the first is a coinbase and no two have
    the same hash, [SortTransactions] permutes them, leaves the coinbase in
    its place, and the loop of [CheckBlock] over the result accepts. *)
Theorem sorted_transactions_pass cb txs :
  IsCoinBase cb = true → Forall (λ tx, IsCoinBase tx = false) txs → Forall checked (cb :: txs) →
  NoDup (GetHash <$> txs) →
  SortTransactions (cb :: txs) ≡ₚ cb :: txs ∧ head (SortTransactions (cb :: txs)) = Some cb ∧
  check_transactions None (SortTransactions (cb :: txs)) = Ok (Accept tt).
Proof.
  intros Hcb Hother Hchk Hnd. destruct (SortTransactions_spec cb txs) as (txs' & -> & Hperm & HS).
  split_and!; [by rewrite Hperm|done|]. apply check_transactions_block; [done|by rewrite Hperm|].
  split; [by rewrite Hperm|]. apply before_ascending; [|done]. by rewrite Hperm.
Qed.
End accepted.

(** ** Remembering checks *)

Section remembered.
Context `{!Crypto, !Hashing, !Signatures}.
Context (p : Parameters) (heap : BlockMap) (block : CBlock) (prev_block adjusted_time : Z).

Abbreviation header_check := (CheckBlockHeaderInternal p (GetBlockHeader block)).
Abbreviation header_context_check :=
  (ContextualCheckBlockHeaderInternal p heap (GetBlockHeader block) adjusted_time prev_block).
Abbreviation context_check := (ContextualCheckBlockInternal p heap block prev_block).

(** All checks one after the other. *)
Definition all_checks : validation unit :=
  _ ←+ header_check;
  meta ←+ CheckBlockInternal p block;
  _ ←+ header_context_check;
  context_check (MarkCheckBlockSuccessfull meta.1 meta.2 BlockValidationInfo_new).

(** What is marked as checked passes the check. *)
Record info_ok (i : BlockValidationInfo) : Prop := {
  io_header : IsTrue (m_check_CheckBlockHeader i) = true → header_check = succeed tt;
  io_header_context : IsTrue (m_check_ContextualCheckBlockHeader i) = true →
    header_check = succeed tt ∧ header_context_check = succeed tt;
  io_block : IsTrue (m_check_CheckBlock i) = true →
    header_check = succeed tt ∧ CheckBlockInternal p block = succeed (m_height i, m_snapshot_hash i);
  io_context : IsTrue (m_check_ContextualCheckBlock i) = true → all_checks = succeed tt;
}.

(** The result of [m] is that of the checks [v], and the information stays
    right. *)
Definition tracks {A} (m : outcome tracked) (v : validation A) (post : A → BlockValidationInfo → Prop) : Prop :=
  match v with
  | Raise f => m = Raise f
  | Ok (inr e) => ∃ i, m = Ok (Some e, Some i) ∧ info_ok i
  | Ok (inl a) => ∃ i, m = Ok (None, Some i) ∧ info_ok i ∧ post a i
  end.

Lemma tracks_then {A B} m k (v : validation A) (w : A → validation B) P Q :
  tracks m v P → (∀ a i, v = succeed a → info_ok i → P a i → tracks (k (Some i)) (w a) Q) →
  tracks (then_check m k) (validation_bind v w) Q.
Proof.
  unfold tracks at 1. destruct v as [[a|e]|f].
  - intros (i & -> & Hi & HP) Hk. by apply Hk.
  - intros (i & -> & Hi) _. by exists i.
  - by intros ->.
Qed.

(** A check of its own that is marked with its result. *)
Lemma tracks_mark (v : validation unit) (mark : Trit → BlockValidationInfo → BlockValidationInfo) i
    (P : unit → BlockValidationInfo → Prop) :
  (∀ t, (IsTrue t = true → v = succeed tt) → info_ok (mark t i) ∧ P tt (mark t i)) →
  tracks (result ← as_result v; Ok (result, mark (Trit_of (bool_decide (result = None))) <$> Some i)) v P.
Proof.
  intros Hmark. unfold tracks. destruct v as [[[]|e]|f]; [| |done].
  - eexists. split; [done|]. by apply (Hmark Trit_True).
  - eexists. split; [done|]. by apply (Hmark Trit_False).
Qed.

Lemma context_check_height i j : m_height i = m_height j → context_check i = context_check j.
Proof. unfold ContextualCheckBlockInternal. by intros ->. Qed.

Lemma header_tracks i : info_ok i →
  tracks (Validator_CheckBlockHeader p (GetBlockHeader block) (Some i)) header_check
    (λ _ j, m_height j = m_height i).
Proof.
  intros Hi. unfold Validator_CheckBlockHeader. cbn [known].
  destruct (IsTrue (m_check_CheckBlockHeader i)) eqn:E.
  { rewrite (io_header i Hi E). by exists i. }
  apply tracks_mark. intros t Ht. split; [|done]. destruct Hi. by split.
Qed.

(** The callers look at the mark first as well. *)
Lemma tracks_known {A} (b : bool) (x m : outcome tracked) (v : validation A) P :
  tracks (if b then x else m) v P → tracks (if b then x else if b then x else m) v P.
Proof. by destruct b. Qed.

Lemma header_context_tracks i : info_ok i →
  tracks (Validator_ContextualCheckBlockHeader p heap (GetBlockHeader block) prev_block adjusted_time (Some i))
    (_ ←+ header_check; header_context_check) (λ _ j, m_height j = m_height i).
Proof.
  intros Hi. unfold Validator_ContextualCheckBlockHeader.
  destruct (known m_check_ContextualCheckBlockHeader (Some i)) eqn:E.
  { destruct (io_header_context i Hi E) as [-> ->]. by exists i. }
  eapply tracks_then; [by apply tracks_known, header_tracks|]. intros [] j Hh Hj Hheight.
  apply tracks_mark. intros t Ht. split; [|done].
  destruct Hj. split; cbn; try done. by auto.
Qed.

Lemma block_tracks i : info_ok i →
  tracks (Validator_CheckBlock p block (Some i)) (_ ←+ header_check; CheckBlockInternal p block)
    (λ meta j, m_height j = meta.1).
Proof.
  intros Hi. unfold Validator_CheckBlock. destruct (known m_check_CheckBlock (Some i)) eqn:E.
  { destruct (io_block i Hi E) as [-> ->]. by exists i. }
  eapply tracks_then; [by apply tracks_known, header_tracks|]. intros [] j Hh Hj Hheight. unfold tracks.
  destruct (CheckBlockInternal p block) as [[[height hash]|e]|f] eqn:Hb; cbn; [| |done]; eexists;
    (split; [done|]); [split; [|done]|];
    destruct Hj; split; cbn; try done; by rewrite Hb.
Qed.

Lemma all_checks_regrouped :
  all_checks =
    (meta ←+ (_ ←+ header_check; CheckBlockInternal p block);
     _ ←+ (_ ←+ header_check; header_context_check);
     context_check (MarkCheckBlockSuccessfull meta.1 meta.2 BlockValidationInfo_new)).
Proof. unfold all_checks. by destruct header_check as [[[]|e]|f]. Qed.

(** C21: The record of earlier checks changes nothing: when what it marks
    as checked passes the checks, [ContextualCheckBlock] with it gives the
    result of running the checks of the header, of the block, of the header
    in its context and of the block in its context one after the other, and
    what it marks afterwards passes again.  Without a record all of them are
    run. *)
Theorem remembered_checks_change_nothing info :
  (∀ i, info = Some i → info_ok i) →
  let checked := Validator_ContextualCheckBlock p heap block prev_block adjusted_time info in
  match all_checks with
  | Raise f => checked = Raise f
  | Ok result =>
      ∃ i, checked = Ok (match result with inl _ => None | inr e => Some e end, Some i) ∧ info_ok i
  end.
Proof.
  intros Hinfo checked.
  enough (tracks checked all_checks (λ _ _, True)) as Ht.
  { unfold tracks in Ht. destruct all_checks as [[[]|e]|f]; naive_solver. }
  assert (info_ok (default BlockValidationInfo_new info)) as Hi by (destruct info; [by apply Hinfo|by split]).
  subst checked. unfold Validator_ContextualCheckBlock. revert Hi.
  generalize (default BlockValidationInfo_new info) as i; intros i Hi.
  destruct (known m_check_ContextualCheckBlock (Some i)) eqn:E.
  { rewrite (io_context i Hi E). by exists i. }
  rewrite all_checks_regrouped. eapply tracks_then; [by apply tracks_known, block_tracks|].
  intros meta j Hb Hj Hheight. eapply tracks_then; [by apply tracks_known, header_context_tracks|].
  intros [] k Hc Hk Hheight'. cbn [default].
  set (marked := MarkCheckBlockSuccessfull meta.1 meta.2 BlockValidationInfo_new).
  rewrite (context_check_height marked k) by (cbn; congruence). apply tracks_mark. intros t Ht. split; [|done].
  destruct Hk. split; cbn; try done. intros Htrue. rewrite all_checks_regrouped, Hb, Hc. cbn.
  rewrite (context_check_height _ k) by (cbn; congruence). by apply Ht.
Qed.
End remembered.

(** ** Examples *)

#[local] Existing Instances toy_crypto toy_hashing toy_signatures.

Lemma toy_hashing_range bs : is_uint256 (@Hash256 toy_hashing bs).
Proof.
  cbn. destruct bs as [|b bs _] using rev_ind; [vm_compute; by split|].
  rewrite foldl_snoc. apply Z.mod_pos_bound. lia.
Qed.

(** The height 2 and a snapshot hash, and a staking input with a key. *)
Definition demo_proposal : CTransaction := SetType COINBASE
  {| vin := [CTxIn_new COutPoint_null ([1; 2; 32] ++ replicate 32 9) SEQUENCE_FINAL;
             {| prevout := demo_outpoint 1; scriptSig := []; nSequence := SEQUENCE_FINAL;
                scriptWitness := [[]; 2 :: replicate 32 7] |}];
     vout := [{| nValue := 13; scriptPubKey := [] |}]; nVersion := 2; nLockTime := 0 |}.

Definition demo_transfer (n : Z) : CTransaction :=
  {| vin := [CTxIn_new (demo_outpoint n) [] SEQUENCE_FINAL];
     vout := [{| nValue := n; scriptPubKey := [] |}]; nVersion := 2; nLockTime := 0 |}.

Definition demo_transactions : list CTransaction :=
  SortTransactions (demo_proposal :: (demo_transfer <$> [4; 2; 5; 3])).

Definition demo_sealed : CBlock :=
  let block root witness_root := {|
    GetBlockHeader := {| block_nVersion := 1; hashPrevBlock := 1001; hashMerkleRoot := root;
      hash_witness_merkle_root := witness_root; hash_finalizer_commits_merkle_root := 0;
      block_nTime := 100; nBits := 0x207fffff |};
    vtx := demo_transactions; signature := [] |} in
  let unsigned := block (BlockMerkleRoot (block 0 0)).1 (BlockWitnessMerkleRoot (block 0 0)).1 in
  {| GetBlockHeader := GetBlockHeader unsigned; vtx := vtx unsigned;
     signature := be_bytes 32 (Header_GetHash (GetBlockHeader unsigned)) ++ (2 :: replicate 32 7) |}.

(** The block passes the checks of both validators. *)
Lemma demo_sealed_accepted : Legacy_CheckBlock demo_sealed false true = Ok (Accept true).
Proof. vm_compute. reflexivity. Qed.

Lemma sorted_transactions_pass_witness :
  check_transactions None demo_transactions = Ok (Accept tt) ∧
  demo_transactions ≠ demo_proposal :: (demo_transfer <$> [4; 2; 5; 3]).
Proof.
  split; [|by vm_compute].
  refine (proj2 (proj2 (sorted_transactions_pass toy_hashing_range demo_proposal (demo_transfer <$> [4; 2; 5; 3])
    eq_refl _ _ _))).
  - repeat constructor.
  - repeat (apply Forall_cons_2; [vm_compute; reflexivity|]). apply Forall_nil_2.
  - apply (bool_decide_unpack _). vm_compute. exact I.
Defined.

Lemma remembered_checks_change_nothing_witness :
  ∃ i, Validator_ContextualCheckBlock demo_parameters demo_tree demo_sealed 11 100
         (Some (MarkCheckBlockHeader Trit_True BlockValidationInfo_new)) = Ok (None, Some i).
Proof.
  pose proof (remembered_checks_change_nothing demo_parameters demo_tree demo_sealed 11 100
    (Some (MarkCheckBlockHeader Trit_True BlockValidationInfo_new))) as Hc.
  assert (all_checks demo_parameters demo_tree demo_sealed 11 100 = succeed tt) as Hall
    by (vm_compute; reflexivity).
  rewrite Hall in Hc. destruct Hc as (i & Hi & _); [|by exists i].
  clear Hall. intros i Hi. injection Hi as <-. split; intros Ht; try discriminate Ht. vm_compute. reflexivity.
Defined.
