(* ===== verification/ConnectBlock.v ===== *)
(** * Connecting a block: src/src/validation.cpp, [CChainState::ConnectBlock],
    src/src/snapshot/snapshot_validation.cpp

    The whole of [ConnectBlock]: the checks of the block on its own, of its
    stake, of its finalizer commits and of the snapshot hash, and then its
    coins.  What is read from the view before the coins of the block are
    added is read from the set of unspent outputs the view stands for; that
    reading caches coins is left out there.  Whether the rule on sequence
    locks is active is decided by the version bits and given as an argument;
    disk errors are left out. *)
From stdpp Require Import strings.
From S2P Require Import Prelude Serialize Ufp64 ArithUint256 Admin Params FinalizationData FinalizationOps.
From S2P Require Import StateFormat Script Standard CommitScripts Transaction Block Coins Checks Chain.
From S2P Require Import Repository VoteRecorder Interpreter Sighash ScriptVerification MerkleBlock TxVerify Behavior.
From S2P Require Import Scenario Staking Connect ConnectProofs BlockValidation.

(** The digest of a multiset with some more bytes, by
    [secp256k1_multiset_finalize]. *)
Class SnapshotDigest `{!SnapshotHashing} := { multiset_digest : SnapshotHash → bytes → Z }.

(** What stays the same while a block is connected: the memory pool, the
    coins and the best block below the view, the block indexes by their
    hashes, the active chain and the finalization states. *)
Record surroundings := {
  memory_pool : gmap Z CTransaction;
  coins_below : gmap COutPoint Coin;
  best_below : Z;
  index_map : gmap Z Z;
  active_chain : list (option Z);
  repository : RepositoryImpl;
  hashGenesisBlock : Z;
  hashAssumeValid : Z;
  pindexBestHeader : Z;
  nMinimumChainWork : base_uint;
  nPowTargetSpacing : Z;
  csv_active : bool;
}.

(** The undo data, the view, the block indexes and the votes afterwards. *)
Record connection `{!SnapshotHashing} := {
  cn_undo : list (list Coin);
  cn_view : CCoinsViewCache;
  cn_indexes : BlockMap;
  cn_recorder : VoteRecorder;
}.

Section connect.
Context `{!Crypto, !Hashing, !Signatures, !SignatureForms, !OpHashes, !SnapshotHashing, !SnapshotDigest}.
Context (garbage : bytes) (fp : Params) (p : Parameters) (env : surroundings).

(** [CCoinsViewCache::GetBestBlock]. *)
Definition GetBestBlock (c : CCoinsViewCache) : Z :=
  if decide (hashBlock c = 0) then best_below env else hashBlock c.

(** ** The snapshot hash *)

Definition SnapshotHash_GetHash (h : SnapshotHash) (stake_modifier chain_work : Z) : Z :=
  multiset_digest h (be_bytes 32 stake_modifier ++ be_bytes 32 chain_work).

Definition SnapshotHash_GetHash_index (h : SnapshotHash) (block_index : CBlockIndex) : Z :=
  SnapshotHash_GetHash h (stake_modifier block_index) (ArithToUint256 (nChainWork block_index)).

Definition ReadSnapshotHashFromTx (tx : CTransaction) : outcome (option Z) :=
  if negb (IsCoinBase tx) then Ok None
  else
    _ ← cpp_assert (bool_decide (vin tx ≠ []));
    i ← vec_at (vin tx) 0;
    match GetScriptOp (scriptSig i) with
    | (None, _) => Ok None
    | (Some _, it) =>
        match GetScriptOp it with
        | (Some (_, buf), _) => Ok (if decide (length buf ≠ 32%nat) then None else Some (be_value buf))
        | (None, _) => Ok None
        end
    end.

(** The same reading; the hash is that of the view below and of the previous
    block. *)
Definition ValidateCandidateBlockTx (heap : BlockMap) (tx : CTransaction) (blockIndex : CBlockIndex)
    (view : CCoinsViewCache) : outcome bool :=
  if decide (nHeight blockIndex = 0) then Ok true
  else if negb (IsCoinBase tx) then Ok true
  else
    _ ← cpp_assert (bool_decide (vin tx ≠ []));
    i ← vec_at (vin tx) 0;
    match GetScriptOp (scriptSig i) with
    | (None, _) => Ok false
    | (Some _, it) =>
        match GetScriptOp it with
        | (Some (_, buf), _) =>
            if decide (length buf ≠ 32%nat) then Ok false
            else
              prev ← deref_ptr heap (pprev blockIndex);
              Ok (bool_decide (SnapshotHash_GetHash_index (snapshotHash view) prev = be_value buf))
        | (None, _) => Ok false
        end
    end.

(** ** The stake *)

Definition GetStakingInput (block : CBlock) : outcome CTxIn :=
  _ ← cpp_assert (bool_decide (vtx block ≠ []));
  coinbase ← vec_at (vtx block) 0;
  _ ← cpp_assert (bool_decide (2 ≤ length (vin coinbase))%nat);
  vec_at (vin coinbase) 1.

(** The block indexes with the stake modifier of this one. *)
Definition connect_stake (heap : BlockMap) (pindex : Z) (idx : CBlockIndex) (block : CBlock)
    (skip_eligibility stake_checked : bool) (view : gmap COutPoint Coin) : check BlockMap :=
  if decide (nHeight idx ≤ 0) then accept heap
  else
    coinbase ←! lift (vec_at (vtx block) 0);
    result ←! lift (CheckCoinbaseTransaction p block coinbase);
    _ ←! CheckResult result;
    input ←! lift (GetStakingInput block);
    stake ←! lift (UTXOViewAdapter_GetUTXO heap (active_chain env) view (prevout input));
    heap ←! match stake with
            | None => accept heap
            | Some stake =>
                prev ←! lift (match pprev idx with None => Ok None | Some q => b ← deref heap q; Ok (Some b) end);
                accept (<[pindex := set_stake_modifier (ComputeStakeModifier prev stake) idx]> heap)
            end;
    result ←! lift (CheckStake heap (index_map env) (active_chain env) p
                      (UTXOViewAdapter_GetUTXO heap (active_chain env) view) block skip_eligibility stake_checked);
    _ ←! CheckResult result;
    accept heap.

(** ** Which checks are needed *)

(** Scripts of blocks that are buried deep enough below the best header, on
    the way to a block that is assumed to be valid, are not run. *)
Definition needs_script_checks (heap : BlockMap) (pindex : Z) (idx : CBlockIndex) : outcome bool :=
  if decide (hashAssumeValid env = 0) then Ok true
  else
    match index_map env !! hashAssumeValid env with
    | None => Ok true
    | Some it =>
        a ← GetAncestor heap it (nHeight idx);
        if decide (a ≠ Some pindex) then Ok true
        else
          b ← GetAncestor heap (pindexBestHeader env) (nHeight idx);
          best ← deref heap (pindexBestHeader env);
          if decide (b ≠ Some pindex ∨ CompareTo (nChainWork best) (nMinimumChainWork env) < 0) then Ok true
          else
            t ← GetBlockProofEquivalentTime best idx best (nPowTargetSpacing env);
            Ok (bool_decide (t ≤ 60 * 60 * 24 * 7 * 2))
    end.

(** ** Finalizer commits *)

Definition connect_commits (heap : BlockMap) (idx : CBlockIndex) (block : CBlock) (isGenesisBlock : bool)
    (recorder : VoteRecorder) (view : gmap COutPoint Coin) : check VoteRecorder :=
  let has_finalization_tx := existsb IsFinalizerCommit (vtx block) in
  fin_state ←! lift (match pprev idx with None => Ok None | Some q => Find heap q (repository env) end);
  _ ←! lift (cpp_assert (bool_decide (fin_state ≠ None) || isGenesisBlock || negb has_finalization_tx));
  tip_fin_state ←! lift (GetTipState heap (active_chain env) (repository env));
  _ ←! lift (cpp_assert (bool_decide (tip_fin_state ≠ None) || isGenesisBlock));
  if isGenesisBlock || negb has_finalization_tx then accept recorder
  else
    match fin_state, tip_fin_state with
    | Some fin_state, Some tip_fin_state =>
        ContextualCheckBlockFinalizerCommits garbage (memory_pool env) view fp recorder (vtx block)
          (state_data fin_state) (state_data tip_fin_state)
    | _, _ => Raise OutOfBounds
    end.

(** ** The whole *)

Definition ConnectBlock (heap : BlockMap) (block : CBlock) (pindex : Z) (fChecked stake_checked : bool)
    (fJustCheck skip_eligibility : bool) (recorder : VoteRecorder) (c : CCoinsViewCache) : check connection :=
  let hash := Header_GetHash (GetBlockHeader block) in
  let view := utxo (coins_below env) c in
  idx ←! lift (deref heap pindex);
  _ ←! lift (cpp_assert (bool_decide (phashBlock idx = hash)));
  _ ←! Legacy_CheckBlock block fChecked (negb fJustCheck);
  heap ←! connect_stake heap pindex idx block skip_eligibility stake_checked view;
  hashPrevBlock ←! lift (match pprev idx with None => Ok 0 | Some q => b ← deref heap q; Ok (phashBlock b) end);
  _ ←! lift (cpp_assert (bool_decide (hashPrevBlock = GetBestBlock c)));
  fScriptChecks ←! lift (needs_script_checks heap pindex idx);
  let nLockTimeFlags := if csv_active env then LOCKTIME_VERIFY_SEQUENCE else 0 in
  let flags := GetBlockScriptFlags (csv_active env) in
  let isGenesisBlock := bool_decide (hash = hashGenesisBlock env) in
  recorder ←! connect_commits heap idx block isGenesisBlock recorder view;
  coinbase ←! lift (vec_at (vtx block) 0);
  snapshot_ok ←! lift (ValidateCandidateBlockTx heap coinbase idx c);
  _ ←! require snapshot_ok 100 "bad-cb-snapshot-hash";
  reward ←! lift (if isGenesisBlock then Ok 0 else CalculateBlockReward p (uint32 (nHeight idx)));
  connected ←! connect_coins (coins_below env) heap pindex (nHeight idx) nLockTimeFlags flags fScriptChecks
                 (λ _, reward) block isGenesisBlock c;
  let '(vtxundo, c) := connected in
  if fJustCheck then accept {| cn_undo := vtxundo; cn_view := c; cn_indexes := heap; cn_recorder := recorder |}
  else
    idx ←! lift (deref heap pindex);
    valid ←! lift (IsValid BLOCK_VALID_SCRIPTS idx);
    raised ←! (if valid then accept idx
               else r ←! lift (RaiseValidity BLOCK_VALID_SCRIPTS idx); accept r.2);
    accept {| cn_undo := vtxundo; cn_view := SetBestBlock (phashBlock idx) c;
              cn_indexes := <[pindex := raised]> heap; cn_recorder := recorder |}.
End connect.

(** ** What is shown *)

Lemma cpp_assert_bool_Ok b u : cpp_assert b = Ok u → b = true.
Proof. by destruct b. Qed.

(** The block with another signature. *)
Definition with_signature (sig : bytes) (block : CBlock) : CBlock :=
  {| GetBlockHeader := GetBlockHeader block; vtx := vtx block; signature := sig |}.

Lemma block_size_signature witness sig block :
  length sig = length (signature block) → block_size witness (with_signature sig block) = block_size witness block.
Proof.
  intros Hl. unfold block_size. cbn [with_signature GetBlockHeader vtx signature].
  f_equal. f_equal. unfold byte_vector_format. cbn [enc].
  unfold byte_vector_Serialize. by rewrite !length_app, Hl.
Qed.

Section theorems.
Context `{!Crypto, !Hashing, !Signatures, !SignatureForms, !OpHashes, !SnapshotHashing, !SnapshotHashingLaws,
          !SnapshotDigest}.
Context (garbage : bytes) (fp : Params) (p : Parameters) (env : surroundings).

Abbreviation below := (coins_below env).

(** Of the block indexes only the stake modifier of the block changes. *)
Lemma connect_stake_indexes heap pindex idx block skip stake_checked view heap1 :
  connect_stake p env heap pindex idx block skip stake_checked view = Ok (Accept heap1) →
  heap1 = heap ∨ ∃ m, heap1 = <[pindex := set_stake_modifier m idx]> heap.
Proof.
  unfold connect_stake. case_decide; intros Hacc; accepted; [by left|]. subst.
  match goal with H : match ?s with Some _ => _ | None => _ end = _ |- _ => destruct s; accepted; subst end;
    [right; by eexists|by left].
Qed.

(** The parts of a block that was connected. *)
Lemma ConnectBlock_parts heap block pindex idx fChecked stake_checked skip recorder c res :
  heap !! pindex = Some idx →
  ConnectBlock garbage fp p env heap block pindex fChecked stake_checked false skip recorder c = Ok (Accept res) →
  ∃ b heap1 prev_hash scripts cb reward,
    let hash := Header_GetHash (GetBlockHeader block) in
    let genesis := bool_decide (hash = hashGenesisBlock env) in
    phashBlock idx = hash ∧ Legacy_CheckBlock block fChecked true = Ok (Accept b) ∧
    (heap1 = heap ∨ ∃ m, heap1 = <[pindex := set_stake_modifier m idx]> heap) ∧
    match pprev idx with None => Ok 0 | Some q => b ← deref heap1 q; Ok (phashBlock b) end = Ok prev_hash ∧
    prev_hash = GetBestBlock env c ∧ vec_at (vtx block) 0 = Ok cb ∧
    ValidateCandidateBlockTx heap1 cb idx c = Ok true ∧
    (if genesis then Ok 0 else CalculateBlockReward p (uint32 (nHeight idx))) = Ok reward ∧
    ConnectBlock_coins below heap1 pindex (nHeight idx)
      (if csv_active env then LOCKTIME_VERIFY_SEQUENCE else 0) (GetBlockScriptFlags (csv_active env)) scripts
      (λ _, reward) block hash genesis c = Ok (Accept (cn_undo res, cn_view res)).
Proof.
  unfold ConnectBlock. intros Hidx Hacc. accepted. unfold deref in Hacc0. rewrite Hidx in Hacc0.
  injection Hacc0 as <-. apply cpp_assert_bool_Ok, bool_decide_eq_true in Hacc1, Hacc5.
  destruct x11 as [vtxundo c']. accepted. subst x8 res. apply connect_stake_indexes in Hacc3.
  match goal with H : deref x2 pindex = Ok ?i |- _ => rename H into Hd; rename i into idx2 end.
  assert (phashBlock idx2 = phashBlock idx) as Hx.
  { unfold deref in Hd. destruct Hacc3 as [->|[m ->]].
    - rewrite Hidx in Hd. by injection Hd as <-.
    - rewrite lookup_insert_eq in Hd. by injection Hd as <-. }
  eexists _, x2, _, x5, x7, x10. cbv zeta. split_and!; try done.
  unfold ConnectBlock_coins. apply check_bind_Accept. eexists. split; [exact Hacc12|].
  cbn. by rewrite Hx, Hacc1.
Qed.

Lemma ConnectBlock_coins_best base heap pindex height lockFlags flags scripts reward block hash genesis c
    vtxundo c' :
  ConnectBlock_coins base heap pindex height lockFlags flags scripts reward block hash genesis c =
    Ok (Accept (vtxundo, c')) → hashBlock c' = hash.
Proof. unfold ConnectBlock_coins. intros Hacc. accepted. by injection Hacc as _ <-. Qed.

(** C22: Nothing verifies the signature of a block.  Replacing it by any
    bytes of the same length changes neither the checks of the block on its
    own and in its context nor [ConnectBlock]: they give the same answer, and
    the same coins, indexes and votes. *)
Theorem block_signature_not_verified heap block sig pindex prev fChecked check_merkle_root stake_checked fJustCheck
    skip recorder c :
  length sig = length (signature block) →
  Legacy_CheckBlock (with_signature sig block) fChecked check_merkle_root =
    Legacy_CheckBlock block fChecked check_merkle_root ∧
  Legacy_ContextualCheckBlock garbage heap (csv_active env) (with_signature sig block) prev =
    Legacy_ContextualCheckBlock garbage heap (csv_active env) block prev ∧
  ConnectBlock garbage fp p env heap (with_signature sig block) pindex fChecked stake_checked fJustCheck skip recorder c =
    ConnectBlock garbage fp p env heap block pindex fChecked stake_checked fJustCheck skip recorder c.
Proof.
  intros Hl.
  assert (∀ mk, Legacy_CheckBlock (with_signature sig block) fChecked mk = Legacy_CheckBlock block fChecked mk) as Hcheck.
  { intros mk. unfold Legacy_CheckBlock. by rewrite block_size_signature by done. }
  split_and!; [done| |].
  - unfold Legacy_ContextualCheckBlock, GetBlockWeight. by rewrite !block_size_signature by done.
  - unfold ConnectBlock. by rewrite Hcheck.
Qed.

Section block.
(** A block behind a previous one, whose checks may have been done before. *)
Context (heap : BlockMap) (block : CBlock) (pindex q : Z) (idx prev : CBlockIndex).
Context (fChecked stake_checked skip : bool) (recorder : VoteRecorder) (c : CCoinsViewCache) (res : connection).
Context (Hidx : heap !! pindex = Some idx) (Hprev : pprev idx = Some q) (Hq : heap !! q = Some prev).
Context (Hne : q ≠ pindex) (Hheight : 0 < nHeight idx).
Context (Hchecked : fChecked = true → acceptable block) (Hc : cache_ok below c).
Context (Hconnected : ConnectBlock garbage fp p env heap block pindex fChecked stake_checked false skip recorder c =
  Ok (Accept res)).

Lemma connected_acceptable b : Legacy_CheckBlock block fChecked true = Ok (Accept b) → acceptable block.
Proof. destruct fChecked; [by auto|]. intros H'. by apply CheckBlock_sound in H' as (_ & ? & _). Qed.

(** C5: Connecting a block creates no money but its reward.  When the whole
    of [ConnectBlock] accepts a block that is not the genesis block and
    whose outputs are new, the value of all unspent outputs together with
    what the block put into unspendable outputs grows by at most the block
    reward of the chain's parameters, and by no less than the reward without
    the fees; the fees are what the other transactions spend and do not pay
    out, and are not negative.  The view stays consistent and stands at the
    block. *)
Theorem connected_block_supply reward :
  Header_GetHash (GetBlockHeader block) ≠ hashGenesisBlock env →
  CalculateBlockReward p (uint32 (nHeight idx)) = Ok reward → MoneyRange reward = true →
  new_outputs (all_created (nHeight idx) (vtx block)) (utxo below c) →
  let fees := coin_values (concat (tail (cn_undo res))) - out_values (concat (vout <$> tail (vtx block))) in
  let growth := total (utxo below (cn_view res)) + burned (vtx block) - total (utxo below c) in
  0 ≤ fees ∧ reward - fees ≤ growth ≤ reward ∧
  cache_ok below (cn_view res) ∧ hashBlock (cn_view res) = phashBlock idx.
Proof.
  intros Hgenesis Hreward Hrange Hnew. cbv zeta.
  destruct (ConnectBlock_parts _ _ _ _ _ _ _ _ _ _ Hidx Hconnected)
    as (b & heap1 & prev_hash & scripts & cb & r & Hhash & Hcheck & _ & _ & _ & _ & _ & Hr & Hcoins).
  rewrite bool_decide_eq_false_2 in Hr, Hcoins by done. rewrite Hreward in Hr. injection Hr as <-.
  apply ConnectBlock_coins_best in Hcoins as Hbest.
  destruct (connected_acceptable b Hcheck) as [_ _ Hchk (cb' & txs & Hvtx & Hcb & Hother & _) _].
  pose proof Hcoins as Hutxo. apply ConnectBlock_coins_utxo in Hutxo as (Hc' & _); [|done|lia|done|done].
  apply (supply_grows_by_reward _ _ _ _ _ _ _ _ _ _ _ _ _ cb' txs) in Hcoins as [Hfees Hgrowth];
    [|done|lia|done..].
  rewrite Hvtx in *. cbn [tail]. split_and!; [done|lia|lia|done|]. by rewrite Hbest.
Qed.

(** C12: A connected block builds on the state it claims to.  When the whole
    of [ConnectBlock] accepts a block at a positive height, the view stood at
    the previous block, and the snapshot hash its coinbase carries is that of
    exactly the unspent outputs before the block together with the stake
    modifier and the chain work of the previous block. *)
Theorem connected_block_commits_to_coins :
  GetBestBlock env c = phashBlock prev ∧
  ∃ cb, head (vtx block) = Some cb ∧
    ReadSnapshotHashFromTx cb = Ok (Some (SnapshotHash_GetHash_index (set_hash (utxo below c)) prev)).
Proof.
  destruct (ConnectBlock_parts _ _ _ _ _ _ _ _ _ _ Hidx Hconnected)
    as (b & heap1 & prev_hash & scripts & cb & r & _ & Hcheck & Hheap1 & Hbest & -> & Hcb & Hsnap & _).
  assert (heap1 !! q = Some prev) as Hq1.
  { destruct Hheap1 as [->|[m ->]]; [done|]. by rewrite lookup_insert_ne by done. }
  rewrite Hprev in Hbest. unfold deref in Hbest. rewrite Hq1 in Hbest. cbn in Hbest.
  split; [by injection Hbest|]. exists cb.
  destruct (connected_acceptable b Hcheck) as [_ _ _ (cb' & txs & Hvtx & Hcoinbase & _) _].
  rewrite Hvtx in *. injection Hcb as <-. split; [done|].
  unfold ValidateCandidateBlockTx in Hsnap. unfold ReadSnapshotHashFromTx.
  rewrite decide_False in Hsnap by lia. rewrite Hcoinbase in *. cbn [negb] in *.
  rewrite <- (ck_hash _ _ Hc). revert Hsnap. unfold deref_ptr, deref. rewrite Hprev, Hq1.
  destruct (cpp_assert _); [|done]. cbn. destruct (vin cb') as [|i ins]; [done|]. cbn.
  destruct (GetScriptOp (scriptSig i)) as [[op|] it]; [|done].
  destruct (GetScriptOp it) as [[[op2 buf]|] it2]; [|done]. case_decide; [done|].
  intros Hd. injection Hd as Hd. apply bool_decide_eq_true in Hd. by rewrite Hd.
Qed.
End block.
End theorems.

(** ** Examples *)

#[local] Existing Instances toy_crypto toy_hashing toy_signatures toy_forms toy_op_hashes.
#[local] Existing Instances demo_snapshot_hashing demo_snapshot_hashing_laws.
#[local] Instance demo_digest : SnapshotDigest := {| multiset_digest := λ h bs, foldl (λ h b, uint256 (h * 31 + b)) h bs |}.

(** Two coins of the genesis block, and a view on them. *)
Definition demo_below : gmap COutPoint Coin :=
  let coin v := Coin_new {| nValue := v; scriptPubKey := [OP_1] |} 0 REGULAR in
  {[ demo_outpoint 1 := coin 100; demo_outpoint 2 := coin 50 ]}.

Definition demo_top : CCoinsViewCache := CCoinsViewCache_new (set_hash demo_below).

(** On demand any stake may propose. *)
Definition demo_on_demand : Parameters := {|
  genesis_hash := 1000; block_stake_timestamp_interval_seconds := 4; block_time_seconds := 8;
  max_future_block_time_seconds := 15; maximum_block_weight := 4000000; maximum_sigops_count := 80000;
  witness_scale_factor := 4; stake_maturity := 2; stake_maturity_activation_height := 3;
  initial_supply := 1060000 * UNIT; expected_maximum_supply := 2718275100 * UNIT; reward := 3750000000;
  immediate_reward_fraction := 10000000; difficulty_function := AdjustDifficulty;
  difficulty_adjustment_window := 2; max_difficulty_value := uint256S (2 ^ 224 - 1);
  mine_blocks_on_demand := true |}.

Definition demo_surroundings : surroundings := {|
  memory_pool := ∅; coins_below := demo_below; best_below := 1000;
  index_map := {[ 1000 := 10 ]}; active_chain := [Some 10];
  repository := {| m_states := ∅; m_genesis_state := {| state_data := demo_joined_state; m_status := NEW |};
                   state_db := ∅ |};
  hashGenesisBlock := 1000; hashAssumeValid := 0; pindexBestHeader := 10; nMinimumChainWork := base_uint_zero;
  nPowTargetSpacing := 16; csv_active := true |}.

(** The first block behind the genesis block: the coinbase stakes one of the
    coins, and the other one is paid on with a fee of 3. *)
Definition demo_first_coinbase : CTransaction := SetType COINBASE
  {| vin := [CTxIn_new COutPoint_null
               ([1; 1; 32] ++ be_bytes 32 (SnapshotHash_GetHash_index (snapshotHash demo_top) (demo_at 10)))
               SEQUENCE_FINAL;
             CTxIn_new (demo_outpoint 1) [] SEQUENCE_FINAL];
     vout := [{| nValue := 375000003; scriptPubKey := [OP_1] |}; {| nValue := 100; scriptPubKey := [OP_1] |}];
     nVersion := 2; nLockTime := 0 |}.

Definition demo_first_payment : CTransaction :=
  {| vin := [CTxIn_new (demo_outpoint 2) [] SEQUENCE_FINAL]; vout := [{| nValue := 47; scriptPubKey := [OP_1] |}];
     nVersion := 2; nLockTime := 0 |}.

Definition demo_first : CBlock :=
  let block root witness_root := {|
    GetBlockHeader := {| block_nVersion := 1; hashPrevBlock := 1000; hashMerkleRoot := root;
      hash_witness_merkle_root := witness_root; hash_finalizer_commits_merkle_root := 0;
      block_nTime := 48; nBits := 0x207fffff |};
    vtx := [demo_first_coinbase; demo_first_payment]; signature := [] |} in
  block (BlockMerkleRoot (block 0 0)).1 (BlockWitnessMerkleRoot (block 0 0)).1.

Definition demo_first_index : CBlockIndex :=
  set_position (Header_GetHash (GetBlockHeader demo_first)) (Some 10) 1 (CBlockIndex_new (GetBlockHeader demo_first)).

Definition demo_heap_with_first : BlockMap := <[90 := demo_first_index]> demo_tree.

Definition demo_connect_first : check connection :=
  ConnectBlock [] demo_params demo_on_demand demo_surroundings demo_heap_with_first demo_first 90
    false false false false VoteRecorder_new demo_top.

Definition demo_first_result : connection :=
  accepted_or {| cn_undo := []; cn_view := demo_top; cn_indexes := ∅; cn_recorder := VoteRecorder_new |}
    demo_connect_first.

Lemma demo_first_connected : demo_connect_first = Ok (Accept demo_first_result).
Proof. vm_compute. reflexivity. Qed.

Lemma demo_top_ok : cache_ok demo_below demo_top.
Proof.
  split; [|by apply map_Forall_empty|by vm_compute]. apply (bool_decide_unpack _). by vm_compute.
Qed.

Lemma demo_first_found : demo_heap_with_first !! 90 = Some demo_first_index.
Proof. apply lookup_insert_eq. Qed.

Lemma demo_genesis_found : demo_heap_with_first !! 10 = Some (demo_at 10).
Proof. unfold demo_heap_with_first. rewrite lookup_insert_ne by done. vm_compute. reflexivity. Qed.

Lemma demo_first_not_checked : false = true → acceptable demo_first.
Proof. discriminate. Qed.

Lemma demo_first_new : new_outputs (all_created 1 (vtx demo_first)) (utxo demo_below demo_top).
Proof. split; apply (bool_decide_unpack _); vm_compute; exact I. Qed.

Lemma connected_block_supply_witness :
  375000000 - 3 ≤ total (utxo demo_below (cn_view demo_first_result)) + burned (vtx demo_first) - 150 ≤ 375000000.
Proof.
  pose proof (connected_block_supply [] demo_params demo_on_demand demo_surroundings demo_heap_with_first demo_first
    90 demo_first_index false false false VoteRecorder_new demo_top demo_first_result demo_first_found
    ltac:(reflexivity) demo_first_not_checked demo_top_ok demo_first_connected 375000000) as Hsupply.
  cbv zeta in Hsupply. cbn [coins_below demo_surroundings] in Hsupply.
  destruct Hsupply as (_ & Hgrowth & _); [vm_compute; congruence|by vm_compute|reflexivity|exact demo_first_new|].
  assert (coin_values (concat (tail (cn_undo demo_first_result))) = 50) as Hspent by (vm_compute; reflexivity).
  assert (total (utxo demo_below demo_top) = 150) as Hbefore by (vm_compute; reflexivity).
  rewrite Hspent, Hbefore in Hgrowth. exact Hgrowth.
Defined.

Lemma connected_block_commits_to_coins_witness :
  GetBestBlock demo_surroundings demo_top = 1000 ∧
  ReadSnapshotHashFromTx demo_first_coinbase =
    Ok (Some (SnapshotHash_GetHash_index (set_hash demo_below) (demo_at 10))).
Proof.
  destruct (connected_block_commits_to_coins [] demo_params demo_on_demand demo_surroundings demo_heap_with_first
    demo_first 90 10 demo_first_index (demo_at 10) false false false VoteRecorder_new demo_top demo_first_result
    demo_first_found eq_refl demo_genesis_found ltac:(discriminate) ltac:(reflexivity) demo_first_not_checked
    demo_top_ok demo_first_connected) as (Hbest & cb & Hcb & Hread).
  split; [exact Hbest|]. injection Hcb as <-. exact Hread.
Defined.

Lemma block_signature_not_verified_witness :
  Legacy_CheckBlock (with_signature [6; 6; 6] (with_signature [1; 2; 3] demo_first)) false true = Ok (Accept true).
Proof.
  destruct (block_signature_not_verified [] demo_params demo_on_demand demo_surroundings demo_heap_with_first
    (with_signature [1; 2; 3] demo_first) [6; 6; 6] 90 (Some 10) false true false false false VoteRecorder_new
    demo_top eq_refl) as [Hsame _].
  rewrite Hsame. vm_compute. reflexivity.
Defined.
