(* ===== verification/FinalizationTheorems.v ===== *)
(** * What the finalization state machine guarantees

    The properties of [FinalizationState], stated for the reachable states
    and proved from the invariant. *)
From S2P Require Import Prelude Ufp64 Admin Params FinalizationData FinalizationOps Accounting.
From S2P Require Import FinalizationInvariant FinalizationEpoch FinalizationSafety Scenario.

Section theorems.
Context `{!Crypto} (p : Params) (Hp : valid_params p).
Implicit Types s : State.

(** ** The deposit totals *)

(** C1: in every reachable state the totals the code maintains step by step
    are the sums of the deposits of the finalizers of the current and of the
    previous dynasty, modulo 2^64, and exactly so when the sum fits a
    [CAmount]; the recorded change for each later dynasty is the sum of what
    joins minus what leaves. *)
Theorem deposit_totals s :
  reachable p s →
  accounting s ∧
  (dynasty_total (m_current_dynasty s) s < 2 ^ 63 →
   m_cur_dyn_deposits s = dynasty_total (m_current_dynasty s) s) ∧
  (dynasty_total (uint32 (m_current_dynasty s - 1)) s < 2 ^ 63 →
   m_prev_dyn_deposits s = dynasty_total (uint32 (m_current_dynasty s - 1)) s).
Proof.
  intros [Hwf Hacc _]%invariant_reachable; [|done]. split; [done|].
  assert (∀ d, 0 ≤ dynasty_total d s) as Hpos.
  { intros d. apply map_sum_nonneg. intros a v Hv. unfold in_dynasty_weight.
    pose proof (wfv_deposit _ _ _ _ (wf_lookup p s a v Hwf Hv)) as [? ?].
    destruct (IsInDynasty v d); lia. }
  destruct Hacc as [Hc Hpr _].
  split; intros Hlt; (apply eqm64_eq_int64; [apply Hwf| |done]).
  - pose proof (Hpos (m_current_dynasty s)). unfold is_int64. lia.
  - pose proof (Hpos (uint32 (m_current_dynasty s - 1))). unfold is_int64. lia.
Qed.

(** ** Validated commits are processed *)

(** C16: on a reachable state every vote, logout or slashing that passes its
    validation is processed to the end: none of the asserted lookups on the
    way fails.  A deposit is too, unless the deposit scale factor has decayed
    to zero. *)
Theorem validated_commits_are_processed s :
  reachable p s →
  (∀ vote, ValidateVote s vote = SUCCESS → returns (ProcessVote s vote)) ∧
  (∀ a, ValidateLogout p s a = SUCCESS → returns (ProcessLogout p s a)) ∧
  (∀ v1 v2, IsSlashable s v1 v2 = SUCCESS → returns (ProcessSlash s v1 v2)) ∧
  (∀ a amount, ValidateDeposit p s a amount = SUCCESS →
     returns (ProcessDeposit s a amount) ↔
     m_deposit_scale_factor s !! m_current_epoch s ≠ Some 0).
Proof.
  intros [Hwf _ _]%invariant_reachable; [|done]. split; [|split; [|split]].
  - intros vote (_ & v & Hv & Hvot)%ValidateVote_SUCCESS.
    apply IsVotable_SUCCESS in Hvot as ((cp & Hcp & _) & _).
    by apply (ProcessVote_returns p); [|exists cp|exists v].
  - intros a (v & Hv & _)%ValidateLogout_SUCCESS. apply ProcessLogout_returns. by exists v.
  - intros v1 v2 ((w & _ & Hw & _) & _)%IsSlashable_SUCCESS.
    by apply (ProcessSlash_returns p); [|exists w].
  - intros a amount _. by apply (ProcessDeposit_returns p).
Qed.

(** C17: on a reachable state neither validating a withdrawal nor beginning
    an epoch fails an assertion or a [map::at]; a division by zero is the
    only exception they can leave through. *)
Theorem epochs_and_withdrawals_never_abort s :
  reachable p s →
  (∀ a amount, no_abort (ValidateWithdraw p s a amount)) ∧
  (∀ h, is_uint32 h → IsEpochStart p h = true → no_abort (InitializeEpoch p s h)).
Proof.
  intros [Hwf Hacc _]%invariant_reachable; [|done]. split.
  - intros. by apply ValidateWithdraw_no_abort.
  - intros. by apply InitializeEpoch_no_abort.
Qed.

(** C19: with the interest of the built-in parameters the next epoch begins
    with SUCCESS at its first block, as long as the base penalty is at most
    2^20, the reward factor is below 2^63 and the scaled deposits do not
    exceed the money supply. *)
Theorem next_epoch_begins s h :
  base_interest_factor p = to_ufp64 7 → 0 ≤ base_penalty_factor p ≤ 2 ^ 20 →
  reachable p s → m_reward_factor s < 2 ^ 63 → deposits_bounded s →
  is_uint32 h → IsEpochStart p h = true → GetEpoch p h = m_current_epoch s + 1 →
  ∃ s', InitializeEpoch p s h = Ok (SUCCESS, s').
Proof.
  intros ? ? [Hwf Hacc _]%invariant_reachable ? ? ? ? ?; [|done].
  by apply InitializeEpoch_success.
Qed.
End theorems.

(** ** Witnesses *)

Lemma deposit_totals_witness :
  accounting demo_left_state ∧
  m_cur_dyn_deposits demo_left_state =
    dynasty_total (m_current_dynasty demo_left_state) demo_left_state ∧
  m_prev_dyn_deposits demo_left_state =
    dynasty_total (uint32 (m_current_dynasty demo_left_state - 1)) demo_left_state.
Proof.
  destruct (deposit_totals demo_params demo_params_valid demo_left_state) as (? & Hc & Hpr);
    [exact demo_left_reachable|].
  split; [done|]. split; [apply Hc|apply Hpr]; by vm_compute.
Defined.

Lemma validated_commits_are_processed_witness :
  returns (ProcessVote demo_finalized_state (demo_vote 9 3 4)) ∧
  returns (ProcessLogout demo_params demo_finalized_state 9).
Proof.
  destruct (validated_commits_are_processed demo_params demo_params_valid demo_finalized_state)
    as (Hv & Hl & _); [exact demo_finalized_reachable|].
  split; [apply Hv|apply Hl]; by vm_compute.
Defined.

Lemma epochs_and_withdrawals_never_abort_witness :
  no_abort (InitializeEpoch demo_params demo_left_state 46).
Proof.
  apply (epochs_and_withdrawals_never_abort demo_params demo_params_valid demo_left_state);
    [exact demo_left_reachable|done|by vm_compute].
Defined.

Lemma next_epoch_begins_witness :
  ∃ s', InitializeEpoch demo_params demo_left_state 46 = Ok (SUCCESS, s').
Proof.
  apply (next_epoch_begins demo_params demo_params_valid);
    [done|by vm_compute|exact demo_left_reachable|by vm_compute| |done|by vm_compute|by vm_compute].
  destruct (lookup_check (m_deposit_scale_factor demo_left_state) (m_current_epoch demo_left_state)
    (λ f, bool_decide (f * Z.max (m_prev_dyn_deposits demo_left_state)
                             (m_cur_dyn_deposits demo_left_state) / SCALE ≤ MAX_MONEY)))
    as (g & Hg & Hle%bool_decide_eq_true); [by vm_compute|].
  intros f Hf. rewrite Hg in Hf. by injection Hf as <-.
Defined.
