(* ===== verification/FinalizationProtocol.v ===== *)
(** * Justification, finalization and accountability

    What the votes do to the checkpoints, how far the counters move, which
    votes a finalizer can safely cast, and what happens to a finalizer that
    logs out, is slashed or withdraws. *)
From S2P Require Import Prelude Ufp64 Admin Params FinalizationData FinalizationOps Accounting.
From S2P Require Import FinalizationInvariant FinalizationEpoch FinalizationSafety Scenario.

(** ** Progress *)

(** The counters only move forward, epochs and dynasties by one at a time. *)
Record progress (s s' : State) : Prop := {
  pr_epoch : m_current_epoch s ≤ m_current_epoch s' ≤ m_current_epoch s + 1;
  pr_dynasty : m_current_dynasty s ≤ m_current_dynasty s' ≤ m_current_dynasty s + 1;
  pr_justified : m_last_justified_epoch s ≤ m_last_justified_epoch s';
  pr_finalized : m_last_finalized_epoch s ≤ m_last_finalized_epoch s';
  pr_source : m_expected_source_epoch s ≤ m_expected_source_epoch s';
}.

Section progress.
Context (p : Params) (Hp : valid_params p).
Implicit Types s : State.

Lemma progress_refl s s' :
  m_current_epoch s' = m_current_epoch s → m_current_dynasty s' = m_current_dynasty s →
  m_last_justified_epoch s' = m_last_justified_epoch s →
  m_last_finalized_epoch s' = m_last_finalized_epoch s →
  m_expected_source_epoch s' = m_expected_source_epoch s → progress s s'.
Proof. intros. split; lia. Qed.

Lemma progress_vote s vote s' :
  wf p s → ValidateVote s vote = SUCCESS → ProcessVote s vote = Ok s' → progress s s'.
Proof.
  intros Hwf (_ & v & Hv & Hvot)%ValidateVote_SUCCESS H.
  apply IsVotable_SUCCESS in Hvot as ((cp & Hcp & _) & _ & Ht & _ & _).
  destruct (vote_target p s _ Hwf ltac:(by eauto) Ht) as [Hpos Ht'].
  pose proof (wf_cps p s Hwf) as [? ? _ _ _ _].
  apply ProcessVote_state in H as (v' & cp' & s1 & ct & pt & Hv' & Hcp' & Hrew & _ & _ & ->).
  assert (m_current_epoch s1 = m_current_epoch s ∧ m_current_dynasty s1 = m_current_dynasty s ∧
    m_last_justified_epoch s1 = m_last_justified_epoch s ∧
    m_last_finalized_epoch s1 = m_last_finalized_epoch s ∧
    m_expected_source_epoch s1 = m_expected_source_epoch s) as (E1 & E2 & E3 & E4 & E5).
  { unfold vote_rewarded in Hrew. case_decide; [|by subst]. by destruct Hrew as (? & _ & ->). }
  unfold vote_state. destruct (_ && _ && _); [case_decide|]; split; cbn; lia.
Qed.

Lemma progress_epoch s h r s' :
  invariant p s → is_uint32 h → InitializeEpoch p s h = Ok (r, s') → progress s s'.
Proof.
  intros Hinv Hh H. pose proof Hinv as [Hwf _ [Hsrc _]].
  pose proof (wf_cnt p s Hwf) as [He _ _]. pose proof (wf_dynasty_bound p s Hwf).
  pose proof (wf_cps p s Hwf) as [Ho Hl _ _ _ _].
  apply InitializeEpoch_state in H as (Hstart & H); [|unfold is_uint32; lia].
  pose proof (epoch_start_bound p h (vp_length p Hp) Hh Hstart) as Hmax.
  destruct H as [(_ & _ & ->)|(Heq & cps & factor & slashed & reward & _ & _ & _ & H)];
    [by apply progress_refl|].
  destruct H as [[_ ->]|(_ & s2 & s3 & H2 & H3 & ->)]; [split; cbn; lia|].
  apply IncrementDynasty_state in H2; [|unfold is_uint32; cbn; lia..].
  assert (m_current_epoch s2 = m_current_epoch s + 1 ∧
    m_current_dynasty s ≤ m_current_dynasty s2 ≤ m_current_dynasty s + 1 ∧
    m_last_justified_epoch s2 = m_last_justified_epoch s ∧
    m_last_finalized_epoch s2 = m_last_finalized_epoch s ∧
    m_expected_source_epoch s2 = m_expected_source_epoch s) as (E1 & E2 & E3 & E4 & E5).
  { destruct H2 as [[_ ->]|[_ ->]]; cbn; lia. }
  destruct (GetActiveFinalizers s2).
  - apply InstaJustify_state in H3 as (cp & _ & [->|[_ ->]]); [split; cbn; lia..|lia].
  - injection H3 as <-. split; cbn; lia.
Qed.

Lemma progress_step `{!Crypto} s s' : invariant p s → step p s s' → progress s s'.
Proof.
  intros Hinv Hstep.
  destruct Hstep as [s h r s' Hh Hpr|s a amount s' Hv Hpr|s vote s' Hv Hpr|s a s' Hv Hpr|
    |s v1 v2 s' Hv Hpr| |s a hash s' Hpr|]; try by apply progress_refl.
  - by eapply progress_epoch.
  - destruct Hinv as [Hwf _ _]. pose proof (wf_dynasty_bound p s Hwf).
    apply ValidateDeposit_SUCCESS in Hv as (_ & Hnew & _).
    apply ProcessDeposit_state in Hpr as (? & ? & _ & _ & ->); [|unfold is_uint32; lia|done].
    by apply progress_refl.
  - destruct Hinv. by eapply progress_vote.
  - apply ProcessLogout_state in Hpr as (? & _ & ->). by apply progress_refl.
  - destruct Hinv as [Hwf _ _]. pose proof (wf_dynasty_bound p s Hwf).
    apply ProcessSlash_state in Hpr as (? & ? & ? & ? & _ & _ & _ & ->); [|unfold is_uint32; lia].
    by apply progress_refl.
  - open RegisterLastTx in Hpr. ok_inv Hpr. subst s'. by apply progress_refl.
Qed.

(** C18: along every history the epoch, the dynasty, the last justified and
    the last finalized epoch and the expected source epoch never move back;
    epoch and dynasty advance by at most one per step, and the last finalized
    epoch never passes the last justified one, which lies before the current
    epoch. *)
Theorem finalization_never_reverts `{!Crypto} s s' :
  reachable p s → step p s s' →
  progress s s' ∧ m_last_finalized_epoch s' ≤ m_last_justified_epoch s' ∧
  (m_last_justified_epoch s' < m_current_epoch s' ∨ m_current_epoch s' = 0).
Proof.
  intros Hr Hs. pose proof (invariant_reachable p Hp s Hr) as Hinv.
  split; [by apply progress_step|].
  pose proof (invariant_step p Hp s s' Hinv Hs) as [Hwf _ _].
  pose proof (wf_cps p s' Hwf) as [? ? _ _ _ _]. lia.
Qed.
End progress.

(** ** Votes *)

(** The threshold is two thirds, rounded down. *)
Lemma two_thirds_spec d : 0 ≤ d < 2 ^ 63 → two_thirds d = Ok (2 * d / 3).
Proof.
  intros Hd. unfold two_thirds.
  rewrite (uint64_small (d * 2)) by (unfold is_uint64; lia).
  rewrite div_to_uint_spec by (done || unfold is_uint64; lia).
  change (to_ufp64 3) with (3 * SCALE). rewrite Z.div_mul_cancel_r by (unfold SCALE; lia).
  rewrite Z.mul_comm. f_equal. apply uint64_small. unfold is_uint64.
  split; [apply Z.div_pos; lia|apply Z.div_lt_upper_bound; lia].
Qed.

(** The votes for [source] that checkpoint [cp] has counted, per dynasty. *)
Definition votes_cur (cp : Checkpoint) (source : Z) : Z := emplaced source 0 (m_cur_dynasty_votes cp).
Definition votes_prev (cp : Checkpoint) (source : Z) : Z := emplaced source 0 (m_prev_dynasty_votes cp).

(** The tally for source epoch [e] after [v] voted with source [source]. *)
Definition added_vote (v : Validator) (dynasty source e votes : Z) : Z :=
  if bool_decide (e = source) && IsInDynasty v dynasty
  then uint64 (votes + m_deposit v) else votes.

Lemma emplaced_tally v dynasty source votes e :
  emplaced e 0 (tally (IsInDynasty v dynasty) source (m_deposit v) votes) =
  added_vote v dynasty source e (emplaced e 0 votes).
Proof.
  unfold tally, added_vote. destruct (IsInDynasty v dynasty).
  - rewrite lookup_emplaced_insert, andb_true_r. by case_bool_decide; case_decide; subst.
  - by rewrite emplaced_emplace, andb_false_r.
Qed.

(** The target's checkpoint after the vote. *)
Definition vote_checkpoint (vote : Vote) (cp : Checkpoint) (justify : bool) : Checkpoint :=
  if justify then
    if decide (m_target_epoch vote = uint32 (m_source_epoch vote + 1))
    then set_m_is_finalized true (set_m_is_justified true cp)
    else set_m_is_justified true cp
  else cp.

Lemma vote_state_checkpoints s vote cp b :
  m_checkpoints (vote_state s vote cp b) =
  <[m_target_epoch vote := vote_checkpoint vote cp b]> (m_checkpoints s).
Proof. unfold vote_state, vote_checkpoint. by repeat case_match. Qed.

Lemma vote_state_cur s vote cp b :
  m_cur_dyn_deposits (vote_state s vote cp b) = m_cur_dyn_deposits s.
Proof. unfold vote_state. by repeat case_match. Qed.

Lemma vote_state_prev s vote cp b :
  m_prev_dyn_deposits (vote_state s vote cp b) = m_prev_dyn_deposits s.
Proof. unfold vote_state. by repeat case_match. Qed.

(** Only the status of the checkpoint depends on the justification. *)
Lemma vote_checkpoint_tally vote cp b :
  m_vote_set (vote_checkpoint vote cp b) = m_vote_set cp ∧
  m_cur_dynasty_votes (vote_checkpoint vote cp b) = m_cur_dynasty_votes cp ∧
  m_prev_dynasty_votes (vote_checkpoint vote cp b) = m_prev_dynasty_votes cp.
Proof. unfold vote_checkpoint. by repeat case_match. Qed.

Lemma vote_checkpoint_status vote cp (b : bool) :
  (m_is_justified (vote_checkpoint vote cp b) = true ↔ m_is_justified cp = true ∨ b = true) ∧
  (m_is_finalized (vote_checkpoint vote cp b) = true ↔ m_is_finalized cp = true ∨
     b = true ∧ m_target_epoch vote = uint32 (m_source_epoch vote + 1)).
Proof.
  unfold vote_checkpoint. destruct b; [case_decide|]; cbn; split; split; intros;
    destruct_or?; destruct_and?; auto; done.
Qed.

Section votes.
Context `{!Crypto} (p : Params) (Hp : valid_params p).
Implicit Types s : State.

(** C2: processing a valid vote records the voter, adds the voter's deposit
    to the tally of each dynasty it belongs to and of no other source epoch,
    justifies the target exactly when both tallies reach two thirds of the
    dynasties' deposits, and finalizes it when it is thereby justified by
    votes from the epoch right before it. *)
Theorem vote_effect s vote s' :
  reachable p s → ValidateVote s vote = SUCCESS → ProcessVote s vote = Ok s' →
  0 ≤ m_cur_dyn_deposits s' → 0 ≤ m_prev_dyn_deposits s' →
  let a := m_validator_address vote in
  let source := m_source_epoch vote in
  let target := m_target_epoch vote in
  ∃ v cp cp', m_validators s !! a = Some v ∧
    m_checkpoints s !! target = Some cp ∧ m_checkpoints s' = <[target := cp']> (m_checkpoints s) ∧
    (a ∉ m_vote_set cp) ∧ m_vote_set cp' = {[a]} ∪ m_vote_set cp ∧
    (∀ e, votes_cur cp' e =
       added_vote v (m_current_dynasty s) source e (votes_cur cp e)) ∧
    (∀ e, votes_prev cp' e =
       added_vote v (uint32 (m_current_dynasty s - 1)) source e (votes_prev cp e)) ∧
    let enough := 2 * m_cur_dyn_deposits s' / 3 ≤ votes_cur cp' source ∧
                  2 * m_prev_dyn_deposits s' / 3 ≤ votes_prev cp' source in
    (m_is_justified cp' = true ↔ (m_is_justified cp = true ∨ enough)) ∧
    (m_is_finalized cp' = true ↔ (m_is_finalized cp = true ∨
       m_is_justified cp = false ∧ enough ∧ target = uint32 (source + 1))).
Proof.
  intros Hr (_ & v & Hv & Hvot)%ValidateVote_SUCCESS Hpv Hc0 Hp0. cbv zeta.
  apply (invariant_reachable p Hp) in Hr as [Hwf _ _].
  apply IsVotable_SUCCESS in Hvot as ((cp & Hcp & Hnew) & _).
  rewrite (wfv_address _ _ _ _ (wf_lookup p s _ v Hwf Hv)) in Hnew.
  apply ProcessVote_state in Hpv as (v' & cp' & s1 & ct' & pt & Hv' & Hcp' & Hrew & H1 & H2 & ->).
  simplify_eq. set (cp1 := tally_vote s v vote cp) in *.
  assert (wf p s1 ∧ m_checkpoints s1 = m_checkpoints s) as [Hwf1 Hcps1].
  { unfold vote_rewarded in Hrew. case_decide; [|by subst].
    destruct Hrew as (reward & _ & ->). by split; [apply wf_reward_state|]. }
  set (b := _ && _ && _) in *.
  rewrite vote_state_cur in Hc0. rewrite vote_state_prev in Hp0.
  rewrite two_thirds_spec in H1, H2 by (split; [done|apply Hwf1]).
  injection H1 as <-. injection H2 as <-. rewrite vote_state_cur, vote_state_prev.
  exists v, cp, (vote_checkpoint vote cp1 b). do 2 (split; [done|]).
  split; [by rewrite vote_state_checkpoints, Hcps1|]. split; [done|].
  destruct (vote_checkpoint_tally vote cp1 b) as (-> & Hvc & Hvp).
  destruct (vote_checkpoint_status vote cp1 b) as [Hjust Hfin].
  unfold votes_cur, votes_prev. rewrite Hvc, Hvp. split; [done|].
  split; [intros; apply emplaced_tally|]. split; [intros; apply emplaced_tally|].
  assert (b = true ↔ m_is_justified cp = false ∧
    2 * m_cur_dyn_deposits s1 / 3 ≤ emplaced (m_source_epoch vote) 0 (m_cur_dynasty_votes cp1) ∧
    2 * m_prev_dyn_deposits s1 / 3 ≤ emplaced (m_source_epoch vote) 0 (m_prev_dynasty_votes cp1)) as Hb.
  { subst b. rewrite !andb_true_iff, !bool_decide_eq_true, negb_true_iff. tauto. }
  rewrite Hjust, Hfin, Hb. change (m_is_justified cp1) with (m_is_justified cp).
  change (m_is_finalized cp1) with (m_is_finalized cp).
  destruct (m_is_justified cp); split; split; intros; destruct_or?; destruct_and?; auto; done.
Qed.

(** ** The vote a finalizer casts *)

(** C20: when the vote [GetRecommendedVote] proposes passes validation.  In a
    reachable state after the first epoch it does so exactly when the
    recommended target is the previous epoch and the finalizer is authorized,
    is in the current or previous dynasty and has not voted for it yet: hash
    and source of the proposal are always right.  The target is the previous
    epoch until the last block of the current one is processed; once it is the
    current epoch, every authorized finalizer that has not voted for it is
    turned down for the target epoch. *)
Theorem recommended_vote_is_valid s a :
  reachable p s → 0 < m_current_epoch s →
  (ValidateVote s (GetRecommendedVote s a) = SUCCESS ↔
   m_recommended_target_epoch s = m_current_epoch s - 1 ∧
   IsValidatorAuthorized (m_admin_state s) a = true ∧
   (∃ v, m_validators s !! a = Some v ∧ IsFinalizerVoting s v = true) ∧
   (∀ cp, m_checkpoints s !! (m_current_epoch s - 1) = Some cp → a ∉ m_vote_set cp)) ∧
  (m_recommended_target_epoch s = m_current_epoch s →
   IsValidatorAuthorized (m_admin_state s) a = true → is_Some (m_validators s !! a) →
   (∀ cp, m_checkpoints s !! m_current_epoch s = Some cp → a ∉ m_vote_set cp) →
   ValidateVote s (GetRecommendedVote s a) = VOTE_WRONG_TARGET_EPOCH).
Proof.
  intros Hr He. apply (invariant_reachable p Hp) in Hr as [Hwf _ (_ & cs & Hcs & Hjs)].
  pose proof (wf_cnt p s Hwf) as [? _ _]. pose proof (wf_cps p s Hwf) as [? ? Hsome _ _ _].
  assert (uint32 (m_current_epoch s - 1) = m_current_epoch s - 1) as Hpred
    by (apply uint32_small; unfold is_uint32; lia).
  split.
  - rewrite ValidateVote_SUCCESS. cbn. setoid_rewrite IsVotable_SUCCESS. rewrite Hpred. split.
    + intros (Hauth & v & Hv & (cp & Hcp & Hn) & _ & Ht & _ & Hvot). rewrite Ht in Hcp.
      rewrite (wfv_address _ _ _ _ (wf_lookup p s a v Hwf Hv)) in Hn.
      split; [done|]. split; [done|]. split; [by eauto|]. intros cp' Hcp'. by simplify_eq.
    + intros (Ht & Hauth & (v & Hv & Hvot) & Hn). split; [done|]. exists v. rewrite Ht.
      rewrite (wfv_address _ _ _ _ (wf_lookup p s a v Hwf Hv)).
      destruct (Hsome (m_current_epoch s - 1)) as [cp Hcp]; [lia|].
      split; [done|]. split; [by eauto|]. split; [done|]. split; [done|]. by split; [exists cs|].
  - intros Ht Hauth [v Hv] Hn. destruct (Hsome (m_current_epoch s)) as [cp Hcp]; [lia|].
    unfold ValidateVote, IsVotable. cbn. rewrite Hauth, Hv, Ht, Hcp, Hpred. cbn.
    rewrite (wfv_address _ _ _ _ (wf_lookup p s a v Hwf Hv)).
    rewrite decide_False by auto. rewrite decide_False by auto. by rewrite decide_True by lia.
Qed.
End votes.

(** ** Accountable safety *)

(** The deposits in dynasty [d] of the finalizers in [A]. *)
Definition voting_weight (d : Z) (A : gset Z) (s : State) : Z :=
  map_sum (λ v, if decide (m_finalizer_address v ∈ A) then in_dynasty_weight d v else 0)
    (m_validators s).

(** Two votes that break one of the two slashing conditions. *)
Definition conflicting (source1 target1 source2 target2 : Z) : Prop :=
  target1 = target2 ∨ (target2 < target1 ∧ source1 < source2) ∨
  (target1 < target2 ∧ source2 < source1).

Section accountability.
Context `{!Crypto} (p : Params) (Hp : valid_params p).
Implicit Types (s : State) (A B : gset Z).

Lemma voting_weight_overlap s d A B :
  wf p s →
  voting_weight d A s + voting_weight d B s ≤ dynasty_total d s + voting_weight d (A ∩ B) s.
Proof.
  intros Hwf. unfold voting_weight, dynasty_total. rewrite <- !map_sum_add.
  apply map_sum_le. intros a v Hv.
  pose proof (wfv_deposit _ _ _ _ (wf_lookup p s a v Hwf Hv)) as [? _].
  assert (0 ≤ in_dynasty_weight d v) by (unfold in_dynasty_weight; case_match; lia).
  repeat case_decide; set_unfold; try lia; naive_solver.
Qed.

(** C3: if one set of finalizers with two thirds of a dynasty's deposits
    votes for one block and another such set votes for another one, with
    votes that conflict (same target epoch, or one link inside the other),
    then at least a third of the dynasty's deposits, up to rounding, belongs
    to finalizers that did both, and each of these that is not slashed yet
    can be slashed with its two votes. *)
Theorem conflicting_quorums_are_slashable s d A B hash1 hash2 source1 target1 source2 target2 :
  reachable p s → d ≤ m_current_dynasty s →
  hash1 ≠ hash2 → conflicting source1 target1 source2 target2 →
  2 * dynasty_total d s / 3 ≤ voting_weight d A s →
  2 * dynasty_total d s / 3 ≤ voting_weight d B s →
  dynasty_total d s ≤ 3 * voting_weight d (A ∩ B) s + 4 ∧
  ∀ a v, a ∈ A ∩ B → m_validators s !! a = Some v →
    IsInDynasty v d = true → m_is_slashed v = false →
    let vote hash source target := {|
      m_validator_address := a; m_target_hash := hash;
      m_source_epoch := source; m_target_epoch := target |} in
    IsSlashable s (vote hash1 source1 target1) (vote hash2 source2 target2) = SUCCESS.
Proof.
  intros Hr Hd Hh Hconf HA HB. apply (invariant_reachable p Hp) in Hr as [Hwf _ _]. split.
  - pose proof (voting_weight_overlap s d A B Hwf).
    pose proof (Z.mul_succ_div_gt (2 * dynasty_total d s) 3). lia.
  - intros a v _ Hv [Hst _]%IsInDynasty_spec Hsl vote. apply IsSlashable_SUCCESS. cbn.
    split; [|done]. exists v, v. do 3 (split; [done|]). split; [lia|done].
Qed.
End accountability.

(** ** Witnesses *)

Lemma finalization_never_reverts_witness :
  ∃ s', progress demo_joined_state s' ∧ m_current_epoch s' = 5.
Proof.
  assert (is_uint32 21) as H21 by done.
  destruct (outcome_check (InitializeEpoch demo_params demo_joined_state 21)
    (λ rs, bool_decide (m_current_epoch rs.2 = 5)))
    as ([r s'] & E & He%bool_decide_eq_true); [by vm_compute|].
  exists s'. split; [|exact He].
  apply (finalization_never_reverts demo_params demo_params_valid demo_joined_state s');
    [exact demo_joined_reachable|]. exact (step_epoch demo_params _ 21 r s' H21 E).
Defined.

Lemma vote_effect_witness :
  ∃ s' cp', ProcessVote demo_finalized_state (demo_vote 9 3 4) = Ok s' ∧
    m_checkpoints s' = <[4 := cp']> (m_checkpoints demo_finalized_state) ∧
    (m_is_finalized cp' = true).
Proof.
  assert (ValidateVote demo_finalized_state (demo_vote 9 3 4) = SUCCESS) as Hval by by vm_compute.
  destruct (lookup_check (m_checkpoints demo_finalized_state) 4 m_is_finalized)
    as (cp0 & Hcp0 & Hf0); [by vm_compute|].
  destruct (outcome_check (ProcessVote demo_finalized_state (demo_vote 9 3 4))
    (λ s, bool_decide (0 ≤ m_cur_dyn_deposits s ∧ 0 ≤ m_prev_dyn_deposits s)))
    as (s' & E & [Hc Hpr]%bool_decide_eq_true); [by vm_compute|].
  destruct (vote_effect demo_params demo_params_valid demo_finalized_state (demo_vote 9 3 4) s')
    as (v & cp & cp' & _ & Hcp & Hcp' & _ & _ & _ & _ & _ & Hfin);
    [exact demo_finalized_reachable|exact Hval|exact E|exact Hc|exact Hpr|].
  exists s', cp'. split; [exact E|]. split; [exact Hcp'|]. apply Hfin. left.
  change (m_checkpoints demo_finalized_state !! 4 = Some cp) in Hcp.
  rewrite Hcp0 in Hcp. injection Hcp as <-. exact Hf0.
Defined.

Lemma recommended_vote_is_valid_witness :
  ValidateVote demo_finalized_state (GetRecommendedVote demo_finalized_state 9) = SUCCESS.
Proof.
  assert (0 < m_current_epoch demo_finalized_state) as Hepoch by by vm_compute.
  assert (m_recommended_target_epoch demo_finalized_state =
    m_current_epoch demo_finalized_state - 1) as Htarget by by vm_compute.
  assert (IsValidatorAuthorized (m_admin_state demo_finalized_state) 9 = true) as Hauth
    by by vm_compute.
  destruct (lookup_check (m_validators demo_finalized_state) 9
    (IsFinalizerVoting demo_finalized_state)) as (v & Hv & Hvoting); [by vm_compute|].
  destruct (lookup_check (m_checkpoints demo_finalized_state)
    (m_current_epoch demo_finalized_state - 1) (λ cp, bool_decide (9 ∉ m_vote_set cp)))
    as (cp & Hcp & Hnew%bool_decide_eq_true); [by vm_compute|].
  apply (proj1 (recommended_vote_is_valid demo_params demo_params_valid demo_finalized_state 9
    demo_finalized_reachable Hepoch)).
  split; [exact Htarget|]. split; [exact Hauth|]. split; [exact (ex_intro _ v (conj Hv Hvoting))|].
  intros cp' Hcp'. rewrite Hcp in Hcp'. injection Hcp' as <-. exact Hnew.
Defined.

Lemma conflicting_quorums_are_slashable_witness :
  dynasty_total 3 demo_finalized_state
    ≤ 3 * voting_weight 3 ({[7; 8]} ∩ {[8; 9]}) demo_finalized_state + 4 ∧
  IsSlashable demo_finalized_state (demo_vote 8 3 4) (demo_conflicting_vote 8 3 4) = SUCCESS.
Proof.
  destruct (conflicting_quorums_are_slashable demo_params demo_params_valid demo_finalized_state
    3 {[7; 8]} {[8; 9]} 104 204 3 4 3 4) as [Hw Hs];
    [exact demo_finalized_reachable|by vm_compute|done|by left|by vm_compute|by vm_compute|].
  split; [exact Hw|].
  destruct (lookup_check (m_validators demo_finalized_state) 8
    (λ v, IsInDynasty v 3 && negb (m_is_slashed v))) as (v & Hv & Hin); [by vm_compute|].
  apply andb_true_iff in Hin as [Hin Hsl%negb_true_iff].
  exact (Hs 8 v ltac:(set_solver) Hv Hin Hsl).
Defined.
