(* ===== verification/FinalizationLifecycle.v ===== *)
(** * The life of a finalizer: deposit, logout, slashing, withdrawal *)
From S2P Require Import Prelude Ufp64 Admin Params FinalizationData FinalizationOps Accounting.
From S2P Require Import FinalizationInvariant FinalizationEpoch FinalizationSafety Scenario.

Section lifecycle.
Context `{!Crypto} (p : Params) (Hp : valid_params p).
Implicit Types s : State.

(** ** Deposit *)

(** Dividing by the scale factor and multiplying by it again loses less than
    one unit of the scaled deposit and one unit of the amount. *)
Lemma scale_roundtrip amount f :
  0 < f → 0 ≤ amount →
  amount - f / SCALE - 1 ≤ (amount * SCALE / f) * f / SCALE ≤ amount.
Proof.
  intros Hf Ha. set (q := amount * SCALE / f).
  pose proof (Z.mul_div_le (amount * SCALE) f Hf) as Hle. fold q in Hle.
  pose proof (Z.mul_succ_div_gt (amount * SCALE) f Hf) as Hgt. fold q in Hgt.
  pose proof (Z.mul_succ_div_gt f SCALE eq_refl) as Hs.
  split.
  - apply Z.div_le_lower_bound; [done|]. unfold SCALE in *. lia.
  - apply Z.div_le_upper_bound; [done|]. lia.
Qed.

(** C37: a processed deposit makes a new finalizer, unslashed and with no end,
    that joins two dynasties later; the deposit size the state reports for it
    is the amount paid, up to the rounding of the scale factor, and no other
    finalizer changes. *)
Theorem deposit_creates_finalizer s a amount s' :
  reachable p s → ValidateDeposit p s a amount = SUCCESS → is_int64 amount → 0 ≤ amount →
  ProcessDeposit s a amount = Ok s' →
  ∃ f v, m_deposit_scale_factor s !! m_current_epoch s = Some f ∧ 0 < f ∧
    m_validators s' = <[a := v]> (m_validators s) ∧
    m_start_dynasty v = m_current_dynasty s + 2 ∧ m_end_dynasty v = MAX_END_DYNASTY ∧
    m_is_slashed v = false ∧ ValidateDeposit p s' a amount ≠ SUCCESS ∧
    (amount * SCALE / f < 2 ^ 64 →
     ∃ size, GetDepositSize s' a = Ok size ∧ amount - f / SCALE - 1 ≤ size ≤ amount).
Proof.
  intros Hr Hval H64 Hpos Hpd. apply (invariant_reachable p Hp) in Hr as [Hwf _ _].
  pose proof (wf_dynasty_bound p s Hwf). pose proof (wf_epoch_range p s Hwf).
  apply ValidateDeposit_SUCCESS in Hval as (Hauth & Hnew & Hmin).
  apply ProcessDeposit_state in Hpd as (f & scaled & Hf & Hsc & ->); [|unfold is_uint32; lia|done].
  destruct (wft_scale _ _ _ (wf_tab p s Hwf) (m_current_epoch s)) as (f' & Hf' & Hf64); [lia|].
  simplify_eq. unfold is_int64, is_uint64 in *.
  assert (f ≠ 0) as Hf0 by (by intros ->).
  exists f, (Validator_new scaled (m_current_dynasty s + 2) a).
  split; [done|]. split; [lia|]. do 4 (split; [done|]). split.
  { intros (_ & Hn & _)%ValidateDeposit_SUCCESS. cbn in Hn. by rewrite lookup_insert_eq in Hn. }
  intros Hlt. rewrite uint64_small in Hsc by (unfold is_uint64; lia).
  rewrite div_to_uint_spec in Hsc by (done || unfold is_uint64; lia). injection Hsc as <-.
  assert (0 ≤ amount * SCALE / f) by (apply Z.div_pos; unfold SCALE; lia).
  rewrite uint64_small by (unfold is_uint64; lia).
  unfold GetDepositSize; cbn. rewrite lookup_insert_eq, Hf. cbn.
  rewrite mul_to_uint_spec by (unfold is_uint64; lia).
  pose proof (scale_roundtrip amount f ltac:(lia) Hpos) as Hrt. rewrite (Z.mul_comm f).
  exists (amount * SCALE / f * f / SCALE). split; [|done]. f_equal. apply uint64_small.
  unfold is_uint64. split; [|lia]. apply Z.div_pos; [nia|done].
Qed.

(** ** Logout *)

(** A processed logout leaves the finalizer in every dynasty before the
    logout delay is over and in none after it, and a finalizer that logged
    out (or was slashed) can not log out again in any reachable state. *)
Theorem logout_takes_effect_once s a :
  reachable p s →
  (∀ v, m_validators s !! a = Some v → m_end_dynasty v ≠ MAX_END_DYNASTY →
     ValidateLogout p s a ≠ SUCCESS) ∧
  (∀ s', ValidateLogout p s a = SUCCESS → ProcessLogout p s a = Ok s' →
     ∃ v v', m_validators s !! a = Some v ∧ m_validators s' = <[a := v']> (m_validators s) ∧
       m_deposit v' = m_deposit v ∧
       (∀ d, IsInDynasty v' d = true ↔
         m_start_dynasty v ≤ d < m_current_dynasty s + dynasty_logout_delay p) ∧
       ValidateLogout p s' a = LOGOUT_ALREADY_DONE).
Proof.
  intros Hr. apply (invariant_reachable p Hp) in Hr as [Hwf _ _].
  pose proof (GetEndDynasty_small p Hp s Hwf) as Hge. split.
  - intros v Hv Hne (w & Hw & _ & Hlt)%ValidateLogout_SUCCESS. simplify_eq.
    pose proof (wf_lookup p s a v Hwf Hv) as [_ _ _ _ [?|?]]; [done|lia].
  - intros s' (v & Hv & Hst & Hlt)%ValidateLogout_SUCCESS (v' & Hv' & ->)%ProcessLogout_state.
    simplify_eq. exists v, (logout_validator p s v). do 3 (split; [done|]). split.
    + intros d. rewrite IsInDynasty_spec. cbn. by rewrite Hge.
    + unfold ValidateLogout; cbn. rewrite lookup_insert_eq. cbn.
      rewrite decide_False by lia. by rewrite decide_True by done.
Qed.

(** ** Slashing *)

(** C38: a processed slashing marks the finalizer, keeps its deposit in the
    dynasties up to the current one and takes it out of every later one, and
    adds its deposit size to the slashed total of the epoch; in the
    resulting state it can not be slashed again. *)
Theorem slashing_takes_effect_once s vote1 vote2 s' :
  reachable p s → IsSlashable s vote1 vote2 = SUCCESS → ProcessSlash s vote1 vote2 = Ok s' →
  let a := m_validator_address vote1 in
  ∃ v v' size slashed,
    m_validators s !! a = Some v ∧ m_validators s' = <[a := v']> (m_validators s) ∧
    GetDepositSize s a = Ok size ∧ GetTotalSlashed s (m_current_epoch s) = Ok slashed ∧
    m_total_slashed s' =
      <[m_current_epoch s := int64 (slashed + int64 size)]> (m_total_slashed s) ∧
    m_is_slashed v' = true ∧ m_deposit v' = m_deposit v ∧
    (∀ d, d ≤ m_current_dynasty s → IsInDynasty v' d = IsInDynasty v d) ∧
    (∀ d, m_current_dynasty s < d → IsInDynasty v' d = false) ∧
    (∀ w1 w2, m_validator_address w1 = a → IsSlashable s' w1 w2 ≠ SUCCESS).
Proof.
  intros Hr ((v & v2 & Hv & _ & _ & Hst & _) & _)%IsSlashable_SUCCESS Hps. cbn zeta.
  apply (invariant_reachable p Hp) in Hr as [Hwf _ _]. pose proof (wf_dynasty_bound p s Hwf).
  apply ProcessSlash_state in Hps as (w & size & slashed & logout & Hv' & Hsize & Hslashed & ->); [|unfold is_uint32; lia].
  simplify_eq. exists v, (slashed_validator s v logout), size, slashed. do 5 (split; [done|]).
  assert (m_is_slashed (slashed_validator s v logout) = true) as Hsl
    by (unfold slashed_validator; by repeat case_decide).
  assert (m_start_dynasty (slashed_validator s v logout) = m_start_dynasty v) as Hss
    by (unfold slashed_validator; by repeat case_decide).
  assert (m_end_dynasty (slashed_validator s v logout) =
    Z.min (m_current_dynasty s + 1) (m_end_dynasty v)) as Hse
    by (unfold slashed_validator; repeat case_decide; cbn; lia).
  split; [done|]. split; [unfold slashed_validator; by repeat case_decide|].
  unfold IsInDynasty. rewrite Hss, Hse. split; [|split].
  - intros d Hd. f_equal. apply bool_decide_ext. lia.
  - intros d Hd. apply andb_false_iff. right. apply bool_decide_eq_false. lia.
  - intros w1 w2 Hw ((u & _ & Hu & _ & _ & _ & Hus) & _)%IsSlashable_SUCCESS. cbn in Hu.
    rewrite Hw, lookup_insert_eq in Hu. simplify_eq. congruence.
Qed.

(** ** Withdrawal *)

(** C39: a withdrawal that passes validation is by a finalizer whose last
    dynasty is over, so that it belongs to neither the current nor the
    previous dynasty, and comes at least the withdrawal delay after the
    dynasty following it began; processing it removes that finalizer and
    nobody else. *)
Theorem withdrawal_after_delay s a amount :
  reachable p s → ValidateWithdraw p s a amount = Ok SUCCESS →
  ∃ v e, m_validators s !! a = Some v ∧ IsFinalizerVoting s v = false ∧
    m_end_dynasty v < m_current_dynasty s ∧
    m_dynasty_start_epoch s !! (m_end_dynasty v + 1) = Some e ∧
    e + withdrawal_epoch_delay p ≤ m_current_epoch s ∧
    m_validators (ProcessWithdraw s a) = delete a (m_validators s).
Proof.
  intros Hr Hval. apply (invariant_reachable p Hp) in Hr as [Hwf _ _].
  pose proof (wf_epoch_range p s Hwf). pose proof (wf_dynasty_bound p s Hwf).
  open ValidateWithdraw in Hval. ok_inv Hval. case_decide; [by ok_inv Hval; subst|].
  clear Hval. destruct r0; [|done..]. open CalculateWithdrawAmount in Hr.
  destruct (m_validators s !! a) as [v|] eqn:Hv; [|discriminate Hr]. ok_inv Hr. exists v.
  destruct (CalculateWithdrawEpoch_spec p Hp s a v Hwf Hv) as [[_ Hw]|(Hlt & e & He & _ & Hw)];
    rewrite Hw in Hr0; injection Hr0 as <-.
  { rewrite decide_True in Hr; [discriminate Hr|unfold MAX_UINT32; lia]. }
  exists e. split; [done|]. destruct (decide (m_current_epoch s < _)); [discriminate Hr|].
  split; [|do 2 (split; [done|]); split; [lia|done]].
  pose proof (wf_lookup p s a v Hwf Hv) as [_ _ ? ? _].
  apply orb_false_iff. unfold IsInDynasty. rewrite uint32_small by (unfold is_uint32; lia).
  split; apply andb_false_iff; right; apply bool_decide_eq_false; lia.
Qed.

(** C40: the amount a withdrawal asks for is compared with the withdrawable
    amount to no effect.  In every reachable state and for every amount, a
    withdrawal passes validation exactly when the finalizer's last dynasty is
    over, the delay has passed and, if it was slashed, there were deposits
    when it logged out: the amount plays no part.  So whatever
    [CalculateWithdrawAmount] grants, which is nothing for a finalizer slashed
    in full, any larger amount passes too. *)
Theorem excessive_withdrawal_passes s a :
  reachable p s →
  (∀ requested, ValidateWithdraw p s a requested = Ok SUCCESS ↔
     ∃ v e, m_validators s !! a = Some v ∧ m_end_dynasty v < m_current_dynasty s ∧
       m_dynasty_start_epoch s !! (m_end_dynasty v + 1) = Some e ∧
       e + withdrawal_epoch_delay p ≤ m_current_epoch s ∧
       (m_is_slashed v = true → m_deposits_at_logout v ≠ 0)) ∧
  (∀ granted excess, CalculateWithdrawAmount p s a = Ok (SUCCESS, granted) → 0 < excess →
     ValidateWithdraw p s a (granted + excess) = Ok SUCCESS).
Proof.
  intros Hr. apply (invariant_reachable p Hp) in Hr as [Hwf _ _]. split.
  - intros requested. by apply ValidateWithdraw_SUCCESS.
  - intros granted excess Hg _. apply ValidateWithdraw_SUCCESS; [done..|].
    by eapply CalculateWithdrawAmount_may.
Qed.

End lifecycle.

(** ** Witnesses *)

Lemma deposit_creates_finalizer_witness :
  returns (ProcessDeposit demo_left_state 5 (3000 * UNIT)) ∧
  ∀ s', ProcessDeposit demo_left_state 5 (3000 * UNIT) = Ok s' →
  ∃ f v, m_deposit_scale_factor demo_left_state !! m_current_epoch demo_left_state = Some f ∧
    0 < f ∧ m_validators s' = <[5 := v]> (m_validators demo_left_state) ∧
    m_start_dynasty v = m_current_dynasty demo_left_state + 2 ∧
    m_end_dynasty v = MAX_END_DYNASTY ∧
    m_is_slashed v = false ∧ ValidateDeposit demo_params s' 5 (3000 * UNIT) ≠ SUCCESS ∧
    (3000 * UNIT * SCALE / f < 2 ^ 64 →
     ∃ size, GetDepositSize s' 5 = Ok size ∧ 3000 * UNIT - f / SCALE - 1 ≤ size ≤ 3000 * UNIT).
Proof.
  split; [eexists; vm_compute; reflexivity|].
  assert (is_int64 (3000 * UNIT)) as H64 by done. assert (0 ≤ 3000 * UNIT) as H0 by done.
  assert (ValidateDeposit demo_params demo_left_state 5 (3000 * UNIT) = SUCCESS) as Hval
    by by vm_compute.
  intros s' Hs'.
  exact (deposit_creates_finalizer demo_params demo_params_valid demo_left_state 5 (3000 * UNIT) s'
    demo_left_reachable Hval H64 H0 Hs').
Defined.

Lemma logout_takes_effect_once_witness :
  ValidateLogout demo_params demo_left_state 9 ≠ SUCCESS ∧
  ValidateLogout demo_params demo_finalized_state 9 = SUCCESS.
Proof.
  split; [|by vm_compute].
  destruct (lookup_check (m_validators demo_left_state) 9
    (λ v, bool_decide (m_end_dynasty v ≠ MAX_END_DYNASTY)))
    as (v & Hv & Hend%bool_decide_eq_true); [by vm_compute|].
  exact (proj1 (logout_takes_effect_once demo_params demo_params_valid demo_left_state 9
    demo_left_reachable) v Hv Hend).
Defined.

Lemma slashing_takes_effect_once_witness :
  let vote1 := demo_vote 8 3 4 in let vote2 := demo_conflicting_vote 8 3 4 in
  returns (ProcessSlash demo_finalized_state vote1 vote2) ∧
  ∀ s', ProcessSlash demo_finalized_state vote1 vote2 = Ok s' → IsSlashable s' vote2 vote1 ≠ SUCCESS.
Proof.
  split; [eexists; vm_compute; reflexivity|].
  assert (IsSlashable demo_finalized_state (demo_vote 8 3 4) (demo_conflicting_vote 8 3 4) = SUCCESS)
    as Hval by by vm_compute.
  intros s' Hs'.
  destruct (slashing_takes_effect_once demo_params demo_params_valid demo_finalized_state
    (demo_vote 8 3 4) (demo_conflicting_vote 8 3 4) s') as (? & ? & ? & ? & Hall);
    [exact demo_finalized_reachable|exact Hval|exact Hs'|].
  apply Hall. reflexivity.
Defined.

Lemma withdrawal_after_delay_witness :
  ∃ v e, m_validators demo_withdrawable_state !! 9 = Some v ∧
    IsFinalizerVoting demo_withdrawable_state v = false ∧
    m_end_dynasty v < m_current_dynasty demo_withdrawable_state ∧
    m_dynasty_start_epoch demo_withdrawable_state !! (m_end_dynasty v + 1) = Some e ∧
    e + withdrawal_epoch_delay demo_params ≤ m_current_epoch demo_withdrawable_state ∧
    m_validators (ProcessWithdraw demo_withdrawable_state 9) =
      delete 9 (m_validators demo_withdrawable_state).
Proof.
  apply (withdrawal_after_delay demo_params demo_params_valid _ _ 0);
    [exact demo_withdrawable_reachable|by vm_compute].
Defined.

(** A finalizer that left asks for one unit more than it is granted. *)
Lemma excessive_withdrawal_passes_witness :
  ∃ granted, 0 < granted ∧
    CalculateWithdrawAmount demo_params demo_withdrawable_state 9 = Ok (SUCCESS, granted) ∧
    ValidateWithdraw demo_params demo_withdrawable_state 9 (granted + 1) = Ok SUCCESS.
Proof.
  destruct (outcome_check (CalculateWithdrawAmount demo_params demo_withdrawable_state 9)
    (λ r, bool_decide (r.1 = SUCCESS ∧ 0 < r.2))) as ([res granted] & Hg & Hpos); [by vm_compute|].
  apply bool_decide_eq_true in Hpos as [Hres Hpos]. cbn in Hres. rewrite Hres in Hg.
  exists granted. split; [exact Hpos|]. split; [exact Hg|].
  exact (proj2 (excessive_withdrawal_passes demo_params demo_params_valid demo_withdrawable_state 9
    demo_withdrawable_reachable) granted 1 Hg eq_refl).
Defined.
