(* ===== verification/BlockCommits.v ===== *)
(** * A block against the state before it: src/src/validation.cpp,
    src/src/esperanza/finalizationstate.cpp

    The node checks all commits of a block against the state its parent left
    ([ContextualCheckBlockFinalizerCommits]) and then processes them one after
    the other ([ProcessNewTip]), each on the state the ones before it left.
    This file shows when the first is enough for the second: commits of
    different finalizers do not disturb each other, and the beginning of an
    epoch disturbs only votes. *)
From stdpp Require Import strings.
From S2P Require Import Prelude Serialize Ufp64 Admin Params FinalizationData FinalizationOps Accounting.
From S2P Require Import FinalizationInvariant FinalizationEpoch FinalizationSafety Scenario.
From S2P Require Import StateFormat Script Standard CommitScripts Transaction Coins Checks Commits.
From S2P Require Import VoteRecorder FinalizationProtocol.

(** The proofs look at the messages of commits, not at how they are found. *)
#[local] Opaque GetType ExtractVoteFromVoteSignature ExtractVotesFromSlashSignature ExtractValidatorAddress.

(** The finalizer a commit is about. *)
Definition commit_finalizer `{!Crypto} (tx : CTransaction) : option Z :=
  match GetType tx with
  | VOTE =>
      i ← vin tx !! 0%nat;
      found ← ExtractVoteFromVoteSignature (scriptSig i); Some (m_validator_address found.1)
  | SLASH =>
      i ← vin tx !! 0%nat;
      found ← ExtractVotesFromSlashSignature (scriptSig i); Some (m_validator_address found.1.1)
  | DEPOSIT | LOGOUT | WITHDRAW =>
      match ExtractValidatorAddress tx with Ok found => found | Raise _ => None end
  | COINBASE | REGULAR | ADMIN => None
  end.

(** ** What a finalizer does not notice *)

(** Nothing happened to finalizer [a] but that time went on. *)
Record undisturbed (a : Z) (s s' : State) : Prop := {
  un_validator : m_validators s' !! a = m_validators s !! a;
  un_epoch : m_current_epoch s ≤ m_current_epoch s';
  un_dynasty : m_current_dynasty s ≤ m_current_dynasty s';
  un_starts : ∀ d, d ≤ m_current_dynasty s →
    m_dynasty_start_epoch s' !! d = m_dynasty_start_epoch s !! d;
}.

(** Nothing happened to the votes finalizer [a] can cast either. *)
Record same_epoch (a : Z) (s s' : State) : Prop := {
  se_validator : m_validators s' !! a = m_validators s !! a;
  se_epoch : m_current_epoch s' = m_current_epoch s;
  se_dynasty : m_current_dynasty s' = m_current_dynasty s;
  se_starts : m_dynasty_start_epoch s' = m_dynasty_start_epoch s;
  se_factor : m_deposit_scale_factor s' = m_deposit_scale_factor s;
  se_hash : m_recommended_target_hash s' = m_recommended_target_hash s;
  se_checkpoints : ∀ e cp, m_checkpoints s !! e = Some cp → ∃ cp', m_checkpoints s' !! e = Some cp' ∧
    (m_is_justified cp = true → m_is_justified cp' = true) ∧ (a ∈ m_vote_set cp' → a ∈ m_vote_set cp);
}.

Lemma same_epoch_undisturbed a s s' : same_epoch a s s' → undisturbed a s s'.
Proof. intros [Hv He Hd Hs _ _ _]. split; [done|lia|lia|by rewrite Hs]. Qed.

#[export] Instance same_epoch_refl a : Reflexive (same_epoch a).
Proof. intros s. split; eauto. Qed.

#[export] Instance same_epoch_trans a : Transitive (same_epoch a).
Proof.
  intros s1 s2 s3 [? ? ? ? ? ? Hcps] [? ? ? ? ? ? Hcps']. split; try congruence. intros e cp Hcp.
  destruct (Hcps e cp Hcp) as (cp2 & Hcp2 & ? & ?). destruct (Hcps' e cp2 Hcp2) as (cp3 & ? & ? & ?).
  exists cp3. auto.
Qed.

(** A step that leaves the checkpoints alone and does nothing to [a]. *)
Lemma same_epoch_validator a s s' :
  m_validators s' !! a = m_validators s !! a →
  m_current_epoch s' = m_current_epoch s → m_current_dynasty s' = m_current_dynasty s →
  m_dynasty_start_epoch s' = m_dynasty_start_epoch s →
  m_deposit_scale_factor s' = m_deposit_scale_factor s →
  m_recommended_target_hash s' = m_recommended_target_hash s → m_checkpoints s' = m_checkpoints s →
  same_epoch a s s'.
Proof. intros ?????? Hcps. split; [done..|]. rewrite Hcps. eauto. Qed.

(** ** What processing a commit does not change *)

Section processing.
Context `{!Crypto, !Hashing} (garbage : bytes) (p : Params) (Hp : valid_params p).
Implicit Types s : State.

Lemma RegisterLastTx_same_epoch a b h s s' : a ≠ b →
  RegisterLastTx s b h = Ok s' → same_epoch a s s' ∧ m_admin_state s' = m_admin_state s.
Proof.
  intros Hne Hreg. open RegisterLastTx in Hreg. ok_inv Hreg. subst s'. split; [|done].
  by apply same_epoch_validator; [apply lookup_insert_ne|..].
Qed.

Lemma ProcessVote_same_epoch a v s s' : a ≠ m_validator_address v →
  ProcessVote s v = Ok s' → same_epoch a s s' ∧ m_admin_state s' = m_admin_state s.
Proof.
  intros Hne (w & cp & s1 & ct & pt & Hw & Hcp & Hrew & _ & _ & ->)%ProcessVote_state.
  set (cp1 := tally_vote s w v cp). set (b := _ && _ && _).
  assert (same_epoch a s s1 ∧ m_admin_state s1 = m_admin_state s ∧
    m_checkpoints s1 = m_checkpoints s) as (Hs1 & Had & Hcps).
  { unfold vote_rewarded in Hrew. case_decide; [|by subst].
    destruct Hrew as (reward & _ & ->). split; [|done].
    by apply same_epoch_validator; [apply lookup_insert_ne|..]. }
  split; [|rewrite <- Had; unfold vote_state; by repeat case_match].
  transitivity s1; [done|]. split; try (unfold vote_state; by repeat case_match).
  intros e c Hc. rewrite vote_state_checkpoints. destruct (decide (e = m_target_epoch v)) as [->|].
  - rewrite Hcps, Hcp in Hc. injection Hc as <-. rewrite lookup_insert_eq. eexists. split; [done|].
    destruct (vote_checkpoint_tally v cp1 b) as (-> & _).
    destruct (vote_checkpoint_status v cp1 b) as [Hj _]. split; [rewrite Hj; by left|].
    cbn. set_solver.
  - rewrite lookup_insert_ne by done. eauto.
Qed.

(** A valid commit of somebody else leaves a finalizer undisturbed. *)
Lemma processed_same_epoch a s tx s' :
  wf p s → commit_valid garbage p s tx → ProcessNewCommit garbage p s tx = Ok s' →
  commit_finalizer tx ≠ Some a →
  same_epoch a s s' ∧ (GetType tx ≠ ADMIN → m_admin_state s' = m_admin_state s).
Proof.
  intros Hwf Hc Hpr Hne. pose proof (wf_dynasty_bound p s Hwf).
  unfold commit_valid, ProcessNewCommit, commit_finalizer in *.
  destruct (GetType tx).
  - by injection Hpr as <-.
  - by injection Hpr as <-.
  - destruct Hc as (b & o & Hb & Ho & Hv). rewrite Hb in *. cbn in Hpr. rewrite Ho in Hpr. cbn in Hpr.
    apply ValidateDeposit_SUCCESS in Hv as (_ & Hn & _).
    apply bind_Ok in Hpr as (s1 & Hs1 & Hreg). assert (a ≠ b) as Hab by congruence.
    apply ProcessDeposit_state in Hs1 as (? & ? & _ & _ & ->); [|unfold is_uint32; lia|done].
    apply (RegisterLastTx_same_epoch a) in Hreg as [Hreg Had]; [|done]. split; [|by rewrite Had].
    etransitivity; [|exact Hreg]. by apply same_epoch_validator; [apply lookup_insert_ne|..].
  - destruct Hc as (i & v & sg & Hi & Hx & Hv). unfold vec_at in Hpr. rewrite Hi in *. cbn in *.
    rewrite Hx in *. cbn in *. apply bind_Ok in Hpr as (s1 & Hs1 & Hreg).
    assert (a ≠ m_validator_address v) as Hab by congruence.
    apply (ProcessVote_same_epoch a) in Hs1 as [Hs1 Had1]; [|done].
    apply (RegisterLastTx_same_epoch a) in Hreg as [Hreg Had]; [|done].
    split; [by transitivity s1|by rewrite Had].
  - destruct Hc as (b & Hb & Hv). rewrite Hb in *. cbn in Hpr.
    apply bind_Ok in Hpr as (s1 & Hs1 & Hreg). assert (a ≠ b) as Hab by congruence.
    apply ProcessLogout_state in Hs1 as (w & _ & ->).
    apply (RegisterLastTx_same_epoch a) in Hreg as [Hreg Had]; [|done]. split; [|by rewrite Had].
    etransitivity; [|exact Hreg]. by apply same_epoch_validator; [apply lookup_insert_ne|..].
  - destruct Hc as (i & v1 & sg1 & v2 & sg2 & Hi & Hx & Hv). unfold vec_at in Hpr. rewrite Hi in *.
    cbn in *. rewrite Hx in *. cbn in *. assert (a ≠ m_validator_address v1) as Hab by congruence.
    apply ProcessSlash_state in Hpr as (w & ? & ? & ? & _ & _ & _ & ->); [|unfold is_uint32; lia].
    split; [|done]. by apply same_epoch_validator; [apply lookup_insert_ne|..].
  - destruct Hc as (b & amount & Hb & _). rewrite Hb in *. cbn in Hpr. injection Hpr as <-.
    split; [|done]. apply same_epoch_validator; [apply lookup_delete_ne; congruence|done..].
  - destruct Hc as [l Hl]. rewrite Hl in Hpr. cbn in Hpr. injection Hpr as <-. split; [|done].
    split; eauto.
Qed.

(** For all of them together. *)
Lemma processed_epoch_kept s tx s' :
  wf p s → commit_valid garbage p s tx → ProcessNewCommit garbage p s tx = Ok s' →
  m_current_epoch s' = m_current_epoch s ∧ m_deposit_scale_factor s' = m_deposit_scale_factor s ∧
  (GetType tx ≠ ADMIN → m_admin_state s' = m_admin_state s).
Proof.
  intros Hwf Hc Hpr.
  destruct (processed_same_epoch (default 0 (commit_finalizer tx) + 1) s tx s' Hwf Hc Hpr) as [[] ?]; [|done].
  destruct (commit_finalizer tx); [cbn; intros [= ?]; lia|done].
Qed.
End processing.

(** ** What stays valid *)

Section persistence.
Context `{!Crypto, !Hashing} (garbage : bytes) (p : Params) (Hp : valid_params p).
Implicit Types s : State.

Lemma ValidateLogout_persists a s s' :
  wf p s → wf p s' → undisturbed a s s' → ValidateLogout p s a = SUCCESS → ValidateLogout p s' a = SUCCESS.
Proof.
  rewrite !ValidateLogout_SUCCESS. intros Hwf Hwf' [Hv _ Hd _] (v & Hl & Hst & Hend).
  exists v. rewrite Hv. split; [done|]. split; [lia|].
  pose proof (wf_lookup p s a v Hwf Hl) as [_ _ _ _ Hlog].
  rewrite (GetEndDynasty_small p Hp s) in Hend by done. rewrite (GetEndDynasty_small p Hp s') by done.
  pose proof (wf_dynasty_bound p s' Hwf'). pose proof (vp_logout p Hp).
  destruct Hlog as [-> |]; [unfold MAX_END_DYNASTY, MAX_UINT32; lia|lia].
Qed.

Lemma ValidateWithdraw_persists a amount s s' :
  wf p s → wf p s' → undisturbed a s s' →
  ValidateWithdraw p s a amount = Ok SUCCESS → ValidateWithdraw p s' a amount = Ok SUCCESS.
Proof.
  intros Hwf Hwf' [Hv He Hd Hs]. rewrite !ValidateWithdraw_SUCCESS by done.
  intros (v & e & Hl & Hlt & Hst & Hle & Hsl). exists v, e. rewrite Hv, Hs by lia.
  split; [done|]. split; [lia|]. split; [done|]. split; [lia|done].
Qed.

Lemma IsSlashable_persists v1 v2 s s' :
  wf p s → undisturbed (m_validator_address v1) s s' →
  IsSlashable s v1 v2 = SUCCESS → IsSlashable s' v1 v2 = SUCCESS.
Proof.
  rewrite !IsSlashable_SUCCESS. intros Hwf [Hv _ Hd _] ((w1 & w2 & H1 & H2 & Heq & Hst & Hsl) & Hh & Hc).
  rewrite (wfv_address _ _ _ _ (wf_lookup p s _ _ Hwf H1)),
    (wfv_address _ _ _ _ (wf_lookup p s _ _ Hwf H2)) in Heq.
  split; [|done]. exists w1, w1. rewrite <- Heq, Hv. do 3 (split; [done|]). split; [lia|done].
Qed.

Lemma ValidateVote_persists v s s' :
  wf p s → same_epoch (m_validator_address v) s s' → m_admin_state s' = m_admin_state s →
  ValidateVote s v = SUCCESS → ValidateVote s' v = SUCCESS.
Proof.
  rewrite !ValidateVote_SUCCESS. intros Hwf [Hv He Hd _ _ Hh Hcps] Had (Hau & w & Hw & Hvot).
  rewrite Had, Hv. split; [done|]. exists w. split; [done|]. apply IsVotable_SUCCESS in Hvot
    as ((cp & Hcp & Hn) & Hhash & Ht & (cs & Hcs & Hj) & Hvoting).
  apply IsVotable_SUCCESS. rewrite Hh, He. unfold IsFinalizerVoting. rewrite Hd.
  rewrite (wfv_address _ _ _ _ (wf_lookup p s _ _ Hwf Hw)) in *.
  destruct (Hcps _ _ Hcp) as (cp' & Hcp' & _ & Hset). destruct (Hcps _ _ Hcs) as (cs' & Hcs' & Hjust & _).
  split; [exists cp'; split; [done|auto]|]. do 2 (split; [done|]). split; [by eauto|done].
Qed.

(** A commit stays valid while its finalizer is left alone; a vote also needs
    the epoch to be the same, and a vote or a deposit the administrators'
    settings. *)
Lemma commit_persists s s' tx :
  wf p s → wf p s' →
  (∀ a, commit_finalizer tx = Some a → undisturbed a s s') →
  (GetType tx = VOTE → ∀ a, commit_finalizer tx = Some a → same_epoch a s s') →
  (GetType tx = VOTE ∨ GetType tx = DEPOSIT → m_admin_state s' = m_admin_state s) →
  commit_valid garbage p s tx → commit_valid garbage p s' tx.
Proof.
  intros Hwf Hwf' Hun Hse Had. unfold commit_valid, commit_finalizer in *.
  destruct (GetType tx); try done.
  - intros (a & o & Ha & Ho & Hv). exists a, o. rewrite Ha in Hun. do 2 (split; [done|]).
    rewrite ValidateDeposit_SUCCESS in *. rewrite Had by auto. by rewrite (un_validator _ _ _ (Hun a eq_refl)).
  - intros (i & v & sg & Hi & Hx & Hv). exists i, v, sg. do 2 (split; [done|]).
    rewrite Hi in Hse. cbn in Hse. rewrite Hx in Hse.
    exact (ValidateVote_persists v s s' Hwf (Hse eq_refl _ eq_refl) (Had (or_introl eq_refl)) Hv).
  - intros (a & Ha & Hv). exists a. rewrite Ha in Hun. split; [done|].
    exact (ValidateLogout_persists a s s' Hwf Hwf' (Hun a eq_refl) Hv).
  - intros (i & v1 & sg1 & v2 & sg2 & Hi & Hx & Hv). exists i, v1, sg1, v2, sg2. do 2 (split; [done|]).
    rewrite Hi in Hun. cbn in Hun. rewrite Hx in Hun.
    exact (IsSlashable_persists v1 v2 s s' Hwf (Hun _ eq_refl) Hv).
  - intros (a & amount & Ha & Hv). exists a, amount. rewrite Ha in Hun. split; [done|].
    exact (ValidateWithdraw_persists a amount s s' Hwf Hwf' (Hun a eq_refl) Hv).
Qed.

(** The beginning of an epoch disturbs nobody. *)
Lemma InitializeEpoch_undisturbed a s h r s' :
  invariant p s → is_uint32 h → InitializeEpoch p s h = Ok (r, s') →
  undisturbed a s s' ∧ m_admin_state s' = m_admin_state s.
Proof.
  intros [Hwf _ _] Hh Hin. pose proof (wf_cnt p s Hwf) as [He _ _]. pose proof (wf_dynasty_bound p s Hwf).
  apply InitializeEpoch_state in Hin as (Hstart & Hin); [|unfold is_uint32; lia].
  pose proof (epoch_start_bound p h (vp_length p Hp) Hh Hstart) as Hmax.
  destruct Hin as [(_ & _ & ->)|(Heq & cps & factor & slashed & reward & _ & _ & _ & Hin)]; [by split|].
  destruct Hin as [[_ ->]|(_ & s2 & s3 & H2 & H3 & ->)]; [split; [split; cbn; (done || lia)|done]|].
  apply IncrementDynasty_state in H2; [|unfold is_uint32; cbn; lia..].
  assert (m_current_epoch s2 = m_current_epoch s + 1 ∧ undisturbed a s s2 ∧
    m_admin_state s2 = m_admin_state s) as (He2 & Hun & Had).
  { destruct H2 as [[_ ->]|[_ ->]]; (split; [done|]; split; [|done]; split; cbn; try done; try lia).
    intros d Hd. by rewrite lookup_insert_ne by lia. }
  destruct Hun as [Hv Hle Hd Hs]. destruct (GetActiveFinalizers s2).
  - apply InstaJustify_state in H3 as (cp & _ & [->|[_ ->]]); [split; [by split|done]..|lia].
  - injection H3 as <-. split; [by split|done].
Qed.
End persistence.

(** ** Blocks *)

Section block.
Context `{!Crypto, !Hashing, !Signatures} (garbage : bytes).
Context (mempool : gmap Z CTransaction) (view : gmap COutPoint Coin).
Context (p : Params) (Hp : valid_params p).
Implicit Types s : State.

Lemma block_check_valid r vtx s tip r' tx :
  ContextualCheckBlockFinalizerCommits garbage mempool view p r vtx s tip = Ok (Accept r') →
  tx ∈ vtx → commit_valid garbage p s tx.
Proof.
  induction vtx as [|tx' vtx IH] in r |- *; intros Hc Hin; [by apply elem_of_nil in Hin|].
  cbn in Hc. apply check_bind_Accept in Hc as (r1 & Hh & Hc).
  apply elem_of_cons in Hin as [-> |Hin]; [|by eapply IH].
  destruct (IsFinalizerCommit tx') eqn:Hfc.
  - unfold CheckAndRecordCommit in Hh. apply check_bind_Accept in Hh as (r2 & _ & Hh).
    apply check_bind_Accept in Hh as ([] & Hh & _). by eapply checked_valid.
  - unfold IsFinalizerCommit, commit_valid in *. by destruct (GetType tx').
Qed.

Lemma deposit_without_factor s tx :
  GetType tx = DEPOSIT → commit_valid garbage p s tx →
  m_deposit_scale_factor s !! m_current_epoch s = Some 0 →
  ProcessNewCommit garbage p s tx = Raise UintError.
Proof.
  intros Ht Hc Hf. unfold commit_valid in Hc. rewrite Ht in Hc. destruct Hc as (a & o & Ha & Ho & _).
  rewrite (ProcessNewCommit_deposit garbage p s tx a o) by done.
  unfold ProcessDeposit, GetDepositScaleFactor, map_find_assert. cbn. by rewrite Hf.
Qed.

(** Administrator transactions do not share a block with what they may
    forbid. *)
Definition admin_apart (vtx : list CTransaction) : Prop :=
  ∀ tx1 tx2, tx1 ∈ vtx → tx2 ∈ vtx → GetType tx1 = ADMIN →
    GetType tx2 ≠ VOTE ∧ GetType tx2 ≠ DEPOSIT.

Lemma rest_valid s tx s' vtx :
  wf p s → wf p s' → ProcessNewCommit garbage p s tx = Ok s' →
  (∀ tx', tx' ∈ tx :: vtx → commit_valid garbage p s tx') →
  NoDup (omap commit_finalizer (tx :: vtx)) → admin_apart (tx :: vtx) →
  ∀ tx', tx' ∈ vtx → commit_valid garbage p s' tx'.
Proof.
  intros Hwf Hwf' Hpr Hval Hnd Had tx' Hin.
  pose proof (Hval tx ltac:(by left)) as Hhead.
  assert (∀ a, commit_finalizer tx' = Some a → commit_finalizer tx ≠ Some a) as Hne.
  { intros a Ha Hb. cbn in Hnd. rewrite Hb in Hnd. apply NoDup_cons in Hnd as [Hn _].
    apply Hn, list_elem_of_omap. eauto. }
  apply (commit_persists garbage p Hp s s'); [done..| | | |by apply Hval; right].
  - intros a Ha. apply same_epoch_undisturbed. eapply processed_same_epoch; eauto.
  - intros _ a Ha. eapply processed_same_epoch; eauto.
  - intros Ht. eapply processed_epoch_kept; eauto. intros Hadm.
    destruct (Had tx tx') as [? ?]; [by left|by right|done|]. tauto.
Qed.

Lemma valid_commits_processed s vtx :
  reachable p s → (∀ tx, tx ∈ vtx → commit_valid garbage p s tx) →
  NoDup (omap commit_finalizer vtx) → admin_apart vtx →
  (∃ s', process_commits garbage p s vtx = Ok s' ∧ reachable p s') ∨
  process_commits garbage p s vtx = Raise UintError ∧ (∃ tx, tx ∈ vtx ∧ GetType tx = DEPOSIT) ∧
    m_deposit_scale_factor s !! m_current_epoch s = Some 0.
Proof.
  induction vtx as [|tx vtx IH] in s |- *; intros Hr Hval Hnd Had; [by left; exists s|]. cbn.
  pose proof (Hval tx ltac:(by left)) as Hhead.
  destruct (decide (GetType tx = DEPOSIT ∧ m_deposit_scale_factor s !! m_current_epoch s = Some 0))
    as [[Ht Hf]|Hok].
  { right. rewrite deposit_without_factor by done. split; [done|]. split; [|done]. exists tx. by split; [left|]. }
  destruct (valid_commit_processed garbage p Hp s tx) as (s1 & Hs1 & Hr1); [done..|naive_solver|].
  pose proof (invariant_reachable p Hp s Hr) as [Hwf _ _].
  pose proof (invariant_reachable p Hp s1 Hr1) as [Hwf1 _ _].
  rewrite Hs1. cbn. destruct (IH s1) as [?|(Hraise & (tx' & Hin & Ht) & Hf)]; [done| | | |by left|].
  - exact (rest_valid s tx s1 vtx Hwf Hwf1 Hs1 Hval Hnd Had).
  - cbn in Hnd. destruct (commit_finalizer tx); [by apply NoDup_cons in Hnd as [_ ?]|done].
  - intros tx1 tx2 Hin1 Hin2. by apply Had; right.
  - right. split; [done|]. split; [exists tx'; by split; [right|]|].
    by destruct (processed_epoch_kept garbage p Hp s tx s1 Hwf Hhead Hs1) as (<- & <- & _).
Qed.

(** The start of a block: the commits that were valid before it still are, and
    outside the start of an epoch nothing happened. *)
Lemma begun_block s nHeight (vtx : list CTransaction) :
  reachable p s → is_uint32 nHeight → (∀ tx, tx ∈ vtx → commit_valid garbage p s tx) →
  (IsEpochStart p nHeight = true → ∀ tx, tx ∈ vtx → GetType tx ≠ VOTE) →
  (∃ s1, begin_block p s nHeight = Ok s1 ∧ reachable p s1 ∧
     (∀ tx, tx ∈ vtx → commit_valid garbage p s1 tx) ∧ (IsEpochStart p nHeight = false → s1 = s)) ∨
  begin_block p s nHeight = Raise UintError ∧ IsEpochStart p nHeight = true.
Proof.
  intros Hr Hh Hval Hvotes. unfold begin_block.
  destruct (IsEpochStart p nHeight) eqn:Hes; [|left; by exists s].
  pose proof (invariant_reachable p Hp s Hr) as Hinv. pose proof Hinv as [Hwf Hacc _].
  pose proof (InitializeEpoch_no_abort p Hp s nHeight Hwf Hacc Hh Hes) as Hno.
  destruct (InitializeEpoch p s nHeight) as [[res s1]|[]] eqn:Hin; try done; [left|by right].
  assert (reachable p s1) as Hr1 by (eapply step_reachable; [done|by eapply step_epoch]).
  pose proof (invariant_reachable p Hp s1 Hr1) as [Hwf1 _ _].
  exists s1. split; [done|]. split; [done|]. split; [|done]. intros tx Htx.
  assert (∀ a, undisturbed a s s1 ∧ m_admin_state s1 = m_admin_state s) as Hun
    by (intros a; by eapply (InitializeEpoch_undisturbed p Hp a)).
  apply (commit_persists garbage p Hp s s1); [done..| | | |by apply Hval].
  - intros a _. apply Hun.
  - intros Hv. by destruct (Hvotes eq_refl tx Htx).
  - intros _. apply (Hun 0).
Qed.

(** C4: processing a block refines the abstract machine.  From a reachable
    state, take a block that passes the node's check of its commits, all of
    them against the state before the block.  Let its commits be of different
    finalizers (two of the same one can break the state machine), let it have
    no votes at the start of an epoch, and no administrator transactions
    beside votes or deposits.  Then the block is processed to a complete and
    reachable state, which after the last block of an epoch recommends that
    block as the voting target.  The only other outcome is the exception of
    the fixed-point division, at the start of an epoch or with a deposit while
    the scale factor is zero; no assertion fails. *)
Theorem block_processing_refines r fs tip block_hash nHeight vtx r' :
  m_status fs = NEW → reachable p (state_data fs) → is_uint32 nHeight →
  ContextualCheckBlockFinalizerCommits garbage mempool view p r vtx (state_data fs) tip = Ok (Accept r') →
  NoDup (omap commit_finalizer vtx) →
  (IsEpochStart p nHeight = true → ∀ tx, tx ∈ vtx → GetType tx ≠ VOTE) →
  (∀ tx1 tx2, tx1 ∈ vtx → tx2 ∈ vtx → GetType tx1 = ADMIN → GetType tx2 ≠ VOTE ∧ GetType tx2 ≠ DEPOSIT) →
  (∃ fs', ProcessNewTip garbage p fs block_hash nHeight vtx = Ok fs' ∧
     reachable p (state_data fs') ∧ m_status fs' = COMPLETED ∧
     (IsCheckpoint p nHeight = true →
        m_recommended_target_hash (state_data fs') = block_hash ∧
        m_recommended_target_epoch (state_data fs') = GetEpoch p nHeight)) ∨
  ProcessNewTip garbage p fs block_hash nHeight vtx = Raise UintError ∧
    (IsEpochStart p nHeight = true ∨
     (∃ tx, tx ∈ vtx ∧ GetType tx = DEPOSIT) ∧
     m_deposit_scale_factor (state_data fs) !! m_current_epoch (state_data fs) = Some 0).
Proof.
  intros Hst Hr Hh Hc Hnd Hvotes Had.
  unfold ProcessNewTip, ProcessNewCommits. rewrite Hst, bool_decide_eq_true_2 by done.
  cbn [cpp_assert mbind outcome_bind].
  destruct (begun_block (state_data fs) nHeight vtx Hr Hh) as [(s1 & Hb & Hr1 & Hval & Hsame)|[Hb Hes]];
    [by intros; eapply block_check_valid|done| |rewrite Hb; by right; split; [|left]].
  rewrite Hb. cbn [mbind outcome_bind].
  destruct (valid_commits_processed s1 vtx Hr1 Hval Hnd Had) as [(s2 & -> & Hr2)|(-> & Hdep & Hf)];
    cbn [mbind outcome_bind].
  - left. eexists. split; [done|]. cbn. destruct (IsCheckpoint p nHeight); [|done].
    split; [|done]. eapply step_reachable; [done|]. apply step_target.
  - right. split; [done|]. destruct (IsEpochStart p nHeight); [by left|right].
    split; [done|]. by rewrite <- Hsame.
Qed.
End block.

#[local] Transparent GetType ExtractVoteFromVoteSignature ExtractVotesFromSlashSignature ExtractValidatorAddress.

(** ** Witnesses *)

#[local] Existing Instances commit_hashing commit_signatures.

(** A vote of one finalizer and a deposit of another in the last block of an
    epoch. *)
Lemma block_processing_refines_witness :
  let fs := {| state_data := demo_finalized_state; m_status := NEW |} in
  let vtx := [demo_vote_tx; demo_deposit_tx 1] in
  omap commit_finalizer vtx = [9; GetID demo_key] ∧
  ∃ fs', ProcessNewTip [] demo_params fs 500 25 vtx = Ok fs' ∧
    reachable demo_params (state_data fs') ∧ m_recommended_target_hash (state_data fs') = 500.
Proof.
  assert (is_uint32 25) as Hh by done.
  assert (NoDup [9; GetID demo_key]) as Hnd by (apply (bool_decide_unpack _); vm_compute; exact I).
  intros fs vtx.
  assert (omap commit_finalizer vtx = [9; GetID demo_key]) as Hfin by (vm_compute; reflexivity).
  split; [exact Hfin|].
  destruct (outcome_check (ContextualCheckBlockFinalizerCommits [] ∅ demo_view demo_params
    VoteRecorder_new vtx demo_finalized_state demo_finalized_state)
    (λ v, match v with Accept _ => true | Reject _ _ => false end)) as ([r'|] & Hc & Ha);
    [vm_compute; reflexivity| |discriminate Ha].
  destruct (block_processing_refines [] ∅ demo_view demo_params demo_params_valid VoteRecorder_new fs
    demo_finalized_state 500 25 vtx r') as [(fs' & Hfs & Hr & _ & Hck)|[_ Hbad]].
  - reflexivity.
  - exact demo_finalized_reachable.
  - exact Hh.
  - exact Hc.
  - rewrite Hfin. exact Hnd.
  - intros Hes. vm_compute in Hes. discriminate Hes.
  - intros tx1 tx2 [-> |[-> |[]%elem_of_nil]%elem_of_cons]%elem_of_cons _ Ht; vm_compute in Ht; discriminate Ht.
  - exists fs'. split; [exact Hfs|]. split; [exact Hr|]. apply Hck. vm_compute. reflexivity.
  - exfalso. destruct Hbad as [Hes|[_ Hf]]; [vm_compute in Hes; discriminate Hes|].
    vm_compute in Hf. discriminate Hf.
Defined.
